(* ===== verification/_CoqProject ===== *)
-Q . S2P
Prelude.v
GoStrings.v
Errors.v
Base64.v
Query.v
Utf8.v
JsonText.v
JsonBytes.v
Sha256.v
Inflate.v
Gzip.v
Cursor.v
Pagination.v
V1.v
Json.v
Bodies.v
ListQuery.v
World.v
Frame.v
Run.v
Cel.v
Types.v
Storage.v
GroupStore.v
UserStore.v
IssuerStore.v
ClientStore.v
Migrations.v
Migrate.v
Engine.v
Events.v
Http.v
GroupHandler.v
ResourceHandler.v
Server.v
Consistency.v
Jwt.v
Exchange.v
ExchangeSubject.v
ClientCredentials.v
Keys.v
UserInfoHandler.v
ReadBack.v
Walks.v
Strict.v
Wrapper.v
Responses.v
Swagger.v
Token.v
TokenEffects.v
Startup.v
Service.v
Program.v
Commands.v
