(* ===== verification/Prelude.v ===== *)
(** * A verification library for identity-api

    identity-api is an OAuth 2.0 token service and the management API of the
    identities behind it. It keeps groups, issuers, users and OAuth clients in a
    CockroachDB database, tells permissions-api who is a member of which group,
    exchanges the tokens of registered issuers for its own, and gives clients
    tokens for themselves. This library models the Go code under [src/] and
    proves what it promises.

    ** The parts, and how they interact

    A request of the management API is routed and bound by generated code, runs
    inside one database transaction that a middleware begins and ends, asks
    permissions-api for access, calls the storage engine, and publishes group
    events. A request of the token endpoint goes through the OAuth library to
    one of two grant handlers; the exchange begins and ends a transaction of its
    own. Both use the same engine.

    Basics, for all components:
    - Prelude: this header and lemmas on lists and numbers; GoStrings: strings
      as bytes with the functions of [strings] and [strconv]; Errors: error
      values, wrapping, [errors.Is] ([internal/types/errors.go] and the errors
      files of the packages), and [result], an outcome with error or panic;
    - Base64, Query, Sha256, Utf8, JsonText, JsonBytes, Inflate, Gzip: the parts
      of [encoding/base64], [net/url], [crypto/sha256], [unicode/utf8],
      [encoding/json], [compress/flate] and [compress/gzip] that the code calls:
      JSON values with their text, printed and parsed, maps of byte strings, and
      decompression.

    State and effects:
    - World: the tables [DB] of [internal/storage/migrations], the [World] (the
      committed tables, their past, the transactions, what permissions-api was
      asked and told, the response), the monad [M] of state, errors and panics,
      and the transaction of a context ([internal/storage/context.go]), with the
      statements that a commit runs again on the committed tables;
    - Frame: relations between the worlds before and after a computation, kept
      by every storage method at once (class [StoreRel], tactic [frame]);
    - Run: weakest preconditions (tactic [wp]) and [implements], the refinement
      of a pure specification inside an open transaction.

    Pagination:
    - Cursor ([internal/crdbx/cursor.go]), Pagination ([internal/crdbx/pagination.go],
      [template_values.go]), V1 (the collections of [pkg/api/v1], through the
      class [Paged]), ListQuery (the meaning of a paged query, and the walk of a
      client that follows the [next] cursors).

    Storage:
    - Cel ([internal/celutils]), Types ([internal/types]), Storage (what the
      services share: [helpers.go], rows), GroupStore ([groups.go]), UserStore
      ([userinfo.go]), IssuerStore ([issuer.go], [query.go], the seeding of
      [engine.go]), ClientStore ([oauth_client.go]), Engine (all methods as the
      steps of one relation, in any order and for any number of requests);
    - Migrations ([migrations/]: the statements of the six files as the type
      [ddl], executed on a catalog with rows, and the schema they lead to),
      Migrate ([migrate.go]: calls of [runMigrations] from several goroutines).

    The management API:
    - Events ([internal/events]: the interface as the class [EventService], the
      implementation as its instance), Http ([handler.go]: the transaction
      middleware, [rollbackAndReturnError], the response), GroupHandler and
      ResourceHandler (the 21 operations of [internal/api/httpsrv]), Server (the
      operations as one type [request] and [serve], a request from the
      transaction to the response), Consistency (sequences of requests), Strict
      and Wrapper (the generated [server.gen.go]: strict handlers, parameter
      binding, routes), Bodies (the structures of request bodies, decoded from
      JSON), Json and Responses (the bodies of responses and their schemas in
      [openapi-v1.yaml]), Swagger (the document embedded in
      [pkg/api/v1/types.gen.go], unpacked and read), UserInfoHandler
      ([internal/userinfo/handler.go]), ReadBack (what is stored, as it is then
      served), Walks (the pages of the list operations, from the first to the
      last).

    The token service:
    - Jwt (tokens, claims, access requests, the configuration of
      [internal/fositex/config.go]), Exchange ([internal/rfc8693],
      [internal/jwks]), ExchangeSubject (the transaction of an exchange),
      ClientCredentials ([internal/oauth2]), Keys (private keys of
      [internal/fositex/fosite.go] and [internal/routes/jwks.go]), Token (the
      provider, the token route and its audit: [fosite.go],
      [internal/routes/exchange.go], [internal/auditx]), TokenEffects (what a
      token request can do to the database), Startup ([NewOAuth2Config], the
      configuration that [cmd/serve.go] assembles, opening and seeding the
      engine), Service (the routes of the whole service, authentication in front
      of them, discovery).

    The whole program:
    - Program: [serve], which builds the server from the configuration (with the
      router of [internal/routes/routes.go] and the constructors), and
      [serve_any], the answer of that server to any HTTP request, whichever
      handler it is for; Commands: the commands and their flags ([main.go],
      [cmd/]).

    A definition has the name of the Go function or type it translates; a
    method's receiver is the file. Machine integers are [Z]; a width is written
    out where the code can leave it ([int64] in Startup, 32-bit words in Sha256).

    ** What the theorems show

    - The API: a request is atomic and its response agrees with the commit, up
      to a failing commit ([serve_outcome], [serve_responds_before_commit]), and
      it ends its transaction ([serve_ends_transaction]);
      every operation asks permissions-api about the right resource before it
      writes ([requests_guarded]); the members in the database and the
      relationships published stay in step over any sequence of requests
      ([memberships_synced]), except when publishing fails halfway
      ([replace_partial_publish]); HTTP requests are decoded to what they say
      ([serve_http_refines], [http_roundtrip]), authenticated
      ([api_authenticated], [exempt_exactly_token_service]) and answered as the
      API's document says, with its exceptions ([responses_conform]); the document
      that is embedded in the service is of the API it serves
      ([embedded_document]); what a request stores is what is then read
      ([api_reads_back]).
    - The program: from the start of [serve] on the schema always holds
      ([service_wf]), and whoever has no token of the service can do no more than
      add users ([unauthenticated_adds_users], [token_endpoint_adds_users]);
      [serve] is the only command that serves ([command_effects]).
    - Storage: under every interleaving of engine calls the committed tables are
      those that the committed transactions leave one after the other, of which
      none is lost and none that was rolled back is seen ([engine_serializable]);
      transactions live once ([engine_tx_life]); what is
      read outside of them is not protected
      ([concurrent_replacements_merge]); refinement of pure specifications by the services
      (the theorems named [_implements] and [_roundtrip], [ReplaceGroupMembers_exact],
      [UpdateIssuer_fields]), seeding ([seed_command_refines]).
    - The schema: the migrations keep all rows ([migrations_preserve]); the tables
      [DB] with [db_wf] are the schema they lead to, which every statement checks
      ([statements_check_schema]); any number of goroutines can run them
      ([runMigrations_concurrent]).
    - Pagination: a client that follows the cursors of any of the seven lists sees
      every identifier once ([listings_complete]), unless the limit exceeds the cap
      ([uncapped_limit_loses_rows]); quoting is free of injection; cursors round
      trip.
    - Tokens: a token is only issued for an authentic subject token or to an
      authenticated client ([token_endpoint_grants]), whatever other requests do
      meanwhile ([exchange_authenticated]);
      what it says ([issued_token_claims], [client_credentials_grant],
      [token_lifespan], [discovery_matches_tokens]) and who can verify it
      ([published_keys], [issued_tokens_verifiable]); users keep their
      identifiers ([exchange_identity], [exchange_stable],
      [StoreUserInfo_stable]), by which userinfo finds them
      ([userinfo_after_exchange]), and a failed exchange leaves nothing
      ([exchange_atomic]).

    Theorems hold for every environment, in which any statement, publication or
    outside call may fail, unless they assume [Reliable].

    ** What is outside, as parameters

    Code that is not in the repository is a type class, with a class of laws
    where a theorem relies on documented behaviour, and a concrete instance that
    satisfies them: [Env] (database faults, gidx, permissions-api), [Scan] (the
    order of rows without ORDER BY), [CEL], [Hasher], [JWT] and [Platform]
    (tokens, clock, signing), [KeyLibrary], [Fosite] and [FositeConfig], [Echo]
    (the default error handler, encoding faults), [EchoRouter], [Binding] (how
    echo chooses a decoder and oapi-codegen binds parameters), [URLs],
    [Database], [Platforms], [ApiMiddleware] and [Authentication] (the
    connections and the middleware of [serve], with the loader of OpenAPI
    documents), [Goose] (what a call of [goose.Up] does), [Viper].

    ** Fuel

    The recursions that are not structural have fuel. [parse_loop] of Query consumes a byte per
    step and gets the length of the query; [parse_value] of JsonText gets twice
    the length of the text, which [parse_fuel] shows to be enough; [hash_blocks] of Sha256 gets one unit
    per byte, and [hash_blocks_fuel] shows that more changes nothing; [walk] of
    ListQuery, the client that follows cursors, is given one more than the
    number of items, and [listings_complete] shows that it then ends with all of them;
    the loops of Inflate and Gzip get one unit per bit, code length or byte that
    is left to read, of which each round takes one: [inflate_returns] and
    [ReadFrom_returns] show that they always return.

    ** Limits of the model

    - A transaction reads a snapshot taken at its begin. It is committed when its
      statements, run again on the tables as they are at the commit, answer as
      they did, and then leaves there what they leave; otherwise it has to be
      restarted. That the server serializes in this sense is assumed; the theorems
      show what the engine makes of it. So commits come in the order in which the transactions are
      serialized; CockroachDB may choose another order for transactions that are
      open at the same time, and may refuse more commits, which is a fault here.
    - A handler runs to its end before the next one; what others do between its
      statements is covered for the calls of the engine (Engine) and for the key
      and the conditions of an exchange ([interrupted] of Exchange), whose other
      theorems are about an exchange that is not interrupted.
    - SQL is modelled by what each statement does to the tables, not parsed;
      the templates of paged queries are built as text and given a meaning.
    - The fosite session is filled in place; the model returns the request that
      holds it. Go's map iteration order is that of [map_to_list].
    - OpenAPI validation, permissions middleware and the verification of the
      service's own tokens are gates that let a request pass or answer it with
      an error; audit is transparent for the response.
    - Instants and durations are nanoseconds; the sum of an instant and a
      duration does not overflow.

    ** Not modelled

    - Parsing of command lines, configuration files and environment variables;
      of the configuration only the sections of OAuth and audit are read.
      Connections to NATS, logging and tracing.
    - Goose itself (its table of versions, its transactions), [InMemoryCRDB], the
      connection pool. The requests of the program are served on the schema that
      all the migrations lead to.
    - The validation of requests against the embedded document, which is the
      library's. Of JSON numbers the text is kept, not a value.
    - The structure [ErrorResponse] of [pkg/api/v1/errors.go], which nothing uses.
    - [internal/testingx] and the tests. *)
From stdpp Require Export base list strings gmap pretty sorting.
From Stdlib Require Export Ascii.

(** ** Tactics shared by the development *)

(** Split every [match] of the goal or of a hypothesis, remembering the
    equation, and discard the impossible branches. *)
Ltac split_matches :=
  repeat (case_match; simplify_eq/=; try done).

(** Destruct a boolean test into the proposition it decides. *)
Ltac case_bool b := destruct b eqn:?; simplify_eq/=; try done.

(** ** Lists *)

Section lists.
Context {A : Type} (P : A → Prop) `{∀ x, Decision (P x)}.

(** A filter that keeps everything. *)
Lemma filter_Forall_id (l : list A) : Forall P l → filter P l = l.
Proof.
  induction 1 as [|x l Hx _ IH]; [done|]. by rewrite filter_cons_True, IH.
Qed.

(** A filter that drops everything. *)
Lemma filter_Forall_nil (l : list A) : Forall (λ x, ¬ P x) l → filter P l = [].
Proof.
  induction 1 as [|x l Hx _ IH]; [done|]. by rewrite filter_cons_False, IH.
Qed.
End lists.

Lemma NoDup_fmap_filter {A B} (f : A → B) (P : A → Prop) `{∀ x, Decision (P x)} (l : list A) :
  NoDup (f <$> l) → NoDup (f <$> filter P l).
Proof.
  induction l as [|x l IH]; [done|]. rewrite fmap_cons, NoDup_cons. intros [Hni Hnd].
  rewrite filter_cons. case_decide; [|by apply IH].
  rewrite fmap_cons, NoDup_cons. split; [|by apply IH].
  intros (y & Hy & [_ Hin]%list_elem_of_filter)%list_elem_of_fmap.
  apply Hni. rewrite Hy. by apply list_elem_of_fmap_2.
Qed.

Lemma StronglySorted_mono {A} (R1 R2 : relation A) (l : list A) :
  (∀ x y, R1 x y → R2 x y) → StronglySorted R1 l → StronglySorted R2 l.
Proof.
  intros HR. induction 1 as [|x l _ IH Hx]; constructor; [done|].
  eapply Forall_impl; [done|]. intros y. apply HR.
Qed.

(** A decidable property of all numbers below a bound, by enumeration. *)
Lemma N_forall_below (k : nat) (P : N → bool) :
  forallb P (N.of_nat <$> seq 0 k) = true → ∀ n, (n < N.of_nat k)%N → P n = true.
Proof.
  intros H n Hn. rewrite forallb_forall in H. apply H.
  apply list_elem_of_In, list_elem_of_fmap. exists (N.to_nat n).
  rewrite N2Nat.id, elem_of_seq. split; [done|lia].
Qed.

(** Induction on a list two or three elements at a time, for the code's loops
    over pairs and the codec's groups. *)
Lemma list_ind2 {A} (P : list A → Prop) :
  P [] → (∀ a, P [a]) → (∀ a b l, P l → P (a :: b :: l)) → ∀ l, P l.
Proof.
  intros H0 H1 H2. fix IH 1. intros [|a [|b l]]; [exact H0|exact (H1 a)|].
  apply H2, IH.
Qed.

Lemma list_ind3 {A} (P : list A → Prop) :
  P [] → (∀ a, P [a]) → (∀ a b, P [a; b]) →
  (∀ a b c l, P l → P (a :: b :: c :: l)) → ∀ l, P l.
Proof.
  intros H0 H1 H2 H3. fix IH 1.
  intros [|a [|b [|c l]]]; [exact H0|exact (H1 a)|exact (H2 a b)|].
  apply H3, IH.
Qed.
