(* ===== verification/GoStrings.v ===== *)
(** Go's strings as byte strings, and the functions of the packages
    [strings], [strconv] and [slices] that identity-api calls.

    A Go string is a sequence of bytes: here a [string] of [ascii]. *)
From S2P Require Import Prelude.

(** The bytes of a string, and the string of some bytes. *)
Abbreviation bytes := (list ascii).
Abbreviation to_bytes := String.list_ascii_of_string.
Abbreviation of_bytes := String.string_of_list_ascii.

(** [strings.Join]. *)
Fixpoint Join (elems : list string) (sep : string) : string :=
  match elems with
  | [] => ""
  | [s] => s
  | s :: rest => s +:+ sep +:+ Join rest sep
  end.

(** [strings.ReplaceAll] of a one-byte [old]. *)
Fixpoint ReplaceAll (s : string) (old : ascii) (new : string) : string :=
  match s with
  | "" => ""
  | String c s => (if decide (c = old) then new else String c "") +:+ ReplaceAll s old new
  end%string.

(** [strings.Contains] of a one-byte substring. *)
Definition ContainsByte (s : bytes) (c : ascii) : bool := bool_decide (c ∈ s).

(** [strings.Cut] at a one-byte separator: before, after, found. *)
Fixpoint Cut (s : bytes) (sep : ascii) : bytes * bytes * bool :=
  match s with
  | [] => ([], [], false)
  | c :: s =>
    if decide (c = sep) then ([], s, true)
    else let '(b, a, f) := Cut s sep in (c :: b, a, f)
  end.

(** [strconv.Itoa]. *)
Definition Itoa (n : Z) : string := pretty n.

(** [strconv.Atoi] on a 64-bit platform: an optional sign and decimal digits,
    within the range of [int]. *)
Fixpoint digits_value (s : bytes) (acc : Z) : option Z :=
  match s with
  | [] => Some acc
  | c :: s =>
    let n := Z.of_N (N_of_ascii c) in
    if decide (48 ≤ n ≤ 57)%Z then digits_value s (10 * acc + (n - 48))%Z else None
  end.

Definition Atoi (s : string) : option Z :=
  let '(negative, digits) :=
    match to_bytes s with
    | "-"%char :: digits => (true, digits)
    | "+"%char :: digits => (false, digits)
    | digits => (false, digits)
    end in
  if decide (digits = []) then None
  else
    n ← digits_value digits 0;
    let n := if negative : bool then (- n)%Z else n in
    if decide (-2 ^ 63 ≤ n < 2 ^ 63)%Z then Some n else None.

Example Atoi_minus : Atoi "-42" = Some (-42)%Z.
Proof. reflexivity. Qed.
Example Atoi_range : Atoi "9223372036854775808" = None ∧ Atoi "9223372036854775807" = Some (2 ^ 63 - 1)%Z.
Proof. split; reflexivity. Qed.
Example Atoi_refuses : Atoi "" = None ∧ Atoi "+" = None ∧ Atoi "1_0" = None ∧ Atoi " 1" = None.
Proof. repeat split. Qed.

(** [slices.Contains] on strings. *)
Definition Contains (l : list string) (s : string) : bool := bool_decide (s ∈ l).

(** The byte with a given code. *)
Definition byte_of (n : N) : ascii := ascii_of_N n.

(** The length in bytes of the white space rune (package [unicode], [IsSpace])
    that [s] starts with, or 0. The runes above U+007F are recognised by their
    UTF-8 encoding; their first byte is never a continuation byte, so the
    match is at a rune boundary of any byte string. *)
Definition space_prefix (s : bytes) : nat :=
  match N_of_ascii <$> s with
  | c :: r =>
    if decide (c ∈ [9; 10; 11; 12; 13; 32]%N) then 1
    else match c, r with
    | 0xC2%N, c2 :: _ => if decide (c2 ∈ [0x85; 0xA0]%N) then 2 else 0
    | 0xE1%N, 0x9A%N :: 0x80%N :: _ => 3
    | 0xE2%N, 0x80%N :: c3 :: _ =>
      if decide ((0x80 ≤ c3 ∧ c3 ≤ 0x8A) ∨ c3 = 0xA8 ∨ c3 = 0xA9 ∨ c3 = 0xAF)%N
      then 3 else 0
    | 0xE2%N, 0x81%N :: 0x9F%N :: _ => 3
    | 0xE3%N, 0x80%N :: 0x80%N :: _ => 3
    | _, _ => 0
    end
  | [] => 0
  end.

(** The worker of [strings.Fields]: [cur] is the field being read (reversed),
    [skip] the bytes left of a white space rune already recognised. *)
Fixpoint fields_from (s : bytes) (skip : nat) (cur : bytes) : list string :=
  let flush rest := if decide (cur = []) then rest else of_bytes (reverse cur) :: rest in
  match s with
  | [] => flush []
  | c :: s' =>
    match skip with
    | S k => fields_from s' k cur
    | 0 =>
      match space_prefix s with
      | S k => flush (fields_from s' k [])
      | 0 => fields_from s' 0 (c :: cur)
      end
    end
  end.

(** [strings.Fields]. *)
Definition Fields (s : string) : list string := fields_from (to_bytes s) 0 [].

(** A string [Fields] keeps whole: not empty and without white space. *)
Fixpoint no_space (s : bytes) : bool :=
  match s with
  | [] => true
  | _ :: s' => bool_decide (space_prefix s = 0) && no_space s'
  end.
Definition is_field (s : string) : bool :=
  bool_decide (s ≠ "") && no_space (to_bytes s).

(** Bytewise order of strings, as [<] on Go strings and on the database's
    [VARCHAR] columns. *)
Definition str_le (s t : string) : Prop := String.leb s t = true.
Definition str_lt (s t : string) : Prop := String.ltb s t = true.
#[global] Instance str_le_dec : RelDecision str_le.
Proof. unfold str_le; intros s t; apply _. Defined.
#[global] Instance str_lt_dec : RelDecision str_lt.
Proof. unfold str_lt; intros s t; apply _. Defined.

(** ** Lemmas *)

Lemma to_of_bytes b : to_bytes (of_bytes b) = b.
Proof. apply String.list_ascii_of_string_of_list_ascii. Qed.

Lemma of_to_bytes s : of_bytes (to_bytes s) = s.
Proof. apply String.string_of_list_ascii_of_string. Qed.

Lemma of_bytes_nil_inv b : of_bytes b = "" → b = [].
Proof. by destruct b. Qed.

Lemma to_bytes_app s t : to_bytes (s +:+ t) = to_bytes s ++ to_bytes t.
Proof.
  induction s as [|c s IH]; [done|].
  change (String c s +:+ t) with (String c (s +:+ t)). simpl. by rewrite IH.
Qed.

Lemma length_to_bytes s : length (to_bytes s) = String.length s.
Proof. induction s as [|c s IH]; [done|]. simpl. by f_equal. Qed.

Lemma string_length_app s t : String.length (s +:+ t) = String.length s + String.length t.
Proof. by rewrite <-!length_to_bytes, to_bytes_app, length_app. Qed.

Lemma app_nonempty s t : s ≠ "" ∨ t ≠ "" → s +:+ t ≠ "".
Proof.
  intros Hst H%(f_equal String.length). rewrite string_length_app in H. simpl in H.
  destruct s, t; simpl in *; [by destruct Hst|lia..].
Qed.

Lemma Join_nonempty s l sep : s ≠ "" → Join (s :: l) sep ≠ "".
Proof. intros Hs. destruct l; [done|]. apply app_nonempty. auto. Qed.

Lemma to_bytes_inj s t : to_bytes s = to_bytes t → s = t.
Proof. intros H. by rewrite <-(of_to_bytes s), <-(of_to_bytes t), H. Qed.

Create Rewrite HintDb gostr.
#[export] Hint Rewrite to_of_bytes of_to_bytes : gostr.

(** [Cut] finds the first separator. *)
Lemma Cut_app b a sep : sep ∉ b → Cut (b ++ sep :: a) sep = (b, a, true).
Proof.
  induction b as [|c b IH]; intros Hs; simpl.
  - by rewrite decide_True.
  - apply not_elem_of_cons in Hs as [Hne Hs].
    rewrite decide_False by done. by rewrite IH.
Qed.

Lemma Cut_none b sep : sep ∉ b → Cut b sep = (b, [], false).
Proof.
  induction b as [|c b IH]; intros Hs; simpl; [done|].
  apply not_elem_of_cons in Hs as [Hne Hs].
  rewrite decide_False by done. by rewrite IH.
Qed.

(** The rest after a [Cut] is shorter: the measure of [ParseQuery]'s loop. *)
Lemma Cut_length s sep b a f :
  s ≠ [] → Cut s sep = (b, a, f) → length a < length s.
Proof.
  revert b a f. induction s as [|c s IH]; intros b a f Hne; [done|].
  simpl. case_decide; [intros; simplify_eq; lia|].
  destruct (Cut s sep) as [[b' a'] f'] eqn:E. intros; simplify_eq.
  destruct s as [|c' s']; [simpl in E; simplify_eq; simpl; lia|].
  specialize (IH b' a f ltac:(done) eq_refl). simpl in *; lia.
Qed.

(** *** The order of strings *)

Lemma compare_refl s : String.compare s s = Eq.
Proof.
  induction s as [|c s IH]; simpl; [done|].
  unfold Ascii.compare. by rewrite N.compare_refl.
Qed.

Lemma ascii_compare_lt_trans a b c :
  Ascii.compare a b = Lt → Ascii.compare b c = Lt → Ascii.compare a c = Lt.
Proof. unfold Ascii.compare. rewrite !N.compare_lt_iff. lia. Qed.

Lemma ascii_compare_refl a : Ascii.compare a a = Eq.
Proof. unfold Ascii.compare. apply N.compare_refl. Qed.

Lemma compare_lt_trans s t u :
  String.compare s t = Lt → String.compare t u = Lt → String.compare s u = Lt.
Proof.
  revert t u. induction s as [|a s IH]; intros [|b t] [|c u]; simpl; try done.
  destruct (Ascii.compare a b) eqn:Eab; try done;
    destruct (Ascii.compare b c) eqn:Ebc; try done; intros Hst Htu.
  - apply Ascii.compare_eq_iff in Eab as ->. rewrite Ebc. eauto.
  - apply Ascii.compare_eq_iff in Eab as ->. by rewrite Ebc.
  - apply Ascii.compare_eq_iff in Ebc as ->. by rewrite Eab.
  - by rewrite (ascii_compare_lt_trans _ _ _ Eab Ebc).
Qed.

Lemma str_lt_compare s t : str_lt s t ↔ String.compare s t = Lt.
Proof. unfold str_lt, String.ltb. by destruct (String.compare s t). Qed.

Lemma str_le_compare s t : str_le s t ↔ String.compare s t ≠ Gt.
Proof. unfold str_le, String.leb. by destruct (String.compare s t). Qed.

Lemma str_le_lt_or_eq s t : str_le s t ↔ str_lt s t ∨ s = t.
Proof.
  rewrite str_le_compare, str_lt_compare. split.
  - destruct (String.compare s t) eqn:E; try done; [|by left].
    intros _. right. by apply String.compare_eq_iff.
  - intros [->| ->]; [done|]. by rewrite compare_refl.
Qed.

#[global] Instance str_lt_irrefl : Irreflexive str_lt.
Proof. intros s. red. rewrite str_lt_compare, compare_refl. done. Qed.
#[global] Instance str_lt_trans : Transitive str_lt.
Proof. intros s t u. rewrite !str_lt_compare. apply compare_lt_trans. Qed.

#[global] Instance str_le_trans : Transitive str_le.
Proof.
  intros s t u. rewrite !str_le_lt_or_eq.
  intros [Hst| ->] [Htu| ->]; eauto. left. by trans t.
Qed.

#[global] Instance str_le_total : Total str_le.
Proof.
  intros s t. rewrite !str_le_compare, (String.compare_antisym t s).
  destruct (String.compare s t); simpl; auto.
Qed.

Lemma str_lt_not_le s t : str_lt s t ↔ ¬ str_le t s.
Proof.
  rewrite str_lt_compare, str_le_compare, (String.compare_antisym s t).
  destruct (String.compare t s); simpl; intuition congruence.
Qed.

#[global] Instance str_le_antisymm : AntiSymm (=) str_le.
Proof.
  intros s t Hst Hts. apply str_le_lt_or_eq in Hst as [Hlt|]; [|done].
  by apply str_lt_not_le in Hlt.
Qed.

(** *** White space *)

Lemma space_prefix_app s rest :
  s ≠ [] → space_prefix (s ++ " "%char :: rest) = space_prefix s.
Proof.
  destruct s as [|c r]; [done|]. intros _. unfold space_prefix.
  change ((c :: r) ++ " "%char :: rest) with (c :: (r ++ " "%char :: rest)).
  rewrite !fmap_cons. case_decide; [done|].
  destruct r as [|c1 [|c2 r]]; cbn [app fmap list_fmap]; repeat case_match; simplify_eq; done.
Qed.

Lemma space_prefix_le s : space_prefix s ≤ length s.
Proof.
  destruct s as [|c r]; [done|]. unfold space_prefix. rewrite fmap_cons.
  case_decide; [simpl; lia|].
  destruct r as [|c1 [|c2 r]]; cbn [fmap list_fmap]; repeat case_match; simplify_eq/=; lia.
Qed.

(** A separator ends the field before it. *)
Lemma fields_from_app s rest skip cur :
  skip ≤ length s →
  fields_from (s ++ " "%char :: rest) skip cur = fields_from s skip cur ++ fields_from rest 0 [].
Proof.
  revert skip cur. induction s as [|c s IH]; intros skip cur Hskip.
  - simpl in Hskip. assert (skip = 0) as -> by lia. simpl. by case_decide.
  - destruct skip as [|k]; simpl in *; [|apply IH; lia].
    pose proof (space_prefix_app (c :: s) rest ltac:(done)) as Hsp. simpl app in Hsp. rewrite Hsp.
    pose proof (space_prefix_le (c :: s)) as Hle. simpl in Hle.
    destruct (space_prefix (c :: s)) as [|k]; [apply IH; lia|].
    rewrite IH by lia. by case_decide.
Qed.

(** [Fields] of strings joined by spaces: the fields of each. *)
Lemma Fields_Join l : Fields (Join l " ") = l ≫= Fields.
Proof.
  induction l as [|s l IH]; [done|]. rewrite bind_cons, <-IH.
  destruct l as [|s' l]; [by rewrite app_nil_r|].
  unfold Fields. change (Join (s :: s' :: l) " ") with (s +:+ " " +:+ Join (s' :: l) " ").
  rewrite to_bytes_app, to_bytes_app.
  apply (fields_from_app (to_bytes s) (to_bytes (Join (s' :: l) " "))). lia.
Qed.

Lemma fields_from_no_space s cur :
  no_space s = true → reverse cur ++ s ≠ [] →
  fields_from s 0 cur = [of_bytes (reverse cur ++ s)].
Proof.
  revert cur. induction s as [|c s IH]; intros cur Hs Hne.
  - rewrite app_nil_r in *. cbn [fields_from]. rewrite decide_False; [reflexivity|]. by intros ->.
  - apply andb_true_iff in Hs as [Hc%bool_decide_eq_true Hs]. simpl fields_from. rewrite Hc, IH; [|done|].
    + by rewrite reverse_cons, <-app_assoc.
    + rewrite reverse_cons. destruct (reverse cur); discriminate.
Qed.

Lemma Fields_is_field s : is_field s = true → Fields s = [s].
Proof.
  intros [Hne%bool_decide_eq_true Hs]%andb_true_iff. unfold Fields.
  rewrite fields_from_no_space; [|done|].
  - by rewrite reverse_nil, app_nil_l, of_to_bytes.
  - rewrite reverse_nil. by destruct s.
Qed.

Lemma Fields_words l : Forall is_field l → l ≫= Fields = l.
Proof.
  induction 1 as [|a l Ha _ IH]; [done|].
  rewrite bind_cons, IH, Fields_is_field; [done|]. by apply Is_true_true.
Qed.
