(* ===== verification/Errors.v ===== *)
(** Go's [error] values as identity-api builds, wraps and tests them:
    [internal/types/errors.go], [internal/storage/errors.go],
    [internal/celutils/errors.go], [internal/rfc8693/errors.go],
    [internal/api/httpsrv/errors.go], and the outcome of a call. *)
From S2P Require Import Prelude GoStrings.

(** The package-level error values that the code compares errors with. Their
    identity is what [==] and [errors.Is] test, so each is a constructor. *)
Inductive sentinel : Type :=
  (* internal/types *)
  | ErrNotFound | ErrInvalidArgument | ErrorIssuerNotFound | ErrUserInfoNotFound
  | ErrFetchUserInfo | ErrInvalidUserInfo | ErrOAuthClientNotFound
  | ErrGroupNotFound | ErrGroupExists | ErrGroupNameEmpty
  | ErrGroupMemberNotFound | ErrInvalidCEL
  (* internal/storage *)
  | ErrorMissingContextTx | ErrorInvalidContextTx | errMissingClaim | errInvalidClaim
  (* internal/crdbx *)
  | ErrInvalidPaginationCursor
  (* internal/rfc8693, internal/fositex *)
  | ErrMissingSub | ErrMissingIss | ErrInvalidClaimCondition
  | ErrJWKSURIProviderNotDefined | ErrInvalidKey
  (* internal/api/httpsrv *)
  | ErrDBRollbackFailed
  (* database/sql *)
  | ErrNoRows | ErrTxDone
  (* permissions-api *)
  | ErrPermissionDenied.

#[global] Instance sentinel_eq_dec : EqDecision sentinel.
Proof. solve_decision. Defined.

(** The OAuth 2.0 errors of fosite that the handlers return. *)
Inductive rfc6749 : Type :=
  | ErrInvalidRequest | ErrServerError | ErrInvalidGrant | ErrUnknownRequest.

#[global] Instance rfc6749_eq_dec : EqDecision rfc6749.
Proof. solve_decision. Defined.

(** An error value: the dynamic types the code creates or inspects. [Errorf]
    is [fmt.Errorf] with one [%w] verb (its text first), [Errorf2] with two;
    [ExtError] is an error of code outside the repository, of which only the
    text is known. *)
Inductive error : Type :=
  | Sentinel (s : sentinel)
  | Errorf (text : string) (wrapped : error)
  | Errorf2 (text : string) (wrapped1 wrapped2 : error)
  | PQError (code message : string)
  | ErrorCELParse (inner : error)
  | ErrorCELEval (inner : error)
  | ErrorWithStatus (status : Z) (message : string)
  | HTTPError (code : Z) (message : string)
  | HTTPErrorOf (code : Z) (message : error)
  | SetInternal (e : error) (internal : error)
  | ErrorInvalidTokenRequest (issuer subject : string)
  | RFC6749 (base : rfc6749) (hint : string)
  | RFC6749Wrap (base : rfc6749) (hint : string) (cause : error)
  | ExtError (text : string).

Coercion Sentinel : sentinel >-> error.

(** The error that a package-level [fmt.Errorf("%w: ...", e)] value wraps. *)
Definition sentinel_wraps (s : sentinel) : option sentinel :=
  match s with
  | ErrGroupNotFound | ErrGroupMemberNotFound => Some ErrNotFound
  | ErrGroupExists | ErrGroupNameEmpty | ErrInvalidCEL => Some ErrInvalidArgument
  | _ => None
  end.

(** [errors.Is(e, t)] for a package-level [t]. *)
Fixpoint Is (e : error) (t : sentinel) : bool :=
  match e with
  | Sentinel s =>
    bool_decide (s = t) ||
    match sentinel_wraps s with Some s' => bool_decide (s' = t) | None => false end
  | Errorf _ w | ErrorCELParse w | ErrorCELEval w | RFC6749Wrap _ _ w => Is w t
  | SetInternal _ w => Is w t
  | Errorf2 _ w1 w2 => Is w1 t || Is w2 t
  | _ => false
  end.

(** [err == t], as in [switch err { case t: ... }]. *)
Definition is_sentinel (e : error) (t : sentinel) : bool :=
  match e with Sentinel s => bool_decide (s = t) | _ => false end.

(** [isPQError] of [internal/storage/errors.go]: a type assertion, which does
    not look into wrapped errors. *)
Definition isPQError (e : error) : option (string * string) :=
  match e with PQError code msg => Some (code, msg) | _ => None end.

Definition pqErrDuplicateKey : string := "23505".

Definition isPQDuplicateKeyError (e : error) : bool :=
  match isPQError e with
  | None => false
  | Some (code, _) => bool_decide (code = pqErrDuplicateKey)
  end.

(** The texts of the package-level errors. *)
Definition sentinel_text (s : sentinel) : string :=
  match s with
  | ErrNotFound => "not found"
  | ErrInvalidArgument => "invalid argument"
  | ErrorIssuerNotFound => "issuer not found"
  | ErrUserInfoNotFound => "user info does not exist"
  | ErrFetchUserInfo => "could not fetch user info"
  | ErrInvalidUserInfo => "failed to store user info"
  | ErrOAuthClientNotFound => "oauth client does not exist"
  | ErrGroupNotFound => "not found: group not found"
  | ErrGroupExists => "invalid argument: group already exists"
  | ErrGroupNameEmpty => "invalid argument: group name is empty"
  | ErrGroupMemberNotFound => "not found: group member not found"
  | ErrInvalidCEL => "invalid argument: invalid CEL expression"
  | ErrorMissingContextTx => "no transaction provided in context"
  | ErrorInvalidContextTx => "invalid type for transaction context"
  | errMissingClaim => "missing required claim"
  | errInvalidClaim => "invalid claim value"
  | ErrInvalidPaginationCursor => "invalid pagination cursor"
  | ErrMissingSub => "missing required claim 'sub'"
  | ErrMissingIss => "missing required claim 'iss'"
  | ErrInvalidClaimCondition => "invalid claim condition expression"
  | ErrJWKSURIProviderNotDefined => "no issuer JWKS URI provider defined"
  | ErrInvalidKey => "invalid key"
  | ErrDBRollbackFailed => "failed to rollback database transaction"
  | ErrNoRows => "sql: no rows in result set"
  | ErrTxDone => "sql: transaction has already been committed or rolled back"
  | ErrPermissionDenied => "permission denied"
  end.

Definition rfc6749_name (b : rfc6749) : string :=
  match b with
  | ErrInvalidRequest => "invalid_request"
  | ErrServerError => "server_error"
  | ErrInvalidGrant => "invalid_grant"
  | ErrUnknownRequest => "error"
  end.

(** [err.Error()]. *)
Fixpoint Error (e : error) : string :=
  match e with
  | Sentinel s => sentinel_text s
  | Errorf text _ | Errorf2 text _ _ => text
  | PQError _ msg => "pq: " +:+ msg
  | ErrorCELParse _ => "error parsing CEL expression"
  | ErrorCELEval _ => "error evaluating CEL expression"
  | ErrorWithStatus _ msg => msg
  | HTTPError code msg => "code=" +:+ Itoa code +:+ ", message=" +:+ msg
  | HTTPErrorOf code m => "code=" +:+ Itoa code +:+ ", message=" +:+ Error m
  | SetInternal e i => Error e +:+ ", internal=" +:+ Error i
  | ErrorInvalidTokenRequest iss sub =>
    "invalid access request for subject map[issuer:" +:+ iss +:+ " subject:" +:+ sub +:+ "]"
  | RFC6749 b _ | RFC6749Wrap b _ _ => rfc6749_name b
  | ExtError t => t
  end.

(** [fmt.Errorf("%w: text", e)]. *)
Definition wrapf (e : error) (text : string) : error :=
  Errorf (Error e +:+ ": " +:+ text) e.

(** [errors.As(err, &tokErr)] for [types.ErrorInvalidTokenRequest]. *)
Fixpoint AsInvalidTokenRequest (e : error) : option (string * string) :=
  match e with
  | ErrorInvalidTokenRequest iss sub => Some (iss, sub)
  | Errorf _ w | ErrorCELParse w | ErrorCELEval w | RFC6749Wrap _ _ w
  | SetInternal _ w => AsInvalidTokenRequest w
  | Errorf2 _ w1 w2 =>
    match AsInvalidTokenRequest w1 with
    | Some r => Some r
    | None => AsInvalidTokenRequest w2
    end
  | _ => None
  end.

(** [permissionsError] of [internal/api/httpsrv/errors.go]. *)
Definition permissionsError (e : error) : error :=
  if Is e ErrPermissionDenied then HTTPErrorOf 403 e else e.

(** [errorNotFound] of the same file. *)
Definition errorNotFound : error := ErrorWithStatus 404 "not found".

(** The outcome of a Go call that returns a value and an error; a panic
    unwinds every frame (no function of the repository recovers). *)
Inductive result (A : Type) : Type :=
  | Ok (a : A)
  | Err (e : error)
  | Panic (what : string).
Arguments Ok {_} _.
Arguments Err {_} _.
Arguments Panic {_} _.

Definition is_Ok {A} (r : result A) : bool := match r with Ok _ => true | _ => false end.

#[global] Instance result_ret : MRet result := @Ok.
#[global] Instance result_bind : MBind result := λ A B f r,
  match r with Ok a => f a | Err e => Err e | Panic s => Panic s end.
#[global] Instance result_fmap : FMap result := λ A B f r,
  match r with Ok a => Ok (f a) | Err e => Err e | Panic s => Panic s end.

(** The loop [for i, x := range l { v, err := f(x); if err != nil { return
    nil, err }; out[i] = v }]. *)
Fixpoint result_map {A B} (f : A → result B) (l : list A) : result (list B) :=
  match l with
  | [] => Ok []
  | x :: l => y ← f x; ys ← result_map f l; Ok (y :: ys)
  end.

(** ** Lemmas *)

Lemma is_sentinel_spec e t : is_sentinel e t = true ↔ e = Sentinel t.
Proof.
  destruct e; simpl; try (split; intros; discriminate).
  rewrite bool_decide_eq_true. split; congruence.
Qed.

Lemma is_sentinel_Is e t : is_sentinel e t = true → Is e t = true.
Proof. intros ->%is_sentinel_spec. simpl. by rewrite bool_decide_true. Qed.

Lemma wrapf_Is e text t : Is (wrapf e text) t = Is e t.
Proof. done. Qed.

Lemma result_bind_Ok {A B} (r : result A) (f : A → result B) b :
  r ≫= f = Ok b ↔ ∃ a, r = Ok a ∧ f a = Ok b.
Proof.
  destruct r; simpl; (split; [intros ?|intros (? & [=] & ?)]); subst; eauto; done.
Qed.

Lemma result_map_Ok {A B} (f : A → result B) l k :
  result_map f l = Ok k ↔ Forall2 (λ x y, f x = Ok y) l k.
Proof.
  revert k. induction l as [|x l IH]; intros k; simpl.
  - split; [intros; by simplify_eq|by intros ->%Forall2_nil_inv_l].
  - split.
    + intros (y & Hy & (ys & Hys%IH & ?)%result_bind_Ok)%result_bind_Ok.
      simplify_eq. by constructor.
    + intros (y & ys & Hy & Hys%IH & ->)%Forall2_cons_inv_l.
      by rewrite Hy; simpl; rewrite Hys.
Qed.

Lemma result_map_length {A B} (f : A → result B) l k :
  result_map f l = Ok k → length k = length l.
Proof. intros H%result_map_Ok. symmetry. by eapply Forall2_length. Qed.

Lemma result_map_pure {A B} (f : A → result B) (g : A → B) l :
  (∀ x, f x = Ok (g x)) → result_map f l = Ok (g <$> l).
Proof. intros H. induction l as [|x l IH]; simpl; [done|]. by rewrite H, IH. Qed.

Lemma is_Ok_true {A} (r : result A) : is_Ok r = true → ∃ a, r = Ok a.
Proof. destruct r; [by eexists|done..]. Qed.
