(* ===== verification/Base64.v ===== *)
(** The parts of Go's [encoding/base64] the code uses: [URLEncoding] (padded)
    for pagination cursors, [RawURLEncoding] (no padding) for subject IDs, and
    [StdEncoding] for the embedded API document.

    Decoding is Go's non-strict one: carriage returns and line feeds are
    skipped, and the unused low bits of a final partial group are ignored. *)
From S2P Require Import Prelude GoStrings.

Local Open Scope N_scope.

Definition alphabet : bytes :=
  to_bytes "ABCDEFGHIJKLMNOPQRSTUVWXYZabcdefghijklmnopqrstuvwxyz0123456789-_".

Definition pad_char : ascii := "="%char.

(** The digit for a 6-bit value, and the value of a digit. *)
Definition enc6 (n : N) : ascii := default pad_char (alphabet !! N.to_nat n).

Definition dec6 (c : ascii) : option N :=
  let n := N_of_ascii c in
  if decide (65 ≤ n ∧ n ≤ 90) then Some (n - 65)
  else if decide (97 ≤ n ∧ n ≤ 122) then Some (n - 71)
  else if decide (48 ≤ n ∧ n ≤ 57) then Some (n + 4)
  else if decide (n = 45) then Some 62
  else if decide (n = 95) then Some 63
  else None.

(** [EncodeToString], with or without padding. *)
Fixpoint encode_bytes (padded : bool) (src : bytes) : bytes :=
  match src with
  | a :: b :: c :: rest =>
    let x := N_of_ascii a in let y := N_of_ascii b in let z := N_of_ascii c in
    enc6 (x / 4) :: enc6 ((x mod 4) * 16 + y / 16)
      :: enc6 ((y mod 16) * 4 + z / 64) :: enc6 (z mod 64)
      :: encode_bytes padded rest
  | [a; b] =>
    let x := N_of_ascii a in let y := N_of_ascii b in
    [enc6 (x / 4); enc6 ((x mod 4) * 16 + y / 16); enc6 ((y mod 16) * 4)]
      ++ (if padded then [pad_char] else [])
  | [a] =>
    let x := N_of_ascii a in
    [enc6 (x / 4); enc6 ((x mod 4) * 16)]
      ++ (if padded then [pad_char; pad_char] else [])
  | [] => []
  end.

(** The groups of four digits of a padded encoding, newlines removed. *)
Fixpoint decode_groups (src : bytes) : option bytes :=
  match src with
  | [] => Some []
  | c1 :: c2 :: c3 :: c4 :: rest =>
    x ← dec6 c1; y ← dec6 c2;
    let b1 := byte_of (x * 4 + y / 16) in
    if decide (c3 = pad_char) then
      if decide (c4 = pad_char ∧ rest = []) then Some [b1] else None
    else
      z ← dec6 c3;
      let b2 := byte_of ((y mod 16) * 16 + z / 4) in
      if decide (c4 = pad_char) then
        if decide (rest = []) then Some [b1; b2] else None
      else
        w ← dec6 c4;
        let b3 := byte_of ((z mod 4) * 64 + w) in
        r ← decode_groups rest; Some (b1 :: b2 :: b3 :: r)
  | _ => None
  end.

Definition is_newline (c : ascii) : bool :=
  bool_decide (c = "010"%char ∨ c = "013"%char).

(** [base64.URLEncoding.DecodeString]; [None] is its [CorruptInputError]. *)
Definition decode_bytes (src : bytes) : option bytes :=
  decode_groups (filter (λ c, is_newline c = false) src).

Definition URLEncoding_EncodeToString (src : bytes) : string :=
  of_bytes (encode_bytes true src).
Definition URLEncoding_DecodeString (s : string) : option bytes :=
  decode_bytes (to_bytes s).
Definition RawURLEncoding_EncodeToString (src : bytes) : string :=
  of_bytes (encode_bytes false src).

(** [StdEncoding], whose last two digits are others. *)
Definition url_digit (c : ascii) : ascii :=
  if decide (c = "+"%char) then "-"%char
  else if decide (c = "/"%char) then "_"%char
  else if decide (c = "-"%char ∨ c = "_"%char) then "000"%char
  else c.
Definition StdEncoding_DecodeString (s : string) : option bytes :=
  decode_bytes (url_digit <$> to_bytes s).

(** ** Lemmas *)

Definition enc6_ok (n : N) : bool :=
  bool_decide (dec6 (enc6 n) = Some n) && bool_decide (enc6 n ≠ pad_char)
  && negb (is_newline (enc6 n)).

Lemma enc6_spec n : n < 64 →
  dec6 (enc6 n) = Some n ∧ enc6 n ≠ pad_char ∧ is_newline (enc6 n) = false.
Proof.
  intros Hn. assert (enc6_ok n = true) as H.
  { apply (N_forall_below 64); [by vm_compute|done]. }
  unfold enc6_ok in H.
  rewrite !andb_true_iff, !bool_decide_eq_true, negb_true_iff in H. tauto.
Qed.

Lemma byte_of_N_of_ascii a : byte_of (N_of_ascii a) = a.
Proof. apply ascii_N_embedding. Qed.

Lemma N_of_ascii_lt a : N_of_ascii a < 256.
Proof. apply N_ascii_bounded. Qed.

(** Go's shifts and masks regroup the octets they split. *)
Lemma mul_add_mod a b k : b < k → (a * k + b) mod k = b.
Proof. intros. rewrite N.add_comm, N.Div0.mod_add. by apply N.mod_small. Qed.

Lemma mul_add_div a b k : b < k → (a * k + b) / k = a.
Proof. intros. rewrite N.div_add_l, N.div_small by lia. lia. Qed.

Lemma div_mul_mod x k : k ≠ 0 → x / k * k + x mod k = x.
Proof. intros. pose proof (N.div_mod x k). lia. Qed.

Lemma octet1 x y : y < 16 → x / 4 * 4 + (x mod 4 * 16 + y) / 16 = x.
Proof. intros. rewrite mul_add_div by done. by apply div_mul_mod. Qed.

Lemma octet2 x y z : y < 256 → z < 4 →
  (x mod 4 * 16 + y / 16) mod 16 * 16 + (y mod 16 * 4 + z) / 4 = y.
Proof.
  intros. rewrite mul_add_mod by (apply N.Div0.div_lt_upper_bound; lia).
  rewrite mul_add_div by done. by apply div_mul_mod.
Qed.

Lemma octet3 y z : z < 256 → (y mod 16 * 4 + z / 64) mod 4 * 64 + z mod 64 = z.
Proof.
  intros. rewrite mul_add_mod by (apply N.Div0.div_lt_upper_bound; lia).
  by apply div_mul_mod.
Qed.

Lemma sextet_bounds x y z : x < 256 → y < 256 → z < 256 →
  x / 4 < 64 ∧ x mod 4 * 16 + y / 16 < 64 ∧
  y mod 16 * 4 + z / 64 < 64 ∧ z mod 64 < 64.
Proof.
  intros. assert (x / 4 < 64) by (apply N.Div0.div_lt_upper_bound; lia).
  assert (y / 16 < 16) by (apply N.Div0.div_lt_upper_bound; lia).
  assert (z / 64 < 4) by (apply N.Div0.div_lt_upper_bound; lia).
  pose proof (N.mod_lt x 4); pose proof (N.mod_lt y 16);
    pose proof (N.mod_lt z 64). lia.
Qed.

Lemma decode_encode_groups src : decode_groups (encode_bytes true src) = Some src.
Proof.
  induction src as [|a|a b|a b c src IH] using list_ind3; [done|..];
    cbn [encode_bytes app decode_groups];
    pose proof (N_of_ascii_lt a) as Ha; set (x := N_of_ascii a) in *.
  - destruct (sextet_bounds x 0 0) as (H1 & H2 & H3 & H4); [lia..|].
    rewrite N.add_0_r in H2.
    destruct (enc6_spec _ H1) as (-> & _), (enc6_spec _ H2) as (-> & _); simpl.
    f_equal.
    rewrite <-(byte_of_N_of_ascii a). fold x. do 2 f_equal.
    pose proof (octet1 x 0). rewrite N.add_0_r in *. lia.
  - pose proof (N_of_ascii_lt b) as Hb. set (y := N_of_ascii b) in *.
    destruct (sextet_bounds x y 0) as (H1 & H2 & H3 & H4); [lia..|].
    rewrite N.add_0_r in H3.
    destruct (enc6_spec _ H1) as (-> & _), (enc6_spec _ H2) as (-> & _),
      (enc6_spec _ H3) as (-> & Hp & _); simpl.
    rewrite decide_False by done. simpl. f_equal.
    rewrite octet1 by (apply N.Div0.div_lt_upper_bound; lia).
    pose proof (octet2 x y 0) as Ho. rewrite N.add_0_r in Ho. rewrite Ho by lia.
    subst x y. by rewrite !byte_of_N_of_ascii.
  - pose proof (N_of_ascii_lt b) as Hb. set (y := N_of_ascii b) in *.
    pose proof (N_of_ascii_lt c) as Hc. set (z := N_of_ascii c) in *.
    destruct (sextet_bounds x y z) as (H1 & H2 & H3 & H4); [lia..|].
    destruct (enc6_spec _ H1) as (-> & _), (enc6_spec _ H2) as (-> & _),
      (enc6_spec _ H3) as (-> & Hp3 & _), (enc6_spec _ H4) as (-> & Hp4 & _); simpl.
    rewrite !decide_False by done. rewrite IH; simpl.
    rewrite octet1, octet2, octet3 by (try apply N.Div0.div_lt_upper_bound; lia).
    subst x y z. by rewrite !byte_of_N_of_ascii.
Qed.

(** No digit and no padding is a newline. *)
Lemma encode_no_newline p src :
  Forall (λ c, is_newline c = false) (encode_bytes p src).
Proof.
  assert (∀ n, n < 64 → is_newline (enc6 n) = false) as E by (intros; by apply enc6_spec).
  induction src as [|a|a b|a b c src IH] using list_ind3; [done|..];
    cbn [encode_bytes app];
    pose proof (N_of_ascii_lt a) as Ha; set (x := N_of_ascii a) in *.
  - destruct (sextet_bounds x 0 0) as (H1 & H2 & _); [lia..|].
    rewrite N.add_0_r in H2. destruct p; repeat constructor; auto.
  - pose proof (N_of_ascii_lt b) as Hb. set (y := N_of_ascii b) in *.
    destruct (sextet_bounds x y 0) as (H1 & H2 & H3 & _); [lia..|].
    rewrite N.add_0_r in H3. destruct p; repeat constructor; auto.
  - pose proof (N_of_ascii_lt b) as Hb. set (y := N_of_ascii b) in *.
    pose proof (N_of_ascii_lt c) as Hc. set (z := N_of_ascii c) in *.
    destruct (sextet_bounds x y z) as (H1 & H2 & H3 & H4); [lia..|].
    repeat (constructor; [by auto|]). done.
Qed.

Theorem URLEncoding_roundtrip src :
  URLEncoding_DecodeString (URLEncoding_EncodeToString src) = Some src.
Proof.
  unfold URLEncoding_DecodeString, URLEncoding_EncodeToString, decode_bytes.
  rewrite to_of_bytes, filter_Forall_id by apply encode_no_newline.
  apply decode_encode_groups.
Qed.

(** The length of an unpadded encoding: 43 digits for a 32-byte digest. *)
Fixpoint raw_length (n : nat) : nat :=
  match n with 0 => 0 | 1 => 2 | 2 => 3 | S (S (S n)) => 4 + raw_length n end%nat.

Lemma encode_bytes_raw_length src :
  length (encode_bytes false src) = raw_length (length src).
Proof.
  induction src as [|a|a b|a b c src IH] using list_ind3; simpl; congruence.
Qed.
