(* ===== verification/Query.v ===== *)
(** The parts of Go's [net/url] the pagination cursor uses: query escaping,
    [url.Values] and its encoding, and [url.ParseQuery]. *)
From S2P Require Import Prelude GoStrings Errors.

Local Open Scope N_scope.

(** ** Definitions *)

(** The bytes [url.QueryEscape] leaves alone: letters, digits, [-_.~]. *)
Definition unreserved (c : ascii) : bool :=
  let n := N_of_ascii c in
  bool_decide ((65 ≤ n ∧ n ≤ 90) ∨ (97 ≤ n ∧ n ≤ 122) ∨ (48 ≤ n ∧ n ≤ 57)
    ∨ n = 45 ∨ n = 95 ∨ n = 46 ∨ n = 126).

Definition upperhex (n : N) : ascii :=
  byte_of (if decide (n < 10) then 48 + n else 55 + n).

Definition unhex (c : ascii) : option N :=
  let n := N_of_ascii c in
  if decide (48 ≤ n ∧ n ≤ 57) then Some (n - 48)
  else if decide (97 ≤ n ∧ n ≤ 102) then Some (n - 87)
  else if decide (65 ≤ n ∧ n ≤ 70) then Some (n - 55)
  else None.

Definition escape_byte (c : ascii) : bytes :=
  if unreserved c then [c]
  else if decide (c = " "%char) then ["+"%char]
  else let n := N_of_ascii c in ["%"%char; upperhex (n / 16); upperhex (n mod 16)].

Definition QueryEscape (s : string) : bytes := to_bytes s ≫= escape_byte.

Fixpoint unescape (s : bytes) : option bytes :=
  match s with
  | [] => Some []
  | c :: rest =>
    if decide (c = "%"%char) then
      match rest with
      | h :: l :: rest =>
        x ← unhex h; y ← unhex l; r ← unescape rest; Some (byte_of (x * 16 + y) :: r)
      | _ => None
      end
    else
      r ← unescape rest;
      Some ((if decide (c = "+"%char) then " "%char else c) :: r)
  end.

(** [url.QueryUnescape]. *)
Definition QueryUnescape (s : bytes) : result string :=
  match unescape s with
  | Some b => Ok (of_bytes b)
  | None => Err (ExtError "invalid URL escape")
  end.

(** [url.Values], and its [nil]. *)
Abbreviation Values := (gmap string (list string)).

(** [v.Get(key)] and [v.Set(key, value)]. *)
Definition Values_Get (v : Values) (key : string) : string :=
  default "" (v !! key ≫= head).
Definition Values_Set (v : Values) (key value : string) : Values :=
  <[key := [value]]> v.

(** The body of [ParseQuery]: one [key=value] segment; the first error is
    kept, and the segment that has one is skipped. *)
Definition parse_segment (seg : bytes) (m : Values) (err : option error)
    : Values * option error :=
  let fail e := (m, Some (default e err)) in
  if ContainsByte seg ";" then (m, Some (ExtError "invalid semicolon separator in query"))
  else if decide (seg = []) then (m, err)
  else
    let '(k, v, _) := Cut seg "=" in
    match QueryUnescape k with
    | Ok k =>
      match QueryUnescape v with
      | Ok v => (<[k := default [] (m !! k) ++ [v]]> m, err)
      | Err e => fail e
      | Panic _ => (m, err)
      end
    | Err e => fail e
    | Panic _ => (m, err)
    end.

(** Its loop; every iteration consumes at least one byte of the query. *)
Fixpoint parse_loop (fuel : nat) (query : bytes) (m : Values) (err : option error)
    : Values * option error :=
  match fuel, query with
  | O, _ | _, [] => (m, err)
  | S fuel, _ =>
    let '(seg, query, _) := Cut query "&" in
    let '(m, err) := parse_segment seg m err in
    parse_loop fuel query m err
  end.

(** [url.ParseQuery]: the values, or the first error. *)
Definition ParseQuery (query : string) : result Values :=
  let b := to_bytes query in
  match parse_loop (length b) b ∅ None with
  | (m, None) => Ok m
  | (_, Some e) => Err e
  end.

Definition encode_pair (p : string * string) : bytes :=
  QueryEscape p.1 ++ "="%char :: QueryEscape p.2.

Fixpoint encode_pairs (ps : list (string * string)) : bytes :=
  match ps with
  | [] => []
  | [p] => encode_pair p
  | p :: ps => encode_pair p ++ "&"%char :: encode_pairs ps
  end.

(** The keys of a map in increasing order. *)
Definition sorted_keys {V} (m : gmap string V) : list string :=
  merge_sort str_le (map_to_list m).*1.

Definition pairs_of (v : Values) : list (string * string) :=
  sorted_keys v ≫= λ k, (k,.) <$> default [] (v !! k).

(** [v.Encode()]: the pairs sorted by key. *)
Definition Values_Encode (v : Values) : string := of_bytes (encode_pairs (pairs_of v)).

(** ** Escaping *)

(** A property of every byte, by enumeration. *)
Lemma byte_forall (P : ascii → bool) :
  forallb (P ∘ byte_of) (N.of_nat <$> seq 0 256) = true → ∀ c, P c = true.
Proof.
  intros H c. rewrite <-(ascii_N_embedding c).
  apply (N_forall_below 256 _ H), N_ascii_bounded.
Qed.

(** The separators of a query. *)
Definition separators : bytes := ["&"; ";"; "="]%char.

Definition escape_byte_ok (c : ascii) : bool :=
  bool_decide (unescape (escape_byte c) = Some [c]) &&
  forallb (λ d, bool_decide (d ∉ separators)) (escape_byte c).

Lemma escape_byte_spec c : escape_byte_ok c = true.
Proof. revert c. apply byte_forall. by vm_compute. Qed.

Lemma unescape_byte_app c s :
  unescape (escape_byte c ++ s) = (c ::.) <$> unescape s.
Proof.
  pose proof (escape_byte_spec c) as [H _]%andb_true_iff.
  apply bool_decide_eq_true in H. revert H. unfold escape_byte.
  destruct (unreserved c) eqn:Eu.
  - simpl. case_decide as Ec; [by subst c|].
    case_decide; simpl; intros; simplify_eq. by destruct (unescape s).
  - case_decide; simpl; intros; simplify_eq; [by destruct (unescape s)|].
    destruct (unhex (upperhex (N_of_ascii c / 16))) as [x|]; [|done]. simpl in *.
    destruct (unhex (upperhex (N_of_ascii c mod 16))) as [y|]; [|done]. simpl in *.
    simplify_eq. destruct (unescape s); simpl; congruence.
Qed.

Lemma unescape_escape s : unescape (QueryEscape s) = Some (to_bytes s).
Proof.
  unfold QueryEscape. induction (to_bytes s) as [|c b IH]; [done|].
  by rewrite bind_cons, unescape_byte_app, IH.
Qed.

Theorem QueryUnescape_Escape s : QueryUnescape (QueryEscape s) = Ok s.
Proof. unfold QueryUnescape. by rewrite unescape_escape, of_to_bytes. Qed.

Lemma escape_no_separator s c : c ∈ separators → c ∉ QueryEscape s.
Proof.
  intros Hc (d & Hd & _)%list_elem_of_bind.
  pose proof (escape_byte_spec d) as [_ H]%andb_true_iff.
  rewrite forallb_forall in H. apply list_elem_of_In, H in Hd.
  by apply bool_decide_eq_true in Hd.
Qed.

(** ** Parsing an encoding *)

Definition add_pair (m : Values) (p : string * string) : Values :=
  <[p.1 := default [] (m !! p.1) ++ [p.2]]> m.

Lemma encode_pair_sep p c : c ∈ ["&"; ";"]%char → c ∉ encode_pair p.
Proof.
  intros Hc. assert (c ∈ separators ∧ c ≠ "="%char) as [Hs Hne].
  { repeat (apply elem_of_cons in Hc as [->|Hc]); [by split; [left|]|..].
    - split; [right; by left|done].
    - by apply elem_of_nil in Hc. }
  unfold encode_pair. rewrite elem_of_app, elem_of_cons.
  pose proof (escape_no_separator p.1 c Hs).
  pose proof (escape_no_separator p.2 c Hs). tauto.
Qed.

Lemma parse_segment_encode p m err :
  parse_segment (encode_pair p) m err = (add_pair m p, err).
Proof.
  unfold parse_segment, ContainsByte.
  rewrite bool_decide_false by (apply encode_pair_sep; right; by left).
  rewrite decide_False by (unfold encode_pair; by destruct (QueryEscape p.1)).
  unfold encode_pair at 1. rewrite Cut_app.
  - rewrite !QueryUnescape_Escape. done.
  - apply escape_no_separator. do 2 right. by left.
Qed.

Lemma encode_pair_not_nil p : encode_pair p ≠ [].
Proof. unfold encode_pair. by destruct (QueryEscape p.1). Qed.

Lemma parse_loop_encode fuel ps m :
  (length (encode_pairs ps) ≤ fuel)%nat →
  parse_loop fuel (encode_pairs ps) m None = (foldl add_pair m ps, None).
Proof.
  revert fuel m. induction ps as [|p ps IH]; intros fuel m Hf; [by destruct fuel|].
  pose proof (encode_pair_not_nil p) as Hne.
  destruct ps as [|q ps]; [cbn [encode_pairs] in *|].
  - destruct fuel; [destruct (encode_pair p); simpl in *; [done|lia]|].
    simpl. destruct (encode_pair p) as [|c b] eqn:E; [done|]. rewrite <-E.
    rewrite Cut_none, parse_segment_encode; [by destruct fuel|].
    apply encode_pair_sep. by left.
  - change (encode_pairs (p :: q :: ps))
      with (encode_pair p ++ "&"%char :: encode_pairs (q :: ps)) in *.
    rewrite length_app, length_cons in Hf.
    destruct fuel; [lia|]. cbn [parse_loop].
    destruct (encode_pair p ++ _) as [|c b] eqn:E.
    { by apply app_eq_nil in E as [? ?]. }
    rewrite <-E, Cut_app by (apply encode_pair_sep; by left).
    rewrite parse_segment_encode, IH; [done|lia].
Qed.

(** ** The values of a list of pairs *)

Definition values_of (k : string) (ps : list (string * string)) : list string :=
  (filter (λ p, p.1 = k) ps).*2.

Lemma foldl_add_pair_lookup ps m k :
  foldl add_pair m ps !! k =
    match values_of k ps with
    | [] => m !! k
    | vs => Some (default [] (m !! k) ++ vs)
    end.
Proof.
  revert m. induction ps as [|[k' v'] ps IH]; intros m; [done|]. simpl.
  rewrite IH. unfold values_of, add_pair; simpl.
  destruct (decide (k' = k)) as [->|Hne].
  - rewrite filter_cons_True, fmap_cons, lookup_insert_eq by done.
    destruct ((filter _ ps).*2); simpl; [done|]. by rewrite <-app_assoc.
  - by rewrite filter_cons_False, lookup_insert_ne by done.
Qed.

Lemma values_of_app k ps qs : values_of k (ps ++ qs) = values_of k ps ++ values_of k qs.
Proof. unfold values_of. by rewrite filter_app, fmap_app. Qed.

Lemma values_of_key k k' vs :
  values_of k ((k',.) <$> vs) = if decide (k' = k) then vs else [].
Proof.
  unfold values_of. induction vs as [|v vs IH]; [by case_decide|].
  rewrite fmap_cons. case_decide.
  - rewrite filter_cons_True, fmap_cons by done. by f_equal.
  - by rewrite filter_cons_False by done.
Qed.

Lemma values_of_keys k (v : Values) ks : NoDup ks →
  values_of k (ks ≫= λ k, (k,.) <$> default [] (v !! k)) =
    if decide (k ∈ ks) then default [] (v !! k) else [].
Proof.
  induction 1 as [|k' ks Hni _ IH]; [done|].
  rewrite bind_cons, values_of_app, values_of_key, IH.
  destruct (decide (k' = k)) as [->|Hne].
  - rewrite decide_False by done. rewrite decide_True by (by left).
    by rewrite app_nil_r.
  - simpl. destruct (decide (k ∈ ks)) as [?|Hk].
    + by rewrite decide_True by (by right).
    + rewrite decide_False; [done|]. by intros [?|?]%elem_of_cons.
Qed.

Lemma sorted_keys_elem {V} (m : gmap string V) k :
  k ∈ sorted_keys m ↔ is_Some (m !! k).
Proof.
  unfold sorted_keys. rewrite merge_sort_Permutation, list_elem_of_fmap. split.
  - intros ([k' x] & -> & Hx%elem_of_map_to_list). by exists x.
  - intros [x Hx]. exists (k, x). by rewrite elem_of_map_to_list.
Qed.

Lemma sorted_keys_NoDup {V} (m : gmap string V) : NoDup (sorted_keys m).
Proof. unfold sorted_keys. rewrite merge_sort_Permutation. apply NoDup_fst_map_to_list. Qed.

(** Decoding an encoding gives the values back; a key with no value is lost. *)
Theorem ParseQuery_Encode (v : Values) :
  ParseQuery (Values_Encode v) = Ok (filter (λ kv, kv.2 ≠ []) v).
Proof.
  unfold ParseQuery, Values_Encode. rewrite to_of_bytes, parse_loop_encode by lia.
  f_equal. apply map_eq. intros k. rewrite foldl_add_pair_lookup, lookup_empty; simpl.
  unfold pairs_of. rewrite values_of_keys by apply sorted_keys_NoDup.
  rewrite map_lookup_filter.
  destruct (decide (k ∈ sorted_keys v)) as [[vs Hv]%sorted_keys_elem|Hk].
  - rewrite Hv; simpl. by destruct vs.
  - rewrite sorted_keys_elem in Hk. by apply eq_None_not_Some in Hk as ->.
Qed.
