(* ===== verification/Utf8.v ===== *)
(** UTF-8 as [unicode/utf8] decodes it and as [range] traverses a string: the
    runes of a byte string, with the bytes that belong to none. *)
From S2P Require Import Prelude GoStrings Base64 Query.

Local Open Scope N_scope.

(** ** Definitions *)

(** What a first byte of a longer rune announces: the number of bytes that
    follow, and the range of the first of them (the tables [first] and
    [acceptRanges]). *)
Definition accept (c : N) : option (nat * N * N) :=
  if decide (0xC2 ≤ c ≤ 0xDF) then Some (1%nat, 0x80, 0xBF)
  else if decide (c = 0xE0) then Some (2%nat, 0xA0, 0xBF)
  else if decide (c = 0xED) then Some (2%nat, 0x80, 0x9F)
  else if decide (0xE1 ≤ c ≤ 0xEF) then Some (2%nat, 0x80, 0xBF)
  else if decide (c = 0xF0) then Some (3%nat, 0x90, 0xBF)
  else if decide (0xF1 ≤ c ≤ 0xF3) then Some (3%nat, 0x80, 0xBF)
  else if decide (c = 0xF4) then Some (3%nat, 0x80, 0x8F)
  else None.

Definition in_range (lo hi : N) (c : ascii) : bool :=
  bool_decide (lo ≤ N_of_ascii c ∧ N_of_ascii c ≤ hi).
Definition continues : ascii → bool := in_range 0x80 0xBF.

(** The number of bytes of the rune that a byte string starts with; 0 when its
    first byte starts none ([DecodeRune] then returns [RuneError, 1]). *)
Definition rune_len (b : bytes) : nat :=
  match b with
  | [] => 0%nat
  | c :: r =>
    if decide (N_of_ascii c < 0x80) then 1%nat
    else match accept (N_of_ascii c) with
    | None => 0%nat
    | Some (n, lo, hi) =>
      match n, r with
      | 1%nat, c1 :: _ => if in_range lo hi c1 then 2%nat else 0%nat
      | 2%nat, c1 :: c2 :: _ => if in_range lo hi c1 && continues c2 then 3%nat else 0%nat
      | 3%nat, c1 :: c2 :: c3 :: _ =>
        if in_range lo hi c1 && continues c2 && continues c3 then 4%nat else 0%nat
      | _, _ => 0%nat
      end
    end
  end.

(** A rune by its encoding, or a byte that belongs to none. *)
Inductive rune : Type :=
  | Rune (encoding : bytes)
  | Invalid (c : ascii).

(** [for _, r := range s]: [skip] bytes are left of a rune already seen. *)
Fixpoint range_from (skip : nat) (b : bytes) : list rune :=
  match b with
  | [] => []
  | c :: b' =>
    match skip with
    | S k => range_from k b'
    | O =>
      match rune_len b with
      | O => Invalid c :: range_from 0 b'
      | S k => Rune (take (S k) b) :: range_from k b'
      end
    end
  end.
Definition runes (s : string) : list rune := range_from 0 (to_bytes s).

Definition is_rune (r : rune) : bool := match r with Rune _ => true | Invalid _ => false end.

(** [utf8.ValidString]. *)
Definition ValidString (s : string) : bool := forallb is_rune (runes s).

(** The encoding of U+FFFD, which stands for what is not UTF-8. *)
Definition RuneError : bytes := byte_of <$> [0xEF; 0xBF; 0xBD].
Definition rune_bytes (r : rune) : bytes :=
  match r with Rune e => e | Invalid _ => RuneError end.

(** [strings.ToValidUTF8] with U+FFFD for every byte that is not UTF-8. *)
Definition to_valid (s : string) : string := of_bytes (runes s ≫= rune_bytes).

(** [utf8.AppendRune], of a rune that is neither a surrogate nor too large. *)
Definition encode_rune (n : N) : bytes :=
  byte_of <$>
    (if decide (n < 0x80) then [n]
     else if decide (n < 0x800) then [0xC0 + n / 64; 0x80 + n mod 64]
     else if decide (n < 0x10000) then [0xE0 + n / 4096; 0x80 + n / 64 mod 64; 0x80 + n mod 64]
     else [0xF0 + n / 262144; 0x80 + n / 4096 mod 64; 0x80 + n / 64 mod 64; 0x80 + n mod 64]).

(** ** Lemmas *)

(** The bytes of one rune. *)
Definition one_rune (e : bytes) : Prop := rune_len e = length e ∧ e ≠ [].

Lemma rune_len_cases b :
  (rune_len b ≤ length b)%nat ∧
  (rune_len b ≠ 0%nat → ∀ rest, rune_len (take (rune_len b) b ++ rest) = rune_len b).
Proof.
  destruct b as [|c r]; [done|]. unfold rune_len. case_decide as Hc.
  { split; [simpl; lia|]. intros _ rest. simpl. by rewrite decide_True. }
  destruct (accept (N_of_ascii c)) as [[[n lo] hi]|] eqn:Ha; [|by split; [lia|]].
  destruct n as [|[|[|[|n]]]]; [by split; [lia|]|..|by split; [lia|]].
  - destruct r as [|c1 r]; [by split; [lia|]|].
    destruct (in_range lo hi c1) eqn:H1; [|by split; [lia|]].
    split; [simpl; lia|]. intros _ rest. simpl. by rewrite decide_False, Ha, H1.
  - destruct r as [|c1 [|c2 r]]; [by split; [lia|]..|].
    destruct (in_range lo hi c1 && continues c2) eqn:H1; [|by split; [lia|]].
    split; [simpl; lia|]. intros _ rest. simpl. by rewrite decide_False, Ha, H1.
  - destruct r as [|c1 [|c2 [|c3 r]]]; [by split; [lia|]..|].
    destruct (in_range lo hi c1 && continues c2 && continues c3) eqn:H1; [|by split; [lia|]].
    split; [simpl; lia|]. intros _ rest. simpl. by rewrite decide_False, Ha, H1.
Qed.

Lemma rune_len_le b : (rune_len b ≤ length b)%nat.
Proof. apply rune_len_cases. Qed.

Lemma one_rune_take b : rune_len b ≠ 0%nat → one_rune (take (rune_len b) b).
Proof.
  intros Hn. pose proof (rune_len_cases b) as [Hle Hp]. split.
  - specialize (Hp Hn []). rewrite app_nil_r in Hp. rewrite Hp, length_take. lia.
  - intros Ht%(f_equal length). rewrite length_take in Ht. simpl in Ht. lia.
Qed.

(** A rune is read the same whatever follows. *)
Lemma one_rune_app e rest : one_rune e → rune_len (e ++ rest) = length e.
Proof.
  intros [He Hne]. pose proof (rune_len_cases e) as [_ Hp]. rewrite He in Hp.
  rewrite firstn_all in Hp. apply Hp. by destruct e.
Qed.

Lemma range_skip k b : range_from k b = range_from 0 (drop k b).
Proof.
  revert k. induction b as [|c b IH]; intros k; [by destruct k|].
  destruct k as [|k]; [done|]. simpl. apply IH.
Qed.

Lemma range_rune e rest : one_rune e → range_from 0 (e ++ rest) = Rune e :: range_from 0 rest.
Proof.
  intros He. pose proof (one_rune_app _ rest He) as Hlen. destruct He as [_ Hne].
  destruct e as [|c e]; [done|]. cbn [range_from app]. rewrite <-app_comm_cons in Hlen.
  rewrite Hlen. simpl length. cbv iota beta. f_equal.
  - f_equal. exact (take_app_length' (c :: e) rest (S (length e)) eq_refl).
  - rewrite range_skip. f_equal. exact (drop_app_length' (c :: e) rest (S (length e)) eq_refl).
Qed.

(** The runes of a byte string, by cases: none, an invalid byte, a rune. *)
Lemma range_ind (P : bytes → Prop) :
  P [] →
  (∀ c b, rune_len (c :: b) = 0%nat → P b → P (c :: b)) →
  (∀ e b, one_rune e → P b → P (e ++ b)) →
  ∀ b, P b.
Proof.
  intros Hnil Hbad Hrune b. remember (length b) as n eqn:Hn. assert (length b ≤ n)%nat as Hle by lia.
  clear Hn. revert b Hle. induction n as [|n IH]; intros [|c b] Hle; simpl in Hle; [done|lia|done|].
  destruct (rune_len (c :: b)) as [|k] eqn:Hk.
  - apply Hbad; [done|]. apply IH. lia.
  - rewrite <-(take_drop (rune_len (c :: b)) (c :: b)). apply Hrune; [apply one_rune_take; lia|].
    apply IH. rewrite length_drop. pose proof (rune_len_le (c :: b)). simpl in *. lia.
Qed.

Lemma range_invalid c b : rune_len (c :: b) = 0%nat → range_from 0 (c :: b) = Invalid c :: range_from 0 b.
Proof. intros Hk. cbn [range_from]. by rewrite Hk. Qed.

Lemma range_one_rune b : Forall (λ r, match r with Rune e => one_rune e | Invalid _ => True end) (range_from 0 b).
Proof.
  induction b as [|c b Hk IH|e b He IH] using range_ind; [constructor|..].
  - by rewrite range_invalid by done; constructor.
  - by rewrite range_rune by done; constructor.
Qed.

(** Valid text is made of its runes. *)
Lemma range_valid b : forallb is_rune (range_from 0 b) = true → range_from 0 b ≫= rune_bytes = b.
Proof.
  induction b as [|c b Hk IH|e b He IH] using range_ind; [done|..].
  - by rewrite range_invalid.
  - rewrite range_rune, bind_cons by done. intros Hb. by rewrite IH.
Qed.

Lemma to_valid_id s : ValidString s = true → to_valid s = s.
Proof. intros Hs. unfold to_valid, runes. by rewrite range_valid, of_to_bytes. Qed.

Lemma RuneError_one : one_rune RuneError.
Proof. by split. Qed.

Lemma to_valid_valid s : ValidString (to_valid s) = true.
Proof.
  unfold ValidString, to_valid, runes. rewrite to_of_bytes. generalize (to_bytes s). intros b.
  induction b as [|c b Hk IH|e b He IH] using range_ind; [done|..].
  - rewrite range_invalid, bind_cons by done. by rewrite (range_rune RuneError) by apply RuneError_one.
  - rewrite (range_rune e b He), bind_cons. by rewrite (range_rune e) by done.
Qed.

(** ASCII text is valid. *)
Lemma ascii_rune c : N_of_ascii c < 0x80 → one_rune [c].
Proof. intros Hc. split; [|done]. simpl. by rewrite decide_True. Qed.
