(* ===== verification/JsonText.v ===== *)
(** JSON text as [encoding/json] writes and reads it: values, the printer of
    [Marshal] and [Encoder], and the scanner and parser of [Unmarshal] and
    [Decoder]. What is printed is read back, up to what was not UTF-8, and the
    parser's fuel is enough for any text. *)
From S2P Require Import Prelude GoStrings Errors Base64 Query Utf8.

(** ** Values *)

Inductive json : Type :=
  | JNull
  | JBool (b : bool)
  | JNumber (literal : string)
  | JString (s : string)
  | JArray (l : list json)
  | JObject (fields : list (string * json)).

(** An integer, by [strconv.AppendInt]. *)
Definition JInt (z : Z) : json := JNumber (Itoa z).

(** ** Printing *)

Definition jquote : ascii := "034"%char.
Definition backslash : ascii := "092"%char.

Definition lowerhex (n : N) : ascii := byte_of (if decide (n < 10)%N then 48 + n else 87 + n)%N.

(** A byte below 0x80; [<], [>] and [&] are escaped for HTML. *)
Definition quote_char (c : ascii) : bytes :=
  let n := N_of_ascii c in
  if decide (c = jquote ∨ c = backslash) then [backslash; c]
  else if decide (n = 8)%N then [backslash; "b"%char]
  else if decide (n = 12)%N then [backslash; "f"%char]
  else if decide (n = 10)%N then [backslash; "n"%char]
  else if decide (n = 13)%N then [backslash; "r"%char]
  else if decide (n = 9)%N then [backslash; "t"%char]
  else if decide (n < 32 ∨ n = 60 ∨ n = 62 ∨ n = 38)%N then
    backslash :: to_bytes "u00" ++ [lowerhex (n / 16); lowerhex (n mod 16)]
  else [c].

(** The line and paragraph separators, which JavaScript does not have in
    strings. *)
Definition U2028 : bytes := byte_of <$> [0xE2; 0x80; 0xA8]%N.
Definition U2029 : bytes := byte_of <$> [0xE2; 0x80; 0xA9]%N.

Definition quote_rune (r : rune) : bytes :=
  match r with
  | Invalid _ => backslash :: to_bytes "ufffd"
  | Rune [c] => quote_char c
  | Rune e =>
    if decide (e = U2028) then backslash :: to_bytes "u2028"
    else if decide (e = U2029) then backslash :: to_bytes "u2029"
    else e
  end.

(** [appendString]. *)
Definition quote (s : string) : bytes := jquote :: (runes s ≫= quote_rune) ++ [jquote].

Fixpoint join_bytes (sep : bytes) (l : list bytes) : bytes :=
  match l with
  | [] => []
  | [b] => b
  | b :: l => b ++ sep ++ join_bytes sep l
  end.

Fixpoint print (v : json) : bytes :=
  match v with
  | JNull => to_bytes "null"
  | JBool b => to_bytes (if b then "true" else "false")
  | JNumber l => to_bytes l
  | JString s => quote s
  | JArray l => "["%char :: join_bytes [","%char] (print <$> l) ++ ["]"%char]
  | JObject fields =>
    "{"%char :: join_bytes [","%char]
      ((λ kv, quote kv.1 ++ ":"%char :: print kv.2) <$> fields) ++ ["}"%char]
  end.

(** [Marshal]; an [Encoder] adds a line feed. *)
Definition Marshal (v : json) : string := of_bytes (print v).
Definition Encode (v : json) : string := of_bytes (print v ++ ["010"%char]).

(** ** Parsing *)

Definition is_space (c : ascii) : bool :=
  bool_decide (c ∈ [" "; "009"; "010"; "013"]%char).
Fixpoint skip_ws (b : bytes) : bytes :=
  match b with
  | c :: b' => if is_space c then skip_ws b' else b
  | [] => []
  end.

Definition hex4 (h1 h2 h3 h4 : ascii) : option N :=
  a ← unhex h1; b ← unhex h2; c ← unhex h3; d ← unhex h4;
  Some (((a * 16 + b) * 16 + c) * 16 + d)%N.

Definition unescape_char (e : ascii) : option ascii :=
  if decide (e ∈ [jquote; backslash; "/"%char]) then Some e
  else if decide (e = "b"%char) then Some "008"%char
  else if decide (e = "f"%char) then Some "012"%char
  else if decide (e = "n"%char) then Some "010"%char
  else if decide (e = "r"%char) then Some "013"%char
  else if decide (e = "t"%char) then Some "009"%char
  else None.

Definition is_surrogate (n : N) : bool := bool_decide (0xD800 ≤ n < 0xE000)%N.

(** [utf16.DecodeRune] of a pair that is one. *)
Definition decode_pair (n m : N) : option N :=
  if decide ((0xD800 ≤ n < 0xDC00) ∧ (0xDC00 ≤ m < 0xE000))%N
  then Some ((n - 0xD800) * 1024 + (m - 0xDC00) + 0x10000)%N else None.

Definition prepend (a : bytes) (r : option (bytes * bytes)) : option (bytes * bytes) :=
  '(b, rest) ← r; Some (a ++ b, rest).

(** The text of a string after its opening quote, and what follows the closing
    one: the scanner's rules and [unquoteBytes] in one pass. [keep] bytes are
    left of a rune already seen. *)
Fixpoint parse_str (keep : nat) (b : bytes) : option (bytes * bytes) :=
  match b with
  | [] => None
  | c :: b1 =>
    match keep with
    | S k => prepend [c] (parse_str k b1)
    | O =>
      if decide (c = jquote) then Some ([], b1)
      else if decide (c = backslash) then
        match b1 with
        | [] => None
        | e :: b2 =>
          if decide (e = "u"%char) then
            match b2 with
            | h1 :: h2 :: h3 :: h4 :: b3 =>
              match hex4 h1 h2 h3 h4 with
              | None => None
              | Some n =>
                if is_surrogate n then
                  match b3 with
                  | c' :: u' :: g1 :: g2 :: g3 :: g4 :: b4 =>
                    match (if decide (c' = backslash ∧ u' = "u"%char)
                           then hex4 g1 g2 g3 g4 ≫= decode_pair n else None) with
                    | Some r => prepend (encode_rune r) (parse_str 0 b4)
                    | None => prepend RuneError (parse_str 0 b3)
                    end
                  | _ => prepend RuneError (parse_str 0 b3)
                  end
                else prepend (encode_rune n) (parse_str 0 b3)
              end
            | _ => None
            end
          else
            match unescape_char e with
            | Some x => prepend [x] (parse_str 0 b2)
            | None => None
            end
        end
      else if decide (N_of_ascii c < 32)%N then None
      else
        match rune_len b with
        | O => prepend RuneError (parse_str 0 b1)
        | S k => prepend [c] (parse_str k b1)
        end
    end
  end.

Definition is_digit (c : ascii) : bool := bool_decide (48 ≤ N_of_ascii c ≤ 57)%N.
Fixpoint span_digits (b : bytes) : bytes * bytes :=
  match b with
  | c :: b' => if is_digit c then let '(ds, r) := span_digits b' in (c :: ds, r) else ([], b)
  | [] => ([], [])
  end.
Definition digits1 (b : bytes) : option (bytes * bytes) :=
  match span_digits b with ([], _) => None | r => Some r end.

(** The parts of a number. *)
Definition parse_sign (signs : bytes) (b : bytes) : bytes * bytes :=
  match b with
  | c :: b' => if decide (c ∈ signs) then ([c], b') else ([], b)
  | [] => ([], [])
  end.
Definition parse_int (b : bytes) : option (bytes * bytes) :=
  match b with
  | c :: b' => if decide (c = "0"%char) then Some ([c], b') else digits1 b
  | [] => None
  end.
Definition parse_frac (b : bytes) : option (bytes * bytes) :=
  match b with
  | c :: b' => if decide (c = "."%char) then prepend [c] (digits1 b') else Some ([], b)
  | [] => Some ([], [])
  end.
Definition parse_exp (b : bytes) : option (bytes * bytes) :=
  match b with
  | c :: b' =>
    if decide (c ∈ ["e"; "E"]%char) then
      let '(sign, b'') := parse_sign ["+"; "-"]%char b' in
      prepend (c :: sign) (digits1 b'')
    else Some ([], b)
  | [] => Some ([], [])
  end.
Definition parse_number (b : bytes) : option (bytes * bytes) :=
  let '(sign, b) := parse_sign ["-"%char] b in
  '(int, b) ← parse_int b;
  '(frac, b) ← parse_frac b;
  '(exp, b) ← parse_exp b;
  Some (sign ++ int ++ frac ++ exp, b).

Fixpoint strip (p b : bytes) : option bytes :=
  match p, b with
  | [], _ => Some b
  | c :: p, c' :: b => if decide (c = c') then strip p b else None
  | _, [] => None
  end.
Definition parse_word (word : string) (v : json) (b : bytes) : option (json * bytes) :=
  rest ← strip (to_bytes word) b; Some (v, rest).

(** A value, the elements of an array after its bracket and the members of an
    object after its brace; [d] levels of nesting are left. *)
Fixpoint parse_value (n : nat) (d : N) (b : bytes) : option (json * bytes) :=
  match n with
  | O => None
  | S n =>
    match skip_ws b with
    | [] => None
    | c :: b1 =>
      if decide (c = "{"%char) then
        if decide (d = 0%N) then None
        else match skip_ws b1 with
        | c2 :: b2 =>
          if decide (c2 = "}"%char) then Some (JObject [], b2)
          else '(ms, b3) ← parse_members n (d - 1) (c2 :: b2); Some (JObject ms, b3)
        | [] => None
        end
      else if decide (c = "["%char) then
        if decide (d = 0%N) then None
        else match skip_ws b1 with
        | c2 :: b2 =>
          if decide (c2 = "]"%char) then Some (JArray [], b2)
          else '(l, b3) ← parse_elems n (d - 1) (c2 :: b2); Some (JArray l, b3)
        | [] => None
        end
      else if decide (c = jquote) then
        '(s, b2) ← parse_str 0 b1; Some (JString (of_bytes s), b2)
      else if decide (c = "t"%char) then parse_word "true" (JBool true) (c :: b1)
      else if decide (c = "f"%char) then parse_word "false" (JBool false) (c :: b1)
      else if decide (c = "n"%char) then parse_word "null" JNull (c :: b1)
      else '(l, b2) ← parse_number (c :: b1); Some (JNumber (of_bytes l), b2)
    end
  end
with parse_elems (n : nat) (d : N) (b : bytes) : option (list json * bytes) :=
  match n with
  | O => None
  | S n =>
    '(v, b1) ← parse_value n d b;
    match skip_ws b1 with
    | c :: b2 =>
      if decide (c = ","%char) then '(l, b3) ← parse_elems n d b2; Some (v :: l, b3)
      else if decide (c = "]"%char) then Some ([v], b2)
      else None
    | [] => None
    end
  end
with parse_members (n : nat) (d : N) (b : bytes) : option (list (string * json) * bytes) :=
  match n with
  | O => None
  | S n =>
    match skip_ws b with
    | c :: b1 =>
      if decide (c = jquote) then
        '(k, b2) ← parse_str 0 b1;
        match skip_ws b2 with
        | c2 :: b3 =>
          if decide (c2 = ":"%char) then
            '(v, b4) ← parse_value n d b3;
            match skip_ws b4 with
            | c3 :: b5 =>
              if decide (c3 = ","%char) then
                '(ms, b6) ← parse_members n d b5; Some ((of_bytes k, v) :: ms, b6)
              else if decide (c3 = "}"%char) then Some ([(of_bytes k, v)], b5)
              else None
            | [] => None
            end
          else None
        | [] => None
        end
      else None
    | [] => None
    end
  end.

(** [maxNestingDepth]. *)
Definition max_depth : N := 10000.

(** The first value of a text, as a [Decoder] reads it; and the value that is
    the whole text, as [Unmarshal] wants it. *)
Definition parse_first (text : string) : option json :=
  let b := to_bytes text in fst <$> parse_value (S (2 * length b)) max_depth b.
Definition parse (text : string) : option json :=
  let b := to_bytes text in
  '(v, rest) ← parse_value (S (2 * length b)) max_depth b;
  if decide (skip_ws rest = []) then Some v else None.

(** ** Lemmas *)

(** Induction with hypotheses for the elements and the members. *)
Lemma json_ind' (P : json → Prop) :
  P JNull → (∀ b, P (JBool b)) → (∀ l, P (JNumber l)) → (∀ s, P (JString s)) →
  (∀ l, Forall P l → P (JArray l)) → (∀ fs, Forall (P ∘ snd) fs → P (JObject fs)) →
  ∀ v, P v.
Proof.
  intros Hnull Hbool Hnum Hstr Harr Hobj. fix IH 1. 
  intros [|b|l|s|l|fs]; [done|apply Hbool|apply Hnum|apply Hstr|..].
  - apply Harr. induction l; constructor; [apply IH|done].
  - apply Hobj. induction fs as [|[k v] fs]; constructor; [apply IH|done].
Qed.

(** *** Strings *)

Lemma prepend_nil r : prepend [] r = r.
Proof. by destruct r as [[]|]. Qed.
Lemma prepend_app a b r : prepend a (prepend b r) = prepend (a ++ b) r.
Proof. destruct r as [[]|]; [|done]. simpl. by rewrite app_assoc. Qed.

(** Bytes of a rune already seen are taken as they are. *)
Lemma parse_str_keep e rest : parse_str (length e) (e ++ rest) = prepend e (parse_str 0 rest).
Proof.
  induction e as [|c e IH]; [by rewrite prepend_nil|]. cbn [parse_str length app].
  by rewrite IH, prepend_app.
Qed.

(** What [parse_str] does with a byte that neither ends nor escapes. *)
Lemma parse_str_rune e rest :
  one_rune e → Forall (λ c, c ≠ jquote ∧ c ≠ backslash ∧ ¬ (N_of_ascii c < 32)%N) e →
  parse_str 0 (e ++ rest) = prepend e (parse_str 0 rest).
Proof.
  intros He Hplain. pose proof (one_rune_app e rest He) as Hlen.
  destruct e as [|c e]; [by destruct He|]. apply Forall_cons in Hplain as [(Hq & Hb & Hc) _].
  cbn [parse_str app] in *. rewrite !decide_False by done. rewrite Hlen. simpl length. cbv iota beta.
  by rewrite parse_str_keep, prepend_app.
Qed.

(** The escape [\u00XY] of a byte below 0x80. *)
Definition u00_ok (c : ascii) : bool :=
  let n := N_of_ascii c in
  bool_decide (128 ≤ n)%N ||
  bool_decide (hex4 "0" "0" (lowerhex (n / 16)) (lowerhex (n mod 16)) = Some n) &&
  negb (is_surrogate n) && bool_decide (encode_rune n = [c]).
Lemma u00_spec c : u00_ok c = true.
Proof. revert c. apply byte_forall. by vm_compute. Qed.

Lemma parse_quote_char c rest :
  (N_of_ascii c < 128)%N → parse_str 0 (quote_char c ++ rest) = prepend [c] (parse_str 0 rest).
Proof.
  intros Hc. unfold quote_char.
  assert (∀ n, N_of_ascii c = n → c = byte_of n) as Hn.
  { intros n <-. symmetry. apply byte_of_N_of_ascii. }
  case_decide as H1; [by destruct H1 as [-> | ->]|].
  do 5 (case_decide as Hd; [by rewrite (Hn _ Hd)|clear Hd]).
  case_decide as H2.
  - pose proof (u00_spec c) as Hu. unfold u00_ok in Hu.
    rewrite bool_decide_false in Hu by lia. simpl orb in Hu.
    apply andb_true_iff in Hu as [[Hx Hs%negb_true_iff]%andb_true_iff He].
    apply bool_decide_eq_true in Hx, He.
    cbn [app to_bytes String.list_ascii_of_string parse_str].
    rewrite decide_False by done. rewrite decide_True by done. rewrite decide_True by done.
    by rewrite Hx, Hs, He.
  - apply (parse_str_rune [c]); [by apply ascii_rune|]. apply Forall_singleton.
    split_and!; [tauto..|lia].
Qed.

Lemma one_rune_high e : one_rune e → length e ≠ 1 → Forall (λ c, 128 ≤ N_of_ascii c)%N e.
Proof.
  assert (∀ c lo hi, in_range lo hi c = true → lo ≤ N_of_ascii c)%N as Hlo.
  { intros c lo hi [? _]%bool_decide_eq_true. done. }
  assert (∀ n k lo hi, accept n = Some (k, lo, hi) → 128 ≤ lo)%N as Hacc.
  { intros n k lo hi. unfold accept. repeat case_decide; intros; simplify_eq; lia. }
  intros [He Hne] Hl. destruct e as [|c e]; [done|]. unfold rune_len in He.
  case_decide as Hc; [congruence|]. apply Forall_cons. split; [lia|].
  destruct (accept _) as [[[k lo] hi]|] eqn:Ha; [|done]. pose proof (Hacc _ _ _ _ Ha).
  destruct k as [|[|[|[|k]]]], e as [|c1 [|c2 [|c3 e]]]; try done.
  all: repeat match goal with
    | H : context [if ?b then _ else _] |- _ => destruct b eqn:?; [|done]
    | H : _ && _ = true |- _ => apply andb_true_iff in H as [? ?]
    | H : in_range _ _ _ = true |- _ => apply Hlo in H
    | H : continues _ = true |- _ => apply Hlo in H
    end.
  all: try (simpl in He; lia).
  all: repeat (apply Forall_cons; split; [lia|]); try apply Forall_nil_2.
  all: by destruct e.
Qed.

Lemma parse_quote_rune r rest :
  match r with Rune e => one_rune e | Invalid _ => True end →
  parse_str 0 (quote_rune r ++ rest) = prepend (rune_bytes r) (parse_str 0 rest).
Proof.
  destruct r as [e|c]; [|done]. intros He. unfold quote_rune, rune_bytes.
  destruct e as [|c1 [|c2 e]]; [by destruct He| |].
  - apply parse_quote_char. destruct He as [He _]. unfold rune_len in He.
    case_decide; [lia|]. destruct (accept _) as [[[[|[|[|[|]]]] ?] ?]|]; done.
  - case_decide as Hd; [by rewrite Hd|clear Hd]. case_decide as Hd; [by rewrite Hd|]. apply parse_str_rune; [done|].
    eapply Forall_impl; [by apply one_rune_high|]. intros c Hc. cbv beta in Hc.
    split; [by intros ->|split; [by intros ->|lia]].
Qed.

(** A quoted string is read back, up to what was not UTF-8. *)
Lemma parse_quote s rest :
  parse_str 0 ((runes s ≫= quote_rune) ++ jquote :: rest) = Some (to_bytes (to_valid s), rest).
Proof.
  unfold to_valid. rewrite to_of_bytes. unfold runes.
  induction (range_one_rune (to_bytes s)) as [|r rs Hr _ IH]; [done|].
  rewrite !bind_cons, <-app_assoc, parse_quote_rune, IH by done. done.
Qed.

(** *** Numbers *)

(** A literal of the grammar. *)
Definition number_ok (l : string) : bool :=
  bool_decide (parse_number (to_bytes l) = Some (to_bytes l, [])).

(** Text that does not continue a number. *)
Definition stops (rest : bytes) : Prop :=
  match rest with [] => True | c :: _ => is_digit c = false ∧ c ∉ ["."; "e"; "E"]%char end.

(** A part of a number is read the same when something follows that does not
    continue it. *)
Definition extends (p : bytes → option (bytes * bytes)) : Prop :=
  ∀ b x r rest, p b = Some (x, r) → r ≠ [] ∨ stops rest → p (b ++ rest) = Some (x, r ++ rest).

Lemma span_digits_app b ds r rest :
  span_digits b = (ds, r) → r ≠ [] ∨ stops rest → span_digits (b ++ rest) = (ds, r ++ rest).
Proof.
  revert ds r. induction b as [|c b IH]; intros ds r; simpl.
  - intros [= <- <-] [?|Hs]; [done|]. destruct rest as [|c rest]; [done|]. simpl.
    by destruct Hs as [-> _].
  - destruct (is_digit c) eqn:Hc; [|by intros [= <- <-]].
    destruct (span_digits b) as [ds' r'] eqn:Hs. intros [= <- <-] Hr. by rewrite (IH ds' r').
Qed.

Lemma digits1_extends : extends digits1.
Proof.
  intros b x r rest. unfold digits1. destruct (span_digits b) as [ds r'] eqn:Hs.
  intros Hx Hr. assert ((ds, r') = (x, r)) as [= -> ->] by (destruct ds; congruence).
  rewrite (span_digits_app _ _ _ _ Hs Hr). destruct x; [done|done].
Qed.

Lemma prepend_inv a p x r : prepend a p = Some (x, r) → ∃ y, p = Some (y, r) ∧ x = a ++ y.
Proof. destruct p as [[y r']|]; [|done]. intros [= <- <-]. eauto. Qed.

Lemma parse_int_extends : extends parse_int.
Proof.
  intros [|c b] x r rest; [done|]. cbn [parse_int app]. case_decide; [by intros [= <- <-]|].
  apply (digits1_extends (c :: b)).
Qed.

Lemma parse_frac_extends : extends parse_frac.
Proof.
  intros [|c b] x r rest; cbn [parse_frac app].
  - intros [= <- <-] [?|Hs]; [done|]. destruct rest as [|c rest]; [done|].
    cbn [parse_frac parse_exp app]. rewrite decide_False; [done|]. intros ->. destruct Hs as [_ []]. left.
  - case_decide; [|by intros [= <- <-]]. intros (y & Hy & ->)%prepend_inv Hr.
    by rewrite (digits1_extends _ _ _ rest Hy Hr).
Qed.

Lemma parse_exp_extends : extends parse_exp.
Proof.
  intros [|c b] x r rest; cbn [parse_exp app].
  - intros [= <- <-] [?|Hs]; [done|]. destruct rest as [|c rest]; [done|].
    cbn [parse_frac parse_exp app]. rewrite decide_False; [done|]. intros Hin. destruct Hs as [_ []]. by right.
  - case_decide; [|by intros [= <- <-]]. destruct b as [|c' b]; [done|]. cbn [parse_sign app].
    destruct (decide (c' ∈ ["+"; "-"]%char)); intros (y & Hy & ->)%prepend_inv Hr.
    + by rewrite (digits1_extends _ _ _ rest Hy Hr).
    + pose proof (digits1_extends (c' :: b) _ _ rest Hy Hr) as Hd. cbn [app] in Hd. by rewrite Hd.
Qed.

Lemma parse_number_extends : extends parse_number.
Proof.
  intros b x r rest. unfold parse_number.
  destruct (parse_sign ["-"%char] b) as [sign b1] eqn:Hsign.
  intros ([int b2] & Hint & ([frac b3] & Hfrac & ([exp b4] & Hexp & [= <- <-])%bind_Some)%bind_Some)%bind_Some Hr.
  assert (b3 ≠ [] ∨ stops rest) as Hr3.
  { destruct b3; [|by left]. injection Hexp as <- <-. exact Hr. }
  assert (b2 ≠ [] ∨ stops rest) as Hr2.
  { destruct b2; [|by left]. injection Hfrac as <- <-. exact Hr3. }
  assert (parse_sign ["-"%char] (b ++ rest) = (sign, b1 ++ rest)) as ->.
  { destruct b as [|c b]; [by simpl in Hsign; simplify_eq|]. cbn [parse_sign app] in *.
    case_decide; by simplify_eq. }
  rewrite (parse_int_extends _ _ _ _ Hint Hr2). simpl.
  rewrite (parse_frac_extends _ _ _ _ Hfrac Hr3). simpl.
  by rewrite (parse_exp_extends _ _ _ _ Hexp Hr).
Qed.

Lemma parse_number_first c b x r :
  parse_number (c :: b) = Some (x, r) → c = "-"%char ∨ is_digit c = true.
Proof.
  unfold parse_number. cbn [parse_sign]. case_decide as Hc.
  { left. by apply list_elem_of_singleton in Hc. }
  right. cbn [parse_int] in *. case_decide; [by subst|]. unfold digits1 in *. simpl in *.
  by destruct (is_digit c).
Qed.

Lemma number_ok_app l rest :
  number_ok l = true → stops rest → parse_number (to_bytes l ++ rest) = Some (to_bytes l, rest).
Proof. intros Hl%bool_decide_eq_true Hr. apply (parse_number_extends _ _ _ rest Hl). by right. Qed.

(** *** Values *)

(** The value that the text of a value holds: its strings made valid. *)
Fixpoint coerce (v : json) : json :=
  match v with
  | JString s => JString (to_valid s)
  | JArray l => JArray (coerce <$> l)
  | JObject fields => JObject ((λ kv, (to_valid kv.1, coerce kv.2)) <$> fields)
  | _ => v
  end.

(** Its numbers are literals, and it is not nested deeper than [d]. *)
Fixpoint printable (d : N) (v : json) : bool :=
  match v with
  | JNumber l => number_ok l
  | JArray l => bool_decide (d ≠ 0)%N && forallb (printable (d - 1)) l
  | JObject fields => bool_decide (d ≠ 0)%N && forallb (λ kv, printable (d - 1) kv.2) fields
  | _ => true
  end.

(** The parser's steps on the text of a value. *)
Fixpoint cost (v : json) : nat :=
  match v with
  | JArray l => S (sum_list_with (λ v, S (cost v)) l)
  | JObject fields => S (sum_list_with (λ kv, S (cost kv.2)) fields)
  | _ => 1
  end.

(** The bytes that a value cannot start with. *)
Definition starts_none (c : ascii) : bool :=
  is_space c || bool_decide (c ∈ ["]"; "}"; ","]%char).
Lemma digit_starts c : negb (is_digit c && starts_none c) = true.
Proof. revert c. apply byte_forall. by vm_compute. Qed.

(** The first byte of a value. *)
Lemma print_first d v rest : printable d v = true →
  ∃ c b, print v ++ rest = c :: b ∧ starts_none c = false.
Proof.
  destruct v as [|[]|l|s|l|fs]; intros Hv; try (eexists _, _; split; reflexivity).
  simpl in Hv. apply bool_decide_eq_true in Hv. cbn [print].
  destruct (to_bytes l) as [|c b] eqn:Hl; [done|]. exists c, (b ++ rest). split; [done|].
  apply parse_number_first in Hv as [->|Hc]; [done|].
  pose proof (digit_starts c) as Hn. rewrite Hc in Hn. by apply negb_true_iff in Hn.
Qed.

Lemma skip_ws_print d v rest : printable d v = true → skip_ws (print v ++ rest) = print v ++ rest.
Proof.
  intros Hv. destruct (print_first d v rest Hv) as (c & b & -> & Hc).
  apply orb_false_iff in Hc as [Hc _]. simpl. by rewrite Hc.
Qed.

(** *** The round trip *)

Definition reads (v : json) : Prop := ∀ n d rest,
  printable d v = true → cost v ≤ n → stops rest →
  parse_value n d (print v ++ rest) = Some (coerce v, rest).

Lemma skip_ws_solid c b : is_space c = false → skip_ws (c :: b) = c :: b.
Proof. intros Hc. simpl. by rewrite Hc. Qed.

Lemma stops_solid c rest :
  is_digit c || bool_decide (c ∈ ["."; "e"; "E"]%char) = false → stops (c :: rest).
Proof. intros [Hd Hc%bool_decide_eq_false]%orb_false_iff. by split. Qed.

(** A number is told from the other values by its first byte. *)
Lemma number_dispatch c :
  (bool_decide (c = "-"%char) || is_digit c) &&
  bool_decide (c ∈ ["{"; "["; jquote; "t"; "f"; "n"]%char) = false.
Proof.
  apply negb_true_iff. revert c. apply (byte_forall (λ c, negb (_ && _))). by vm_compute.
Qed.

Lemma reads_number l : reads (JNumber l).
Proof.
  intros n d rest Hl Hn Hr. destruct n as [|n]; [simpl in Hn; lia|].
  cbn [parse_value]. rewrite (skip_ws_print d) by done. cbn [print coerce] in *.
  simpl in Hl. pose proof (number_ok_app l rest Hl Hr) as Hp. apply bool_decide_eq_true in Hl.
  destruct (to_bytes l) as [|c b] eqn:Hb; [done|]. cbn [app] in *.
  pose proof (number_dispatch c) as Hc.
  assert (bool_decide (c = "-"%char) || is_digit c = true) as Hf.
  { apply parse_number_first in Hl as [->|Hd]; [done|]. rewrite Hd. apply orb_true_r. }
  rewrite Hf in Hc. simpl andb in Hc. apply bool_decide_eq_false in Hc.
  rewrite !not_elem_of_cons in Hc. destruct Hc as (? & ? & ? & ? & ? & ? & _).
  rewrite !decide_False by done. rewrite Hp. cbn [mbind option_bind]. by rewrite <-Hb, of_to_bytes.
Qed.

Lemma reads_string s : reads (JString s).
Proof.
  intros n d rest _ Hn _. destruct n as [|n]; [simpl in Hn; lia|].
  cbn [print coerce]. unfold quote. cbn [parse_value app]. rewrite skip_ws_solid by done.
  rewrite !decide_False, decide_True by done. rewrite <-app_assoc. cbn [app].
  rewrite parse_quote. cbn. by rewrite of_to_bytes.
Qed.

Lemma join_bytes_more sep b l : l ≠ [] → join_bytes sep (b :: l) = b ++ sep ++ join_bytes sep l.
Proof. by destruct l. Qed.

Lemma parse_elems_print l n d rest :
  l ≠ [] → Forall reads l → forallb (printable d) l = true →
  sum_list_with (λ v, S (cost v)) l ≤ n →
  parse_elems n d (join_bytes [","%char] (print <$> l) ++ "]"%char :: rest) = Some (coerce <$> l, rest).
Proof.
  intros Hne Hl. revert n Hne. induction Hl as [|v l Hv Hl IH]; intros n Hne; [done|].
  cbn [forallb sum_list_with]. intros [Hpv Hpl]%andb_true_iff Hn.
  destruct n as [|n]; [lia|]. cbn [parse_elems]. rewrite !fmap_cons.
  destruct (decide (l = [])) as [->|Hl'].
  - cbn [join_bytes fmap list_fmap]. rewrite Hv; [|done|lia|by apply stops_solid]. by cbn.
  - rewrite join_bytes_more by (by destruct l). rewrite <-!app_assoc.
    rewrite Hv; [|done|lia|by apply stops_solid]. cbn [mbind option_bind app].
    rewrite skip_ws_solid, decide_True, IH by (done || lia). done.
Qed.

Lemma parse_members_print fs n d rest :
  fs ≠ [] → Forall (reads ∘ snd) fs → forallb (λ kv, printable d kv.2) fs = true →
  sum_list_with (λ kv, S (cost kv.2)) fs ≤ n →
  parse_members n d
    (join_bytes [","%char] ((λ kv, quote kv.1 ++ ":"%char :: print kv.2) <$> fs) ++ "}"%char :: rest) =
  Some ((λ kv, (to_valid kv.1, coerce kv.2)) <$> fs, rest).
Proof.
  intros Hne Hl. revert n Hne. induction Hl as [|[k v] fs Hv Hl IH]; intros n Hne; [done|].
  cbn [forallb sum_list_with]. intros [Hpv Hpl]%andb_true_iff Hn. simpl in Hv, Hpv, Hn.
  destruct n as [|n]; [lia|]. cbn [parse_members]. rewrite !fmap_cons. cbn [fst snd].
  assert (∀ tail, skip_ws ((quote k ++ ":"%char :: print v) ++ tail) =
    jquote :: (runes k ≫= quote_rune) ++ jquote :: ":"%char :: print v ++ tail) as Hq.
  { intros tail. unfold quote. cbn [app]. rewrite skip_ws_solid by done.
    by rewrite <-!app_assoc. }
  destruct (decide (fs = [])) as [->|Hl'].
  - cbn [join_bytes fmap list_fmap]. rewrite Hq, decide_True, parse_quote by done.
    cbn [mbind option_bind]. rewrite skip_ws_solid, decide_True by done.
    rewrite Hv; [|done|lia|by apply stops_solid].
    cbn [mbind option_bind]. rewrite skip_ws_solid, decide_False, decide_True by done.
    by rewrite of_to_bytes.
  - rewrite join_bytes_more by (by destruct fs). rewrite <-app_assoc.
    rewrite Hq, decide_True, parse_quote by done.
    cbn [mbind option_bind]. rewrite skip_ws_solid, decide_True by done. rewrite <-app_assoc.
    rewrite Hv; [|done|lia|by apply stops_solid].
    cbn [mbind option_bind app]. rewrite skip_ws_solid, decide_True, IH by (done || lia).
    by rewrite of_to_bytes.
Qed.

(** The text of an array or an object after its opening byte does not look
    like the end of it. *)
Lemma join_first d v vs rest : printable d v = true →
  ∃ c b, join_bytes [","%char] (print <$> v :: vs) ++ rest = c :: b ∧ starts_none c = false.
Proof.
  intros Hv. rewrite fmap_cons. destruct (decide (vs = [])) as [->|Hvs].
  - by apply (print_first d).
  - rewrite join_bytes_more, <-app_assoc by (by destruct vs). by apply (print_first d).
Qed.

Lemma members_first k v fs rest :
  ∃ b, join_bytes [","%char] ((λ kv, quote kv.1 ++ ":"%char :: print kv.2) <$> (k, v) :: fs) ++ rest =
    jquote :: b.
Proof.
  rewrite fmap_cons. destruct (decide (fs = [])) as [->|Hfs]; [by eexists|].
  rewrite join_bytes_more by (by destruct fs). by eexists.
Qed.

Lemma reads_print v : reads v.
Proof.
  induction v as [|[]|l|s|l IH|fs IH] using json_ind'.
  - intros [|n] d rest _ Hn _; [simpl in Hn; lia|done].
  - intros [|n] d rest _ Hn _; [simpl in Hn; lia|done].
  - intros [|n] d rest _ Hn _; [simpl in Hn; lia|done].
  - apply reads_number.
  - apply reads_string.
  - intros [|n] d rest [Hd%bool_decide_eq_true Hl]%andb_true_iff Hn _; [simpl in Hn; lia|].
    cbn [parse_value]. cbn [print app]. rewrite skip_ws_solid by done.
    rewrite decide_False, decide_True, decide_False by done.
    destruct l as [|v l]; [done|]. pose proof (parse_elems_print (v :: l) n (d - 1) rest) as He.
    rewrite <-app_assoc. cbn [app]. assert (He' := He ltac:(done) IH Hl ltac:(simpl in *; lia)).
    simpl in Hl. apply andb_true_iff in Hl as [Hv _].
    destruct (join_first (d - 1) v l ("]"%char :: rest) Hv) as (c & b & Hcb & Hc).
    rewrite Hcb. apply orb_false_iff in Hc as [Hs Hc%bool_decide_eq_false].
    rewrite skip_ws_solid, decide_False by (done || intros ->; apply Hc; left). by rewrite <-Hcb, He'.
  - intros [|n] d rest [Hd%bool_decide_eq_true Hl]%andb_true_iff Hn _; [simpl in Hn; lia|].
    cbn [parse_value]. cbn [print app]. rewrite skip_ws_solid by done.
    rewrite decide_True, decide_False by done.
    destruct fs as [|[k v] fs]; [done|].
    pose proof (parse_members_print ((k, v) :: fs) n (d - 1) rest) as He.
    rewrite <-app_assoc. cbn [app]. assert (He' := He ltac:(done) IH Hl ltac:(simpl in *; lia)).
    destruct (members_first k v fs ("}"%char :: rest)) as [b Hb]. rewrite Hb.
    rewrite skip_ws_solid, decide_False by done. by rewrite <-Hb, He'.
Qed.

Lemma join_length sep l : sum_list_with length l ≤ length (join_bytes sep l).
Proof.
  induction l as [|b l IH]; [done|]. destruct (decide (l = [])) as [->|Hl].
  - simpl. lia.
  - rewrite join_bytes_more, !length_app by done. simpl. lia.
Qed.

Lemma sum_list_mono {A B} (f : A → nat) (g : B → nat) (h : A → B) l :
  Forall (λ x, f x ≤ g (h x)) l → sum_list_with f l ≤ sum_list_with g (h <$> l).
Proof. induction 1 as [|x l Hx _ IH]; [done|]. rewrite fmap_cons. simpl in *. lia. Qed.

Lemma sum_list_double {A} (f : A → nat) l :
  sum_list_with (λ x, 2 * f x) l = 2 * sum_list_with f l.
Proof. induction l as [|x l IH]; simpl in *; lia. Qed.

(** The text of a value is long enough to be read. *)
Lemma cost_length d v : printable d v = true → S (cost v) ≤ 2 * length (print v).
Proof.
  revert d. induction v as [|[]|l|s|l IH|fs IH] using json_ind'; intros d Hv; try (simpl; lia).
  - simpl in *. apply bool_decide_eq_true in Hv. destruct (to_bytes l); [done|simpl; lia].
  - simpl in Hv. apply andb_true_iff in Hv as [_ Hv]. cbn [print cost].
    rewrite length_cons, length_app. pose proof (join_length [","%char] (print <$> l)) as Hj.
    assert (sum_list_with (λ v, S (cost v)) l ≤ sum_list_with (λ b, 2 * length b) (print <$> l)) as Hs.
    { apply sum_list_mono. rewrite forallb_forall in Hv. rewrite Forall_forall in *.
      intros v Hin. apply (IH v Hin (d - 1)%N), Hv. by apply list_elem_of_In. }
    rewrite sum_list_double in Hs. simpl. lia.
  - simpl in Hv. apply andb_true_iff in Hv as [_ Hv]. cbn [print cost].
    rewrite length_cons, length_app. set (f := λ kv : string * json, quote kv.1 ++ ":"%char :: print kv.2).
    pose proof (join_length [","%char] (f <$> fs)) as Hj.
    assert (sum_list_with (λ kv, S (cost kv.2)) fs ≤ sum_list_with (λ b, 2 * length b) (f <$> fs)) as Hs.
    { apply sum_list_mono. rewrite forallb_forall in Hv. rewrite Forall_forall in *.
      intros kv Hin. unfold f. rewrite length_app, length_cons.
      pose proof (IH kv Hin (d - 1)%N (Hv kv ltac:(by apply list_elem_of_In))). simpl in *. lia. }
    rewrite sum_list_double in Hs. simpl. lia.
Qed.

(** What [Marshal] writes is read back by [Unmarshal], and what an [Encoder]
    writes by a [Decoder], whatever follows. *)
Lemma parse_Marshal v : printable max_depth v = true → parse (Marshal v) = Some (coerce v).
Proof.
  intros Hv. unfold parse, Marshal. rewrite to_of_bytes.
  pose proof (cost_length _ _ Hv). pose proof (reads_print v (S (2 * length (print v))) max_depth []) as Hr.
  rewrite app_nil_r in Hr. rewrite Hr; [done|done|lia|done].
Qed.

Lemma parse_first_app v rest : printable max_depth v = true → stops (to_bytes rest) →
  parse_first (Marshal v +:+ rest) = Some (coerce v).
Proof.
  intros Hv Hr. unfold parse_first, Marshal. rewrite to_bytes_app, to_of_bytes.
  pose proof (cost_length _ _ Hv). rewrite reads_print; [done|done| |done].
  rewrite length_app. lia.
Qed.

Lemma parse_first_Encode v : printable max_depth v = true → parse_first (Encode v) = Some (coerce v).
Proof.
  intros Hv. replace (Encode v) with (Marshal v +:+ of_bytes ["010"%char]).
  - apply parse_first_app; [done|]. by apply stops_solid.
  - unfold Encode, Marshal. apply to_bytes_inj. by rewrite to_bytes_app, !to_of_bytes.
Qed.

(** *** Fuel

    A step of the parser needs a byte: with more fuel than twice the length of
    a text, the outcome does not depend on it. *)
Definition shortens {A} (p : bytes → option (A * bytes)) : Prop :=
  ∀ b x r, p b = Some (x, r) → length r < length b.

Lemma skip_ws_length b : length (skip_ws b) ≤ length b.
Proof. induction b as [|c b IH]; [done|]. simpl. destruct (is_space c); simpl; lia. Qed.

Lemma parse_str_length n keep b x r : length b ≤ n → parse_str keep b = Some (x, r) → length r < length b.
Proof.
  revert keep b x r. induction n as [|n IH]; intros keep [|c b] x r Hb; simpl in Hb; try done; [lia|].
  assert (∀ keep' a b' x' r', length b' ≤ length b → prepend a (parse_str keep' b') = Some (x', r') →
    length r' < S (length b)) as Hprep.
  { intros keep' a b' x' r' Hb' (y & Hy & _)%prepend_inv. apply IH in Hy; lia. }
  cbn [parse_str length]. destruct keep as [|k]; [|by apply Hprep].
  case_decide; [intros [= _ <-]; lia|]. case_decide; [|case_decide; [done|]; by destruct (rune_len _); apply Hprep].
  destruct b as [|e b]; [done|]. case_decide; [|destruct (unescape_char e); [apply Hprep; simpl; lia|done]].
  destruct b as [|h1 [|h2 [|h3 [|h4 b]]]]; try done. destruct (hex4 h1 h2 h3 h4) as [u|]; [|done].
  destruct (is_surrogate u); [|apply Hprep; simpl; lia].
  destruct b as [|c' [|u' [|g1 [|g2 [|g3 [|g4 b]]]]]]; try (apply Hprep; simpl; lia).
  destruct (if decide _ then _ else _); apply Hprep; simpl; lia.
Qed.

Lemma digits1_length : shortens digits1.
Proof.
  intros b x r. unfold digits1. destruct (span_digits b) as [ds r'] eqn:Hs. intros Hx.
  assert (ds ++ r' = b) as <-.
  { clear Hx. revert ds r' Hs. induction b as [|c b IH]; intros ds r'; simpl; [by intros [= <- <-]|].
    destruct (is_digit c); [|by intros [= <- <-]]. destruct (span_digits b) as [ds' r''].
    intros [= <- <-]. simpl. f_equal. by apply IH. }
  destruct ds as [|c ds]; [done|]. injection Hx as <- <-. rewrite length_app. simpl. lia.
Qed.

Lemma parse_number_length : shortens parse_number.
Proof.
  intros b x r. unfold parse_number. destruct (parse_sign ["-"%char] b) as [sign b1] eqn:Hsign.
  assert (length b1 ≤ length b) as H1.
  { destruct b as [|c b]; simpl in Hsign; [by simplify_eq|]. case_decide; simplify_eq/=; lia. }
  intros ([int b2] & Hint & ([frac b3] & Hfrac & ([exp b4] & Hexp & [= _ <-])%bind_Some)%bind_Some)%bind_Some.
  assert (length b2 < length b1) as H2.
  { destruct b1 as [|c b1]; [done|]. cbn [parse_int] in Hint. case_decide; [simplify_eq/=; lia|].
    by apply digits1_length in Hint. }
  assert (length b3 ≤ length b2) as H3.
  { destruct b2 as [|c b2]; [by simplify_eq/=|]. cbn [parse_frac] in Hfrac. case_decide; [|by simplify_eq/=].
    apply prepend_inv in Hfrac as (y & Hy & _). apply digits1_length in Hy. simpl. lia. }
  destruct b3 as [|c b3]; [simplify_eq/=; lia|]. cbn [parse_exp] in Hexp.
  case_decide; [|simplify_eq/=; lia]. destruct (parse_sign _ b3) as [sign' b3'] eqn:Hs'.
  assert (length b3' ≤ length b3) as H4.
  { destruct b3 as [|c' b3]; simpl in Hs'; [by simplify_eq|]. case_decide; simplify_eq/=; lia. }
  apply prepend_inv in Hexp as (y & Hy & _). apply digits1_length in Hy. simpl in *. lia.
Qed.

Lemma strip_length p b r : strip p b = Some r → length b = length p + length r.
Proof.
  revert b. induction p as [|c p IH]; intros [|c' b]; simpl; [by intros [= <-]..|done|].
  case_decide; [|done]. intros Hs. by rewrite (IH b).
Qed.

Lemma parse_word_length word v : word ≠ "" → shortens (parse_word word v).
Proof.
  intros Hw b x r. unfold parse_word. intros (r' & Hr%strip_length & [= _ <-])%bind_Some.
  rewrite length_to_bytes in Hr. destruct word; [done|]. simpl in Hr. lia.
Qed.

Lemma parse_length n :
  (∀ d, shortens (parse_value n d)) ∧ (∀ d, shortens (parse_elems n d)) ∧ (∀ d, shortens (parse_members n d)).
Proof.
  induction n as [|n (IHv & IHe & IHm)]; [done|]. split_and!; intros d b x r.
  - cbn [parse_value]. pose proof (skip_ws_length b) as Hlen. destruct (skip_ws b) as [|c b1]; [done|].
    simpl in Hlen. case_decide.
    { case_decide; [done|]. pose proof (skip_ws_length b1). destruct (skip_ws b1) as [|c2 b2]; [done|].
      simpl in *. case_decide; [intros [= _ <-]; lia|].
      intros ([ms b3] & Hm%IHm & [= _ <-])%bind_Some. simpl in *. lia. }
    case_decide.
    { case_decide; [done|]. pose proof (skip_ws_length b1). destruct (skip_ws b1) as [|c2 b2]; [done|].
      simpl in *. case_decide; [intros [= _ <-]; lia|].
      intros ([ms b3] & Hm%IHe & [= _ <-])%bind_Some. simpl in *. lia. }
    case_decide.
    { intros ([s b2] & Hs & [= _ <-])%bind_Some. apply (parse_str_length (length b1)) in Hs; lia. }
    do 3 (case_decide; [intros Hw%parse_word_length; [simpl in *; lia|done]|]).
    intros ([l b2] & Hl%parse_number_length & [= _ <-])%bind_Some. simpl in *. lia.
  - cbn [parse_elems]. intros ([v b1] & Hv%IHv & Hr)%bind_Some. pose proof (skip_ws_length b1).
    destruct (skip_ws b1) as [|c b2]; [done|]. simpl in *. case_decide.
    + apply bind_Some in Hr as ([l b3] & Hl%IHe & [= _ <-]). lia.
    + case_decide; [|done]. injection Hr as _ <-. lia.
  - cbn [parse_members]. pose proof (skip_ws_length b) as Hlen. destruct (skip_ws b) as [|c b1]; [done|].
    simpl in Hlen. case_decide; [|done]. intros ([k b2] & Hk & Hr)%bind_Some.
    apply (parse_str_length (length b1)) in Hk; [|lia]. pose proof (skip_ws_length b2).
    destruct (skip_ws b2) as [|c2 b3]; [done|]. simpl in *. case_decide; [|done].
    apply bind_Some in Hr as ([v b4] & Hv%IHv & Hr). pose proof (skip_ws_length b4).
    destruct (skip_ws b4) as [|c3 b5]; [done|]. simpl in *. case_decide.
    + apply bind_Some in Hr as ([ms b6] & Hm%IHm & [= _ <-]). lia.
    + case_decide; [|done]. injection Hr as _ <-. lia.
Qed.

(** Two amounts of fuel that are enough are the same. *)
Lemma parse_fuel n m :
  (∀ d b, 2 * length b < n → 2 * length b < m → parse_value n d b = parse_value m d b) ∧
  (∀ d b, S (2 * length b) < n → S (2 * length b) < m → parse_elems n d b = parse_elems m d b) ∧
  (∀ d b, S (2 * length b) < n → S (2 * length b) < m → parse_members n d b = parse_members m d b).
Proof.
  revert m. induction n as [|n IH]; [intros m; split_and!; intros; lia|].
  intros [|m]; [split_and!; intros; lia|].
  destruct (IH m) as (IHv & IHe & IHm).
  split_and!; intros d b Hn Hm; cbn [parse_value parse_elems parse_members].
  - pose proof (skip_ws_length b) as Hlen. destruct (skip_ws b) as [|c b1]; [done|].
    pose proof (skip_ws_length b1) as Hlen1. simpl in Hlen.
    case_decide; [|case_decide; [|done]]; (case_decide; [done|]);
      (destruct (skip_ws b1) as [|c2 b2]; [done|]); (case_decide; [done|]).
    + by rewrite IHm by (simpl in *; lia).
    + by rewrite IHe by (simpl in *; lia).
  - rewrite IHv by lia. destruct (parse_value m d b) as [[v b1]|] eqn:Hv; [|done].
    apply (proj1 (parse_length m)) in Hv. simpl. pose proof (skip_ws_length b1) as Hlen.
    destruct (skip_ws b1) as [|c b2]; [done|]. simpl in Hlen. by rewrite IHe by lia.
  - pose proof (skip_ws_length b) as Hlen. destruct (skip_ws b) as [|c b1]; [done|].
    simpl in Hlen. case_decide; [|done]. destruct (parse_str 0 b1) as [[k b2]|] eqn:Hk; [|done].
    apply (parse_str_length (length b1)) in Hk; [|lia]. simpl. pose proof (skip_ws_length b2) as Hlen2.
    destruct (skip_ws b2) as [|c2 b3]; [done|]. simpl in Hlen2. case_decide; [|done].
    rewrite IHv by lia. destruct (parse_value m d b3) as [[v b4]|] eqn:Hv; [|done].
    apply (proj1 (parse_length m)) in Hv. simpl. pose proof (skip_ws_length b4) as Hlen4.
    destruct (skip_ws b4) as [|c3 b5]; [done|]. simpl in Hlen4. by rewrite IHm by lia.
Qed.

(** [parse] and [parse_first] have enough. *)
Lemma parse_value_fuel n d b :
  S (2 * length b) ≤ n → parse_value n d b = parse_value (S (2 * length b)) d b.
Proof. intros Hn. apply parse_fuel; lia. Qed.

(** *** Integers *)

Lemma span_all b : forallb is_digit b = true → span_digits b = (b, []).
Proof. induction b as [|c b IH]; [done|]. simpl. intros [-> Hb]%andb_true_iff. by rewrite (IH Hb). Qed.

Lemma pretty_digit n : (n < 10)%N → is_digit (pretty_N_char n) = true.
Proof.
  intros Hn. apply (N_forall_below 10 (λ n, is_digit (pretty_N_char n))); [by vm_compute|done].
Qed.
Lemma pretty_nonzero n : n ≠ 0%N → pretty_N_char n ≠ "0"%char.
Proof. intros Hz. unfold pretty_N_char. by repeat case_match. Qed.

(** A positive number is written with digits, the first of which is not 0. *)
Lemma pretty_N_go_digits n s : (0 < n)%N →
  ∃ c r, to_bytes (pretty_N_go n s) = c :: r ++ to_bytes s ∧ is_digit c = true ∧ c ≠ "0"%char ∧
    forallb is_digit r = true.
Proof.
  revert s. induction (N.lt_wf_0 n) as [n _ IH]. intros s Hn.
  rewrite pretty_N_go_step by done. pose proof (N.mod_lt n 10 ltac:(lia)) as Hmod.
  destruct (decide (n / 10 = 0)%N) as [Hz|Hz].
  - rewrite Hz, pretty_N_go_0. pose proof (N.div_mod n 10 ltac:(lia)).
    exists (pretty_N_char (n mod 10)), []. split_and!; [done|by apply pretty_digit| |done].
    apply pretty_nonzero. lia.
  - destruct (IH (n / 10)%N (N.div_lt n 10 ltac:(lia) ltac:(lia)) (String (pretty_N_char (n mod 10)) s)
      (proj1 (N.neq_0_lt_0 _) Hz))
      as (c & r & -> & Hc & Hc0 & Hr).
    exists c, (r ++ [pretty_N_char (n mod 10)]). split_and!; [by rewrite <-app_assoc|done..|].
    rewrite forallb_app, Hr. simpl. by rewrite pretty_digit.
Qed.

Lemma pretty_digits n : (0 < n)%N →
  ∃ c r, to_bytes (pretty n) = c :: r ∧ is_digit c = true ∧ c ≠ "0"%char ∧ forallb is_digit r = true.
Proof.
  intros Hn. unfold pretty, pretty_N. rewrite decide_False by lia.
  destruct (pretty_N_go_digits n "" Hn) as (c & r & -> & ?). rewrite app_nil_r. by exists c, r.
Qed.

Lemma number_ok_Itoa z : number_ok (Itoa z) = true.
Proof.
  apply bool_decide_eq_true. unfold Itoa.
  assert (∀ n, (0 < n)%N → ∃ c r, to_bytes (pretty n) = c :: r ∧ c ∉ ["-"%char] ∧
    parse_int (c :: r) = Some (c :: r, [])) as Hpos.
  { intros n Hn. destruct (pretty_digits n Hn) as (c & r & Hb & Hc & Hc0 & Hr). exists c, r.
    split_and!; [done|by intros ->%list_elem_of_singleton|]. cbn [parse_int].
    rewrite decide_False by done. unfold digits1. rewrite span_all; [done|]. simpl. by rewrite Hc. }
  destruct z as [|p|p]; [done|..].
  - destruct (Hpos (N.pos p) ltac:(lia)) as (c & r & Hb & Hc & Hp).
    change (to_bytes (pretty (Z.pos p))) with (to_bytes (pretty (N.pos p))).
    rewrite Hb. unfold parse_number, parse_sign. rewrite decide_False, Hp by done. simpl. by rewrite app_nil_r.
  - destruct (Hpos (N.pos p) ltac:(lia)) as (c & r & Hb & Hc & Hp).
    change (to_bytes (pretty (Z.neg p))) with ("-"%char :: to_bytes (pretty (N.pos p))). rewrite Hb.
    unfold parse_number, parse_sign. rewrite decide_True, Hp by left. simpl. by rewrite app_nil_r.
Qed.
