(* ===== verification/JsonBytes.v ===== *)
(** [encoding/json] on [map[string][]byte], the form in which [internal/types]
    stores claim mappings: an object of strings in base64, with sorted keys. *)
From S2P Require Import Prelude GoStrings Errors Base64 Query Utf8 JsonText.

(** ** Definitions *)

(** [base64.StdEncoding], whose alphabet ends otherwise than that of URLs. *)
Definition std_digit (c : ascii) : ascii :=
  if decide (c = "-"%char) then "+"%char else if decide (c = "_"%char) then "/"%char else c.
Definition url_digit (c : ascii) : ascii :=
  if decide (c = "+"%char) then "-"%char else if decide (c = "/"%char) then "_"%char else c.
Definition StdEncoding_EncodeToString (s : string) : string :=
  of_bytes (std_digit <$> encode_bytes true (to_bytes s)).
Definition StdEncoding_DecodeString (s : string) : option string :=
  if decide ("-"%char ∈ to_bytes s ∨ "_"%char ∈ to_bytes s) then None
  else of_bytes <$> decode_bytes (url_digit <$> to_bytes s).

Definition json_bytes_map (m : gmap string string) : json :=
  JObject ((λ k, (k, JString (StdEncoding_EncodeToString (default "" (m !! k))))) <$> sorted_keys m).

Definition json_Marshal (m : gmap string string) : string := Marshal (json_bytes_map m).

Definition json_error {A} : result A := Err (ExtError "json").

(** An element of an array that is decoded into bytes: a literal of an unsigned
    integer below 256; [null] leaves the zero that is there. *)
Definition decode_uint8 (v : json) : result ascii :=
  match v with
  | JNumber l =>
    match digits_value (to_bytes l) 0 with
    | Some n => if decide (n < 256)%Z then Ok (byte_of (Z.to_N n)) else json_error
    | None => json_error
    end
  | JNull => Ok "000"%char
  | _ => json_error
  end.

(** A value decoded into a [[]byte]. *)
Definition decode_bytes_value (v : json) : result string :=
  match v with
  | JString s => match StdEncoding_DecodeString s with Some b => Ok b | None => json_error end
  | JNull => Ok ""
  | JArray l => of_bytes <$> result_map decode_uint8 l
  | _ => json_error
  end.

(** [json.Unmarshal] into a map that was made: the first error, if there is
    one; the last of several values of a key. *)
Definition json_Unmarshal (text : string) : result (gmap string string) :=
  match parse text with
  | Some JNull => Ok ∅
  | Some (JObject fields) =>
    kvs ← result_map (λ kv : string * json, b ← decode_bytes_value kv.2; Ok (kv.1, b)) fields;
    Ok (foldl (λ m kv, <[kv.1 := kv.2]> m) ∅ kvs)
  | _ => json_error
  end.

(** ** Lemmas *)

(** A digit of the alphabet, or padding. *)
Definition base64_char (c : ascii) : bool := bool_decide (is_Some (dec6 c) ∨ c = pad_char).

Definition std_digit_ok (c : ascii) : bool :=
  negb (base64_char c) ||
  bool_decide (url_digit (std_digit c) = c ∧ std_digit c ≠ "-"%char ∧ std_digit c ≠ "_"%char) &&
  bool_decide (N_of_ascii (std_digit c) < 128)%N.
Lemma std_digit_spec c : std_digit_ok c = true.
Proof. revert c. apply byte_forall. by vm_compute. Qed.

Lemma encode_chars p src : Forall (λ c, base64_char c = true) (encode_bytes p src).
Proof.
  assert (∀ n, (n < 64)%N → base64_char (enc6 n) = true) as E.
  { intros n Hn. apply bool_decide_eq_true. left. destruct (enc6_spec n Hn) as [-> _]. by eexists. }
  assert (base64_char pad_char = true) as P by done.
  induction src as [|a|a b|a b c src IH] using list_ind3; [done|..]; cbn [encode_bytes app].
  - destruct (sextet_bounds (N_of_ascii a) 0 0) as (H1 & H2 & _); [apply N_of_ascii_lt|lia..|].
    rewrite N.add_0_r in H2. destruct p; repeat constructor; auto.
  - destruct (sextet_bounds (N_of_ascii a) (N_of_ascii b) 0) as (H1 & H2 & H3 & _);
      [apply N_of_ascii_lt..|lia|]. rewrite N.add_0_r in H3. destruct p; repeat constructor; auto.
  - destruct (sextet_bounds (N_of_ascii a) (N_of_ascii b) (N_of_ascii c)) as (H1 & H2 & H3 & H4);
      [apply N_of_ascii_lt..|]. repeat (constructor; [by auto|]). done.
Qed.

Lemma StdEncoding_roundtrip s : StdEncoding_DecodeString (StdEncoding_EncodeToString s) = Some s.
Proof.
  unfold StdEncoding_DecodeString, StdEncoding_EncodeToString. rewrite to_of_bytes.
  pose proof (encode_chars true (to_bytes s)) as Hall.
  assert (∀ c, c ∈ encode_bytes true (to_bytes s) →
    url_digit (std_digit c) = c ∧ std_digit c ≠ "-"%char ∧ std_digit c ≠ "_"%char) as Hc.
  { intros c Hin. rewrite Forall_forall in Hall. pose proof (std_digit_spec c) as Hs.
    unfold std_digit_ok in Hs. rewrite (Hall c Hin) in Hs. simpl orb in Hs.
    apply andb_true_iff in Hs as [Hs _]. by apply bool_decide_eq_true in Hs. }
  rewrite decide_False.
  - rewrite <-list_fmap_compose. rewrite (list_fmap_ext _ id), list_fmap_id.
    + pose proof (URLEncoding_roundtrip (to_bytes s)) as Hr.
      unfold URLEncoding_DecodeString, URLEncoding_EncodeToString in Hr. rewrite to_of_bytes in Hr.
      rewrite Hr. simpl. by rewrite of_to_bytes.
    + intros i c Hi. simpl. apply Hc. by eapply list_elem_of_lookup_2.
  - intros [(c & Hd & Hin)%list_elem_of_fmap|(c & Hd & Hin)%list_elem_of_fmap]; by destruct (Hc c Hin) as (_ & ? & ?).
Qed.

Lemma ValidString_ascii s : Forall (λ c, N_of_ascii c < 128)%N (to_bytes s) → ValidString s = true.
Proof.
  unfold ValidString, runes. induction 1 as [|c b Hc _ IH]; [done|].
  pose proof (range_rune [c] b (ascii_rune c Hc)) as Hr. cbn [app] in Hr. rewrite Hr. exact IH.
Qed.

Lemma StdEncoding_valid s : ValidString (StdEncoding_EncodeToString s) = true.
Proof.
  apply ValidString_ascii. unfold StdEncoding_EncodeToString. rewrite to_of_bytes.
  apply Forall_fmap. eapply Forall_impl; [apply encode_chars|]. intros c Hc. simpl.
  pose proof (std_digit_spec c) as Hs. unfold std_digit_ok in Hs. rewrite Hc in Hs.
  apply andb_true_iff in Hs as [_ Hs]. by apply bool_decide_eq_true in Hs.
Qed.

(** Inserting the pairs of a map, in any order, gives the map. *)
Lemma foldl_insert_keys {V} (m m0 : gmap string V) (l : list (string * V)) :
  (∀ k v, (k, v) ∈ l → m !! k = Some v) →
  ∀ k, foldl (λ m kv, <[kv.1 := kv.2]> m) m0 l !! k = if decide (k ∈ l.*1) then m !! k else m0 !! k.
Proof.
  revert m0. induction l as [|[k' v'] l IH]; intros m0 Hl k; [done|]. cbn [foldl fst snd].
  rewrite IH by (intros ???; apply Hl; by right). rewrite fmap_cons. simpl.
  destruct (decide (k ∈ l.*1)) as [Hin|Hin].
  - rewrite decide_True; [done|]. by right.
  - destruct (decide (k' = k)) as [->|Hne].
    + rewrite lookup_insert_eq, decide_True by left. symmetry. apply Hl. left.
    + rewrite lookup_insert_ne, decide_False; [done| |done].
      intros [?|?]%elem_of_cons; congruence.
Qed.

(** A map is read back when its keys are UTF-8; other keys are stored with
    U+FFFD in place of the bytes that are not. *)
Theorem json_bytes_roundtrip m :
  (∀ k, is_Some (m !! k) → ValidString k = true) → json_Unmarshal (json_Marshal m) = Ok m.
Proof.
  intros Hk. unfold json_Unmarshal, json_Marshal. rewrite parse_Marshal.
  2:{ unfold json_bytes_map. cbn [printable]. apply andb_true_iff. split; [done|].
      apply forallb_forall. intros [k v] (k' & [= _ ->] & _)%list_elem_of_In%list_elem_of_fmap. done. }
  unfold json_bytes_map. cbn [coerce]. rewrite <-list_fmap_compose.
  set (kvs := (λ k, (k, default "" (m !! k))) <$> sorted_keys m).
  match goal with |- context [result_map ?f ?l] => assert (result_map f l = Ok kvs) as -> end.
  { apply result_map_Ok. unfold kvs. rewrite Forall2_fmap. apply Forall_Forall2_diag, Forall_forall.
    intros k [v Hv]%sorted_keys_elem. simpl. rewrite (to_valid_id k) by (apply Hk; by eexists).
    rewrite to_valid_id by apply StdEncoding_valid. rewrite StdEncoding_roundtrip. done. }
  simpl. f_equal. apply map_eq. intros k. rewrite (foldl_insert_keys m).
  - unfold kvs. rewrite <-list_fmap_compose. simpl. destruct (decide _) as [_|Hin]; [done|].
    rewrite lookup_empty. destruct (m !! k) eqn:Hm; [|done]. exfalso. apply Hin.
    apply list_elem_of_fmap. exists k. split; [done|]. apply sorted_keys_elem. by eexists.
  - unfold kvs. intros k' v' (k'' & [= -> ->] & [v Hv]%sorted_keys_elem)%list_elem_of_fmap. by rewrite Hv.
Qed.
