(* ===== verification/Sha256.v ===== *)
(** Go's [crypto/sha256] (FIPS 180-4) and [encoding/hex], executable: the
    code derives subject IDs from [sha256.Sum256]. 32-bit words are [N]s kept
    below 2^32 by an explicit reduction after every addition and shift. *)
From S2P Require Import Prelude GoStrings.

Local Open Scope N_scope.

(** ** Definitions *)

Definition w32 (x : N) : N := N.land x 0xffffffff.
Definition add32 (x y : N) : N := w32 (x + y).
Definition rotr (n x : N) : N := N.lor (N.shiftr x n) (w32 (N.shiftl x (32 - n))).
Definition not32 (x : N) : N := N.lxor x 0xffffffff.

Definition ch (x y z : N) : N := N.lxor (N.land x y) (N.land (not32 x) z).
Definition maj (x y z : N) : N :=
  N.lxor (N.land x y) (N.lxor (N.land x z) (N.land y z)).
Definition big0 (x : N) : N := N.lxor (rotr 2 x) (N.lxor (rotr 13 x) (rotr 22 x)).
Definition big1 (x : N) : N := N.lxor (rotr 6 x) (N.lxor (rotr 11 x) (rotr 25 x)).
Definition small0 (x : N) : N :=
  N.lxor (rotr 7 x) (N.lxor (rotr 18 x) (N.shiftr x 3)).
Definition small1 (x : N) : N :=
  N.lxor (rotr 17 x) (N.lxor (rotr 19 x) (N.shiftr x 10)).

(** The constants of FIPS 180-4: the first 32 bits of the fractional parts of
    the cube roots (for the rounds) and of the square roots (for the initial
    state) of the first primes. [root_frac k p] is the [k]-th root of [p] in
    units of 2^-32, found bit by bit, less its integer part. *)
Definition root (k x : N) : N :=
  foldl (λ r i, let r' := r + N.shiftl 1 (N.of_nat i) in if r' ^ k <=? x then r' else r)
    0 (reverse (seq 0 37)).
Definition root_frac (k p : N) : N := w32 (root k (N.shiftl p (32 * k))).

Definition is_prime (p : N) : bool :=
  forallb (λ d, negb (p mod d =? 0)) (N.of_nat <$> seq 2 (N.to_nat p - 2)).
Definition primes_below (n : nat) : list N := filter is_prime (N.of_nat <$> seq 2 (n - 2)).

Definition round_constants : list N := Eval vm_compute in root_frac 3 <$> primes_below 312.

(** The eight working variables. *)
Record hash_state : Type := HashState
  { wa : N; wb : N; wc : N; wd : N; we : N; wf : N; wg : N; wh : N }.

Definition initial_state : hash_state := Eval vm_compute in
  match root_frac 2 <$> primes_below 20 with
  | [a; b; c; d; e; f; g; h] => HashState a b c d e f g h
  | _ => HashState 0 0 0 0 0 0 0 0
  end.

Definition sum_states (s t : hash_state) : hash_state :=
  HashState (add32 (wa s) (wa t)) (add32 (wb s) (wb t)) (add32 (wc s) (wc t))
    (add32 (wd s) (wd t)) (add32 (we s) (we t)) (add32 (wf s) (wf t))
    (add32 (wg s) (wg t)) (add32 (wh s) (wh t)).

(** One round, with its constant and schedule word. *)
Definition sha_round (s : hash_state) (kw : N * N) : hash_state :=
  let t1 := add32 (wh s) (add32 (big1 (we s))
              (add32 (ch (we s) (wf s) (wg s)) (add32 kw.1 kw.2))) in
  let t2 := add32 (big0 (wa s)) (maj (wa s) (wb s) (wc s)) in
  HashState (add32 t1 t2) (wa s) (wb s) (wc s) (add32 (wd s) t1) (we s) (wf s) (wg s).

(** The message schedule, latest word first. *)
Fixpoint extend_schedule (n : nat) (w : list N) : list N :=
  match n with
  | O => w
  | S n =>
    let at_ i := default 0 (w !! i) in
    extend_schedule n
      (add32 (small1 (at_ 1%nat))
         (add32 (at_ 6%nat) (add32 (small0 (at_ 14%nat)) (at_ 15%nat))) :: w)
  end.

Fixpoint words_of (b : bytes) : list N :=
  match b with
  | a :: b :: c :: d :: rest =>
    (((N_of_ascii a * 256 + N_of_ascii b) * 256 + N_of_ascii c) * 256 + N_of_ascii d)
      :: words_of rest
  | _ => []
  end.

Definition compress (s : hash_state) (block : bytes) : hash_state :=
  let w := reverse (extend_schedule 48 (reverse (words_of block))) in
  sum_states s (foldl sha_round s (zip round_constants w)).

Definition be_bytes (n : nat) (x : N) : bytes :=
  (λ i, byte_of (N.land (N.shiftr x (8 * N.of_nat i)) 255)) <$> reverse (seq 0 n).

(** The message, the bit 1, zeros to 56 modulo 64 bytes, and the bit length. *)
Definition pad_message (msg : bytes) : bytes :=
  let len := N.of_nat (length msg) in
  let zeros := (119 - len mod 64) mod 64 in
  msg ++ byte_of 128 :: replicate (N.to_nat zeros) (byte_of 0) ++ be_bytes 8 (len * 8).

Fixpoint hash_blocks (fuel : nat) (s : hash_state) (msg : bytes) : hash_state :=
  match fuel, msg with
  | O, _ | _, [] => s
  | S fuel, _ => hash_blocks fuel (compress s (take 64 msg)) (drop 64 msg)
  end.

Definition digest (s : hash_state) : bytes :=
  [wa s; wb s; wc s; wd s; we s; wf s; wg s; wh s] ≫= be_bytes 4.

(** [sha256.Sum256]: one unit of fuel per byte of the padded message is more
    than the one per block the loop needs. *)
Definition Sum256 (msg : bytes) : bytes :=
  let m := pad_message msg in
  digest (hash_blocks (length m) initial_state m).

(** [hex.EncodeToString]. *)
Definition hex_digit (n : N) : ascii := byte_of (if decide (n < 10) then 48 + n else 87 + n).
Definition hex_EncodeToString (b : bytes) : string :=
  of_bytes (b ≫= λ c, let n := N_of_ascii c in [hex_digit (n / 16); hex_digit (n mod 16)]).

(** ** Lemmas *)

Lemma be_bytes_length n x : length (be_bytes n x) = n.
Proof. unfold be_bytes. by rewrite length_fmap, length_reverse, length_seq. Qed.

(** A digest has 32 bytes. *)
Lemma Sum256_length msg : length (Sum256 msg) = 32%nat.
Proof. unfold Sum256, digest. by rewrite !bind_cons, !length_app, !be_bytes_length. Qed.

(** The padded message is a whole number of blocks. *)
Lemma pad_message_length msg : (length (pad_message msg) mod 64 = 0)%nat.
Proof.
  unfold pad_message. rewrite length_app, length_cons, length_app, length_replicate.
  rewrite be_bytes_length.
  apply Nat2N.inj. rewrite Nat2N.inj_mod, !Nat2N.inj_add, Nat2N.inj_succ.
  rewrite !Nat2N.inj_add, N2Nat.id. change (N.of_nat 64) with 64. change (N.of_nat 8) with 8.
  set (len := N.of_nat (length msg)).
  pose proof (N.div_mod len 64 ltac:(done)) as Hlen.
  pose proof (N.mod_lt len 64 ltac:(done)) as Hr.
  set (r := len mod 64) in *. set (q := len / 64) in *.
  destruct (decide (r < 56)).
  - assert ((119 - r) mod 64 = 55 - r) as ->.
    { symmetry. apply (N.mod_unique _ _ 1); lia. }
    symmetry. apply (N.mod_unique _ _ (q + 1)); lia.
  - assert ((119 - r) mod 64 = 119 - r) as -> by (apply N.mod_small; lia).
    symmetry. apply (N.mod_unique _ _ (q + 2)); lia.
Qed.

(** More fuel than the number of blocks changes nothing: [Sum256] hashes the
    whole padded message. *)
Lemma hash_blocks_fuel fuel fuel' s msg :
  (length msg ≤ fuel)%nat → (length msg ≤ fuel')%nat →
  hash_blocks fuel s msg = hash_blocks fuel' s msg.
Proof.
  revert fuel' s msg. induction fuel as [|fuel IH]; intros fuel' s msg H1 H2.
  - destruct msg; [by destruct fuel'|simpl in *; lia].
  - destruct msg as [|c msg]; [by destruct fuel'|].
    destruct fuel' as [|fuel']; [simpl in *; lia|].
    cbn [hash_blocks]. apply IH; rewrite length_drop; simpl in *; lia.
Qed.

Example sha256_empty : hex_EncodeToString (Sum256 []) =
  "e3b0c44298fc1c149afbf4c8996fb92427ae41e4649b934ca495991b7852b855".
Proof. by vm_compute. Qed.

Example sha256_abc : hex_EncodeToString (Sum256 (to_bytes "abc")) =
  "ba7816bf8f01cfea414140de5dae2223b00361a396177a9cb410ff61f20015ad".
Proof. by vm_compute. Qed.

Example sha256_two_blocks : hex_EncodeToString
    (Sum256 (to_bytes "abcdbcdecdefdefgefghfghighijhijkijkljklmklmnlmnomnopnopq")) =
  "248d6a61d20638b8e5c026930c3e6039a33ce45964ff2167f6ecedd419db06c1".
Proof. by vm_compute. Qed.
