(* ===== verification/Inflate.v ===== *)
(** The parts of Go's [compress/flate] and [compress/gzip] that the service
    calls to unpack its embedded API document: the decoder of DEFLATE, the
    gzip container and its checksum.

    The bits of a stream are a list, the least significant of a byte first. What
    is written is kept newest first. *)
From S2P Require Import Prelude GoStrings Errors.

Local Open Scope N_scope.

(** ** Bits *)

Abbreviation bits := (list bool).

Definition CorruptInput : error := ExtError "flate: corrupt input".
Definition ErrUnexpectedEOF : error := ExtError "unexpected EOF".

Definition byte_bits (c : ascii) : bits :=
  let '(Ascii b0 b1 b2 b3 b4 b5 b6 b7) := c in [b0; b1; b2; b3; b4; b5; b6; b7].
Definition bits_of (s : bytes) : bits := s ≫= byte_bits.

(** A number of [n] bits, the least significant first. *)
Fixpoint read_bits (n : nat) (bs : bits) : result (N * bits) :=
  match n with
  | O => Ok (0, bs)
  | S n =>
    match bs with
    | [] => Err ErrUnexpectedEOF
    | b :: bs => '(v, rest) ← read_bits n bs; Ok ((if b : bool then 1 else 0) + 2 * v, rest)
    end
  end.

(** ** Huffman codes *)

(** A prefix code; [Hole] is a sequence of bits that is no code. *)
Inductive code_tree : Type :=
  | Hole
  | Leaf (symbol : nat)
  | Node (zero one : code_tree).

Fixpoint insert_code (code : bits) (symbol : nat) (t : code_tree) : option code_tree :=
  match code, t with
  | [], Hole => Some (Leaf symbol)
  | b :: code, Hole =>
    t' ← insert_code code symbol Hole; Some (if b : bool then Node Hole t' else Node t' Hole)
  | b :: code, Node l r =>
    if b : bool then r' ← insert_code code symbol r; Some (Node l r')
    else l' ← insert_code code symbol l; Some (Node l' r)
  | _, Leaf _ | [], Node _ _ => None
  end.

(** The [n] low bits of a code, the most significant first. *)
Fixpoint code_bits (n : nat) (code : N) : bits :=
  match n with
  | O => []
  | S n => N.testbit code (N.of_nat n) :: code_bits n code
  end.

(** The first code of each length from the one after [code]'s, and the code
    after the last of the last length. *)
Fixpoint first_codes (counts : list nat) (code : N) : list N * N :=
  match counts with
  | [] => ([], code)
  | c :: counts =>
    let '(l, final) := first_codes counts (2 * code + N.of_nat c) in (2 * code :: l, final)
  end.

Definition maxCodeLen : nat := 15.

(** [huffmanDecoder.init]: the codes of the given lengths, in the order of the
    symbols; they have to use up all sequences of bits, but for no code at all
    and for a single one. *)
Fixpoint assign_codes (symbol : nat) (lengths : list nat) (next : list N) (t : code_tree)
    : option code_tree :=
  match lengths with
  | [] => Some t
  | O :: lengths => assign_codes (S symbol) lengths next t
  | S n as len :: lengths =>
    code ← next !! n;
    t' ← insert_code (code_bits len code) symbol t;
    assign_codes (S symbol) lengths (<[n := code + 1]> next) t'
  end.

Definition init (lengths : list nat) : option code_tree :=
  let counts := (λ n, length (filter (λ m, m = n) lengths)) <$> seq 1 maxCodeLen in
  let '(next, final) := first_codes counts 0 in
  let total := foldr Nat.add O counts in
  if decide (total = O) then Some Hole
  else if decide (final = 2 ^ N.of_nat maxCodeLen ∨ (total = 1%nat ∧ counts !! O = Some 1%nat)) then
    assign_codes 0 lengths next Hole
  else None.

(** [huffSym]. *)
Fixpoint huffSym (t : code_tree) (bs : bits) : result (nat * bits) :=
  match t with
  | Hole => Err CorruptInput
  | Leaf s => Ok (s, bs)
  | Node l r =>
    match bs with
    | [] => Err ErrUnexpectedEOF
    | false :: bs => huffSym l bs
    | true :: bs => huffSym r bs
    end
  end.

(** ** Blocks *)

(** The base and the number of extra bits of lengths and distances. *)
Definition length_codes : list (nat * nat) :=
  [(3, 0); (4, 0); (5, 0); (6, 0); (7, 0); (8, 0); (9, 0); (10, 0); (11, 1); (13, 1); (15, 1);
   (17, 1); (19, 2); (23, 2); (27, 2); (31, 2); (35, 3); (43, 3); (51, 3); (59, 3); (67, 4);
   (83, 4); (99, 4); (115, 4); (131, 5); (163, 5); (195, 5); (227, 5); (258, 0)]%nat.
Definition distance_codes : list (N * nat) :=
  [(1, 0%nat); (2, 0%nat); (3, 0%nat); (4, 0%nat); (5, 1%nat); (7, 1%nat); (9, 2%nat); (13, 2%nat);
   (17, 3%nat); (25, 3%nat); (33, 4%nat); (49, 4%nat); (65, 5%nat); (97, 5%nat); (129, 6%nat);
   (193, 6%nat); (257, 7%nat); (385, 7%nat); (513, 8%nat); (769, 8%nat); (1025, 9%nat);
   (1537, 9%nat); (2049, 10%nat); (3073, 10%nat); (4097, 11%nat); (6145, 11%nat); (8193, 12%nat);
   (12289, 12%nat); (16385, 13%nat); (24577, 13%nat)].

(** The bytes of [cur], then those of [window] again and again, [n] in all. *)
Fixpoint repeat_bytes (n : nat) (window cur out : bytes) : bytes :=
  match n with
  | O => out
  | S n =>
    match cur with
    | c :: cur => repeat_bytes n window cur (c :: out)
    | [] =>
      match window with
      | c :: cur => repeat_bytes n window cur (c :: out)
      | [] => out
      end
    end
  end.

(** [n] bytes from [distance] bytes back, which may be bytes that are copied. *)
Definition copy (n : nat) (distance : N) (out : bytes) : option bytes :=
  let recent := take (N.to_nat distance) out in
  if decide (N.of_nat (length recent) = distance) then
    let window := reverse recent in Some (repeat_bytes n window window out)
  else None.

Definition or_corrupt {A} (x : option A) : result A :=
  match x with Some a => Ok a | None => Err CorruptInput end.

Definition out_of_fuel {A} : result A := Panic "fuel".

(** [huffmanBlock]: literals and copies up to the end of the block. *)
Fixpoint huffmanBlock (fuel : nat) (lit dist : code_tree) (bs : bits) (out : bytes)
    : result (bits * bytes) :=
  match fuel with
  | O => out_of_fuel
  | S fuel =>
    '(v, bs) ← huffSym lit bs;
    if decide (v < 256)%nat then huffmanBlock fuel lit dist bs (byte_of (N.of_nat v) :: out)
    else if decide (v = 256)%nat then Ok (bs, out)
    else
      '(base, extra) ← or_corrupt (length_codes !! (v - 257)%nat);
      '(more, bs) ← read_bits extra bs;
      '(d, bs) ← huffSym dist bs;
      '(dbase, dextra) ← or_corrupt (distance_codes !! d);
      '(dmore, bs) ← read_bits dextra bs;
      out ← or_corrupt (copy (base + N.to_nat more) (dbase + dmore) out);
      huffmanBlock fuel lit dist bs out
  end.

(** The codes of a fixed block. *)
Definition fixed_literals : list nat :=
  replicate 144 8%nat ++ replicate 112 9%nat ++ replicate 24 7%nat ++ replicate 8 8%nat.
Definition fixed_distances : list nat := replicate 32 5%nat.

(** [readHuffman]: the codes of a dynamic block. *)
Definition codeOrder : list nat :=
  [16; 17; 18; 0; 8; 7; 9; 6; 10; 5; 11; 4; 12; 3; 13; 2; 14; 1; 15]%nat.

Fixpoint read_many (n width : nat) (bs : bits) : result (list nat * bits) :=
  match n with
  | O => Ok ([], bs)
  | S n =>
    '(v, bs) ← read_bits width bs;
    '(l, bs) ← read_many n width bs;
    Ok (N.to_nat v :: l, bs)
  end.

(** The length that was read for a symbol, or none. *)
Definition code_length (order lengths : list nat) (symbol : nat) : nat :=
  default O (snd <$> List.find (λ p, bool_decide (p.1 = symbol)) (zip order lengths)).

(** [n] lengths, newest first. *)
Fixpoint read_lengths (fuel : nat) (t : code_tree) (n : nat) (acc : list nat) (bs : bits)
    : result (list nat * bits) :=
  if decide (n = O) then Ok (acc, bs)
  else
    match fuel with
    | O => out_of_fuel
    | S fuel =>
      '(x, bs) ← huffSym t bs;
      if decide (x < 16)%nat then read_lengths fuel t (n - 1) (x :: acc) bs
      else
        '(base, extra, b) ← or_corrupt
          (if decide (x = 16)%nat then b ← head acc; Some (3, 2, b)
           else if decide (x = 17)%nat then Some (3, 3, 0) else Some (11, 7, 0))%nat;
        '(more, bs) ← read_bits extra bs;
        let rep := (base + N.to_nat more)%nat in
        if decide (n < rep)%nat then Err CorruptInput
        else read_lengths fuel t (n - rep) (replicate rep b ++ acc) bs
    end.

Definition readHuffman (bs : bits) : result (code_tree * code_tree * bits) :=
  '(hlit, bs) ← read_bits 5 bs;
  let nlit := (N.to_nat hlit + 257)%nat in
  if decide (286 < nlit)%nat then Err CorruptInput else
  '(hdist, bs) ← read_bits 5 bs;
  let ndist := (N.to_nat hdist + 1)%nat in
  if decide (30 < ndist)%nat then Err CorruptInput else
  '(hclen, bs) ← read_bits 4 bs;
  '(ls, bs) ← read_many (N.to_nat hclen + 4) 3 bs;
  t ← or_corrupt (init (code_length codeOrder ls <$> seq 0 19));
  '(acc, bs) ← read_lengths (nlit + ndist) t (nlit + ndist) [] bs;
  let lengths := reverse acc in
  lit ← or_corrupt (init (take nlit lengths));
  dist ← or_corrupt (init (drop nlit lengths));
  Ok (lit, dist, bs).

(** [dataBlock]: from the next byte on, a length, its complement, and bytes. *)
Fixpoint read_bytes (n : nat) (bs : bits) (out : bytes) : result (bits * bytes) :=
  match n with
  | O => Ok (bs, out)
  | S n => '(v, bs) ← read_bits 8 bs; read_bytes n bs (byte_of v :: out)
  end.

Definition dataBlock (bs : bits) (out : bytes) : result (bits * bytes) :=
  '(n, bs) ← read_bits 16 (drop (length bs mod 8) bs);
  '(nn, bs) ← read_bits 16 bs;
  if decide (N.lxor n nn = 0xffff) then read_bytes (N.to_nat n) bs out else Err CorruptInput.

(** [nextBlock], up to the end of the final one. *)
Definition block (typ : N) (bs : bits) (out : bytes) : result (bits * bytes) :=
  if decide (typ = 0) then dataBlock bs out
  else if decide (typ = 1) then
    lit ← or_corrupt (init fixed_literals);
    dist ← or_corrupt (init fixed_distances);
    huffmanBlock (S (length bs)) lit dist bs out
  else if decide (typ = 2) then
    '(lit, dist, bs) ← readHuffman bs;
    huffmanBlock (S (length bs)) lit dist bs out
  else Err CorruptInput.

Fixpoint blocks (fuel : nat) (bs : bits) (out : bytes) : result (bits * bytes) :=
  match fuel with
  | O => out_of_fuel
  | S fuel =>
    '(final, bs) ← read_bits 1 bs;
    '(typ, bs) ← read_bits 2 bs;
    '(bs, out) ← block typ bs out;
    if decide (final = 1) then Ok (bs, out) else blocks fuel bs out
  end.

(** A stream read to its end: what it holds, and the bytes after it. *)
Definition inflate (s : bytes) : result (bytes * bytes) :=
  let bs := bits_of s in
  '(bs, out) ← blocks (S (length bs)) bs [];
  Ok (reverse out, drop (length s - length bs / 8) s).

(** ** Termination

    Decoding never runs out of fuel: it returns bytes or an error. *)

(** The outcome is an error or a value in [Φ], and not a panic. *)
Definition returns {A} (r : result A) (Φ : A → Prop) : Prop :=
  match r with Ok a => Φ a | Err _ => True | Panic _ => False end.

Lemma returns_bind {A B} (r : result A) (f : A → result B) Φ :
  returns r (λ a, returns (f a) Φ) → returns (r ≫= f) Φ.
Proof. by destruct r. Qed.

Lemma returns_mono {A} (r : result A) (Φ Ψ : A → Prop) :
  returns r Φ → (∀ a, Φ a → Ψ a) → returns r Ψ.
Proof. destruct r; simpl; auto. Qed.

Lemma returns_or_corrupt {A} (x : option A) (Φ : A → Prop) :
  (∀ a, x = Some a → Φ a) → returns (or_corrupt x) Φ.
Proof. destruct x; simpl; auto. Qed.

Local Open Scope nat_scope.

(** What is left of the bits after a step. *)
Definition shorter {A} (k : nat) (bs : bits) (x : A * bits) : Prop := length x.2 + k ≤ length bs.

Lemma read_bits_returns n bs : returns (read_bits n bs) (shorter n bs).
Proof.
  revert bs. induction n as [|n IH]; intros bs; [unfold shorter; simpl; lia|].
  destruct bs as [|b bs]; [done|]. cbn [read_bits]. apply returns_bind.
  eapply returns_mono; [apply IH|]. intros [v rest]. unfold shorter. simpl. lia.
Qed.

Lemma huffSym_returns t bs : returns (huffSym t bs) (shorter 0 bs).
Proof.
  revert bs. induction t as [|s|l IHl r IHr]; intros bs; simpl; [done|unfold shorter; simpl; lia|].
  destruct bs as [|[] bs]; [done| |];
    (eapply returns_mono; [first [apply IHl|apply IHr]|]); intros [v rest]; unfold shorter; simpl; lia.
Qed.

(** A symbol of a code that is not a single leaf takes a bit. *)
Definition consumes (t : code_tree) : Prop := match t with Leaf _ => False | _ => True end.

Lemma huffSym_consumes t bs : consumes t → returns (huffSym t bs) (shorter 1 bs).
Proof.
  destruct t as [|s|l r]; simpl; [done|done|]. intros _. destruct bs as [|[] bs]; [done|..];
    (eapply returns_mono; [apply huffSym_returns|]); intros [v rest]; unfold shorter; simpl; lia.
Qed.

Lemma insert_code_consumes code s t t' :
  code ≠ [] → insert_code code s t = Some t' → consumes t → consumes t'.
Proof.
  destruct code as [|b code]; [done|]. intros _. destruct t as [|s'|l r]; simpl; [|done|].
  - destruct (insert_code code s Hole); [|done]. by intros [= <-]; destruct b.
  - destruct b; destruct (insert_code code s _); try done; by intros [= <-].
Qed.

Lemma assign_codes_consumes s lengths next t t' :
  assign_codes s lengths next t = Some t' → consumes t → consumes t'.
Proof.
  revert s next t. induction lengths as [|[|n] lengths IH]; intros s next t; cbn [assign_codes].
  - by intros [= ->].
  - apply IH.
  - destruct (next !! n) as [code|]; [|done]. cbn [mbind option_bind].
    destruct (insert_code _ _ _) as [t1|] eqn:Ht; cbn [mbind option_bind]; [|done]. intros Hrun Hc.
    eapply IH; [done|]. eapply insert_code_consumes; [|done..]. done.
Qed.

Lemma init_consumes lengths t : init lengths = Some t → consumes t.
Proof.
  unfold init. destruct (first_codes _ _) as [next final]. case_decide; [by intros [= <-]|].
  case_decide; [|done]. intros Ht. by eapply assign_codes_consumes.
Qed.

Lemma huffmanBlock_returns fuel lit dist bs out :
  consumes lit → length bs < fuel →
  returns (huffmanBlock fuel lit dist bs out) (λ x, length x.1 ≤ length bs).
Proof.
  intros Hlit. revert bs out. induction fuel as [|fuel IH]; intros bs out Hf; [lia|].
  cbn [huffmanBlock]. apply returns_bind. eapply returns_mono; [by apply huffSym_consumes|].
  intros [v bs1] H1. unfold shorter in H1. simpl in H1.
  assert (∀ bs' out', length bs' ≤ length bs1 →
    returns (huffmanBlock fuel lit dist bs' out') (λ x, length x.1 ≤ length bs)) as Hrec.
  { intros bs' out' Hb. eapply returns_mono; [apply IH; lia|]. intros [b o]. simpl. lia. }
  case_decide; [by apply Hrec|]. case_decide; [simpl; lia|].
  apply returns_bind, returns_or_corrupt. intros [base extra] _.
  apply returns_bind. eapply returns_mono; [apply read_bits_returns|]. intros [more bs2] H2.
  apply returns_bind. eapply returns_mono; [apply huffSym_returns|]. intros [d bs3] H3.
  apply returns_bind, returns_or_corrupt. intros [dbase dextra] _.
  apply returns_bind. eapply returns_mono; [apply read_bits_returns|]. intros [dmore bs4] H4.
  apply returns_bind, returns_or_corrupt. intros out' _. apply Hrec.
  unfold shorter in *. simpl in *. lia.
Qed.

Lemma read_many_returns n width bs : returns (read_many n width bs) (shorter 0 bs).
Proof.
  revert bs. induction n as [|n IH]; intros bs; cbn [read_many]; [unfold shorter; simpl; lia|].
  apply returns_bind. eapply returns_mono; [apply read_bits_returns|]. intros [v bs1] H1.
  apply returns_bind. eapply returns_mono; [apply IH|]. intros [l bs2] H2.
  unfold shorter in *. simpl in *. lia.
Qed.

Lemma read_lengths_returns fuel t n acc bs :
  n ≤ fuel → returns (read_lengths fuel t n acc bs) (shorter 0 bs).
Proof.
  revert n acc bs. induction fuel as [|fuel IH]; intros n acc bs Hn; cbn [read_lengths];
    (case_decide; [unfold shorter; simpl; lia|]); [lia|].
  apply returns_bind. eapply returns_mono; [apply huffSym_returns|]. intros [x bs1] H1.
  unfold shorter in *. simpl in H1.
  case_decide. { eapply returns_mono; [apply IH; lia|]. intros [a b]. simpl. lia. }
  apply returns_bind, returns_or_corrupt. intros [[base extra] b] Hb.
  assert (1 ≤ base) as Hbase.
  { repeat case_decide; [destruct (head acc)|..]; simpl in Hb; simplify_eq; lia. } clear Hb.
  apply returns_bind. eapply returns_mono; [apply read_bits_returns|]. intros [more bs2] H2.
  unfold shorter in *. simpl in H2. case_decide; [exact I|].
  eapply returns_mono; [apply IH; lia|]. intros [a c]. simpl. lia.
Qed.

Lemma readHuffman_returns bs :
  returns (readHuffman bs) (λ x, consumes x.1.1 ∧ length x.2 ≤ length bs).
Proof.
  unfold readHuffman. apply returns_bind. eapply returns_mono; [apply read_bits_returns|].
  intros [hlit bs1] H1. case_decide; [exact I|].
  apply returns_bind. eapply returns_mono; [apply read_bits_returns|].
  intros [hdist bs2] H2. case_decide; [exact I|].
  apply returns_bind. eapply returns_mono; [apply read_bits_returns|]. intros [hclen bs3] H3.
  apply returns_bind. eapply returns_mono; [apply read_many_returns|]. intros [ls bs4] H4.
  apply returns_bind, returns_or_corrupt. intros t _.
  apply returns_bind. eapply returns_mono; [by apply read_lengths_returns|]. intros [acc bs5] H5.
  apply returns_bind, returns_or_corrupt. intros lit Hlit.
  apply returns_bind, returns_or_corrupt. intros dist _.
  split; [by eapply init_consumes|]. unfold shorter in *. simpl in *. lia.
Qed.

Lemma read_bytes_returns n bs out :
  returns (read_bytes n bs out) (λ x, length x.1 ≤ length bs).
Proof.
  revert bs out. induction n as [|n IH]; intros bs out; cbn [read_bytes]; [simpl; lia|].
  apply returns_bind. eapply returns_mono; [apply read_bits_returns|]. intros [v bs1] H1.
  eapply returns_mono; [apply IH|]. intros [b o]. unfold shorter in *. simpl in *. lia.
Qed.

Lemma block_returns typ bs out : returns (block typ bs out) (λ x, length x.1 ≤ length bs).
Proof.
  unfold block. case_decide; [|case_decide; [|case_decide; [|exact I]]].
  - unfold dataBlock. apply returns_bind. eapply returns_mono; [apply read_bits_returns|].
    intros [n bs1] Hb1. apply returns_bind. eapply returns_mono; [apply read_bits_returns|].
    intros [nn bs2] Hb2. case_decide; [|exact I]. eapply returns_mono; [apply read_bytes_returns|].
    intros [b o]. unfold shorter in *. simpl in *. rewrite length_drop in Hb1. lia.
  - apply returns_bind, returns_or_corrupt. intros lit Hlit.
    apply returns_bind, returns_or_corrupt. intros dist _.
    apply huffmanBlock_returns; [by eapply init_consumes|lia].
  - apply returns_bind. eapply returns_mono; [apply readHuffman_returns|].
    intros [[lit dist] bs1] [Hlit Hb1]. eapply returns_mono; [by apply huffmanBlock_returns; [|lia]|].
    intros [b o]. simpl in *. lia.
Qed.

Lemma blocks_returns fuel bs out :
  length bs < fuel → returns (blocks fuel bs out) (λ x, length x.1 ≤ length bs).
Proof.
  revert bs out. induction fuel as [|fuel IH]; intros bs out Hf; [lia|]. cbn [blocks].
  apply returns_bind. eapply returns_mono; [apply read_bits_returns|]. intros [final bs1] H1.
  apply returns_bind. eapply returns_mono; [apply read_bits_returns|]. intros [typ bs2] H2.
  apply returns_bind. eapply returns_mono; [apply block_returns|]. intros [bs3 out'] H3.
  unfold shorter in *. simpl in *. case_decide; [simpl; lia|].
  eapply returns_mono; [apply IH; lia|]. intros [b o]. simpl. lia.
Qed.

Lemma inflate_returns s : returns (inflate s) (λ x, length x.2 ≤ length s).
Proof.
  unfold inflate. apply returns_bind. eapply returns_mono; [apply blocks_returns; lia|].
  intros [bs out] _. simpl. rewrite length_drop. lia.
Qed.

(** ** Copies

    [copy] repeats a window; byte by byte, it is the definition of the format. *)
Fixpoint copy_bytewise (n : nat) (distance : N) (out : bytes) : option bytes :=
  match n with
  | O => Some out
  | S n => c ← out !! pred (N.to_nat distance); copy_bytewise n distance (c :: out)
  end.

(** The last bytes that were written, oldest first, when one more is written. *)
Lemma recent_next (d : nat) (c x : ascii) (l out : bytes) :
  0 < d → d ≤ length out → reverse (take d out) = x :: l →
  out !! pred d = Some x ∧ reverse (take d (c :: out)) = l ++ [c].
Proof.
  intros Hd Hlen Hr. destruct d as [|d]; [lia|]. simpl.
  assert (take (S d) out = take d out ++ [x]) as Htake.
  { apply (f_equal reverse) in Hr. rewrite reverse_involutive, reverse_cons in Hr.
    destruct (lookup_lt_is_Some_2 out d ltac:(lia)) as [y Hy].
    rewrite (take_S_r out d y Hy) in Hr |- *. by apply app_inj_tail in Hr as [_ ->]. }
  rewrite Htake, reverse_app in Hr. simpl in Hr. injection Hr as Hr. split.
  - assert ((take (S d) out) !! d = Some x) as Hx.
    { rewrite Htake, lookup_app_r; rewrite length_take; [|lia].
      by replace (d - d `min` length out) with 0 by lia. }
    rewrite lookup_take_Some in Hx. tauto.
  - by rewrite reverse_cons, Hr.
Qed.

Lemma repeat_bytewise (d n : nat) (window cur old out : bytes) :
  0 < d → d ≤ length out → window = old ++ cur → reverse (take d out) = cur ++ old →
  copy_bytewise n (N.of_nat d) out = Some (repeat_bytes n window cur out).
Proof.
  intros Hd. revert cur old out. induction n as [|n IH]; intros cur old out Hlen Hwin Hr; [done|].
  cbn [copy_bytewise repeat_bytes]. rewrite Nat2N.id. destruct cur as [|c cur].
  - rewrite app_nil_r in Hwin. subst old. simpl in Hr. destruct window as [|c cur].
    { apply (f_equal length) in Hr. rewrite length_reverse, length_take in Hr. simpl in Hr. lia. }
    destruct (recent_next d c c cur out Hd Hlen Hr) as [-> Hnext]. simpl.
    apply (IH cur [c]); [simpl; lia|done|done].
  - destruct (recent_next d c c (cur ++ old) out Hd Hlen Hr) as [-> Hnext]. simpl.
    apply (IH cur (old ++ [c])); [simpl; lia|by rewrite <-app_assoc|by rewrite app_assoc].
Qed.

Lemma copy_is_bytewise n d out :
  0 < d → d ≤ length out → copy n (N.of_nat d) out = copy_bytewise n (N.of_nat d) out.
Proof.
  intros Hd Hlen. unfold copy. rewrite Nat2N.id, length_take, decide_True by lia.
  symmetry. apply (repeat_bytewise d n _ _ []); [done..|by rewrite app_nil_r].
Qed.
