(* ===== verification/Gzip.v ===== *)
(** Go's [compress/gzip] reader, with the checksum of [hash/crc32]: the
    container around a DEFLATE stream. *)
From S2P Require Import Prelude GoStrings Errors Inflate.

Local Open Scope N_scope.

(** ** The checksum *)

(** A byte through the reflected polynomial of IEEE. *)
Fixpoint crc_shift (n : nat) (c : N) : N :=
  match n with
  | O => c
  | S n => crc_shift n (if N.odd c then N.lxor (N.shiftr c 1) 0xedb88320 else N.shiftr c 1)
  end.
Definition IEEETable : list N := crc_shift 8 <$> (N.of_nat <$> seq 0 256).

Definition crc_update (table : list N) (crc : N) (c : ascii) : N :=
  N.lxor (default 0 (table !! N.to_nat (N.land (N.lxor crc (N_of_ascii c)) 0xff))) (N.shiftr crc 8).
Definition ChecksumIEEE (s : bytes) : N :=
  let table := IEEETable in N.lxor (foldl (crc_update table) 0xffffffff s) 0xffffffff.

(** ** The container *)

Definition EOF : error := ExtError "EOF".
Definition ErrHeader : error := ExtError "gzip: invalid header".
Definition ErrChecksum : error := ExtError "gzip: invalid checksum".

(** [binary.LittleEndian]. *)
Fixpoint le (s : bytes) : N :=
  match s with [] => 0 | c :: s => N_of_ascii c + 256 * le s end.

(** [io.ReadFull] after the first bytes. *)
Definition read_full (n : nat) (s : bytes) : result (bytes * bytes) :=
  if decide (length s < n)%nat then Err ErrUnexpectedEOF else Ok (take n s, drop n s).

(** [readString]: up to a zero byte, in a buffer of 512 bytes. *)
Fixpoint skip_string (room : nat) (s : bytes) : result bytes :=
  match room with
  | O => Err ErrHeader
  | S room =>
    match s with
    | [] => Err ErrUnexpectedEOF
    | c :: s => if decide (N_of_ascii c = 0) then Ok s else skip_string room s
    end
  end.

(** [readHeader]: the bytes after the header. *)
Definition readHeader (s : bytes) : result bytes :=
  if decide (s = []) then Err EOF else
  '(fixed, rest) ← read_full 10 s;
  if decide (N_of_ascii <$> take 3 fixed ≠ [0x1f; 0x8b; 8]) then Err ErrHeader else
  let flag n := N.testbit (default 0 (N_of_ascii <$> fixed !! 3%nat)) n in
  rest ← (if flag 2 then
            '(n, rest) ← read_full 2 rest; '(_, rest) ← read_full (N.to_nat (le n)) rest; Ok rest
          else Ok rest);
  rest ← (if flag 3 then skip_string 512 rest else Ok rest);
  rest ← (if flag 4 then skip_string 512 rest else Ok rest);
  if flag 1 then
    '(digest, rest') ← read_full 2 rest;
    if decide (le digest = N.land (ChecksumIEEE (take (length s - length rest) s)) 0xffff)
    then Ok rest' else Err ErrHeader
  else Ok rest.

(** [Reader.Read] to the end: the member whose header was read, and those after
    it. *)
Fixpoint read_members (fuel : nat) (s : bytes) : result bytes :=
  match fuel with
  | O => out_of_fuel
  | S fuel =>
    '(data, rest) ← inflate s;
    '(trailer, rest) ← read_full 8 rest;
    if decide (le (take 4 trailer) = ChecksumIEEE data ∧
               le (drop 4 trailer) = N.of_nat (length data) mod 2 ^ 32) then
      if decide (rest = []) then Ok data
      else rest ← readHeader rest; more ← read_members fuel rest; Ok (data ++ more)
    else Err ErrChecksum
  end.

(** [gzip.NewReader] and [bytes.Buffer.ReadFrom] of it. *)
Definition NewReader (s : bytes) : result bytes := readHeader s.
Definition ReadFrom (s : bytes) : result bytes := read_members (S (length s)) s.

(** ** Termination *)

Local Open Scope nat_scope.

Lemma read_full_returns n s : returns (read_full n s) (λ x, length x.2 + n = length s).
Proof. unfold read_full. case_decide; [exact I|]. simpl. rewrite length_drop. lia. Qed.

Lemma skip_string_returns room s : returns (skip_string room s) (λ rest, length rest ≤ length s).
Proof.
  revert s. induction room as [|room IH]; intros [|c s]; simpl; try exact I.
  case_decide; [simpl; lia|]. eapply returns_mono; [apply IH|]. simpl. lia.
Qed.

Lemma readHeader_returns s : returns (readHeader s) (λ rest, length rest ≤ length s).
Proof.
  unfold readHeader. case_decide; [exact I|].
  apply returns_bind. eapply returns_mono; [apply read_full_returns|]. intros [fixed rest] H1.
  case_decide; [exact I|]. cbv zeta beta. generalize (default 0%N (N_of_ascii <$> fixed !! 3)).
  intros flags. simpl in H1.
  apply returns_bind, (returns_mono _ (λ r, length r ≤ length s)).
  { destruct (N.testbit flags 2); [|simpl; lia].
    apply returns_bind. eapply returns_mono; [apply read_full_returns|]. intros [n r] H2.
    apply returns_bind. eapply returns_mono; [apply read_full_returns|]. intros [x r2] H3.
    simpl in *. lia. }
  intros r1 Hr1. apply returns_bind, (returns_mono _ (λ r, length r ≤ length s)).
  { destruct (N.testbit flags 3); [|done]. eapply returns_mono; [apply skip_string_returns|]. simpl. lia. }
  intros r2 Hr2. apply returns_bind, (returns_mono _ (λ r, length r ≤ length s)).
  { destruct (N.testbit flags 4); [|done]. eapply returns_mono; [apply skip_string_returns|]. simpl. lia. }
  intros r3 Hr3. destruct (N.testbit flags 1); [|done].
  apply returns_bind. eapply returns_mono; [apply read_full_returns|]. intros [x r4] H4.
  case_decide; [|exact I]. simpl in *. lia.
Qed.

Lemma read_members_returns fuel s : length s < fuel → returns (read_members fuel s) (λ _, True).
Proof.
  revert s. induction fuel as [|fuel IH]; intros s Hf; [lia|]. cbn [read_members].
  apply returns_bind. eapply returns_mono; [apply inflate_returns|]. intros [data rest] H1.
  apply returns_bind. eapply returns_mono; [apply read_full_returns|]. intros [trailer rest'] H2.
  case_decide; [|exact I]. case_decide; [exact I|].
  apply returns_bind. eapply returns_mono; [apply readHeader_returns|]. intros r3 H3.
  apply returns_bind. eapply returns_mono; [apply IH; simpl in *; lia|]. done.
Qed.

(** Unpacking ends, with bytes or an error, whatever it is given. *)
Lemma ReadFrom_returns s : returns (ReadFrom s) (λ _, True).
Proof. apply read_members_returns. lia. Qed.
