(* ===== verification/Cursor.v ===== *)
(** The pagination cursor, [internal/crdbx/cursor.go]: a URL-safe base64
    encoding of a URL query string of field values. A [*Cursor] is an
    [option string], a possibly nil [url.Values] an [option Values]. *)
From S2P Require Import Prelude GoStrings Errors Base64 Query.

(** ** Definitions *)

Definition invalid_cursor {A} (e : error) : result A :=
  Err (Errorf2 (sentinel_text ErrInvalidPaginationCursor +:+ ": " +:+ Error e)
         ErrInvalidPaginationCursor e).

(** [Cursor.Values]. *)
Definition Cursor_Values (c : option string) : result (option Values) :=
  match c with
  | None | Some "" => Ok None
  | Some c =>
    match URLEncoding_DecodeString c with
    | None => invalid_cursor (ExtError "illegal base64 data")
    | Some cursor =>
      match ParseQuery (of_bytes cursor) with
      | Ok values => Ok (Some values)
      | Err e => invalid_cursor e
      | Panic s => Panic s
      end
    end
  end.

Definition NewCursorFromValues (values : option Values) : result (option string) :=
  match values with
  | None => Ok None
  | Some values => Ok (Some (URLEncoding_EncodeToString (to_bytes (Values_Encode values))))
  end.

(** [Cursor.Set]: the new value of the cursor pointed to. Writing to a nil
    map and writing through a nil pointer are run-time panics. *)
Definition Cursor_Set (c : option string) (key value : string) : result string :=
  values ← match c with
           | None => Ok (Some ∅)
           | Some _ => Cursor_Values c
           end;
  values ← match values with
           | None => Panic "assignment to entry in nil map"
           | Some values => Ok (Values_Set values key value)
           end;
  cursor ← NewCursorFromValues (Some values);
  match c, cursor with
  | Some _, Some cursor => Ok cursor
  | _, _ => Panic "invalid memory address or nil pointer dereference"
  end.

(** [Cursor.String] and [Cursor.StringPtr]. *)
Definition Cursor_String (c : option string) : string := default "" c.
Definition Cursor_StringPtr (c : option string) : option string :=
  match c with None => None | Some _ => Some (Cursor_String c) end.

(** The loop of [NewCursor]: pairs with an empty value are left out. *)
Fixpoint set_pairs (kvpairs : list string) (values : Values) : Values :=
  match kvpairs with
  | k :: v :: rest =>
    set_pairs rest (if decide (v ≠ "") then Values_Set values k v else values)
  | _ => values
  end.

Definition NewCursor (kvpairs : list string) : result (option string) :=
  if decide (length kvpairs = 0) then Ok None
  else if decide (length kvpairs mod 2 ≠ 0) then
    Err (wrapf ErrInvalidPaginationCursor "incorrect key/value pairs")
  else NewCursorFromValues (Some (set_pairs kvpairs ∅)).

Definition MustNewCursor (kvpairs : list string) : result (option string) :=
  match NewCursor kvpairs with
  | Err e => Panic (Error e)
  | r => r
  end.

(** ** Lemmas *)

(** Every key of a cursor being built has a value. *)
Lemma set_pairs_nonempty kvs m :
  map_Forall (λ _ vs, vs ≠ []) m → map_Forall (λ _ vs, vs ≠ []) (set_pairs kvs m).
Proof.
  revert m. induction kvs as [|k|k v kvs IH] using list_ind2; intros m Hm; [done..|].
  simpl. apply IH. case_decide; [|done].
  by apply map_Forall_insert_2.
Qed.

Lemma filter_nonempty_id (m : Values) :
  map_Forall (λ _ vs, vs ≠ []) m → filter (λ kv, kv.2 ≠ []) m = m.
Proof. intros Hm. apply map_filter_id. intros k vs Hk. by apply (Hm k vs). Qed.

(** Decoding the cursor made from some values gives the values, where a nil
    map stands for the empty one. *)
Lemma Cursor_Values_FromValues (m : Values) :
  map_Forall (λ _ vs, vs ≠ []) m →
  ∃ c, NewCursorFromValues (Some m) = Ok (Some c) ∧
    (default ∅ <$> Cursor_Values (Some c)) = Ok m.
Proof.
  intros Hm. eexists. split; [done|].
  assert (∀ c, URLEncoding_DecodeString c = Some (to_bytes (Values_Encode m)) →
    (default ∅ <$> Cursor_Values (Some c)) = Ok m) as H.
  { intros c Hc. pose proof (ParseQuery_Encode m) as Hp.
    rewrite filter_nonempty_id in Hp by done.
    destruct c as [|a c]; simpl.
    - apply (inj Some) in Hc. symmetry in Hc.
      apply (f_equal of_bytes) in Hc. rewrite of_to_bytes in Hc.
      rewrite Hc in Hp. done.
    - rewrite Hc, of_to_bytes, Hp. done. }
  apply H, URLEncoding_roundtrip.
Qed.

(** ** Properties *)

(** Decoding a cursor built by [NewCursor] gives back exactly the key/value
    pairs it was built from: the pairs with a non-empty value, the last value
    of a repeated key winning. In particular no byte of a key or value is lost
    or altered by the query escaping or by base64, whatever its value. *)
Theorem cursor_roundtrip kvs c :
  NewCursor kvs = Ok (Some c) →
  (default ∅ <$> Cursor_Values (Some c)) = Ok (set_pairs kvs ∅).
Proof.
  unfold NewCursor. case_decide; [done|]. case_decide; [done|]. intros Hc.
  destruct (Cursor_Values_FromValues (set_pairs kvs ∅)) as (c' & Hc' & Hv).
  { by apply set_pairs_nonempty. }
  congruence.
Qed.

Lemma cursor_roundtrip_witness :
  NewCursor ["id"; "a=b&c;d 100%"] = Ok (Some "aWQ9YSUzRGIlMjZjJTNCZCsxMDAlMjU=") ∧
  (default ∅ <$> Cursor_Values (Some "aWQ9YSUzRGIlMjZjJTNCZCsxMDAlMjU="))
    = Ok {["id" := ["a=b&c;d 100%"]]}.
Proof.
  split; [by vm_compute|].
  exact (cursor_roundtrip ["id"; "a=b&c;d 100%"] _ ltac:(by vm_compute)).
Defined.

(** [Cursor.Set] panics on the two cursors a caller starts from: a nil
    cursor (the final write goes through the nil pointer) and an empty one
    (its values are a nil map, and the code assigns into it). *)
Lemma Cursor_Set_panics key value :
  Cursor_Set None key value = Panic "invalid memory address or nil pointer dereference" ∧
  Cursor_Set (Some "") key value = Panic "assignment to entry in nil map".
Proof. done. Qed.

(** Setting a field of a non-empty valid cursor replaces that field only. *)
Lemma Cursor_Set_valid c m key value :
  Cursor_Values (Some c) = Ok (Some m) → map_Forall (λ _ vs, vs ≠ []) m →
  ∃ c', Cursor_Set (Some c) key value = Ok c' ∧
    (default ∅ <$> Cursor_Values (Some c')) = Ok (<[key := [value]]> m).
Proof.
  intros Hc Hm. unfold Cursor_Set. rewrite Hc; simpl.
  destruct (Cursor_Values_FromValues (Values_Set m key value)) as (c' & Hc' & Hv).
  { by apply map_Forall_insert_2. }
  eexists. split; [done|]. simpl in Hc'. simplify_eq. done.
Qed.

#[global] Arguments Cursor_Values : simpl never.
#[global] Arguments NewCursor : simpl never.
