(* ===== verification/Pagination.v ===== *)
(** Pagination of list queries: [internal/crdbx/pagination.go] and
    [internal/crdbx/template_values.go]. *)
From S2P Require Import Prelude GoStrings Errors Base64 Query Cursor.

Local Open Scope Z_scope.

(** ** Definitions *)

Definition paginationLimitMax : Z := 100.
Definition paginationLimitDefault : Z := 10.
Definition defaultLimit : Z := 10.

(** The interface [Paginator], as the values its three methods return. *)
Record Paginator : Type := {
  GetCursor : option string;
  GetLimit : Z;
  GetOnlyFields : list string;
}.

(** The struct [Pagination], which implements the interface with its fields. *)
Record Pagination : Type := {
  pg_Cursor : option string;
  pg_Limit : Z;
  pg_OnlyFields : list string;
}.

Definition Pagination_Paginator (p : Pagination) : Paginator :=
  {| GetCursor := pg_Cursor p; GetLimit := pg_Limit p; GetOnlyFields := pg_OnlyFields p |}.

(** [Limit]. *)
Definition Limit (limit : Z) : Z :=
  if decide (limit > paginationLimitMax) then paginationLimitMax
  else if decide (limit ≤ 0) then paginationLimitDefault
  else limit.

(** The dynamic types of [asOfSystemTime any] that [AsOfSystemTime] tells
    apart; a time is represented by its text in [pgTimestampFormat], after
    [discardTimeZone] and the truncation to microseconds. *)
Inductive AsOf : Type :=
  | AsOfString (v : string)
  | AsOfStringPtr (v : option string)
  | AsOfTime (formatted : string)
  | AsOfOther.

Record FormatValues : Type := {
  asOfSystemTime : option AsOf;
  fields : list string;
  values : list string;
  orderFields : list string;
  limit : Z;
  qualifier : string;
}.

(** [FormatValues{}]. *)
Definition zero_FormatValues : FormatValues :=
  {| asOfSystemTime := None; fields := []; values := []; orderFields := [];
     limit := 0; qualifier := "" |}.

(** [FormatValues.WithQualifier]. *)
Definition WithQualifier (v : FormatValues) (q : string) : FormatValues :=
  {| asOfSystemTime := asOfSystemTime v; fields := fields v; values := values v;
     orderFields := orderFields v; limit := limit v; qualifier := q |}.

(** The loop of [Paginate] that adds the clauses in field order: the fields
    the cursor has a value for, and the values. *)
Fixpoint cursor_clauses (onlyFields : list string) (cValues : Values)
    : list string * list string :=
  match onlyFields with
  | [] => ([], [])
  | field :: rest =>
    let '(fs, vs) := cursor_clauses rest cValues in
    let value := Values_Get cValues field in
    if decide (value ≠ "") then (field :: fs, value :: vs) else (fs, vs)
  end.

(** [Paginate]. A cursor that does not decode, or that names a field that is
    not permitted, yields the zero [FormatValues]. Decoding never panics
    ([Cursor_Values_no_panic]). *)
Definition Paginate (p : Paginator) (asOf : option AsOf) : FormatValues :=
  let onlyFields :=
    if decide (length (GetOnlyFields p) = 0%nat) then ["id"] else GetOnlyFields p in
  let base fs vs :=
    {| asOfSystemTime := asOf; fields := fs; values := vs;
       orderFields := onlyFields; limit := GetLimit p; qualifier := "" |} in
  match GetCursor p with
  | None => base [] []
  | Some cursor =>
    match Cursor_Values (Some cursor) with
    | Err _ | Panic _ => zero_FormatValues
    | Ok cValues =>
      let cValues := default ∅ cValues in
      if forallb (λ kv, Contains onlyFields kv.1) (map_to_list cValues) then
        let '(fs, vs) := cursor_clauses onlyFields cValues in base fs vs
      else zero_FormatValues
    end
  end.

(** [ContextAsOfSystemTime]: the context's value, or the default. *)
Definition ContextAsOfSystemTime (ctxValue : option AsOf) (defaultTime : option AsOf)
    : option AsOf :=
  match ctxValue with Some v => Some v | None => defaultTime end.

(** *** The SQL text *)

Definition dquote : ascii := "034"%char.
Definition squote : ascii := "'"%char.

(** A string of one byte, and of a doubled byte. *)
Definition str1 (c : ascii) : string := String c "".
Definition str2 (c : ascii) : string := String c (String c "").

Definition quoteField (q v : string) : string :=
  let prefix := if decide (q ≠ "")
    then str1 dquote +:+ ReplaceAll q dquote (str2 dquote) +:+ str1 dquote +:+ "."
    else "" in
  prefix +:+ str1 dquote +:+ ReplaceAll v dquote (str2 dquote) +:+ str1 dquote.

(** [quoteFields] overwrites the slice it is given and returns it. *)
Definition quoteFields (q : string) (fs : list string) : list string := quoteField q <$> fs.

Definition quoteValue (v : string) : string :=
  str1 squote +:+ ReplaceAll v squote (str2 squote) +:+ str1 squote.

(** The time expression of [AsOfSystemTime]; [""] when there is none.
    Dereferencing a nil string pointer panics. *)
Definition as_of_value (v : FormatValues) : result string :=
  match asOfSystemTime v with
  | None | Some AsOfOther => Ok ""
  | Some (AsOfString s) | Some (AsOfTime s) | Some (AsOfStringPtr (Some s)) => Ok s
  | Some (AsOfStringPtr None) => Panic "invalid memory address or nil pointer dereference"
  end.

Definition AsOfSystemTime (v : FormatValues) : result string :=
  value ← as_of_value v;
  Ok (if decide (value = "") then "" else "AS OF SYSTEM TIME " +:+ quoteValue value).

Definition Where (v : FormatValues) (next : Z) : string :=
  if decide (length (fields v) = 0%nat) then ""
  else
    let clause i field := quoteField (qualifier v) field +:+ ">$" +:+ Itoa (Z.of_nat i + next) in
    "(" +:+ Join (imap clause (fields v)) " AND " +:+ ")".

Definition WhereClause (v : FormatValues) (next : Z) : string :=
  let where_ := Where v next in
  if decide (where_ = "") then "" else "WHERE " +:+ where_.

Definition AndWhere (v : FormatValues) (next : Z) : string :=
  let where_ := Where v next in
  if decide (where_ = "") then "" else "AND " +:+ where_.

(** The effective limit of the query, and its clause. *)
Definition query_limit (v : FormatValues) : Z :=
  if decide (limit v ≤ 0) then defaultLimit else limit v.

Definition LimitClause (v : FormatValues) : string := "LIMIT " +:+ Itoa (query_limit v).

(** [FormatValues.Order]. The order fields are passed to [quoteFields] as the
    slice itself, so the quoting is written back to the array that every copy
    of the value shares: the second component is the value seen afterwards. *)
Definition Order (v : FormatValues) (extra : list string) : string * FormatValues :=
  let quoted := quoteFields (qualifier v) (orderFields v) in
  let all := extra ++ quoted in
  (if decide (length all = 0%nat) then "" else Join all ",",
   {| asOfSystemTime := asOfSystemTime v; fields := fields v; values := values v;
      orderFields := quoted; limit := limit v; qualifier := qualifier v |}).

Definition OrderClause (v : FormatValues) (extra : list string) : string * FormatValues :=
  let '(order, v) := Order v extra in
  (if decide (order = "") then "" else "ORDER BY " +:+ order, v).

(** [FormatValues.Values]: the query's arguments, the caller's first. *)
Definition FormatValues_Values (v : FormatValues) (args : list string) : list string :=
  args ++ values v.

(** *** How the server reads quoted text

    A quoted identifier or string literal ends at the first quote that is not
    doubled (PostgreSQL, section 4.1). *)
Fixpoint read_quoted_body (q : ascii) (s : bytes) : option (bytes * bytes) :=
  match s with
  | [] => None
  | c :: s' =>
    if decide (c = q) then
      match s' with
      | d :: rest =>
        if decide (d = q) then prod_map (q ::.) id <$> read_quoted_body q rest
        else Some ([], s')
      | [] => Some ([], [])
      end
    else prod_map (c ::.) id <$> read_quoted_body q s'
  end.

Definition read_quoted (q : ascii) (s : bytes) : option (bytes * bytes) :=
  match s with
  | c :: s => if decide (c = q) then read_quoted_body q s else None
  | [] => None
  end.

(** ** Lemmas *)

Lemma Limit_range l : 1 ≤ Limit l ≤ paginationLimitMax.
Proof.
  unfold Limit, paginationLimitMax, paginationLimitDefault.
  repeat case_decide; lia.
Qed.

Lemma ParseQuery_no_panic q s : ParseQuery q ≠ Panic s.
Proof. unfold ParseQuery. destruct parse_loop as [? []]; done. Qed.

Lemma Cursor_Values_no_panic c s : Cursor_Values c ≠ Panic s.
Proof.
  unfold Cursor_Values, invalid_cursor. destruct c as [[|a c]|]; try done.
  destruct URLEncoding_DecodeString as [b|]; [|done].
  pose proof (ParseQuery_no_panic (of_bytes b)) as Hp.
  destruct ParseQuery; try done. by destruct (Hp what).
Qed.

Lemma ReplaceAll_bytes s q :
  to_bytes (ReplaceAll s q (str2 q)) =
  to_bytes s ≫= λ c, if decide (c = q) then [q; q] else [c].
Proof.
  induction s as [|c s IH]; [done|]. cbn [ReplaceAll String.list_ascii_of_string].
  rewrite bind_cons, to_bytes_app, IH. by case_decide.
Qed.

(** The reader undoes the doubling, for every text and every rest that does
    not itself continue with the quote. *)
Lemma read_quoted_body_double q s rest :
  head rest ≠ Some q →
  read_quoted_body q ((s ≫= λ c, if decide (c = q) then [q; q] else [c]) ++ q :: rest)
    = Some (s, rest).
Proof.
  intros Hrest. induction s as [|c s IH].
  - simpl. rewrite decide_True by done. destruct rest as [|d rest]; [done|].
    rewrite decide_False; [done|]. intros ->. by apply Hrest.
  - rewrite bind_cons. destruct (decide (c = q)) as [->|Hne]; simpl.
    + rewrite !decide_True by done. by rewrite IH.
    + rewrite decide_False by done. by rewrite IH.
Qed.

Lemma read_quoted_ReplaceAll q v rest : head (to_bytes rest) ≠ Some q →
  read_quoted q (to_bytes (str1 q +:+ ReplaceAll v q (str2 q) +:+ str1 q +:+ rest))
    = Some (to_bytes v, to_bytes rest).
Proof.
  intros Hrest. rewrite !to_bytes_app, ReplaceAll_bytes. simpl.
  rewrite decide_True by done. by apply read_quoted_body_double.
Qed.

Lemma app_assoc_str (s t u : string) : (s +:+ t) +:+ u = s +:+ t +:+ u.
Proof. apply to_bytes_inj. rewrite !to_bytes_app. by rewrite <-app_assoc. Qed.

Lemma cursor_clauses_spec onlyFields cv fs vs :
  cursor_clauses onlyFields cv = (fs, vs) →
  length fs = length vs ∧ fs ⊆ onlyFields ∧
  (∀ i f, fs !! i = Some f → vs !! i = Some (Values_Get cv f)).
Proof.
  revert fs vs. induction onlyFields as [|f l IH]; intros fs vs; simpl.
  { intros [= <- <-]. split_and!; [done..|]. intros i f. by rewrite lookup_nil. }
  destruct (cursor_clauses l cv) as [fs' vs'] eqn:E.
  destruct (IH _ _ eq_refl) as (Hl & Hs & Hv).
  case_decide; intros [= <- <-]; split_and!; simpl.
  - congruence.
  - by apply list_subseteq_skip.
  - intros [|i] g; simpl; [by intros [= ->]|apply Hv].
  - done.
  - by apply list_subseteq_cons.
  - apply Hv.
Qed.

(** ** Properties *)

(** The limit that a list response reports is always between 1 and 100. *)
Lemma Limit_bounds l :
  1 ≤ Limit l ≤ 100 ∧ (1 ≤ l ≤ 100 → Limit l = l) ∧ (l ≤ 0 → Limit l = 10).
Proof.
  unfold Limit, paginationLimitMax, paginationLimitDefault.
  repeat case_decide; lia.
Qed.

(** C36: Text that the templates put into SQL is read back by the server as
    that text and nothing more: a quoted field, with or without qualifier, is
    one identifier (or two joined by a dot), and a quoted value one string
    literal, whatever bytes they hold; the query cannot be changed by them. *)
Theorem quoting_is_injection_free q v rest :
  q ≠ "" → head (to_bytes rest) ≠ Some dquote →
  read_quoted dquote (to_bytes (quoteField "" v +:+ rest)) = Some (to_bytes v, to_bytes rest) ∧
  read_quoted dquote (to_bytes (quoteField q v +:+ rest))
    = Some (to_bytes q, to_bytes ("." +:+ quoteField "" v +:+ rest)) ∧
  (head (to_bytes rest) ≠ Some squote →
   read_quoted squote (to_bytes (quoteValue v +:+ rest)) = Some (to_bytes v, to_bytes rest)).
Proof.
  intros Hq Hd. unfold quoteField, quoteValue. rewrite (decide_True _ _ Hq).
  rewrite decide_False by (intros []; done). rewrite !app_assoc_str. split_and!.
  - by apply read_quoted_ReplaceAll.
  - rewrite <-(app_assoc_str "." "").
    by rewrite read_quoted_ReplaceAll by (by rewrite ?to_bytes_app).
  - intros Hs. by apply read_quoted_ReplaceAll.
Qed.

Lemma quoting_is_injection_free_witness :
  let attack := "x" +:+ str1 dquote +:+ " OR 1=1; --" in
  read_quoted dquote (to_bytes (quoteField "" attack +:+ ">$1")) =
    Some (to_bytes attack, to_bytes ">$1").
Proof.
  destruct (quoting_is_injection_free "groups" ("x" +:+ str1 dquote +:+ " OR 1=1; --") ">$1")
    as [Hread _]; [done|vm_compute; discriminate|exact Hread].
Defined.

(** A cursor that does not decode, or that names a field outside the
    permitted ones ([id] when none are given), discards the whole request for
    pagination: the query gets no filter, no order, no time bound and the
    default limit 10, whatever limit was asked for, and no error is reported. *)
Lemma Paginate_bad_cursor p asOf c :
  let permitted :=
    if decide (length (GetOnlyFields p) = 0%nat) then ["id"] else GetOnlyFields p in
  GetCursor p = Some c →
  ((∃ e, Cursor_Values (Some c) = Err e) ∨
   (∃ m k, Cursor_Values (Some c) = Ok (Some m) ∧ is_Some (m !! k) ∧ k ∉ permitted)) →
  let v := Paginate p asOf in
  WhereClause v 1 = "" ∧ (OrderClause v []).1 = "" ∧ AsOfSystemTime v = Ok "" ∧
  LimitClause v = "LIMIT 10" ∧ FormatValues_Values v [] = [].
Proof.
  intros permitted Hc H. enough (Paginate p asOf = zero_FormatValues) as -> by done.
  unfold Paginate. rewrite Hc. fold permitted.
  destruct H as [[e ->]|(m & k & -> & [vs Hk] & Hni)]; [done|cbv zeta].
  destruct (forallb _ _) eqn:Hall; [|done]. exfalso.
  rewrite forallb_forall in Hall.
  assert (In (k, vs) (map_to_list m)) as Hin by
    (by apply list_elem_of_In, elem_of_map_to_list).
  by apply Hall, bool_decide_eq_true in Hin.
Qed.

Lemma Paginate_bad_cursor_witness :
  let p := {| GetCursor := Some "!"; GetLimit := 50; GetOnlyFields := ["group_id"] |} in
  LimitClause (Paginate p (Some (AsOfString "-1s"))) = "LIMIT 10".
Proof.
  apply (Paginate_bad_cursor
    {| GetCursor := Some "!"; GetLimit := 50; GetOnlyFields := ["group_id"] |} _ "!" eq_refl).
  left. eexists. reflexivity.
Defined.

(** [FormatValues.Order] is not a read-only method: it overwrites the
    caller's order fields with their quoted form, so a second call, on the
    same value or on any copy of it, quotes the fields twice and orders by a
    column that does not exist. *)
Lemma Order_mutates_fields v f :
  orderFields v = [f] →
  let '(first, v') := Order v [] in
  let '(second, _) := Order v' [] in
  first = quoteField (qualifier v) f ∧
  second = quoteField (qualifier v) (quoteField (qualifier v) f).
Proof. intros Hf. unfold Order. by rewrite Hf. Qed.

Lemma Order_mutates_fields_witness :
  let v := Paginate {| GetCursor := None; GetLimit := 0; GetOnlyFields := [] |} None in
  let '(first, v') := Order v [] in
  let '(second, _) := Order v' [] in
  first = quoteField "" "id" ∧ second = quoteField "" (quoteField "" "id").
Proof.
  exact (Order_mutates_fields
    (Paginate {| GetCursor := None; GetLimit := 0; GetOnlyFields := [] |} None) "id" eq_refl).
Defined.
