(* ===== verification/V1.v ===== *)
(** The API's data types, [pkg/api/v1/types.gen.go], and the pagination of its
    six collections, [pkg/api/v1/paginate_*.go]. A Go pointer field is an
    option; [gidx.PrefixedID] is a string. *)
From S2P Require Import Prelude GoStrings Errors Query Cursor Pagination.

Local Open Scope Z_scope.

(** ** Definitions *)

Abbreviation PrefixedID := string (only parsing).

(** *** Resources *)
Record v1_Group : Type := {
  v1g_Description : option string;
  v1g_ID : PrefixedID;
  v1g_Name : string;
  v1g_OwnerID : option PrefixedID;
}.

Record v1_Issuer : Type := {
  v1i_ClaimConditions : string;
  v1i_ClaimMappings : gmap string string;
  v1i_ID : PrefixedID;
  v1i_JWKSURI : string;
  v1i_Name : string;
  v1i_URI : string;
}.

Record v1_OAuthClient : Type := {
  v1c_Audience : list string;
  v1c_ID : PrefixedID;
  v1c_Name : string;
  v1c_Secret : option string;
}.

Record v1_User : Type := {
  v1u_Email : option string;
  v1u_ID : PrefixedID;
  v1u_Issuer : string;
  v1u_Name : option string;
  v1u_Subject : string;
}.

(** *** Request bodies *)
Record v1_AddGroupMembers : Type := { v1_MemberIDs : list PrefixedID }.

Record v1_CreateGroup : Type := {
  v1cg_Description : option string;
  v1cg_Name : string;
}.

Record v1_UpdateGroup : Type := {
  v1ug_Description : option string;
  v1ug_Name : option string;
}.

Record v1_CreateIssuer : Type := {
  v1ci_ClaimConditions : option string;
  v1ci_ClaimMappings : option (gmap string string);
  v1ci_JWKSURI : string;
  v1ci_Name : string;
  v1ci_URI : string;
}.

Record v1_IssuerUpdate : Type := {
  v1iu_ClaimConditions : option string;
  v1iu_ClaimMappings : option (gmap string string);
  v1iu_JWKSURI : option string;
  v1iu_Name : option string;
  v1iu_URI : option string;
}.

Record v1_CreateOAuthClient : Type := {
  v1cc_Audience : option (list string);
  v1cc_Name : string;
}.

(** *** Collections *)
Record v1_Pagination : Type := {
  page_Limit : Z;
  page_Next : option string;
}.

Definition zero_Pagination : v1_Pagination := {| page_Limit := 0; page_Next := None |}.

Record v1_GroupCollection : Type := {
  gc_Groups : list v1_Group;
  gc_Pagination : v1_Pagination;
}.

Record v1_GroupIDCollection : Type := {
  gic_GroupIDs : list PrefixedID;
  gic_Pagination : v1_Pagination;
}.

Record v1_GroupMemberCollection : Type := {
  gmc_GroupID : PrefixedID;
  gmc_MemberIDs : list PrefixedID;
  gmc_Pagination : v1_Pagination;
}.

Record v1_IssuerCollection : Type := {
  ic_Issuers : list v1_Issuer;
  ic_Pagination : v1_Pagination;
}.

Record v1_OAuthClientCollection : Type := {
  occ_Clients : list v1_OAuthClient;
  occ_Pagination : v1_Pagination;
}.

Record v1_UserCollection : Type := {
  uc_Pagination : v1_Pagination;
  uc_Users : list v1_User;
}.

(** The query parameters of a list request. The six [...Params] structs are
    the same two fields. *)
Record PageParams : Type := {
  pp_Cursor : option string;
  pp_Limit : option Z;
}.

(** [GetLimit] of the six parameter types. *)
Definition PageParams_GetLimit (p : PageParams) : Z := default 0 (pp_Limit p).

(** What the six files differ in: the permitted fields, the field of the next
    cursor, the identifiers of the collection's items, and its [Pagination]
    field. *)
Class Paged (C : Type) : Type := {
  only_fields : list string;
  cursor_field : string;
  item_ids : C → list string;
  pagination : C → v1_Pagination;
  set_pagination : C → v1_Pagination → C;
}.
Arguments only_fields C {_}.
Arguments cursor_field C {_}.

(** The [Paginator] that the request parameters of a collection implement. *)
Definition params_Paginator (C : Type) `{Paged C} (p : PageParams) : Paginator :=
  {| GetCursor := pp_Cursor p;
     GetLimit := PageParams_GetLimit p;
     GetOnlyFields := only_fields C |}.

(** The method [SetPagination]: a next cursor only when the page is full. *)
Definition SetPagination {C : Type} `{Paged C} (p : PageParams) (collection : C)
    : result C :=
  let l := Limit (PageParams_GetLimit p) in
  let count := length (item_ids collection) in
  let collection :=
    set_pagination collection
      {| page_Limit := l; page_Next := page_Next (pagination collection) |} in
  if decide (count ≠ 0%nat ∧ Z.of_nat count = l) then
    cursor ← NewCursor [cursor_field C; default "" (last (item_ids collection))];
    Ok (set_pagination collection {| page_Limit := l; page_Next := cursor |})
  else Ok collection.

#[export] Instance GroupCollection_paged : Paged v1_GroupCollection := {|
  only_fields := ["id"];
  cursor_field := "id";
  item_ids c := v1g_ID <$> gc_Groups c;
  pagination := gc_Pagination;
  set_pagination c p := {| gc_Groups := gc_Groups c; gc_Pagination := p |};
|}.

#[export] Instance GroupIDCollection_paged : Paged v1_GroupIDCollection := {|
  only_fields := ["group_id"];
  cursor_field := "group_id";
  item_ids := gic_GroupIDs;
  pagination := gic_Pagination;
  set_pagination c p := {| gic_GroupIDs := gic_GroupIDs c; gic_Pagination := p |};
|}.

#[export] Instance GroupMemberCollection_paged : Paged v1_GroupMemberCollection := {|
  only_fields := ["subject_id"];
  cursor_field := "subject_id";
  item_ids := gmc_MemberIDs;
  pagination := gmc_Pagination;
  set_pagination c p := {| gmc_GroupID := gmc_GroupID c;
    gmc_MemberIDs := gmc_MemberIDs c; gmc_Pagination := p |};
|}.

#[export] Instance IssuerCollection_paged : Paged v1_IssuerCollection := {|
  only_fields := ["id"];
  cursor_field := "id";
  item_ids c := v1i_ID <$> ic_Issuers c;
  pagination := ic_Pagination;
  set_pagination c p := {| ic_Issuers := ic_Issuers c; ic_Pagination := p |};
|}.

#[export] Instance OAuthClientCollection_paged : Paged v1_OAuthClientCollection := {|
  only_fields := ["id"];
  cursor_field := "id";
  item_ids c := v1c_ID <$> occ_Clients c;
  pagination := occ_Pagination;
  set_pagination c p := {| occ_Clients := occ_Clients c; occ_Pagination := p |};
|}.

#[export] Instance UserCollection_paged : Paged v1_UserCollection := {|
  only_fields := ["id"];
  cursor_field := "id";
  item_ids c := v1u_ID <$> uc_Users c;
  pagination := uc_Pagination;
  set_pagination c p := {| uc_Pagination := p; uc_Users := uc_Users c |};
|}.

(** ** Lemmas *)

(** What the clients rely on: in each of the six files the cursor is of the one
    permitted field, and the pagination field is independent of the items. *)
Class PagedLaws (C : Type) `{Paged C} : Prop := {
  only_cursor_field : only_fields C = [cursor_field C];
  item_ids_set c p : item_ids (set_pagination c p) = item_ids c;
  pagination_set c p : pagination (set_pagination c p) = p;
}.

Ltac solve_paged := constructor; [done|by intros []..].
#[export] Instance GroupCollection_laws : PagedLaws v1_GroupCollection.
Proof. solve_paged. Qed.
#[export] Instance GroupIDCollection_laws : PagedLaws v1_GroupIDCollection.
Proof. solve_paged. Qed.
#[export] Instance GroupMemberCollection_laws : PagedLaws v1_GroupMemberCollection.
Proof. solve_paged. Qed.
#[export] Instance IssuerCollection_laws : PagedLaws v1_IssuerCollection.
Proof. solve_paged. Qed.
#[export] Instance OAuthClientCollection_laws : PagedLaws v1_OAuthClientCollection.
Proof. solve_paged. Qed.
#[export] Instance UserCollection_laws : PagedLaws v1_UserCollection.
Proof. solve_paged. Qed.

Section set_pagination.
Context {C : Type} `{PagedLaws C}.

Lemma NewCursor_pair k v : NewCursor [k; v] =
  NewCursorFromValues (Some (if decide (v ≠ "") then Values_Set ∅ k v else ∅)).
Proof. done. Qed.

(** [SetPagination] never fails, keeps the items, and reports the effective
    limit; the next cursor is the last item's, exactly on a full page. *)
Lemma SetPagination_spec p (c : C) :
  page_Next (pagination c) = None →
  let l := Limit (PageParams_GetLimit p) in
  ∃ c', SetPagination p c = Ok c' ∧ item_ids c' = item_ids c ∧
    page_Limit (pagination c') = l ∧
    (Z.of_nat (length (item_ids c)) ≠ l → page_Next (pagination c') = None) ∧
    (Z.of_nat (length (item_ids c)) = l →
       Ok (page_Next (pagination c')) =
         NewCursor [cursor_field C; default "" (last (item_ids c))]).
Proof.
  intros Hnone. cbv zeta. unfold SetPagination. cbv zeta.
  pose proof (Limit_range (PageParams_GetLimit p)) as Hl.
  rewrite !item_ids_set, Hnone. case_decide as Hd.
  - destruct (NewCursor _) as [cur| |] eqn:Hcur.
    2, 3: rewrite NewCursor_pair in Hcur; by case_decide.
    eexists. split; [done|].
    rewrite !item_ids_set, !pagination_set. split_and!; try done; tauto.
  - eexists. split; [done|].
    rewrite !item_ids_set, !pagination_set. split_and!; try done.
    intros Heq. destruct Hd. split; [lia|done].
Qed.
End set_pagination.
