(* ===== verification/Json.v ===== *)
(** JSON values as [encoding/json] builds them from the API's types
    ([pkg/api/v1/types.gen.go], with their field tags), and the schemas of
    [openapi-v1.yaml] that describe the bodies of responses.

    Their text is that of [JsonText]. *)
From S2P Require Import Prelude GoStrings Errors Query Utf8 JsonText Pagination V1.

(** ** Values *)

(** A struct: its fields in order, those left out by [omitempty] missing. *)
Definition json_struct (fields : list (option (string * json))) : json := JObject (omap id fields).
Definition field (name : string) (v : json) : option (string * json) := Some (name, v).
(** A pointer field with [omitempty]: a nil pointer is left out, a pointer to an
    empty value is not. *)
Definition omitempty (name : string) (v : option json) : option (string * json) := pair name <$> v.

(** A slice that was made is an array, also when it is empty; one that was
    appended to, from nil, is null when nothing was. *)
Definition json_slice {A} (f : A → json) (l : list A) : json := JArray (f <$> l).
Definition json_appended {A} (f : A → json) (l : list A) : json :=
  match l with [] => JNull | _ => json_slice f l end.

(** A map: an object with sorted keys. *)
Definition json_map (m : gmap string string) : json :=
  JObject ((λ k, (k, JString (default "" (m !! k)))) <$> sorted_keys m).

(** *** The types of the API *)

(** [Cursor.MarshalJSON] of a pointer that is not nil. *)
Definition Cursor_MarshalJSON (c : string) : json := if decide (c = "") then JNull else JString c.

Definition json_Pagination (p : v1_Pagination) : json := json_struct
  [field "limit" (JInt (page_Limit p)); omitempty "next" (Cursor_MarshalJSON <$> page_Next p)].

Definition json_Group (g : v1_Group) : json := json_struct
  [omitempty "description" (JString <$> v1g_Description g); field "id" (JString (v1g_ID g));
   field "name" (JString (v1g_Name g)); omitempty "owner_id" (JString <$> v1g_OwnerID g)].

Definition json_Issuer (i : v1_Issuer) : json := json_struct
  [field "claim_conditions" (JString (v1i_ClaimConditions i));
   field "claim_mappings" (json_map (v1i_ClaimMappings i)); field "id" (JString (v1i_ID i));
   field "jwks_uri" (JString (v1i_JWKSURI i)); field "name" (JString (v1i_Name i));
   field "uri" (JString (v1i_URI i))].

Definition json_OAuthClient (c : v1_OAuthClient) : json := json_struct
  [field "audience" (json_slice JString (v1c_Audience c)); field "id" (JString (v1c_ID c));
   field "name" (JString (v1c_Name c)); omitempty "secret" (JString <$> v1c_Secret c)].

Definition json_User (u : v1_User) : json := json_struct
  [omitempty "email" (JString <$> v1u_Email u); field "id" (JString (v1u_ID u));
   field "iss" (JString (v1u_Issuer u)); omitempty "name" (JString <$> v1u_Name u);
   field "sub" (JString (v1u_Subject u))].

(** [DeleteResponse] and [AddGroupMembersResponse]. *)
Definition json_DeleteResponse (success : bool) : json := json_struct [field "success" (JBool success)].
Definition json_AddGroupMembersResponse (success : bool) : json :=
  json_struct [field "success" (JBool success)].

(** *** The collections

    Their items are slices that were made, except the members of a group, which
    the storage service appends to a nil slice. *)
Definition json_GroupCollection (c : v1_GroupCollection) : json := json_struct
  [field "groups" (json_slice json_Group (gc_Groups c));
   field "pagination" (json_Pagination (gc_Pagination c))].
Definition json_GroupIDCollection (c : v1_GroupIDCollection) : json := json_struct
  [field "group_ids" (json_slice JString (gic_GroupIDs c));
   field "pagination" (json_Pagination (gic_Pagination c))].
Definition json_GroupMemberCollection (c : v1_GroupMemberCollection) : json := json_struct
  [field "group_id" (JString (gmc_GroupID c));
   field "member_ids" (json_appended JString (gmc_MemberIDs c));
   field "pagination" (json_Pagination (gmc_Pagination c))].
Definition json_IssuerCollection (c : v1_IssuerCollection) : json := json_struct
  [field "issuers" (json_slice json_Issuer (ic_Issuers c));
   field "pagination" (json_Pagination (ic_Pagination c))].
Definition json_OAuthClientCollection (c : v1_OAuthClientCollection) : json := json_struct
  [field "clients" (json_slice json_OAuthClient (occ_Clients c));
   field "pagination" (json_Pagination (occ_Pagination c))].
Definition json_UserCollection (c : v1_UserCollection) : json := json_struct
  [field "pagination" (json_Pagination (uc_Pagination c));
   field "users" (json_slice json_User (uc_Users c))].

(** ** Schemas *)

(** The schemas of OpenAPI that the document uses. *)
Inductive schema : Type :=
  | TString
  | TBoolean
  | TInteger
  | TArray (items : schema)
  | TMap (values : schema)
  | TObject (required : list string) (properties : list (string * schema)).

Definition lookup_field (k : string) (fields : list (string * json)) : option json :=
  snd <$> head (filter (λ kv, kv.1 = k) fields).

(** A number without fraction and exponent. *)
Definition integer_literal (l : string) : bool :=
  let '(_, ds) := parse_sign ["-"%char] (to_bytes l) in
  negb (bool_decide (ds = [])) && forallb is_digit ds.

(** A value is valid for a schema; an object may have other properties. *)
Fixpoint valid (s : schema) (v : json) : bool :=
  match s, v with
  | TString, JString _ | TBoolean, JBool _ => true
  | TInteger, JNumber l => integer_literal l
  | TArray items, JArray l => forallb (valid items) l
  | TMap values, JObject fields => forallb (λ kv, valid values kv.2) fields
  | TObject required properties, JObject fields =>
    forallb (λ k, bool_decide (is_Some (lookup_field k fields))) required &&
    forallb (λ p, match lookup_field p.1 fields with
                  | Some v => valid p.2 v
                  | None => true
                  end) properties
  | _, _ => false
  end.

Definition schema_DeleteResponse : schema := TObject ["success"] [("success", TBoolean)].
Definition schema_AddGroupMembersResponse : schema := TObject ["success"] [("success", TBoolean)].
Definition schema_Issuer : schema := TObject
  ["id"; "name"; "uri"; "jwks_uri"; "claim_mappings"; "claim_conditions"]
  [("id", TString); ("name", TString); ("uri", TString); ("jwks_uri", TString);
   ("claim_mappings", TMap TString); ("claim_conditions", TString)].
Definition schema_OAuthClient : schema := TObject ["id"; "name"; "audience"]
  [("id", TString); ("name", TString); ("secret", TString); ("audience", TArray TString)].
Definition schema_User : schema := TObject ["id"; "iss"; "sub"]
  [("id", TString); ("name", TString); ("email", TString); ("iss", TString); ("sub", TString)].
Definition schema_Pagination : schema := TObject ["limit"] [("limit", TInteger); ("next", TString)].
(** The required property is called otherwise than the one that is described. *)
Definition schema_Group : schema := TObject ["id"; "name"; "owner"]
  [("id", TString); ("name", TString); ("description", TString); ("owner_id", TString)].

Definition schema_collection (name : string) (items : schema) : schema :=
  TObject [name; "pagination"] [(name, TArray items); ("pagination", schema_Pagination)].
Definition schema_GroupMemberCollection : schema := TObject ["member_ids"; "group_id"; "pagination"]
  [("group_id", TString); ("member_ids", TArray TString); ("pagination", schema_Pagination)].

(** ** Lemmas *)

Lemma forallb_fmap {A B} (f : A → B) (p : B → bool) l : forallb p (f <$> l) = forallb (λ x, p (f x)) l.
Proof. induction l as [|x l IH]; [done|]. simpl. f_equal. exact IH. Qed.

Lemma forallb_true {A} (p : A → bool) l : (∀ x, p x = true) → forallb p l = true.
Proof. intros Hp. induction l as [|x l IH]; [done|]. simpl. by rewrite Hp. Qed.

Lemma lookup_field_here k v l : lookup_field k ((k, v) :: l) = Some v.
Proof. unfold lookup_field. by rewrite filter_cons_True. Qed.
Lemma lookup_field_next k k' v l : k' ≠ k → lookup_field k ((k', v) :: l) = lookup_field k l.
Proof. intros Hk. unfold lookup_field. by rewrite filter_cons_False. Qed.

Lemma valid_slice {A} (f : A → json) s l : (∀ x, valid s (f x) = true) → valid (TArray s) (json_slice f l) = true.
Proof.
  intros Hf. change (forallb (valid s) (f <$> l) = true). rewrite forallb_fmap. by apply forallb_true.
Qed.

Lemma valid_map m : valid (TMap TString) (json_map m) = true.
Proof.
  change (forallb (λ kv, valid TString kv.2) ((λ k, (k, JString (default "" (m !! k)))) <$> sorted_keys m) = true).
  rewrite forallb_fmap. by apply forallb_true.
Qed.

Lemma valid_JInt z : valid TInteger (JInt z) = true.
Proof.
  cbn [valid JInt]. unfold integer_literal, Itoa.
  assert (∀ n, (0 < n)%N → ∃ c r, to_bytes (pretty n) = c :: r ∧ c ∉ ["-"%char] ∧
    forallb is_digit (c :: r) = true) as Hpos.
  { intros n Hn. destruct (pretty_digits n Hn) as (c & r & Hb & Hc & _ & Hr). exists c, r.
    split_and!; [done|by intros ->%list_elem_of_singleton|]. simpl. by rewrite Hc. }
  destruct z as [|p|p]; [done|..].
  - destruct (Hpos (N.pos p) ltac:(lia)) as (c & r & Hb & Hc & Hd).
    change (to_bytes (pretty (Z.pos p))) with (to_bytes (pretty (N.pos p))). rewrite Hb.
    unfold parse_sign. by rewrite decide_False.
  - destruct (Hpos (N.pos p) ltac:(lia)) as (c & r & Hb & _ & Hd).
    change (to_bytes (pretty (Z.neg p))) with ("-"%char :: to_bytes (pretty (N.pos p))). by rewrite Hb.
Qed.

Lemma valid_Pagination p : valid schema_Pagination (json_Pagination p) = bool_decide (page_Next p ≠ Some "").
Proof.
  pose proof (valid_JInt (page_Limit p)) as Hl. unfold json_Pagination.
  generalize dependent (JInt (page_Limit p)). intros v Hv. destruct p as [l [c|]]; simpl in *.
  - rewrite Hv. unfold Cursor_MarshalJSON.
    case_decide as Hc; simpl; [subst; by rewrite bool_decide_false by auto|].
    rewrite bool_decide_true by congruence. done.
  - by rewrite Hv.
Qed.

(** A group lacks the property that its schema requires. *)
Lemma valid_Group g : valid schema_Group (json_Group g) = false.
Proof. by destruct g as [[d|] i n [o|]]. Qed.

Lemma valid_Issuer i : valid schema_Issuer (json_Issuer i) = true.
Proof.
  destruct i as [cc cm i j n u]. unfold json_Issuer. cbn [v1i_ClaimMappings].
  pose proof (valid_map cm) as Hm. generalize dependent (json_map cm). intros v Hv. simpl in *.
  by rewrite Hv.
Qed.

Lemma valid_OAuthClient c : valid schema_OAuthClient (json_OAuthClient c) = true.
Proof.
  destruct c as [aud i n s]. unfold json_OAuthClient. cbn [v1c_Audience].
  pose proof (valid_slice JString TString aud (λ _, eq_refl)) as Ha.
  generalize dependent (json_slice JString aud). intros v Hv. destruct s; simpl in *; by rewrite Hv.
Qed.

Lemma valid_User u : valid schema_User (json_User u) = true.
Proof. by destruct u as [[e|] i iss [n|] s]. Qed.

(** A collection is valid when its items are, and its next cursor is not empty. *)
Lemma valid_collection name s v p :
  name ≠ "pagination" →
  valid (schema_collection name s) (json_struct [field name v; field "pagination" (json_Pagination p)]) =
  valid (TArray s) v && bool_decide (page_Next p ≠ Some "").
Proof.
  intros Hname. rewrite <-(valid_Pagination p). generalize (json_Pagination p). intros pg.
  unfold json_struct, field. cbn -[lookup_field schema_Pagination].
  rewrite lookup_field_here, (lookup_field_next "pagination"), lookup_field_here by done.
  cbn -[schema_Pagination]. by rewrite andb_true_r.
Qed.

(** The same for a collection whose pagination comes first. *)
Lemma valid_collection_last name s v p :
  name ≠ "pagination" →
  valid (schema_collection name s) (json_struct [field "pagination" (json_Pagination p); field name v]) =
  valid (TArray s) v && bool_decide (page_Next p ≠ Some "").
Proof.
  intros Hname. rewrite <-(valid_Pagination p). generalize (json_Pagination p). intros pg.
  unfold json_struct, field. cbn -[lookup_field schema_Pagination].
  rewrite lookup_field_here, (lookup_field_next name), lookup_field_here by done.
  cbn -[schema_Pagination]. by rewrite andb_true_r.
Qed.

Lemma valid_GroupIDCollection c : valid (schema_collection "group_ids" TString) (json_GroupIDCollection c) =
  bool_decide (page_Next (gic_Pagination c) ≠ Some "").
Proof. unfold json_GroupIDCollection. rewrite valid_collection by done. by rewrite valid_slice. Qed.

Lemma valid_IssuerCollection c : valid (schema_collection "issuers" schema_Issuer) (json_IssuerCollection c) =
  bool_decide (page_Next (ic_Pagination c) ≠ Some "").
Proof.
  unfold json_IssuerCollection. rewrite valid_collection by done.
  by rewrite valid_slice by apply valid_Issuer.
Qed.

Lemma valid_OAuthClientCollection c :
  valid (schema_collection "clients" schema_OAuthClient) (json_OAuthClientCollection c) =
  bool_decide (page_Next (occ_Pagination c) ≠ Some "").
Proof.
  unfold json_OAuthClientCollection. rewrite valid_collection by done.
  by rewrite valid_slice by apply valid_OAuthClient.
Qed.

Lemma valid_UserCollection c : valid (schema_collection "users" schema_User) (json_UserCollection c) =
  bool_decide (page_Next (uc_Pagination c) ≠ Some "").
Proof.
  unfold json_UserCollection. rewrite valid_collection_last by done.
  by rewrite valid_slice by apply valid_User.
Qed.

Lemma valid_GroupCollection c : valid (schema_collection "groups" schema_Group) (json_GroupCollection c) =
  bool_decide (gc_Groups c = []) && bool_decide (page_Next (gc_Pagination c) ≠ Some "").
Proof.
  unfold json_GroupCollection. rewrite valid_collection by done. f_equal.
  destruct (gc_Groups c) as [|g gs]; [done|]. rewrite bool_decide_false by done.
  change (valid schema_Group (json_Group g) && forallb (valid schema_Group) (json_Group <$> gs) = false).
  by rewrite valid_Group.
Qed.

Lemma valid_GroupMemberCollection c : valid schema_GroupMemberCollection (json_GroupMemberCollection c) =
  bool_decide (gmc_MemberIDs c ≠ []) && bool_decide (page_Next (gmc_Pagination c) ≠ Some "").
Proof.
  rewrite <-(valid_Pagination (gmc_Pagination c)). unfold json_GroupMemberCollection.
  generalize (json_Pagination (gmc_Pagination c)). intros pg.
  assert (valid (TArray TString) (json_appended JString (gmc_MemberIDs c)) =
    bool_decide (gmc_MemberIDs c ≠ [])) as <-.
  { destruct (gmc_MemberIDs c) as [|m ms]; [done|]. rewrite bool_decide_true by done.
    by apply (valid_slice JString TString (m :: ms)). }
  generalize (json_appended JString (gmc_MemberIDs c)). intros v.
  unfold schema_GroupMemberCollection, json_struct, field. cbn -[lookup_field schema_Pagination].
  rewrite lookup_field_here, (lookup_field_next "member_ids"), lookup_field_here by done.
  rewrite !(lookup_field_next "pagination"), lookup_field_here by done.
  cbn -[schema_Pagination]. by rewrite andb_true_r.
Qed.

(** *** Printing

    The bodies are not deep, and their numbers are integers. *)
Create HintDb printable.

Lemma printable_slice {A} (f : A → json) d l :
  d ≠ 0%N → (∀ x, printable (d - 1) (f x) = true) → printable d (json_slice f l) = true.
Proof.
  intros Hd Hf. unfold json_slice. cbn [printable]. rewrite bool_decide_true by done.
  change (forallb (printable (d - 1)) (f <$> l) = true). rewrite forallb_fmap. by apply forallb_true.
Qed.

Lemma printable_strings d l : d ≠ 0%N → printable d (json_slice JString l) = true.
Proof. intros Hd. by apply printable_slice. Qed.

Lemma printable_map d m : d ≠ 0%N → printable d (json_map m) = true.
Proof.
  intros Hd. unfold json_map. cbn [printable]. rewrite bool_decide_true by done.
  change (forallb (λ kv, printable (d - 1) kv.2) ((λ k, (k, JString (default "" (m !! k)))) <$> sorted_keys m) = true).
  rewrite forallb_fmap. by apply forallb_true.
Qed.

(** A struct is printable when its fields are. *)
Lemma printable_struct d fields : d ≠ 0%N →
  Forall (λ f, match f with Some kv => printable (d - 1) kv.2 = true | None => True end) fields →
  printable d (json_struct fields) = true.
Proof.
  intros Hd Hf. unfold json_struct. cbn [printable]. rewrite bool_decide_true by done. simpl.
  induction Hf as [|[kv|] fields Hkv _ IH]; [done|..]; [|done].
  change (forallb (λ kv, printable (d - 1) kv.2) (kv :: omap id fields) = true). simpl.
  by rewrite Hkv.
Qed.

Lemma printable_Pagination d p : d ≠ 0%N → printable d (json_Pagination p) = true.
Proof.
  intros Hd. apply printable_struct; [done|]. repeat (apply Forall_cons; split); [..|apply Forall_nil_2].
  - apply number_ok_Itoa.
  - destruct (page_Next p) as [c|]; [|done]. simpl. unfold Cursor_MarshalJSON. by case_decide.
Qed.

Ltac printable_fields :=
  repeat (apply Forall_cons; split); [..|apply Forall_nil_2];
  first [done|by apply printable_map|by apply printable_strings|by apply printable_Pagination
        |repeat case_match; simplify_eq/=; done].

Lemma printable_Group d g : d ≠ 0%N → printable d (json_Group g) = true.
Proof. intros Hd. destruct g as [[] ? ? []]; (apply printable_struct; [done|]); printable_fields. Qed.
Lemma printable_User d u : d ≠ 0%N → printable d (json_User u) = true.
Proof. intros Hd. destruct u as [[] ? ? [] ?]; (apply printable_struct; [done|]); printable_fields. Qed.
Lemma printable_Issuer d i : (1 < d)%N → printable d (json_Issuer i) = true.
Proof.
  intros Hd. assert (d ≠ 0%N) by lia. assert (d - 1 ≠ 0)%N by lia.
  apply printable_struct; [done|]. printable_fields.
Qed.
Lemma printable_OAuthClient d c : (1 < d)%N → printable d (json_OAuthClient c) = true.
Proof.
  intros Hd. assert (d ≠ 0%N) by lia. assert (d - 1 ≠ 0)%N by lia.
  destruct c as [? ? ? []]; (apply printable_struct; [done|]); printable_fields.
Qed.

(** A collection of printable items. *)
Lemma printable_collection {A} (f : A → json) d name l p :
  (2 < d)%N → (∀ x, printable (d - 1 - 1) (f x) = true) →
  printable d (json_struct [field name (json_slice f l); field "pagination" (json_Pagination p)]) = true ∧
  printable d (json_struct [field "pagination" (json_Pagination p); field name (json_slice f l)]) = true.
Proof.
  intros Hd Hf. assert (printable (d - 1) (json_slice f l) = true) as Hl by (apply printable_slice; [lia|done]).
  assert (printable (d - 1) (json_Pagination p) = true) as Hp by (apply printable_Pagination; lia).
  split; (apply printable_struct; [lia|]); by repeat (apply Forall_cons; split).
Qed.

Lemma printable_bodies d : (3 < d)%N →
  (∀ c, printable d (json_GroupCollection c) = true) ∧
  (∀ c, printable d (json_GroupIDCollection c) = true) ∧
  (∀ c, printable d (json_GroupMemberCollection c) = true) ∧
  (∀ c, printable d (json_IssuerCollection c) = true) ∧
  (∀ c, printable d (json_OAuthClientCollection c) = true) ∧
  (∀ c, printable d (json_UserCollection c) = true).
Proof.
  intros Hd. split_and!; intros c.
  - apply printable_collection; [lia|]. intros x. apply printable_Group. lia.
  - by apply printable_collection; [lia|].
  - assert (d - 1 ≠ 0)%N by lia. apply printable_struct; [lia|].
    repeat (apply Forall_cons; split); [done|..|by apply printable_Pagination|apply Forall_nil_2].
    simpl. unfold json_appended. destruct (gmc_MemberIDs c); [done|]. by apply printable_strings.
  - apply printable_collection; [lia|]. intros x. apply printable_Issuer. lia.
  - apply printable_collection; [lia|]. intros x. apply printable_OAuthClient. lia.
  - apply printable_collection; [lia|]. intros x. apply printable_User. lia.
Qed.

(** None of the bodies reaches the decoder's limit of nesting. *)
#[export] Hint Extern 1 (printable max_depth _ = true) =>
  first [reflexivity|by apply printable_Group|by apply printable_User|by apply printable_Issuer
        |by apply printable_OAuthClient|by apply (printable_bodies max_depth)] : printable.
