(* ===== verification/Bodies.v ===== *)
(** The bodies of requests: the JSON of the types of [pkg/api/v1/types.gen.go]
    that the operations take, and how [encoding/json] decodes a text into them
    by their field tags. *)
From S2P Require Import Prelude GoStrings Errors Query Utf8 JsonText JsonBytes Pagination V1 Json.

(** ** Decoding into Go values

    A decoder updates the value that is there; [None] is an
    [UnmarshalTypeError]. *)
Definition decoder (A : Type) : Type := json → A → option A.

Definition dec_string : decoder string := λ v old,
  match v with JString s => Some s | JNull => Some old | _ => None end.

(** A pointer: [null] makes it nil, any other value is decoded into what it
    points to, or into a new value. *)
Definition dec_ptr {A} (zero : A) (d : decoder A) : decoder (option A) := λ v old,
  match v with
  | JNull => Some None
  | _ => Some <$> d v (default zero old)
  end.

(** A slice: its elements are decoded over those that are there. *)
Fixpoint dec_elems {A} (zero : A) (d : decoder A) (l : list json) (old : list A)
    : option (list A) :=
  match l with
  | [] => Some []
  | v :: l =>
    x ← d v (default zero (head old)); xs ← dec_elems zero d l (tail old); Some (x :: xs)
  end.
Definition dec_slice {A} (zero : A) (d : decoder A) : decoder (list A) := λ v old,
  match v with
  | JNull => Some []
  | JArray l => dec_elems zero d l old
  | _ => None
  end.

(** A map of strings, to which the members of an object are added. *)
Fixpoint dec_entries (fields : list (string * json)) (m : gmap string string)
    : option (gmap string string) :=
  match fields with
  | [] => Some m
  | (k, v) :: fields => s ← dec_string v ""; dec_entries fields (<[k := s]> m)
  end.
Definition dec_map : decoder (gmap string string) := λ v old,
  match v with
  | JNull => Some ∅
  | JObject fields => dec_entries fields old
  | _ => None
  end.

(** [foldName]: ASCII letters in upper case; the long s and the Kelvin sign are
    variants of letters, and no other rune is one of ASCII. *)
Definition fold_rune (r : rune) : bytes :=
  match r with
  | Rune [c] =>
    let n := N_of_ascii c in [if decide (97 ≤ n ≤ 122)%N then byte_of (n - 32) else c]
  | _ =>
    let e := rune_bytes r in
    if decide (e = encode_rune 0x17F) then ["S"%char]
    else if decide (e = encode_rune 0x212A) then ["K"%char]
    else e
  end.
Definition foldName (name : string) : bytes := runes name ≫= fold_rune.

(** A struct: its fields by their tags. A member is decoded into the field of
    its name or, when there is none, of the same name in another case; other
    members are ignored. *)
Definition find_field {T} (fields : list (string * decoder T)) (name : string)
    : option (decoder T) :=
  match filter (λ f, f.1 = name) fields with
  | f :: _ => Some f.2
  | [] => snd <$> head (filter (λ f, foldName f.1 = foldName name) fields)
  end.
Fixpoint dec_members {T} (fields : list (string * decoder T)) (members : list (string * json))
    (t : T) : option T :=
  match members with
  | [] => Some t
  | (k, v) :: members =>
    t ← match find_field fields k with Some d => d v t | None => Some t end;
    dec_members fields members t
  end.
Definition dec_struct {T} (fields : list (string * decoder T)) : decoder T := λ v t,
  match v with
  | JNull => Some t
  | JObject members => dec_members fields members t
  | _ => None
  end.

(** [json.NewDecoder(body).Decode(&t)]. *)
Definition Decode {T} (fields : list (string * decoder T)) (body : string) (t : T) : result T :=
  match parse_first body with
  | None => Err (ExtError "syntax error")
  | Some v =>
    match dec_struct fields v t with
    | None => Err (ExtError "cannot unmarshal")
    | Some t => Ok t
    end
  end.

(** ** The bodies *)

Definition zero_AddGroupMembers : v1_AddGroupMembers := {| v1_MemberIDs := [] |}.
Definition AddGroupMembers_fields : list (string * decoder v1_AddGroupMembers) :=
  [("member_ids", λ v t, x ← dec_slice "" dec_string v (v1_MemberIDs t);
      Some {| v1_MemberIDs := x |})].
Definition json_AddGroupMembers (b : v1_AddGroupMembers) : json := json_struct
  [field "member_ids" (json_slice JString (v1_MemberIDs b))].

Definition zero_CreateGroup : v1_CreateGroup := {| v1cg_Description := None; v1cg_Name := "" |}.
Definition CreateGroup_fields : list (string * decoder v1_CreateGroup) :=
  [("description", λ v t, x ← dec_ptr "" dec_string v (v1cg_Description t);
      Some {| v1cg_Description := x; v1cg_Name := v1cg_Name t |});
   ("name", λ v t, x ← dec_string v (v1cg_Name t);
      Some {| v1cg_Description := v1cg_Description t; v1cg_Name := x |})].
Definition json_CreateGroup (b : v1_CreateGroup) : json := json_struct
  [omitempty "description" (JString <$> v1cg_Description b); field "name" (JString (v1cg_Name b))].

Definition zero_UpdateGroup : v1_UpdateGroup := {| v1ug_Description := None; v1ug_Name := None |}.
Definition UpdateGroup_fields : list (string * decoder v1_UpdateGroup) :=
  [("description", λ v t, x ← dec_ptr "" dec_string v (v1ug_Description t);
      Some {| v1ug_Description := x; v1ug_Name := v1ug_Name t |});
   ("name", λ v t, x ← dec_ptr "" dec_string v (v1ug_Name t);
      Some {| v1ug_Description := v1ug_Description t; v1ug_Name := x |})].
Definition json_UpdateGroup (b : v1_UpdateGroup) : json := json_struct
  [omitempty "description" (JString <$> v1ug_Description b);
   omitempty "name" (JString <$> v1ug_Name b)].

Definition zero_CreateIssuer : v1_CreateIssuer :=
  {| v1ci_ClaimConditions := None; v1ci_ClaimMappings := None; v1ci_JWKSURI := "";
     v1ci_Name := ""; v1ci_URI := "" |}.
Definition CreateIssuer_fields : list (string * decoder v1_CreateIssuer) :=
  [("claim_conditions", λ v t, x ← dec_ptr "" dec_string v (v1ci_ClaimConditions t);
      Some {| v1ci_ClaimConditions := x; v1ci_ClaimMappings := v1ci_ClaimMappings t;
              v1ci_JWKSURI := v1ci_JWKSURI t; v1ci_Name := v1ci_Name t; v1ci_URI := v1ci_URI t |});
   ("claim_mappings", λ v t, x ← dec_ptr ∅ dec_map v (v1ci_ClaimMappings t);
      Some {| v1ci_ClaimConditions := v1ci_ClaimConditions t; v1ci_ClaimMappings := x;
              v1ci_JWKSURI := v1ci_JWKSURI t; v1ci_Name := v1ci_Name t; v1ci_URI := v1ci_URI t |});
   ("jwks_uri", λ v t, x ← dec_string v (v1ci_JWKSURI t);
      Some {| v1ci_ClaimConditions := v1ci_ClaimConditions t;
              v1ci_ClaimMappings := v1ci_ClaimMappings t;
              v1ci_JWKSURI := x; v1ci_Name := v1ci_Name t; v1ci_URI := v1ci_URI t |});
   ("name", λ v t, x ← dec_string v (v1ci_Name t);
      Some {| v1ci_ClaimConditions := v1ci_ClaimConditions t;
              v1ci_ClaimMappings := v1ci_ClaimMappings t;
              v1ci_JWKSURI := v1ci_JWKSURI t; v1ci_Name := x; v1ci_URI := v1ci_URI t |});
   ("uri", λ v t, x ← dec_string v (v1ci_URI t);
      Some {| v1ci_ClaimConditions := v1ci_ClaimConditions t;
              v1ci_ClaimMappings := v1ci_ClaimMappings t;
              v1ci_JWKSURI := v1ci_JWKSURI t; v1ci_Name := v1ci_Name t; v1ci_URI := x |})].
Definition json_CreateIssuer (b : v1_CreateIssuer) : json := json_struct
  [omitempty "claim_conditions" (JString <$> v1ci_ClaimConditions b);
   omitempty "claim_mappings" (json_map <$> v1ci_ClaimMappings b);
   field "jwks_uri" (JString (v1ci_JWKSURI b)); field "name" (JString (v1ci_Name b));
   field "uri" (JString (v1ci_URI b))].

Definition zero_IssuerUpdate : v1_IssuerUpdate :=
  {| v1iu_ClaimConditions := None; v1iu_ClaimMappings := None; v1iu_JWKSURI := None;
     v1iu_Name := None; v1iu_URI := None |}.
Definition IssuerUpdate_fields : list (string * decoder v1_IssuerUpdate) :=
  [("claim_conditions", λ v t, x ← dec_ptr "" dec_string v (v1iu_ClaimConditions t);
      Some {| v1iu_ClaimConditions := x; v1iu_ClaimMappings := v1iu_ClaimMappings t;
              v1iu_JWKSURI := v1iu_JWKSURI t; v1iu_Name := v1iu_Name t; v1iu_URI := v1iu_URI t |});
   ("claim_mappings", λ v t, x ← dec_ptr ∅ dec_map v (v1iu_ClaimMappings t);
      Some {| v1iu_ClaimConditions := v1iu_ClaimConditions t; v1iu_ClaimMappings := x;
              v1iu_JWKSURI := v1iu_JWKSURI t; v1iu_Name := v1iu_Name t; v1iu_URI := v1iu_URI t |});
   ("jwks_uri", λ v t, x ← dec_ptr "" dec_string v (v1iu_JWKSURI t);
      Some {| v1iu_ClaimConditions := v1iu_ClaimConditions t;
              v1iu_ClaimMappings := v1iu_ClaimMappings t;
              v1iu_JWKSURI := x; v1iu_Name := v1iu_Name t; v1iu_URI := v1iu_URI t |});
   ("name", λ v t, x ← dec_ptr "" dec_string v (v1iu_Name t);
      Some {| v1iu_ClaimConditions := v1iu_ClaimConditions t;
              v1iu_ClaimMappings := v1iu_ClaimMappings t;
              v1iu_JWKSURI := v1iu_JWKSURI t; v1iu_Name := x; v1iu_URI := v1iu_URI t |});
   ("uri", λ v t, x ← dec_ptr "" dec_string v (v1iu_URI t);
      Some {| v1iu_ClaimConditions := v1iu_ClaimConditions t;
              v1iu_ClaimMappings := v1iu_ClaimMappings t;
              v1iu_JWKSURI := v1iu_JWKSURI t; v1iu_Name := v1iu_Name t; v1iu_URI := x |})].
Definition json_IssuerUpdate (b : v1_IssuerUpdate) : json := json_struct
  [omitempty "claim_conditions" (JString <$> v1iu_ClaimConditions b);
   omitempty "claim_mappings" (json_map <$> v1iu_ClaimMappings b);
   omitempty "jwks_uri" (JString <$> v1iu_JWKSURI b); omitempty "name" (JString <$> v1iu_Name b);
   omitempty "uri" (JString <$> v1iu_URI b)].

Definition zero_CreateOAuthClient : v1_CreateOAuthClient :=
  {| v1cc_Audience := None; v1cc_Name := "" |}.
Definition CreateOAuthClient_fields : list (string * decoder v1_CreateOAuthClient) :=
  [("audience", λ v t, x ← dec_ptr [] (dec_slice "" dec_string) v (v1cc_Audience t);
      Some {| v1cc_Audience := x; v1cc_Name := v1cc_Name t |});
   ("name", λ v t, x ← dec_string v (v1cc_Name t);
      Some {| v1cc_Audience := v1cc_Audience t; v1cc_Name := x |})].
Definition json_CreateOAuthClient (b : v1_CreateOAuthClient) : json := json_struct
  [omitempty "audience" (json_slice JString <$> v1cc_Audience b);
   field "name" (JString (v1cc_Name b))].

(** ** Lemmas *)

(** A value whose strings are UTF-8. *)
Definition utf8 (v : json) : Prop := coerce v = v.

Lemma Decode_Marshal {T} (fields : list (string * decoder T)) v t t' rest :
  printable max_depth v = true → utf8 v → stops (to_bytes rest) →
  dec_struct fields v t = Some t' → Decode fields (Marshal v +:+ rest) t = Ok t'.
Proof.
  intros Hp Hv Hr Hd. unfold Decode. rewrite parse_first_app by done. rewrite Hv. by rewrite Hd.
Qed.

Lemma dec_strings l old : dec_elems "" dec_string (JString <$> l) old = Some l.
Proof. revert old. induction l as [|s l IH]; intros old; [done|]. simpl. by rewrite IH. Qed.

Lemma dec_slice_strings l old : dec_slice "" dec_string (json_slice JString l) old = Some l.
Proof. apply dec_strings. Qed.

Lemma dec_entries_keys (f : string → string) ks m :
  dec_entries ((λ k, (k, JString (f k))) <$> ks) m =
  Some (foldl (λ m kv, <[kv.1 := kv.2]> m) m ((λ k, (k, f k)) <$> ks)).
Proof. revert m. induction ks as [|k ks IH]; intros m; [done|]. apply IH. Qed.

Lemma dec_map_json m : dec_map (json_map m) ∅ = Some m.
Proof.
  unfold dec_map, json_map. rewrite dec_entries_keys. f_equal.
  apply map_eq. intros k. rewrite (foldl_insert_keys m).
  - rewrite <-list_fmap_compose. destruct (decide _) as [_|Hin]; [done|].
    rewrite lookup_empty. destruct (m !! k) eqn:Hm; [|done]. exfalso. apply Hin.
    apply list_elem_of_fmap. exists k. split; [done|]. apply sorted_keys_elem. by eexists.
  - intros k' v' (k'' & [= -> ->] & [v Hv]%sorted_keys_elem)%list_elem_of_fmap. by rewrite Hv.
Qed.

(** Run a decoder on the members of a struct's JSON. *)
Ltac find_fields :=
  repeat (cbn -[find_field dec_slice dec_map dec_ptr];
    match goal with |- context [find_field ?fields ?k] =>
      let d := eval hnf in (find_field fields k) in change (find_field fields k) with d
    end);
  cbn -[dec_slice dec_map dec_ptr].

Lemma dec_ptr_some {A} (zero : A) d v x old :
  v ≠ JNull → d v (default zero old) = Some x → dec_ptr zero d v old = Some (Some x).
Proof. intros Hv Hd. destruct v; simpl; rewrite ?Hd; done. Qed.

Lemma dec_ptr_string s old : dec_ptr "" dec_string (JString s) old = Some (Some s).
Proof. done. Qed.

(** Every body is decoded from its JSON. *)
Lemma dec_AddGroupMembers b :
  dec_struct AddGroupMembers_fields (json_AddGroupMembers b) zero_AddGroupMembers = Some b.
Proof.
  destruct b as [l]. unfold json_AddGroupMembers. cbn [v1_MemberIDs].
  pose proof (dec_slice_strings l []) as Hl. generalize dependent (json_slice JString l).
  intros v Hv. find_fields. by rewrite Hv.
Qed.

Lemma dec_CreateGroup b : dec_struct CreateGroup_fields (json_CreateGroup b) zero_CreateGroup = Some b.
Proof. by destruct b as [[] ?]. Qed.

Lemma dec_UpdateGroup b : dec_struct UpdateGroup_fields (json_UpdateGroup b) zero_UpdateGroup = Some b.
Proof. by destruct b as [[] []]. Qed.

Lemma dec_CreateIssuer b : dec_struct CreateIssuer_fields (json_CreateIssuer b) zero_CreateIssuer = Some b.
Proof.
  destruct b as [c [m|] j n u]; [|by destruct c]. unfold json_CreateIssuer.
  cbn [v1ci_ClaimMappings fmap option_fmap option_map].
  pose proof (dec_ptr_some ∅ dec_map (json_map m) m None ltac:(done) (dec_map_json m)) as Hm.
  generalize dependent (json_map m). intros v Hv. destruct c; find_fields;
    rewrite ?dec_ptr_string; cbn -[dec_ptr dec_map]; by rewrite Hv.
Qed.

Lemma dec_IssuerUpdate b : dec_struct IssuerUpdate_fields (json_IssuerUpdate b) zero_IssuerUpdate = Some b.
Proof.
  destruct b as [c [m|] j n u]; [|by destruct c, j, n, u]. unfold json_IssuerUpdate.
  cbn [v1iu_ClaimMappings fmap option_fmap option_map].
  pose proof (dec_ptr_some ∅ dec_map (json_map m) m None ltac:(done) (dec_map_json m)) as Hm.
  generalize dependent (json_map m). intros v Hv. destruct c, j, n, u; find_fields;
    rewrite ?dec_ptr_string; cbn -[dec_ptr dec_map]; by rewrite Hv.
Qed.

Lemma dec_CreateOAuthClient b :
  dec_struct CreateOAuthClient_fields (json_CreateOAuthClient b) zero_CreateOAuthClient = Some b.
Proof.
  destruct b as [[l|] n]; [|done]. unfold json_CreateOAuthClient.
  cbn [v1cc_Audience fmap option_fmap option_map].
  pose proof (dec_ptr_some [] (dec_slice "" dec_string) (json_slice JString l) l None ltac:(done)
    (dec_slice_strings l [])) as Hl.
  generalize dependent (json_slice JString l). intros v Hv. find_fields. by rewrite Hv.
Qed.

(** *** Printing *)

Lemma printable_bodies_of_requests :
  (∀ b, printable max_depth (json_AddGroupMembers b) = true) ∧
  (∀ b, printable max_depth (json_CreateGroup b) = true) ∧
  (∀ b, printable max_depth (json_UpdateGroup b) = true) ∧
  (∀ b, printable max_depth (json_CreateIssuer b) = true) ∧
  (∀ b, printable max_depth (json_IssuerUpdate b) = true) ∧
  (∀ b, printable max_depth (json_CreateOAuthClient b) = true).
Proof.
  assert (max_depth - 1 ≠ 0)%N by done.
  split_and!; intros b; (apply printable_struct; [done|]).
  - printable_fields.
  - destruct b as [[] ?]; printable_fields.
  - destruct b as [[] []]; printable_fields.
  - destruct b as [[] [] ? ? ?]; printable_fields.
  - destruct b as [[] [] [] [] []]; printable_fields.
  - destruct b as [[] ?]; printable_fields.
Qed.
