(* ===== verification/ListQuery.v ===== *)
(** The meaning of the paginated list queries, and the walk over their pages.

    The four list methods of [internal/storage] that page through rows build
    the same statement from the templates of [Pagination]: [SELECT ... WHERE c
    = $1 AND (f>$2 AND ...) ORDER BY f,... LIMIT n]. [list_query] is what it
    selects from the rows that satisfy the first condition. *)
From S2P Require Import Prelude GoStrings Errors Query Cursor Pagination V1.

(** ** Definitions *)

(** The order in which the server delivers rows that no [ORDER BY] orders: any
    permutation of them. *)
Class Scan : Type := {
  scan : ∀ {A : Type}, list A → list A;
  scan_perm : ∀ {A : Type} (l : list A), scan l ≡ₚ l;
}.

(** A server that delivers rows in the order they are stored. *)
Definition stored_order : Scan := {|
  scan A l := l; scan_perm A l := reflexivity l;
|}.

(** [ORDER BY] on several columns: the lexicographic order of their values. *)
Fixpoint key_le (k1 k2 : list string) : Prop :=
  match k1, k2 with
  | [], _ => True
  | a :: k1, b :: k2 => str_lt a b ∨ (a = b ∧ key_le k1 k2)
  | _ :: _, [] => False
  end.

#[global] Instance key_le_dec : RelDecision key_le.
Proof.
  intros k1. induction k1 as [|a k1 IH]; intros [|b k2]; simpl; apply _.
Defined.

Section list_query.
Context `{Scan} {Row : Type} (col : Row → string → string).

(** The values of the columns a query orders by. *)
Definition order_key (v : FormatValues) (r : Row) : list string := col r <$> orderFields v.

Definition row_le (v : FormatValues) (r1 r2 : Row) : Prop :=
  key_le (order_key v r1) (order_key v r2).

#[export] Instance row_le_dec v : RelDecision (row_le v).
Proof. intros r1 r2. unfold row_le. apply _. Defined.

(** The [Where] condition: every cursor field is greater than its value. *)
Definition matches (v : FormatValues) (r : Row) : Prop :=
  Forall (λ fx, str_lt fx.2 (col r fx.1)) (zip (fields v) (values v)).

#[export] Instance matches_dec v r : Decision (matches v r).
Proof. unfold matches. apply _. Defined.

Definition order_rows (v : FormatValues) (rows : list Row) : list Row :=
  if decide (length (orderFields v) = 0) then rows else merge_sort (row_le v) rows.

Definition list_query (v : FormatValues) (rows : list Row) : list Row :=
  take (Z.to_nat (query_limit v)) (order_rows v (scan (filter (matches v) rows))).
End list_query.

Section by_id.
Context {Row : Type} (id : Row → string).

(** Rows in the order of their identifiers. *)
Definition id_lt (r1 r2 : Row) : Prop := str_lt (id r1) (id r2).
Definition id_le (r1 r2 : Row) : Prop := str_le (id r1) (id r2).

#[export] Instance id_le_dec : RelDecision id_le.
Proof. intros r1 r2. unfold id_le. apply _. Defined.

Definition by_id (rows : list Row) : list Row := merge_sort id_le rows.
End by_id.

(** A client that follows [next] cursors until there is none: the identifiers it
    is given, or nothing when a request fails or it needs more than [n] of them.
    [get i] answers the client's request number [i]. *)
Fixpoint walk {C : Type} `{Paged C} (n : nat) (get : nat → PageParams → result C) (p : PageParams)
    : option (list string) :=
  match n with
  | O => None
  | S n =>
    match get 0 p with
    | Ok c =>
      match page_Next (pagination c) with
      | None => Some (item_ids c)
      | Some cursor =>
        rest ← walk n (λ i, get (S i)) {| pp_Cursor := Some cursor; pp_Limit := pp_Limit p |};
        Some (item_ids c ++ rest)
      end
    | _ => None
    end
  end.

(** ** Lemmas *)

#[global] Instance key_le_trans : Transitive key_le.
Proof.
  intros k1. induction k1 as [|a k1 IH]; intros [|b k2] [|c k3]; simpl; try done.
  intros [Hab|[-> ?]] [Hbc|[-> ?]]; eauto. left. by trans b.
Qed.

#[global] Instance key_le_total : Total key_le.
Proof.
  intros k1. induction k1 as [|a k1 IH]; intros [|b k2]; simpl; auto.
  destruct (total str_le a b) as [[?|<-]%str_le_lt_or_eq|[?| ->]%str_le_lt_or_eq]; auto.
  - destruct (IH k2); auto.
  - destruct (IH k2); auto.
Qed.

Section list_query_lemmas.
Context `{Scan} {Row : Type} (col : Row → string → string).

#[export] Instance row_le_trans v : Transitive (row_le col v).
Proof. intros x y z. apply (transitivity (R:=key_le)). Qed.

#[export] Instance row_le_total v : Total (row_le col v).
Proof. intros x y. apply (total key_le). Qed.

(** A list query selects rows of the table, each at most as often as it
    occurs, and no more than its limit. *)
Lemma list_query_submseteq v rows : list_query col v rows ⊆+ rows.
Proof.
  unfold list_query. trans (order_rows col v (scan (filter (matches col v) rows))).
  { apply sublist_submseteq, sublist_take. }
  unfold order_rows. case_decide; [|rewrite merge_sort_Permutation];
    rewrite scan_perm; apply sublist_submseteq, sublist_filter.
Qed.

Lemma list_query_length v rows :
  (Z.of_nat (length (list_query col v rows)) ≤ query_limit v)%Z.
Proof.
  unfold list_query. rewrite length_take.
  assert (0 < query_limit v)%Z; [|lia].
  unfold query_limit, defaultLimit. case_decide; lia.
Qed.

Lemma list_query_elem v rows r :
  r ∈ list_query col v rows → r ∈ rows ∧ matches col v r.
Proof.
  unfold list_query. intros Hr. eapply elem_of_sublist in Hr; [|apply sublist_take].
  assert (r ∈ filter (matches col v) rows) as Hf.
  { revert Hr. unfold order_rows.
    case_decide; [|rewrite merge_sort_Permutation]; by rewrite scan_perm. }
  apply list_elem_of_filter in Hf. tauto.
Qed.
End list_query_lemmas.

Section walk_lemmas.
Context {Row : Type} (id : Row → string).
Implicit Types (rows : list Row).

(** Two sortings of the same rows with distinct ids are the same list. *)
Lemma id_sorted_unique l1 l2 : NoDup (id <$> l1) →
  StronglySorted (id_le id) l1 → StronglySorted (id_le id) l2 → l1 ≡ₚ l2 → l1 = l2.
Proof.
  intros Hnd Hs1 Hs2 Hp. apply (StronglySorted_unique_strong (id_le id)); try done.
  intros x1 x2 Hx1 Hx2 H12 H21. rewrite <-Hp in Hx2.
  assert (id x1 = id x2) as Hid by (by apply (anti_symm str_le)).
  apply list_elem_of_lookup in Hx1 as [i Hi], Hx2 as [j Hj].
  assert (i = j) as ->; [|by simplify_eq].
  eapply (NoDup_lookup (id <$> l1)); [done|..];
    rewrite list_lookup_fmap; [by rewrite Hi|by rewrite Hj, Hid].
Qed.

Lemma id_sorted_strict l : NoDup (id <$> l) → StronglySorted (id_le id) l → StronglySorted (id_lt id) l.
Proof.
  induction l as [|x l IH]; [constructor|].
  rewrite fmap_cons, NoDup_cons, !StronglySorted_cons, !Forall_forall.
  intros [Hni Hnd] [Hx Hs]. split; [|by apply IH]. intros y Hy.
  destruct (proj1 (str_le_lt_or_eq _ _) (Hx y Hy)) as [|Heq]; [done|].
  destruct Hni. rewrite Heq. by apply list_elem_of_fmap_2.
Qed.

(** The rows after the last one of a prefix are those with a greater id. *)
Lemma filter_greater l1 x l2 :
  StronglySorted (id_lt id) (l1 ++ x :: l2) →
  filter (λ r, str_lt (id x) (id r)) (l1 ++ x :: l2) = l2.
Proof.
  intros Hs. change (x :: l2) with ([x] ++ l2) in *. rewrite app_assoc in *.
  apply StronglySorted_app in Hs as (Hlt & Hl1 & _).
  apply StronglySorted_app in Hl1 as (Hx & _).
  rewrite filter_app, (filter_Forall_nil _ (l1 ++ [x])).
  - apply filter_Forall_id, Forall_forall. intros r Hr. apply Hlt; [|done].
    apply elem_of_app. right. by left.
  - apply Forall_forall. intros r [Hr| ->%list_elem_of_singleton]%elem_of_app.
    + intros Hgt. apply (irreflexivity str_lt (id r)). trans (id x); [|done].
      apply Hx; [done|by left].
    + apply irreflexivity, _.
Qed.

Lemma filter_StronglySorted (P : Row → Prop) `{∀ x, Decision (P x)} R l :
  StronglySorted R l → StronglySorted R (filter P l).
Proof.
  induction 1 as [|x l Hs IH Hx]; [constructor|].
  rewrite filter_cons. case_decide; [|done]. constructor; [done|].
  apply Forall_forall. intros y [_ Hy]%list_elem_of_filter.
  rewrite Forall_forall in Hx. auto.
Qed.
End walk_lemmas.

Section pages.
Context `{Scan} {C Row : Type} `{PagedLaws C}.
Context (col : Row → string → string) (id : Row → string).
(** The column of the cursors holds the identifiers. *)
Context (col_id : ∀ r, col r (cursor_field C) = id r).
Context (asOf : option AsOf) (qual : string) (lim : option Z) (rows : list Row).
Context (ids_distinct : NoDup (id <$> rows)) (ids_nonempty : Forall (λ r, id r ≠ "") rows).

Let params (c : option string) : PageParams := {| pp_Cursor := c; pp_Limit := lim |}.
Let sorted : list Row := by_id id rows.

(** The clauses of the query for a page, and the rows it selects. *)
Definition page_clauses (p : PageParams) : FormatValues :=
  WithQualifier (Paginate (params_Paginator C p) asOf) qual.
Definition page (p : PageParams) : list Row := list_query col (page_clauses p) rows.

(** The requests of a client that follows cursors: their query is of the past
    that was asked for, and names no field but that of the cursors. *)
Record well_asked (p : PageParams) : Prop := {
  asked_limit : pp_Limit p = lim;
  asked_cursor : pp_Cursor p ≠ Some "";
  asked_past : asOfSystemTime (page_clauses p) = asOf;
  asked_fields :
    Forall (.= cursor_field C) (fields (page_clauses p) ++ orderFields (page_clauses p));
}.

(** Such requests are answered with the page, by [SetPagination]. *)
Definition answers_pages (get : nat → PageParams → result C) : Prop :=
  ∀ i p, well_asked p →
  ∃ c, get i p = SetPagination p c ∧ item_ids c = id <$> page p ∧ page_Next (pagination c) = None.

Lemma by_id_perm : sorted ≡ₚ rows.
Proof. apply merge_sort_Permutation. Qed.

Lemma by_id_sorted : StronglySorted (id_le id) sorted.
Proof.
  apply StronglySorted_merge_sort.
  - intros x y z. apply (transitivity (R:=str_le)).
  - intros x y. apply (total str_le).
Qed.

Lemma by_id_NoDup : NoDup (id <$> sorted).
Proof. by rewrite by_id_perm. Qed.

Lemma by_id_strict : StronglySorted (id_lt id) sorted.
Proof. apply id_sorted_strict; [apply by_id_NoDup|apply by_id_sorted]. Qed.

Lemma order_rows_by_id v (P : Row → Prop) `{∀ r, Decision (P r)} :
  orderFields v = [cursor_field C] →
  order_rows col v (scan (filter P rows)) = filter P sorted.
Proof.
  intros Hf. unfold order_rows. rewrite Hf, decide_False by done.
  assert (∀ r1 r2, row_le col v r1 r2 ↔ id_le id r1 r2) as Hle.
  { intros r1 r2. unfold row_le, order_key, id_le. rewrite Hf; simpl. rewrite !col_id.
    rewrite str_le_lt_or_eq. tauto. }
  apply (id_sorted_unique id).
  - rewrite merge_sort_Permutation, scan_perm.
    by apply NoDup_fmap_filter.
  - eapply StronglySorted_mono; [intros r1 r2; apply Hle|].
    apply StronglySorted_merge_sort; apply _.
  - apply filter_StronglySorted, by_id_sorted.
  - by rewrite merge_sort_Permutation, scan_perm, by_id_perm.
Qed.

Definition page_size : nat :=
  Z.to_nat (query_limit (page_clauses (params None))).

Lemma clauses_None : page_clauses (params None) =
  {| asOfSystemTime := asOf; fields := []; values := []; orderFields := [cursor_field C];
     limit := default 0%Z lim; qualifier := qual |}.
Proof. unfold page_clauses, Paginate. simpl. by rewrite only_cursor_field. Qed.

Lemma page_None : page (params None) = take page_size sorted.
Proof.
  unfold page, list_query. rewrite order_rows_by_id by (by rewrite clauses_None).
  rewrite filter_Forall_id; [done|]. apply Forall_true. intros r. rewrite clauses_None. constructor.
Qed.

(** The query a [next] cursor asks for. *)
Lemma clauses_next c x : x ≠ "" → NewCursor [cursor_field C; x] = Ok (Some c) →
  page_clauses (params (Some c)) =
    {| asOfSystemTime := asOf; fields := [cursor_field C]; values := [x];
       orderFields := [cursor_field C]; limit := default 0%Z lim; qualifier := qual |}.
Proof.
  intros Hx Hc%cursor_roundtrip. unfold page_clauses, Paginate. simpl in Hc |- *.
  rewrite only_cursor_field. rewrite decide_True in Hc by done.
  destruct (Cursor_Values (Some c)) as [cv| |]; try done. injection Hc as ->.
  unfold Values_Set. rewrite insert_empty, map_to_list_singleton; simpl.
  unfold Contains. rewrite bool_decide_true by (by left). simpl.
  unfold Values_Get. rewrite lookup_singleton_eq; simpl. by rewrite decide_True.
Qed.

Lemma page_Some l1 x l2 c : sorted = l1 ++ x :: l2 →
  NewCursor [cursor_field C; id x] = Ok (Some c) →
  page (params (Some c)) = take page_size l2.
Proof.
  intros Hs Hc. assert (id x ≠ "") as Hx.
  { rewrite Forall_forall in ids_nonempty. apply ids_nonempty.
    rewrite <-by_id_perm, Hs, elem_of_app. right. by left. }
  unfold page, list_query, page_size. rewrite (clauses_next _ _ Hx Hc), clauses_None.
  rewrite order_rows_by_id by done. f_equal.
  pose proof by_id_strict as Hstrict. rewrite Hs in Hstrict |- *.
  rewrite <-(filter_greater id l1 x l2) at 2 by done.
  apply list_filter_iff. intros r. unfold matches. simpl.
  rewrite Forall_singleton. simpl. by rewrite col_id.
Qed.

(** The cursor a walk has after its first [k] rows. *)
Definition cursor_at (k : nat) (cur : option string) : Prop :=
  match k with
  | O => cur = None
  | S _ => ∃ l1 x l2 c, sorted = l1 ++ x :: l2 ∧ k = S (length l1) ∧
      NewCursor [cursor_field C; id x] = Ok (Some c) ∧ cur = Some c
  end.

Lemma well_asked_at k cur : cursor_at k cur → well_asked (params cur).
Proof.
  destruct k as [|k].
  - intros ->. by split; rewrite ?clauses_None; [| | |repeat constructor].
  - intros (l1 & x & l2 & c & Hs & _ & Hc & ->).
    assert (id x ≠ "") as Hx.
    { rewrite Forall_forall in ids_nonempty. apply ids_nonempty.
      rewrite <-by_id_perm, Hs, elem_of_app. right. by left. }
    split; rewrite ?(clauses_next c (id x) Hx Hc); [done| |done|by repeat constructor].
    intros [= ->]. apply cursor_roundtrip in Hc. simpl in Hc. rewrite decide_True in Hc by done.
    assert (Values_Set ∅ (cursor_field C) (id x) = ∅) as Hempty by congruence.
    unfold Values_Set in Hempty. by apply insert_non_empty in Hempty.
Qed.

Lemma page_size_pos : 0 < page_size.
Proof. unfold page_size, query_limit, defaultLimit. case_decide; lia. Qed.

Lemma page_at k cur : cursor_at k cur →
  page (params cur) = take page_size (drop k sorted).
Proof.
  destruct k as [|k]; [intros ->; apply page_None|].
  intros (l1 & x & l2 & c & Hs & -> & Hc & ->). rewrite (page_Some _ _ _ _ Hs Hc), Hs.
  change (l1 ++ x :: l2) with (l1 ++ [x] ++ l2). rewrite app_assoc.
  by rewrite drop_app_length' by (rewrite length_app; simpl; lia).
Qed.

(** The answer to a request of a walk: the rows of the page, and a next cursor,
    the last row's, if they are as many as the limit reported to the client. *)
Lemma answer_at get i k cur : answers_pages get → cursor_at k cur →
  let pg := take page_size (drop k sorted) in
  ∃ c, get i (params cur) = Ok c ∧ item_ids c = id <$> pg ∧
    Ok (page_Next (pagination c)) =
      if decide (Z.of_nat (length pg) = Limit (default 0%Z lim))
      then NewCursor [cursor_field C; default "" (id <$> last pg)] else Ok None.
Proof.
  intros Hget Hk pg. destruct (Hget i (params cur) (well_asked_at _ _ Hk)) as (c0 & -> & Hids & Hnone).
  rewrite (page_at _ _ Hk) in Hids. fold pg in Hids.
  destruct (SetPagination_spec (params cur) c0 Hnone) as (c & -> & Hids' & _ & Hne & Heq).
  exists c. split; [done|]. rewrite Hids, length_fmap, fmap_last in *. split; [done|].
  change (PageParams_GetLimit (params cur)) with (default 0%Z lim) in *.
  case_decide as Hd; [by rewrite <-Heq|by rewrite Hne].
Qed.

Lemma cursor_at_next k l x : drop k sorted = l ++ [x] ++ drop (k + S (length l)) sorted →
  ∃ c, NewCursor [cursor_field C; id x] = Ok (Some c) ∧ cursor_at (k + S (length l)) (Some c).
Proof.
  intros Hd. assert (∃ c, NewCursor [cursor_field C; id x] = Ok (Some c)) as [c Hc] by
    (rewrite NewCursor_pair; eexists; done).
  exists c. split; [done|]. rewrite Nat.add_succ_r.
  exists (take k sorted ++ l), x, (drop (k + S (length l)) sorted), c.
  assert (k < length sorted) as Hk.
  { apply (f_equal length) in Hd. rewrite length_drop, length_app in Hd. simpl in Hd. lia. }
  split_and!; try done.
  - rewrite <-app_assoc, <-(take_drop k sorted) at 1. by rewrite Hd.
  - rewrite length_app, length_take. lia.
Qed.

Lemma walk_from n k cur get : (default 0 lim ≤ 100)%Z → answers_pages get →
  cursor_at k cur → length sorted - k < n →
  walk n get (params cur) = Some (id <$> drop k sorted).
Proof.
  intros Hlim. revert k cur get. induction n as [|n IH]; intros k cur get Hget Hk Hn; [lia|].
  assert (Z.of_nat page_size = Limit (default 0%Z lim)) as Hsize.
  { unfold page_size. rewrite clauses_None. unfold Limit, query_limit, paginationLimitMax, paginationLimitDefault,
      defaultLimit; simpl. repeat case_decide; lia. }
  pose proof page_size_pos as Hpos.
  destruct (answer_at get 0 k cur Hget Hk) as (c & Hc & Hids & Hnext).
  cbn [walk]. rewrite Hc.
  pose proof (length_take_le (drop k sorted) page_size) as Hfull.
  case_decide as Hd.
  - assert (page_size ≤ length (drop k sorted)) as Hle.
    { rewrite <-Hsize in Hd. rewrite length_take in Hd. lia. }
    destruct (last (take page_size (drop k sorted))) as [x|] eqn:Hlast.
    2: { apply last_None in Hlast. specialize (Hfull Hle). rewrite Hlast in Hfull.
         simpl in Hfull. lia. }
    apply last_Some in Hlast as [l Hl].
    assert (page_size = S (length l)) as Hpl.
    { rewrite <-(Hfull Hle), Hl, length_app. simpl. lia. }
    destruct (cursor_at_next k l x) as (c' & Hc' & Hk').
    { rewrite <-drop_drop, <-Hpl, app_assoc, <-Hl. by rewrite take_drop. }
    change (default "" (id <$> Some x)) with (id x) in Hnext. rewrite Hc' in Hnext.
    injection Hnext as ->. rewrite <-Hpl in Hk'.
    change {| pp_Cursor := Some c'; pp_Limit := pp_Limit (params cur) |} with (params (Some c')).
    rewrite (IH _ _ (λ i, get (S i)) (λ i, Hget (S i)) Hk').
    + simpl. by rewrite Hids, <-fmap_app, <-drop_drop, take_drop.
    + rewrite length_drop in Hle. lia.
  - injection Hnext as ->. f_equal. rewrite Hids. f_equal. apply take_ge. rewrite <-Hsize in Hd. lia.
Qed.

(** Following the [next] cursors returns the identifier of every row exactly
    once, in their order, after at most one request per row and one more. *)
Lemma walk_listed get : (default 0 lim ≤ 100)%Z → answers_pages get →
  ∃ ids, walk (S (length ids)) get (params None) = Some ids ∧ StronglySorted str_lt ids ∧
    ∀ x, x ∈ ids ↔ x ∈ id <$> rows.
Proof.
  intros Hlim Hget. exists (id <$> sorted). split_and!.
  - rewrite length_fmap. rewrite (walk_from _ 0 None); [by rewrite drop_0|done..|lia].
  - pose proof by_id_strict as Hs. induction Hs as [|r l _ IH Hr]; [constructor|]. simpl. constructor; [done|].
    by apply Forall_fmap.
  - intros x. by rewrite by_id_perm.
Qed.

(** The limit sent to the database is not capped, but the limit that
    decides whether there is a next page is: for a requested limit above 100,
    a first page with at least that many rows holds all of them and carries no
    next cursor, so the rows after it cannot be reached. *)
Lemma uncapped_limit_loses_rows get l :
  lim = Some l → (100 < l ≤ Z.of_nat (length rows))%Z → answers_pages get →
  walk 1 get (params None) = Some (id <$> take (Z.to_nat l) (by_id id rows)).
Proof.
  intros Hl Hrange Hget. destruct (answer_at get 0 0 None Hget eq_refl) as (c & Hc & Hids & Hnext).
  rewrite drop_0 in *. assert (page_size = Z.to_nat l) as Hs.
  { unfold page_size. rewrite clauses_None, Hl. unfold query_limit. simpl. by rewrite decide_False by lia. }
  rewrite Hs in *. simpl. rewrite Hc, decide_False in *; [by injection Hnext as ->; rewrite Hids|].
  rewrite Hl. rewrite length_take, by_id_perm. simpl. pose proof (Limit_range l). unfold paginationLimitMax in *. lia.
Qed.
End pages.
