(* ===== verification/World.v ===== *)
(** The state the service runs against, and the monad its code runs in.

    - [DB]: the five tables of [internal/storage/migrations];
    - [World]: the committed database, its past states ([AS OF SYSTEM TIME]),
      the open transactions with their statements, and the log of what was asked of, and published
      to, permissions-api;
    - [Env]: the code outside the repository: when the database driver, the
      permission service and the event publisher fail, and the gidx package;
    - [M]: state passing with Go's error results and panics;
    - the transaction of a context: [internal/storage/context.go]. *)
From S2P Require Import Prelude GoStrings Errors Pagination V1 ListQuery.

(** ** The database *)

Record group_row : Type := GroupRow {
  gr_owner_id : PrefixedID;
  gr_name : string;
  gr_description : string;
}.

Record issuer_row : Type := IssuerRow {
  ir_owner_id : PrefixedID;
  ir_name : string;
  ir_uri : string;
  ir_jwksuri : string;
  ir_mappings : option string;
  ir_conditions : option string;
}.

Record user_row : Type := UserRow {
  ur_name : string;
  ur_email : string;
  ur_sub : string;
  ur_iss_id : PrefixedID;
}.

Record client_row : Type := ClientRow {
  cr_owner_id : PrefixedID;
  cr_name : string;
  cr_secret : string;
  cr_audience : string;
}.

(** The tables, by primary key. *)
Record DB : Type := {
  groups : gmap PrefixedID group_row;
  group_members : gset (PrefixedID * PrefixedID);
  issuers : gmap PrefixedID issuer_row;
  user_info : gmap PrefixedID user_row;
  oauth_clients : gmap PrefixedID client_row;
}.

Definition empty_DB : DB :=
  {| groups := ∅; group_members := ∅; issuers := ∅; user_info := ∅; oauth_clients := ∅ |}.

#[global] Instance group_row_eq_dec : EqDecision group_row.
Proof. solve_decision. Defined.
#[global] Instance issuer_row_eq_dec : EqDecision issuer_row.
Proof. solve_decision. Defined.
#[global] Instance user_row_eq_dec : EqDecision user_row.
Proof. solve_decision. Defined.
#[global] Instance client_row_eq_dec : EqDecision client_row.
Proof. solve_decision. Defined.
#[global] Instance DB_eq_dec : EqDecision DB.
Proof. solve_decision. Defined.

(** One table replaced. *)
Definition with_groups (f : gmap PrefixedID group_row → gmap PrefixedID group_row) (d : DB) : DB :=
  {| groups := f (groups d); group_members := group_members d; issuers := issuers d;
     user_info := user_info d; oauth_clients := oauth_clients d |}.
Definition with_members (f : gset (PrefixedID * PrefixedID) → gset (PrefixedID * PrefixedID))
    (d : DB) : DB :=
  {| groups := groups d; group_members := f (group_members d); issuers := issuers d;
     user_info := user_info d; oauth_clients := oauth_clients d |}.
Definition with_issuers (f : gmap PrefixedID issuer_row → gmap PrefixedID issuer_row) (d : DB) : DB :=
  {| groups := groups d; group_members := group_members d; issuers := f (issuers d);
     user_info := user_info d; oauth_clients := oauth_clients d |}.
Definition with_users (f : gmap PrefixedID user_row → gmap PrefixedID user_row) (d : DB) : DB :=
  {| groups := groups d; group_members := group_members d; issuers := issuers d;
     user_info := f (user_info d); oauth_clients := oauth_clients d |}.
Definition with_clients (f : gmap PrefixedID client_row → gmap PrefixedID client_row) (d : DB) : DB :=
  {| groups := groups d; group_members := group_members d; issuers := issuers d;
     user_info := user_info d; oauth_clients := f (oauth_clients d) |}.

(** The constraints of the schema besides the primary keys: [UNIQUE(owner_id,
    name)], [UNIQUE(uri)], [UNIQUE(iss_id, sub)] and the two [REFERENCES]. *)
Record db_wf (d : DB) : Prop := {
  wf_group_names : ∀ g1 g2 r1 r2,
    groups d !! g1 = Some r1 → groups d !! g2 = Some r2 →
    gr_owner_id r1 = gr_owner_id r2 → gr_name r1 = gr_name r2 → g1 = g2;
  wf_members : ∀ g s, (g, s) ∈ group_members d → is_Some (groups d !! g);
  wf_issuer_uris : ∀ i1 i2 r1 r2,
    issuers d !! i1 = Some r1 → issuers d !! i2 = Some r2 →
    ir_uri r1 = ir_uri r2 → i1 = i2;
  wf_users : ∀ u1 u2 r1 r2,
    user_info d !! u1 = Some r1 → user_info d !! u2 = Some r2 →
    ur_iss_id r1 = ur_iss_id r2 → ur_sub r1 = ur_sub r2 → u1 = u2;
  wf_user_issuers : ∀ u r,
    user_info d !! u = Some r → is_Some (issuers d !! ur_iss_id r);
}.

(** *** Statements

    A statement that writes: an error the server reports (the transaction is
    then aborted), or a result and the new tables. *)
Definition stmt (A : Type) : Type := DB → error + A * DB.

(** A statement run again, on other tables: what it leaves, if its answer is
    the one it gave. *)
Definition replay_write {A} `{EqDecision A} (s : stmt A) (a : A) : DB → option DB := λ d,
  match s d with
  | inr (a', d') => if decide (a' = a) then Some d' else None
  | inl _ => None
  end.
Definition replay_read {A} `{EqDecision A} (q : DB → A) (a : A) : DB → option DB := λ d,
  if decide (q d = a) then Some d else None.

Definition unique_violation : error :=
  PQError "23505" "duplicate key value violates unique constraint".
Definition foreign_key_violation : error :=
  PQError "23503" "violates foreign key constraint".
Definition syntax_error : error := PQError "42601" "syntax error".
Definition serialization_failure : error :=
  PQError "40001" "restart transaction".
Definition in_failed_transaction : error :=
  PQError "25P02" "current transaction is aborted, commands ignored until end of transaction block".

(** ** The world *)

(** A transaction: its view of the tables, or a failed statement's remains, or
    ended. *)
Inductive tx_state : Type :=
  | TxOpen (d : DB)
  | TxAborted
  | TxDone.

(** What the service asks of permissions-api and publishes to it, and the
    write statements it executes. *)
Inductive event : Type :=
  | EvCheckAccess (resource action : string) (granted : bool)
  | EvCreateAuthRelationships (topic resource : string) (rels : list (string * string))
  | EvDeleteAuthRelationships (topic resource : string) (rels : list (string * string))
  | EvWrite.

#[global] Instance event_eq_dec : EqDecision event.
Proof. solve_decision. Defined.

Record World : Type := {
  committed : DB;
  history : string → DB;
  txs : gmap nat tx_state;
  (** the statements of a transaction, run again on other tables *)
  redo : gmap nat (DB → option DB);
  next_tx : nat;
  tick : nat;
  trace : list event;
  (** the status line of the request being served, once it is written *)
  responded : option Z;
}.

Definition set_committed (d : DB) (w : World) : World :=
  {| committed := d; history := history w; txs := txs w; redo := redo w; next_tx := next_tx w;
     tick := tick w; trace := trace w; responded := responded w |}.
Definition set_tx (t : nat) (s : tx_state) (w : World) : World :=
  {| committed := committed w; history := history w; txs := <[t := s]> (txs w);
     redo := redo w; next_tx := next_tx w; tick := tick w; trace := trace w; responded := responded w |}.
Definition add_tx (s : tx_state) (w : World) : World :=
  {| committed := committed w; history := history w; txs := <[next_tx w := s]> (txs w);
     redo := <[next_tx w := Some]> (redo w); next_tx := S (next_tx w); tick := tick w; trace := trace w; responded := responded w |}.
Definition rerun (t : nat) (f : DB → option DB) (w : World) : World :=
  {| committed := committed w; history := history w; txs := txs w;
     redo := alter (λ g d, g d ≫= f) t (redo w); next_tx := next_tx w;
     tick := tick w; trace := trace w; responded := responded w |}.
Definition next_tick (w : World) : World :=
  {| committed := committed w; history := history w; txs := txs w; redo := redo w; next_tx := next_tx w;
     tick := S (tick w); trace := trace w; responded := responded w |}.
Definition log (e : event) (w : World) : World :=
  {| committed := committed w; history := history w; txs := txs w; redo := redo w; next_tx := next_tx w;
     tick := tick w; trace := trace w ++ [e]; responded := responded w |}.

Definition set_responded (r : option Z) (w : World) : World :=
  {| committed := committed w; history := history w; txs := txs w; redo := redo w; next_tx := next_tx w;
     tick := tick w; trace := trace w; responded := r |}.

(** The code outside the repository. The [nat] of each field is the number of
    interactions with the outside so far, so that every call may behave
    differently. *)
Class Env : Type := {
  env_scan :: Scan;
  (** the driver or the server fails this statement (or begin, or commit) *)
  sql_fault : nat → option error;
  (** a commit that is reported as failed took effect all the same *)
  ambiguous_commit : nat → bool;
  (** the connection breaks after this many rows of a result *)
  rows_cut : nat → option nat;
  (** the server's answer to an [UPSERT] that has one row twice *)
  upsert_twice : option error;
  (** permissions-api: [CheckAccess], and the event publisher *)
  CheckAccess_err : nat → string → string → option error;
  publish_fault : nat → option error;
  (** [gidx.Parse] and [gidx.NewID] *)
  gidx_Parse : string → result PrefixedID;
  gidx_NewID : nat → string → result PrefixedID;
}.

(** An environment in which nothing outside fails. *)
Class Reliable (E : Env) : Prop := {
  no_sql_fault : ∀ n, sql_fault n = None;
  no_rows_cut : ∀ n, rows_cut n = None;
  no_publish_fault : ∀ n, publish_fault n = None;
}.

(** ** The monad *)

Definition M (A : Type) : Type := World → result A * World.

#[global] Instance M_ret : MRet M := λ A a w, (Ok a, w).
#[global] Instance M_bind : MBind M := λ A B f m w,
  match m w with
  | (Ok a, w) => f a w
  | (Err e, w) => (Err e, w)
  | (Panic s, w) => (Panic s, w)
  end.

Definition fail {A} (e : error) : M A := λ w, (Err e, w).
Definition panic {A} (s : string) : M A := λ w, (Panic s, w).
Definition lift {A} (r : result A) : M A := λ w, (r, w).

(** [x, err := m]: the error as a value, for code that inspects it. *)
Definition attempt {A} (m : M A) : M (error + A) := λ w,
  match m w with
  | (Ok a, w) => (Ok (inr a), w)
  | (Err e, w) => (Ok (inl e), w)
  | (Panic s, w) => (Panic s, w)
  end.

(** [if err := m; err != nil { return ..., f(err) }]. *)
Definition on_error {A} (m : M A) (f : error → M A) : M A :=
  r ← attempt m; match r with inl e => f e | inr a => mret a end.

(** The request context: its transaction and its [AS OF SYSTEM TIME]. *)
Record Context : Type := {
  ctx_tx : option nat;
  ctx_asOf : option AsOf;
}.

Section ops.
Context `{Env}.

(** *** Transactions *)

(** One interaction with the database: its fault, if any. *)
Definition db_call : M (option error) := λ w, (Ok (sql_fault (tick w)), next_tick w).

(** [beginTxContext]: the context with a new transaction. *)
Definition beginTxContext (ctx : Context) : M Context := λ w,
  match sql_fault (tick w) with
  | Some e => (Err e, next_tick w)
  | None =>
    (Ok {| ctx_tx := Some (next_tx w); ctx_asOf := ctx_asOf ctx |},
     next_tick (add_tx (TxOpen (committed w)) w))
  end.

(** [getContextTx]. Only [beginTxContext] stores under the context's key, so
    its value is a transaction or absent. *)
Definition getContextTx (ctx : Context) : result nat :=
  match ctx_tx ctx with
  | Some t => Ok t
  | None => Err ErrorMissingContextTx
  end.

(** [tx.Commit()] of [database/sql] over CockroachDB, whose transactions are
    serializable: it succeeds when the transaction's statements, run again on
    the tables as they are now, answer as they did, and installs what they then
    leave; otherwise the transaction has to be restarted. *)
Definition tx_commit (t : nat) : M unit := λ w,
  match txs w !! t with
  | Some (TxOpen _) =>
    match redo w !! t ≫= λ f, f (committed w) with
    | None => (Err serialization_failure, next_tick (set_tx t TxDone w))
    | Some d =>
      match sql_fault (tick w) with
      | Some e =>
        let w' := next_tick (set_tx t TxDone w) in
        (Err e, if ambiguous_commit (tick w) then set_committed d w' else w')
      | None => (Ok tt, next_tick (set_committed d (set_tx t TxDone w)))
      end
    end
  | Some TxAborted => (Err in_failed_transaction, next_tick (set_tx t TxDone w))
  | Some TxDone | None => (Err ErrTxDone, w)
  end.

(** [tx.Rollback()]. *)
Definition tx_rollback (t : nat) : M unit := λ w,
  match txs w !! t with
  | Some TxDone | None => (Err ErrTxDone, w)
  | Some _ =>
    (match sql_fault (tick w) with Some e => Err e | None => Ok tt end,
     next_tick (set_tx t TxDone w))
  end.

Definition commitContextTx (ctx : Context) : M unit :=
  t ← lift (getContextTx ctx); tx_commit t.

Definition rollbackContextTx (ctx : Context) : M unit :=
  t ← lift (getContextTx ctx); tx_rollback t.

(** *** Statements in a transaction *)

(** A statement that writes. A failed statement aborts the transaction. *)
Definition tx_write {A} `{EqDecision A} (t : nat) (s : stmt A) : M A := λ w,
  match txs w !! t with
  | Some (TxOpen d) =>
    match sql_fault (tick w) with
    | Some e => (Err e, next_tick (set_tx t TxAborted w))
    | None =>
      match s d with
      | inl e => (Err e, next_tick (set_tx t TxAborted w))
      | inr (a, d') =>
        (Ok a, next_tick (log EvWrite (set_tx t (TxOpen d') (rerun t (replay_write s a) w))))
      end
    end
  | Some TxAborted => (Err in_failed_transaction, next_tick w)
  | Some TxDone | None => (Err ErrTxDone, w)
  end.

(** A statement that reads the transaction's view. *)
Definition tx_read {A} `{EqDecision A} (t : nat) (q : DB → A) : M A := λ w,
  match txs w !! t with
  | Some (TxOpen d) =>
    match sql_fault (tick w) with
    | Some e => (Err e, next_tick (set_tx t TxAborted w))
    | None => (Ok (q d), next_tick (rerun t (replay_read q (q d)) w))
    end
  | Some TxAborted => (Err in_failed_transaction, next_tick w)
  | Some TxDone | None => (Err ErrTxDone, w)
  end.

(** A statement on the pool, outside any transaction: the committed tables. *)
Definition db_read {A} (q : DB → A) : M A := λ w,
  match sql_fault (tick w) with
  | Some e => (Err e, next_tick w)
  | None => (Ok (q (committed w)), next_tick w)
  end.

(** [switch err { case nil: tx.Query; case ErrorMissingContextTx: db.Query }]:
    a read in the context's transaction if there is one. *)
Definition ctx_read {A} `{EqDecision A} (ctx : Context) (q : DB → A) : M A :=
  match getContextTx ctx with
  | Ok t => tx_read t q
  | Err e => if is_sentinel e ErrorMissingContextTx then db_read q else fail e
  | Panic s => panic s
  end.

(** A query on the pool that returns rows, [AS OF SYSTEM TIME] the time of [v];
    the loop [for rows.Next()] ends silently where the connection breaks, as
    none of the methods looks at [rows.Err()]. *)
Definition rows_read {Row} (asOf : string) (q : DB → list Row) : M (list Row) := λ w,
  match sql_fault (tick w) with
  | Some e => (Err e, next_tick w)
  | None =>
    let d := if decide (asOf = "") then committed w else history w asOf in
    let rows := q d in
    (Ok (match rows_cut (tick w) with Some n => take n rows | None => rows end), next_tick w)
  end.

(** *** permissions-api *)

Definition CheckAccess (ctx : Context) (resource action : string) : M unit := λ w,
  match CheckAccess_err (tick w) resource action with
  | Some e => (Err e, next_tick (log (EvCheckAccess resource action false) w))
  | None => (Ok tt, next_tick (log (EvCheckAccess resource action true) w))
  end.

Definition publish (e : event) : M unit := λ w,
  match publish_fault (tick w) with
  | Some err => (Err err, next_tick w)
  | None => (Ok tt, next_tick (log e w))
  end.

Definition CreateAuthRelationships (topic resource : string) (rels : list (string * string)) : M unit :=
  publish (EvCreateAuthRelationships topic resource rels).
Definition DeleteAuthRelationships (topic resource : string) (rels : list (string * string)) : M unit :=
  publish (EvDeleteAuthRelationships topic resource rels).

(** *** gidx *)

Definition NewID (prefix : string) : M PrefixedID := λ w,
  (gidx_NewID (tick w) prefix, next_tick w).
End ops.

(** ** A concrete environment

    Nothing fails, access is granted, identifiers are numbered, and rows come
    in the order they are stored. *)
Definition quiet_env : Env := {|
  env_scan := stored_order;
  sql_fault _ := None;
  ambiguous_commit _ := false;
  rows_cut _ := None;
  upsert_twice := None;
  CheckAccess_err _ _ _ := None;
  publish_fault _ := None;
  gidx_Parse s := if decide (s = "") then Err (ExtError "invalid id") else Ok s;
  gidx_NewID n prefix := Ok (prefix +:+ "-" +:+ pretty n);
|}.

#[global] Instance quiet_reliable : Reliable quiet_env.
Proof. by split. Qed.

(** A world at rest, and one with the transaction 0 open. *)
Definition world_of (d : DB) : World :=
  {| committed := d; history := λ _, d; txs := ∅; redo := ∅; next_tx := 0; tick := 0; trace := []; responded := None |}.
Definition world_in_tx (d : DB) : World := add_tx (TxOpen d) (world_of d).
Definition ctx_none : Context := {| ctx_tx := None; ctx_asOf := None |}.
Definition ctx_0 : Context := {| ctx_tx := Some 0; ctx_asOf := None |}.
Definition ctx_1 : Context := {| ctx_tx := Some 1; ctx_asOf := None |}.

(** Tables with two groups of an owner, and members of the first. *)
Definition sample_DB : DB :=
  {| groups := {[ "idntgrp-1" := GroupRow "tnntten-1" "admins" "";
                  "idntgrp-2" := GroupRow "tnntten-1" "users" "all users" ]};
     group_members := {[ ("idntgrp-1", "idntusr-1"); ("idntgrp-1", "idntusr-2") ]};
     issuers := {[ "idntiss-1" := IssuerRow "tnntten-1" "issuer" "https://iss.example"
                     "https://iss.example/jwks" (Some "{}") (Some "") ]};
     user_info := {[ "idntusr-1" := UserRow "Ada" "ada@example.com" "ada" "idntiss-1" ]};
     oauth_clients := ∅ |}.

Lemma sample_DB_wf : db_wf sample_DB.
Proof.
  split; simpl.
  - intros g1 g2 r1 r2. rewrite !lookup_insert_Some, !lookup_singleton_Some. naive_solver.
  - intros g s. rewrite elem_of_union, !elem_of_singleton.
    intros [[= -> ->]|[= -> ->]]; rewrite lookup_insert_eq; by eexists.
  - intros i1 i2 r1 r2. rewrite !lookup_singleton_Some. naive_solver.
  - intros u1 u2 r1 r2. rewrite !lookup_singleton_Some. naive_solver.
  - intros u r. rewrite lookup_singleton_Some. intros [_ <-]. simpl. rewrite lookup_singleton_eq. by eexists.
Qed.
