(* ===== verification/Frame.v ===== *)
(** Frame conditions of the monad: relations between the world before and
    after a computation that every step of it keeps.

    [keeps R m] says that [m] relates its initial to its final world by [R],
    whatever its outcome. For a reflexive and transitive [R] it is closed
    under the monad's operations. [StoreRel ctx R] says that [R] is kept by the
    primitives that the storage methods are made of, run with the context
    [ctx]; the tactic [frame] then proves [keeps R] for a whole method, for
    every such [R] at once. *)
From S2P Require Import Prelude GoStrings Errors Pagination ListQuery World.

(** ** Definitions *)

Definition keeps (R : relation World) {A} (m : M A) : Prop := ∀ w, R w (m w).2.

(** The committed tables and their past are untouched. *)
Definition same_committed (w w' : World) : Prop :=
  committed w' = committed w ∧ history w' = history w.

(** What was logged stays logged. *)
Definition trace_grows (w w' : World) : Prop := trace w `prefix_of` trace w'.

(** A transaction that is not [t] is untouched. *)
Definition only_tx (t : nat) (w w' : World) : Prop :=
  ∀ t', t' ≠ t → txs w' !! t' = txs w !! t'.

(** Every set of tables the world holds satisfies the schema. *)
Record world_wf (w : World) : Prop := {
  wf_committed : db_wf (committed w);
  wf_history : ∀ s, db_wf (history w s);
  wf_txs : ∀ t d, txs w !! t = Some (TxOpen d) → db_wf d;
  wf_redo : ∀ t f d d', redo w !! t = Some f → db_wf d → f d = Some d' → db_wf d';
}.
Definition keeps_wf (w w' : World) : Prop := world_wf w → world_wf w'.

(** A statement that keeps the schema's constraints. *)
Definition stmt_wf {A} (s : stmt A) : Prop := ∀ d a d', db_wf d → s d = inr (a, d') → db_wf d'.

(** ** The relations are preorders *)

#[global] Instance same_committed_preorder : PreOrder same_committed.
Proof. split; [by split|]. intros w1 w2 w3 [] []. split; congruence. Qed.

#[global] Instance trace_grows_preorder : PreOrder trace_grows.
Proof. unfold trace_grows. split; [by intros w|]. intros w1 w2 w3. apply transitivity. Qed.

#[global] Instance only_tx_preorder t : PreOrder (only_tx t).
Proof.
  split; [by intros w t' _|]. intros w1 w2 w3 H12 H23 t' Ht. by rewrite H23, H12.
Qed.

#[global] Instance keeps_wf_preorder : PreOrder keeps_wf.
Proof. split; unfold keeps_wf; intros w; auto. Qed.

Lemma world_of_wf d : db_wf d → world_wf (world_of d).
Proof. intros Hd. split; [done..| |]; intros t; simpl; by rewrite lookup_empty. Qed.

(** ** Closure *)

Create HintDb frame discriminated.
Create HintDb wf.

Section closure.
Context (R : relation World) `{!PreOrder R}.

Lemma keeps_ret {A} (a : A) : keeps R (mret a).
Proof. intros w. reflexivity. Qed.

Lemma keeps_fail {A} e : keeps R (fail (A:=A) e).
Proof. intros w. reflexivity. Qed.

Lemma keeps_panic {A} s : keeps R (panic (A:=A) s).
Proof. intros w. reflexivity. Qed.

Lemma keeps_lift {A} (r : result A) : keeps R (lift r).
Proof. intros w. reflexivity. Qed.

Lemma keeps_bind {A B} (m : M A) (f : A → M B) :
  keeps R m → (∀ a, keeps R (f a)) → keeps R (m ≫= f).
Proof.
  intros Hm Hf w. specialize (Hm w). unfold mbind, M_bind.
  destruct (m w) as [[a|e|s] w']; simpl in *; [|done..].
  etrans; [done|]. apply Hf.
Qed.

Lemma keeps_attempt {A} (m : M A) : keeps R m → keeps R (attempt m).
Proof.
  intros Hm w. specialize (Hm w). unfold attempt.
  by destruct (m w) as [[a|e|s] w'].
Qed.

Lemma keeps_on_error {A} (m : M A) f :
  keeps R m → (∀ e, keeps R (f e)) → keeps R (on_error m f).
Proof.
  intros Hm Hf. apply keeps_bind; [by apply keeps_attempt|].
  intros [e|a]; [apply Hf|apply keeps_ret].
Qed.
End closure.

(** ** Primitives *)

Section primitives.
Context `{Env}.

Lemma db_wf_stmt_world w t d : db_wf d → world_wf w → world_wf (set_tx t (TxOpen d) w).
Proof.
  intros Hd [Hc Hh Ht Hr]. split; [done..| |done]. intros t' d'. simpl.
  destruct (decide (t = t')) as [->|Hne].
  - rewrite lookup_insert_eq. by intros [= <-].
  - rewrite lookup_insert_ne by done. apply Ht.
Qed.

Lemma world_wf_set_tx w t s : (∀ d, s ≠ TxOpen d) → world_wf w → world_wf (set_tx t s w).
Proof.
  intros Hs [Hc Hh Ht Hr]. split; [done..| |done]. intros t' d'. simpl.
  destruct (decide (t = t')) as [->|Hne].
  - rewrite lookup_insert_eq. intros [= ->]. by destruct (Hs d').
  - rewrite lookup_insert_ne by done. apply Ht.
Qed.

Lemma world_wf_rerun w t f :
  (∀ d d', db_wf d → f d = Some d' → db_wf d') → world_wf w → world_wf (rerun t f w).
Proof.
  intros Hf [Hc Hh Ht Hr]. split; [done..|]. intros t' g d d'. simpl.
  destruct (decide (t = t')) as [->|Hne].
  - rewrite lookup_alter_eq. intros (g' & Hg & ->)%fmap_Some Hd (d1 & Hd1 & Hd')%bind_Some.
    eapply Hf; [|done]. by eapply Hr.
  - rewrite lookup_alter_ne by done. apply Hr.
Qed.

Lemma world_wf_next_tick w : world_wf w → world_wf (next_tick w).
Proof. intros [Hc Hh Ht Hr]. by split. Qed.

Lemma world_wf_log e w : world_wf w → world_wf (log e w).
Proof. intros [Hc Hh Ht Hr]. by split. Qed.

Lemma world_wf_commit d w : db_wf d → world_wf w → world_wf (set_committed d w).
Proof. intros Hd [Hc Hh Ht Hr]. by split. Qed.

Lemma world_wf_add_tx d w : db_wf d → world_wf w → world_wf (add_tx (TxOpen d) w).
Proof.
  intros Hd [Hc Hh Ht Hr]. split; [done..| |]; simpl.
  - intros t d'. intros [[_ [= <-]]|[_ ?]]%lookup_insert_Some; [done|by eapply Ht].
  - intros t f d1 d2. intros [[_ <-]|[_ ?]]%lookup_insert_Some ?; [congruence|by eapply Hr].
Qed.

Lemma replay_read_same {A} `{EqDecision A} (q : DB → A) a d d' : replay_read q a d = Some d' → d' = d.
Proof. unfold replay_read. case_decide; congruence. Qed.
Lemma replay_read_view {A} `{EqDecision A} (q : DB → A) d : replay_read q (q d) d = Some d.
Proof. unfold replay_read. by rewrite decide_True. Qed.
Lemma replay_write_view {A} `{EqDecision A} (s : stmt A) d a d' :
  s d = inr (a, d') → replay_write s a d = Some d'.
Proof. unfold replay_write. intros ->. by rewrite decide_True. Qed.
Lemma replay_write_wf {A} `{EqDecision A} (s : stmt A) a d d' :
  stmt_wf s → db_wf d → replay_write s a d = Some d' → db_wf d'.
Proof.
  unfold replay_write. intros Hs Hd. destruct (s d) as [|[a' d'']] eqn:Hsd; [done|].
  case_decide; [|done]. intros [= <-]. by eapply Hs.
Qed.

End primitives.

#[export] Hint Resolve world_wf_next_tick world_wf_log world_wf_set_tx world_wf_commit : wf.

(** ** Relations that the storage methods keep *)

Class StoreRel (ctx : Context) (R : relation World) : Prop := {
  store_preorder :: PreOrder R;
  store_tick : ∀ w, R w (next_tick w);
  store_abort : ∀ t d w, ctx_tx ctx = Some t → txs w !! t = Some (TxOpen d) →
    R w (next_tick (set_tx t TxAborted w));
  store_read : ∀ A `(EqDecision A) (q : DB → A) t d w,
    ctx_tx ctx = Some t → txs w !! t = Some (TxOpen d) →
    R w (next_tick (rerun t (replay_read q (q d)) w));
  store_write : ∀ A `(EqDecision A) (s : stmt A) t d a d' w,
    ctx_tx ctx = Some t → txs w !! t = Some (TxOpen d) → s d = inr (a, d') → stmt_wf s →
    R w (next_tick (log EvWrite (set_tx t (TxOpen d') (rerun t (replay_write s a) w))));
}.

(** Nothing is asked of permissions-api, and nothing is published to it. *)
Definition only_writes (w w' : World) : Prop :=
  ∃ n, trace w' = trace w ++ replicate n EvWrite.

#[global] Instance only_writes_preorder : PreOrder only_writes.
Proof.
  split.
  - intros w. exists 0. by rewrite app_nil_r.
  - intros w1 w2 w3 [n Hn] [m Hm]. exists (n + m). by rewrite Hm, Hn, replicate_add, app_assoc.
Qed.

#[global] Instance same_committed_store ctx : StoreRel ctx same_committed.
Proof. split; [apply _|done..]. Qed.

#[global] Instance only_writes_store ctx : StoreRel ctx only_writes.
Proof.
  split; [apply _|..].
  - intros w. exists 0. by rewrite app_nil_r.
  - intros t d w _ _. exists 0. by rewrite app_nil_r.
  - intros. exists 0. by rewrite app_nil_r.
  - intros. by exists 1.
Qed.

(** Nothing is written to the client. *)
Definition same_response (w w' : World) : Prop := responded w' = responded w.

#[global] Instance same_response_preorder : PreOrder same_response.
Proof. unfold same_response. split; [by intros w|]. intros w1 w2 w3. congruence. Qed.

#[global] Instance same_response_store ctx : StoreRel ctx same_response.
Proof. split; [apply _|done..]. Qed.

#[global] Instance trace_grows_store ctx : StoreRel ctx trace_grows.
Proof.
  unfold trace_grows. split; [apply _|done..|]. intros. simpl. by apply prefix_app_r.
Qed.

#[global] Instance keeps_wf_store ctx : StoreRel ctx keeps_wf.
Proof.
  split; [apply _|..].
  - intros w Hw. auto with wf.
  - intros t d w _ _ Hw. auto with wf.
  - intros A HA q t d w _ Ht Hw. apply world_wf_next_tick, world_wf_rerun; [|done].
    by intros d1 d2 Hd ->%replay_read_same.
  - intros A HA s t d a d' w _ Ht Hs Hwf Hw.
    apply world_wf_next_tick, world_wf_log, db_wf_stmt_world.
    + eapply Hwf; [|done]. by eapply wf_txs.
    + apply world_wf_rerun; [|done]. intros d1 d2. by apply replay_write_wf.
Qed.

Lemma only_tx_store ctx t : ctx_tx ctx = Some t → StoreRel ctx (only_tx t).
Proof.
  intros Hc. split; [apply _|done|..]; intros; intros t'' Hne; simpl; try done;
    rewrite lookup_insert_ne; congruence.
Qed.
#[export] Hint Extern 1 (StoreRel _ (only_tx _)) =>
  apply only_tx_store; first [assumption|reflexivity] : typeclass_instances.

(** The transaction [t] could be committed: its statements, run again on the
    committed tables, leave its view. So it is when it begins, and as long as
    no other transaction commits. *)
Definition in_step (t : nat) (w : World) : Prop :=
  ∀ d, txs w !! t = Some (TxOpen d) → (redo w !! t ≫= λ f, f (committed w)) = Some d.
Definition keeps_step (t : nat) (w w' : World) : Prop :=
  same_committed w w' ∧ (in_step t w → in_step t w').

#[global] Instance keeps_step_preorder t : PreOrder (keeps_step t).
Proof.
  split; [by intros w|]. intros w1 w2 w3 [Hc12 H12] [Hc23 H23]. split; [by trans w2|auto].
Qed.

Lemma in_step_begun w : in_step (next_tx w) (next_tick (add_tx (TxOpen (committed w)) w)).
Proof. intros d. simpl. rewrite !lookup_insert_eq. by intros [= <-]. Qed.

Lemma in_step_rerun t t' s f w d d' :
  in_step t w → txs w !! t' = Some (TxOpen d) → f d = Some d' → (∀ d'', s = TxOpen d'' → d'' = d') →
  in_step t (set_tx t' s (rerun t' f w)).
Proof.
  intros Hw Ht Hf Hs d''. simpl. destruct (decide (t' = t)) as [->|Hne].
  - rewrite lookup_insert_eq, lookup_alter_eq. intros [= ->]. specialize (Hw d Ht).
    destruct (redo w !! t) as [g|]; [|done]. simpl in *. rewrite Hw. simpl. by rewrite Hf, (Hs d'').
  - rewrite lookup_insert_ne, lookup_alter_ne by done. apply Hw.
Qed.

#[global] Instance keeps_step_store ctx t : StoreRel ctx (keeps_step t).
Proof.
  split; [apply _|..].
  - by intros w.
  - intros t' d w _ Ht. split; [done|]. intros Hw d'. simpl. destruct (decide (t' = t)) as [->|Hne].
    + by rewrite lookup_insert_eq.
    + rewrite lookup_insert_ne by done. apply Hw.
  - intros A HA q t' d w _ Ht. split; [done|]. intros Hw d'. simpl. intros Hd'.
    pose proof (in_step_rerun t t' (TxOpen d) _ w d d Hw Ht (replay_read_view q d)) as Hs.
    apply Hs; [by intros ? [= <-]|]. simpl. destruct (decide (t' = t)) as [->|Hne].
    + rewrite lookup_insert_eq. congruence.
    + by rewrite lookup_insert_ne.
  - intros A HA s t' d a d' w _ Ht Hsd _. split; [done|]. intros Hw.
    apply (in_step_rerun t t' (TxOpen d') _ w d d' Hw Ht); [by apply replay_write_view|].
    by intros ? [= <-].
Qed.

Section store.
Context {E : Env} (ctx : Context) (R : relation World) `{HR : !StoreRel ctx R}.

Lemma keeps_tx_write {A} `{EqDecision A} t (s : stmt A) :
  ctx_tx ctx = Some t → stmt_wf s → keeps R (tx_write t s).
Proof using HR.
  intros Hc Hs w. unfold tx_write. destruct (txs w !! t) as [[d| |]|] eqn:Ht; simpl;
    [|apply store_tick|reflexivity..].
  destruct (sql_fault _); simpl; [by eapply store_abort|].
  destruct (s d) as [e|[a d']] eqn:Hd; simpl; [by eapply store_abort|by eapply store_write].
Qed.

Lemma keeps_tx_read {A} `{EqDecision A} t (q : DB → A) : ctx_tx ctx = Some t → keeps R (tx_read t q).
Proof using HR.
  intros Hc w. unfold tx_read.
  repeat case_match; simpl;
    first [reflexivity|apply store_tick|by eapply store_abort|by eapply store_read].
Qed.

Lemma keeps_db_read {A} (q : DB → A) : keeps R (db_read q).
Proof using HR. intros w. unfold db_read. case_match; apply store_tick. Qed.

Lemma keeps_rows_read {Row} asOf (q : DB → list Row) : keeps R (rows_read asOf q).
Proof using HR. intros w. unfold rows_read. case_match; apply store_tick. Qed.

Lemma keeps_NewID p : keeps R (NewID p).
Proof using HR. intros w. apply store_tick. Qed.

Lemma keeps_ctx_read {A} `{EqDecision A} (q : DB → A) : keeps R (ctx_read ctx q).
Proof using HR.
  unfold ctx_read, getContextTx. destruct (ctx_tx ctx) eqn:Hc; simpl;
    [by apply keeps_tx_read|apply keeps_db_read].
Qed.

Lemma keeps_getContextTx {A} (f : nat → M A) :
  (∀ t, ctx_tx ctx = Some t → keeps R (f t)) → keeps R (lift (getContextTx ctx) ≫= f).
Proof using HR.
  intros Hf w. unfold getContextTx. destruct (ctx_tx ctx) as [t|]; [by apply Hf|reflexivity].
Qed.
End store.

(** ** The end of a transaction *)

Section ends.
Context {E : Env}.

Lemma tx_commit_Ok t w u w' :
  tx_commit t w = (Ok u, w') →
  ∃ f d, redo w !! t = Some f ∧ f (committed w) = Some d ∧
    w' = next_tick (set_committed d (set_tx t TxDone w)).
Proof.
  unfold tx_commit. destruct (txs w !! t) as [[d| |]|]; [|done..].
  destruct (redo w !! t) as [f|]; [|done]. simpl. destruct (f (committed w)) as [d'|] eqn:Hd; [|done].
  destruct (sql_fault _); [done|]. intros [= _ <-]. by exists f, d'.
Qed.

Lemma tx_commit_failed t w :
  (∀ n, ambiguous_commit n = false) → (tx_commit t w).1 ≠ Ok tt → same_committed w (tx_commit t w).2.
Proof.
  intros Hamb. unfold tx_commit. destruct (txs w !! t) as [[d| |]|]; simpl; [|done..].
  destruct (redo w !! t ≫= _); [|done]. destruct (sql_fault _); simpl; [|done]. by rewrite Hamb.
Qed.

Lemma tx_rollback_committed t : keeps same_committed (tx_rollback t).
Proof. intros w. unfold tx_rollback. by destruct (txs w !! t) as [[d| |]|]. Qed.

Lemma rollbackContextTx_committed ctx : keeps same_committed (rollbackContextTx ctx).
Proof.
  unfold rollbackContextTx. apply keeps_bind; [apply _|apply keeps_lift, _|apply tx_rollback_committed].
Qed.
End ends.

(** Split a method at its tests and compose the frames of its steps; what a
    method calls is in the hint database. *)
Ltac frame_step :=
  lazymatch goal with
  | |- ∀ _, _ => intros ?
  | |- keeps _ (lift (getContextTx _) ≫= _) => eapply keeps_getContextTx; [apply _|]
  | |- keeps _ (_ ≫= _) => apply keeps_bind; [apply _|..]
  | |- keeps _ (on_error _ _) => apply keeps_on_error; [apply _|..]
  | |- keeps _ (attempt _) => apply keeps_attempt
  | |- keeps _ (mret _) => apply keeps_ret, _
  | |- keeps _ (fail _) => apply keeps_fail, _
  | |- keeps _ (panic _) => apply keeps_panic, _
  | |- keeps _ (lift _) => apply keeps_lift, _
  | |- keeps _ (tx_write _ _) => eapply keeps_tx_write; [apply _|eassumption|solve [eauto with wf]]
  | |- keeps _ (tx_read _ _) => eapply keeps_tx_read; [apply _|eassumption]
  | |- keeps _ (db_read _) => eapply keeps_db_read, _
  | |- keeps _ (rows_read _ _) => eapply keeps_rows_read, _
  | |- keeps _ (NewID _) => eapply keeps_NewID, _
  | |- keeps _ (ctx_read _ _) => eapply keeps_ctx_read, _
  | |- keeps _ (match ?x with _ => _ end) => destruct x
  | |- keeps _ (let '_ := ?x in _) => destruct x
  | |- keeps _ _ => solve [eauto with frame typeclass_instances]
  end.
Ltac frame := repeat frame_step.
