(* ===== verification/Run.v ===== *)
(** Runs of the monad: a weakest precondition over outcomes and worlds, its
    rules for the primitives in an environment where nothing outside fails,
    and what it means for a method to implement a pure specification inside
    an open transaction. *)
From S2P Require Import Prelude GoStrings Errors Pagination ListQuery World Frame.

(** ** Definitions *)

(** [wp m w Φ]: run from [w], [m] ends with an outcome and a world in [Φ]. *)
Definition wp {A} (m : M A) (w : World) (Φ : result A → World → Prop) : Prop :=
  Φ (m w).1 (m w).2.

(** The transaction of [ctx] is open in [w], with the view [d]. *)
Definition in_tx (ctx : Context) (t : nat) (w : World) (d : DB) : Prop :=
  ctx_tx ctx = Some t ∧ txs w !! t = Some (TxOpen d).

(** What a method promises, as a function of the committed tables and of the
    view of its transaction: its result, and the state of the transaction. *)
Definition tx_spec (A : Type) : Type := DB → DB → result A * tx_state.

(** [m] implements [spec] in the transaction of [ctx]: it returns (it neither
    panics nor diverges unless [spec] says so) the result of [spec], leaves
    the transaction in the state of [spec], and touches neither the committed
    tables nor any other transaction. *)
Definition implements {A} (ctx : Context) (m : M A) (spec : tx_spec A) : Prop :=
  ∀ w t d, in_tx ctx t w d →
  wp m w (λ r w',
    r = (spec (committed w) d).1 ∧ txs w' !! t = Some (spec (committed w) d).2 ∧
    same_committed w w' ∧ only_tx t w w').

(** ** Rules *)

Lemma wp_ret {A} (a : A) w Φ : Φ (Ok a) w → wp (mret a) w Φ.
Proof. done. Qed.
Lemma wp_fail {A} e w (Φ : result A → World → Prop) : Φ (Err e) w → wp (fail e) w Φ.
Proof. done. Qed.
Lemma wp_panic {A} s w (Φ : result A → World → Prop) : Φ (Panic s) w → wp (panic s) w Φ.
Proof. done. Qed.
Lemma wp_lift {A} (r : result A) w Φ : Φ r w → wp (lift r) w Φ.
Proof. done. Qed.

Lemma wp_bind {A B} (m : M A) (f : A → M B) w Φ :
  wp m w (λ r w', match r with
                  | Ok a => wp (f a) w' Φ
                  | Err e => Φ (Err e) w'
                  | Panic s => Φ (Panic s) w'
                  end) →
  wp (m ≫= f) w Φ.
Proof. unfold wp, mbind, M_bind. by destruct (m w) as [[] ?]. Qed.

Lemma wp_attempt {A} (m : M A) w Φ :
  wp m w (λ r w', match r with
                  | Ok a => Φ (Ok (inr a)) w'
                  | Err e => Φ (Ok (inl e)) w'
                  | Panic s => Φ (Panic s) w'
                  end) →
  wp (attempt m) w Φ.
Proof. unfold wp, attempt. by destruct (m w) as [[] ?]. Qed.

Lemma wp_on_error {A} (m : M A) f w Φ :
  wp m w (λ r w', match r with
                  | Ok a => Φ (Ok a) w'
                  | Err e => wp (f e) w' Φ
                  | Panic s => Φ (Panic s) w'
                  end) →
  wp (on_error m f) w Φ.
Proof.
  intros H. apply wp_bind, wp_attempt. unfold wp in *.
  by destruct (m w) as [[] ?].
Qed.

Lemma wp_mono {A} (m : M A) w (Φ Ψ : result A → World → Prop) :
  (∀ r w', Φ r w' → Ψ r w') → wp m w Φ → wp m w Ψ.
Proof. unfold wp. auto. Qed.

(** What holds of every outcome and what is kept hold together. *)
Lemma wp_keeps {A} R (m : M A) w Φ :
  keeps R m → wp m w Φ → wp m w (λ r w', Φ r w' ∧ R w w').
Proof. unfold wp, keeps. auto. Qed.

Lemma wp_in_step {A} t (m : M A) w Φ :
  keeps (keeps_step t) m → in_step t w → wp m w (λ r w', in_step t w' → Φ r w') → wp m w Φ.
Proof. unfold wp, keeps. intros Hm Hs HΦ. by apply HΦ, Hm. Qed.

Lemma wp_elim {A} (m : M A) w Φ : wp m w Φ → let '(r, w') := m w in Φ r w'.
Proof. unfold wp. by destruct (m w). Qed.

(** *** Runs with known outcomes *)

Lemma bind_Ok {A B} (m : M A) (f : A → M B) w a w' :
  m w = (Ok a, w') → (m ≫= f) w = f a w'.
Proof. intros Hm. unfold mbind, M_bind. by rewrite Hm. Qed.
Lemma bind_Err {A B} (m : M A) (f : A → M B) w e w' :
  m w = (Err e, w') → (m ≫= f) w = (Err e, w').
Proof. intros Hm. unfold mbind, M_bind. by rewrite Hm. Qed.
Lemma bind_Panic {A B} (m : M A) (f : A → M B) w s w' :
  m w = (Panic s, w') → (m ≫= f) w = (Panic s, w').
Proof. intros Hm. unfold mbind, M_bind. by rewrite Hm. Qed.
Lemma attempt_Ok {A} (m : M A) w a w' : m w = (Ok a, w') → attempt m w = (Ok (inr a), w').
Proof. intros Hm. unfold attempt. by rewrite Hm. Qed.
Lemma attempt_Err {A} (m : M A) w e w' : m w = (Err e, w') → attempt m w = (Ok (inl e), w').
Proof. intros Hm. unfold attempt. by rewrite Hm. Qed.
Lemma attempt_Panic {A} (m : M A) w s w' : m w = (Panic s, w') → attempt m w = (Panic s, w').
Proof. intros Hm. unfold attempt. by rewrite Hm. Qed.
Lemma on_error_Ok {A} (m : M A) f w a w' : m w = (Ok a, w') → on_error m f w = (Ok a, w').
Proof. intros Hm. unfold on_error. by rewrite (bind_Ok _ _ _ _ _ (attempt_Ok _ _ _ _ Hm)). Qed.
Lemma on_error_Err {A} (m : M A) f w e w' : m w = (Err e, w') → on_error m f w = f e w'.
Proof. intros Hm. unfold on_error. by rewrite (bind_Ok _ _ _ _ _ (attempt_Err _ _ _ _ Hm)). Qed.
Lemma on_error_Panic {A} (m : M A) f w s w' :
  m w = (Panic s, w') → on_error m f w = (Panic s, w').
Proof. intros Hm. unfold on_error. by rewrite (bind_Panic _ _ _ _ _ (attempt_Panic _ _ _ _ Hm)). Qed.

(** A run that succeeds is made of runs that do. *)
Lemma bind_inv {A B} (m : M A) (f : A → M B) w b w' :
  (m ≫= f) w = (Ok b, w') → ∃ a w1, m w = (Ok a, w1) ∧ f a w1 = (Ok b, w').
Proof. unfold mbind, M_bind. destruct (m w) as [[a|e|s] w1]; [eauto|done..]. Qed.

Lemma on_error_inv {A} (m : M A) f w a w' :
  on_error m f w = (Ok a, w') →
  m w = (Ok a, w') ∨ ∃ e w1, m w = (Err e, w1) ∧ f e w1 = (Ok a, w').
Proof.
  unfold on_error, attempt, mbind, M_bind. destruct (m w) as [[a'|e|s] w1]; [by left|right|done].
  by eauto.
Qed.

Lemma on_error_fail_inv {A} (m : M A) f w a w' :
  (∀ e w1, (f e w1).1 ≠ Ok a) → on_error m f w = (Ok a, w') → m w = (Ok a, w').
Proof.
  intros Hf [?|(e & w1 & _ & H)]%on_error_inv; [done|]. by destruct (Hf e w1); rewrite H.
Qed.

Section reliable.
Context {E : Env} `{!Reliable E}.

Lemma wp_tx_write {A} `{EqDecision A} t (s : stmt A) w d Φ :
  txs w !! t = Some (TxOpen d) →
  match s d with
  | inl e => Φ (Err e) (next_tick (set_tx t TxAborted w))
  | inr (a, d') =>
    Φ (Ok a) (next_tick (log EvWrite (set_tx t (TxOpen d') (rerun t (replay_write s a) w))))
  end →
  wp (tx_write t s) w Φ.
Proof.
  intros Ht. unfold wp, tx_write. rewrite Ht, no_sql_fault.
  by destruct (s d) as [?|[]].
Qed.

Lemma wp_tx_read {A} `{EqDecision A} t (q : DB → A) w d Φ :
  txs w !! t = Some (TxOpen d) → Φ (Ok (q d)) (next_tick (rerun t (replay_read q (q d)) w)) →
  wp (tx_read t q) w Φ.
Proof. intros Ht. unfold wp, tx_read. by rewrite Ht, no_sql_fault. Qed.

Lemma wp_db_read {A} (q : DB → A) w Φ :
  Φ (Ok (q (committed w))) (next_tick w) → wp (db_read q) w Φ.
Proof. unfold wp, db_read. by rewrite no_sql_fault. Qed.

Lemma wp_ctx_read {A} `{EqDecision A} ctx t (q : DB → A) w d Φ :
  in_tx ctx t w d → Φ (Ok (q d)) (next_tick (rerun t (replay_read q (q d)) w)) →
  wp (ctx_read ctx q) w Φ.
Proof.
  intros [Hc Ht]. unfold ctx_read, getContextTx. rewrite Hc. by apply wp_tx_read.
Qed.

(** Without a transaction, a read sees the committed tables. *)
Lemma wp_ctx_read_db {A} `{EqDecision A} ctx (q : DB → A) w Φ :
  ctx_tx ctx = None → Φ (Ok (q (committed w))) (next_tick w) → wp (ctx_read ctx q) w Φ.
Proof.
  intros Hc. unfold ctx_read, getContextTx. rewrite Hc. simpl. apply wp_db_read.
Qed.

Lemma wp_rows_read {Row} asOf (q : DB → list Row) w Φ :
  Φ (Ok (q (if decide (asOf = "") then committed w else history w asOf))) (next_tick w) →
  wp (rows_read asOf q) w Φ.
Proof. unfold wp, rows_read. by rewrite no_sql_fault, no_rows_cut. Qed.

(** A transaction that is in step with the committed tables is committed. *)
Lemma wp_commit ctx t d w (Φ : result () → World → Prop) :
  in_tx ctx t w d → in_step t w → Φ (Ok tt) (next_tick (set_committed d (set_tx t TxDone w))) →
  wp (commitContextTx ctx) w Φ.
Proof.
  intros [Hc Ht] Hs HΦ. unfold commitContextTx, getContextTx. rewrite Hc.
  unfold wp, mbind, M_bind, lift, tx_commit. by rewrite Ht, (Hs d Ht), no_sql_fault.
Qed.

Lemma wp_NewID p w Φ : Φ (gidx_NewID (tick w) p) (next_tick w) → wp (NewID p) w Φ.
Proof. done. Qed.

Lemma wp_getContextTx ctx t w Φ :
  ctx_tx ctx = Some t → Φ (Ok t) w → wp (lift (getContextTx ctx)) w Φ.
Proof. intros Hc. unfold wp, getContextTx. by rewrite Hc. Qed.
End reliable.

Lemma in_tx_next_tick ctx t w d : in_tx ctx t w d → in_tx ctx t (next_tick w) d.
Proof. done. Qed.

Lemma in_tx_rerun ctx t w d t' f : in_tx ctx t w d → in_tx ctx t (rerun t' f w) d.
Proof. done. Qed.

Lemma in_tx_written ctx t w d d' f :
  in_tx ctx t w d → in_tx ctx t (next_tick (log EvWrite (set_tx t (TxOpen d') (rerun t f w)))) d'.
Proof. intros [? ?]. split; [done|]. simpl. by rewrite lookup_insert_eq. Qed.

(** Run a method in an open transaction: apply the rule of each primitive and
    stop at the tests of the code. *)
Ltac wp_in_tx :=
  lazymatch goal with
  | |- in_tx _ _ (next_tick (log EvWrite (set_tx _ _ _))) _ => eapply in_tx_written; wp_in_tx
  | |- in_tx _ _ (rerun _ _ _) _ => apply in_tx_rerun; wp_in_tx
  | |- in_tx _ _ (next_tick _) _ => apply in_tx_next_tick; wp_in_tx
  | |- _ => eassumption
  end.
Ltac wp_tx_state :=
  first [ eassumption
        | match goal with H : in_tx _ _ _ _ |- _ => exact (proj2 H) end
        | simpl; rewrite ?lookup_insert_eq; first [reflexivity|eassumption
            | match goal with H : in_tx _ _ _ _ |- _ => exact (proj2 H) end] ].
Ltac wp_ctx := match goal with H : in_tx _ _ _ _ |- _ => exact (proj1 H) end.

(** What a statement would do on other tables does not matter to a run. *)
Ltac forget_reruns :=
  repeat match goal with
  | |- context [rerun ?t ?f _] => assert_fails (is_var f); generalize f; intros ?
  end.

Ltac wp_step :=
  lazymatch goal with
  | |- wp (_ ≫= _) _ _ => apply wp_bind
  | |- wp (on_error _ _) _ _ => apply wp_on_error
  | |- wp (attempt _) _ _ => apply wp_attempt
  | |- wp (mret _) _ _ => apply wp_ret
  | |- wp (fail _) _ _ => apply wp_fail
  | |- wp (panic _) _ _ => apply wp_panic
  | |- wp (lift (getContextTx _)) _ _ => eapply wp_getContextTx; [wp_ctx|]
  | |- wp (lift _) _ _ => apply wp_lift
  | |- wp (ctx_read _ _) _ _ => eapply wp_ctx_read; [wp_in_tx|]
  | |- wp (tx_read _ _) _ _ => eapply wp_tx_read; [wp_tx_state|]
  | |- wp (tx_write _ _) _ _ => eapply wp_tx_write; [wp_tx_state|]
  | |- wp (db_read _) _ _ => apply wp_db_read
  | |- wp (rows_read _ _) _ _ => apply wp_rows_read
  | |- wp (NewID _) _ _ => apply wp_NewID
  end.
Ltac wp := repeat (wp_step; cbn beta iota zeta; forget_reruns).

(** The end of a run: the result, and the transaction's state. *)
Ltac wp_done := split; [done|wp_tx_state].

(** The frame of a method is proved once, by [frame]. *)
Lemma implements_intro {A} ctx (m : M A) (spec : tx_spec A) :
  keeps same_committed m → (∀ t, ctx_tx ctx = Some t → keeps (only_tx t) m) →
  (∀ w t d, in_tx ctx t w d →
    wp m w (λ r w', r = (spec (committed w) d).1 ∧ txs w' !! t = Some (spec (committed w) d).2)) →
  implements ctx m spec.
Proof.
  intros Hc Ho Hm w t d Hw. pose proof (Hm w t d Hw) as [Hr Ht].
  pose proof (Ho t (proj1 Hw) w). pose proof (Hc w). by split_and!.
Qed.

(** A call of a method that implements a specification. *)
Lemma wp_implements {A} ctx (m : M A) spec w t d Φ :
  implements ctx m spec → in_tx ctx t w d →
  (∀ w', same_committed w w' → only_tx t w w' →
     txs w' !! t = Some (spec (committed w) d).2 → Φ (spec (committed w) d).1 w') →
  wp m w Φ.
Proof.
  intros Hm Hw HΦ. destruct (Hm w t d Hw) as (Hr & Ht & Hc & Ho).
  unfold wp. rewrite Hr. by apply HΦ.
Qed.
