(* ===== verification/Cel.v ===== *)
(** CEL expressions, [internal/celutils]: the cel-go library behind an
    interface, and the two functions that call it. *)
From S2P Require Import Prelude GoStrings Errors.

(** Go's [any] as far as the code tells dynamic types apart: [nil], strings,
    booleans, pointers to strings, and everything else by the name of its type
    and a printed form. *)
Inductive any : Type :=
  | AnyNil
  | AnyString (s : string)
  | AnyBool (b : bool)
  | AnyStringPtr (p : option string)
  | AnyOther (type repr : string).

#[global] Instance any_eq_dec : EqDecision any.
Proof. solve_decision. Defined.

(** The verb [%T]. *)
Definition any_type (v : any) : string :=
  match v with
  | AnyNil => "<nil>"
  | AnyString _ => "string"
  | AnyBool _ => "bool"
  | AnyStringPtr _ => "*string"
  | AnyOther type _ => type
  end.

(** A variable of an evaluation environment: a claims map or a string. *)
Inductive cel_value : Type :=
  | CelMap (m : gmap string any)
  | CelString (s : string).

(** cel-go and the protobuf text format: compilation in the service's
    environment, programs, and the conversions of an AST. *)
Class CEL : Type := {
  Ast : Type;
  CheckedExpr : Type;
  Program : Type;
  env_Compile : string → error + Ast;
  env_Program : Ast → error + Program;
  prog_Eval : Program → gmap string cel_value → error + any;
  OutputTypeName : Ast → string;
  AstToString : Ast → result string;
  AstToCheckedExpr : Ast → result CheckedExpr;
  CheckedExprToAst : CheckedExpr → Ast;
  prototext_Marshal : CheckedExpr → result string;
  prototext_Unmarshal : string → result CheckedExpr;
}.

(** What the code relies on to store an expression and read it back: an AST
    survives the conversion to a checked expression and its text, and an
    encoding is never empty. *)
Class CELRoundTrip (C : CEL) : Prop := {
  expr_roundtrip : ∀ a e, AstToCheckedExpr a = Ok e → CheckedExprToAst e = a;
  text_roundtrip : ∀ e b, prototext_Marshal e = Ok b → prototext_Unmarshal b = Ok e;
  text_nonempty : ∀ e b, prototext_Marshal e = Ok b → b ≠ "";
}.

Definition CELVariableClaims : string := "claims".
Definition CELVariableSubSHA256 : string := "subSHA256".

Section cel.
Context `{CEL}.

(** [ParseCEL]. *)
Definition ParseCEL (input : string) : result Ast :=
  match env_Compile input with
  | inl err => Err (ErrorCELParse err)
  | inr ast => Ok ast
  end.

(** [Eval]. *)
Definition Eval (ast : Ast) (inputEnv : gmap string cel_value) : result any :=
  match env_Program ast with
  | inl err => Err (ErrorCELParse err)
  | inr prog =>
    match prog_Eval prog inputEnv with
    | inl err => Err (ErrorCELEval err)
    | inr val => Ok val
    end
  end.
End cel.

(** *** Maps traversed with a fallible function *)

(** [for k, v := range m { w, err := f(v); if err != nil { return nil, err };
    out[k] = w }]. Go visits the keys in an unspecified order, here that of
    [map_to_list]; the order decides only which of several errors is returned. *)
Definition map_result {A B} (f : A → result B) (m : gmap string A) : result (gmap string B) :=
  list_to_map <$> result_map (λ kv : string * A, w ← f kv.2; Ok (kv.1, w)) (map_to_list m).

Lemma map_result_Ok {A B} (f : A → result B) m m' :
  map_result f m = Ok m' →
  (∀ k, (∃ x y, m !! k = Some x ∧ m' !! k = Some y ∧ f x = Ok y) ∨
        (m !! k = None ∧ m' !! k = None)).
Proof.
  unfold map_result. destruct (result_map _ _) as [l| |] eqn:Hl; try done.
  intros [= <-] k. apply result_map_Ok in Hl.
  assert (l.*1 = (map_to_list m).*1) as Hkeys.
  { induction Hl as [|[k1 x] [k2 y] l1 l2 Hxy _ IH]; [done|]. simpl in *.
    destruct (f x); simplify_eq/=. by f_equal. }
  assert (NoDup l.*1) as Hnd by (rewrite Hkeys; apply NoDup_fst_map_to_list).
  destruct (m !! k) as [x|] eqn:Hm.
  - left. apply elem_of_map_to_list, list_elem_of_lookup in Hm as [i Hi].
    destruct (Forall2_lookup_l _ _ _ _ _ Hl Hi) as ([k' y] & Hi' & Hy).
    simpl in Hy. destruct (f x) as [w| |] eqn:Hf; simplify_eq/=.
    exists x, y. split_and!; [done| |done].
    apply elem_of_list_to_map_1; [done|]. by apply list_elem_of_lookup_2 with i.
  - right. split; [done|]. apply not_elem_of_list_to_map_1. rewrite Hkeys.
    intros ([k' x] & -> & Hx%elem_of_map_to_list)%list_elem_of_fmap. simpl in Hm. congruence.
Qed.

(** Traversing with an inverse gives the map back. *)
Lemma map_result_inverse {A B} (f : A → result B) (g : B → A) m m' :
  (∀ x y, f x = Ok y → g y = x) → map_result f m = Ok m' → g <$> m' = m.
Proof.
  intros Hinv Hm. apply map_eq. intros k. rewrite lookup_fmap.
  destruct (map_result_Ok f m m' Hm k) as [(x & y & -> & -> & Hf)|[-> ->]]; [|done].
  simpl. by rewrite (Hinv _ _ Hf).
Qed.

(** A traversal that succeeds at every key succeeds. *)
Lemma map_result_total {A B} (f : A → result B) m :
  (∀ k x, m !! k = Some x → ∃ y, f x = Ok y) → ∃ m', map_result f m = Ok m'.
Proof.
  intros Hf. unfold map_result.
  assert (∃ l, result_map (λ kv : string * A, w ← f kv.2; Ok (kv.1, w)) (map_to_list m) = Ok l)
    as [l ->]; [|by eexists].
  assert (∀ kv, kv ∈ map_to_list m → ∃ y, f kv.2 = Ok y) as Hall.
  { intros [k x] Hin%elem_of_map_to_list. eauto. }
  induction (map_to_list m) as [|kv l IH]; [by exists []|].
  destruct (Hall kv) as [y Hy]; [left|]. destruct IH as [l' Hl'].
  { intros kv' Hin. apply Hall. by right. }
  exists ((kv.1, y) :: l'). simpl. rewrite Hy; simpl. by rewrite Hl'.
Qed.

(** ** A concrete expression language

    An expression is [true], [false], or the name of a claim; its text is
    stored behind a letter. *)
Definition claim_lookup (p : string) (inputEnv : gmap string cel_value) : error + any :=
  if decide (p = "true") then inr (AnyBool true)
  else if decide (p = "false") then inr (AnyBool false)
  else match inputEnv !! CELVariableClaims with
  | Some (CelMap m) =>
    match m !! p with Some v => inr v | None => inl (ExtError "no such key") end
  | _ => inl (ExtError "no such attribute")
  end.

Definition claim_cel : CEL := {|
  Ast := string; CheckedExpr := string; Program := string;
  env_Compile s := if decide (s = "") then inl (ExtError "syntax error") else inr s;
  env_Program a := inr a;
  prog_Eval := claim_lookup;
  OutputTypeName a := if decide (a = "true" ∨ a = "false") then "bool" else "dyn";
  AstToString a := Ok a;
  AstToCheckedExpr a := Ok a;
  CheckedExprToAst e := e;
  prototext_Marshal e := Ok (String "e" e);
  prototext_Unmarshal s := match s with String _ e => Ok e | "" => Err (ExtError "proto") end;
|}.

#[global] Instance claim_cel_roundtrip : CELRoundTrip claim_cel.
Proof.
  split; simpl.
  - by intros a e [= <-].
  - by intros e b [= <-].
  - by intros e b [= <-].
Qed.
