(* ===== verification/Types.v ===== *)
(** The service's data types and their conversions, [internal/types]. *)
From S2P Require Import Prelude GoStrings Errors Utf8 JsonBytes Pagination V1 Cel.

(** ** Constants: the identifier prefixes *)
Definition IdentityUserIDPrefix : string := "idntusr".
Definition IdentityClientIDPrefix : string := "idntcli".
Definition IdentityIssuerIDPrefix : string := "idntiss".
Definition IdentityGroupIDPrefix : string := "idntgrp".

(** ** Groups *)
Record Group : Type := {
  g_ID : PrefixedID;
  g_OwnerID : PrefixedID;
  g_Name : string;
  g_Description : string;
}.

#[global] Instance Group_eq_dec : EqDecision Group.
Proof. solve_decision. Defined.

Definition ToV1Group (g : Group) : result v1_Group :=
  Ok {| v1g_ID := g_ID g; v1g_Name := g_Name g; v1g_OwnerID := Some (g_OwnerID g);
        v1g_Description :=
          if decide (g_Description g ≠ "") then Some (g_Description g) else None |}.

Definition ToV1Groups (gs : list Group) : result (list v1_Group) := result_map ToV1Group gs.

Definition ToPrefixedIDs (gs : list Group) : list PrefixedID := g_ID <$> gs.

Record GroupUpdate : Type := {
  gu_Name : option string;
  gu_Description : option string;
}.

(** ** Users *)
Record UserInfo : Type := {
  u_ID : PrefixedID;
  u_Name : string;
  u_Email : string;
  u_Issuer : string;
  u_Subject : string;
}.

#[global] Instance UserInfo_eq_dec : EqDecision UserInfo.
Proof. solve_decision. Defined.

Definition empty_UserInfo : UserInfo :=
  {| u_ID := ""; u_Name := ""; u_Email := ""; u_Issuer := ""; u_Subject := "" |}.

Definition ToV1User (u : UserInfo) : result v1_User :=
  let name := if decide (u_Name u ≠ "") then Some (u_Name u) else None in
  let email := if decide (u_Email u ≠ "") then Some (u_Email u) else None in
  Ok {| v1u_ID := u_ID u; v1u_Name := name; v1u_Email := email;
        v1u_Issuer := u_Issuer u; v1u_Subject := u_Subject u |}.

Definition ToV1Users (us : list UserInfo) : result (list v1_User) := result_map ToV1User us.

(** ** OAuth clients *)
Record OAuthClient : Type := {
  c_ID : PrefixedID;
  c_OwnerID : PrefixedID;
  c_Name : string;
  c_Secret : string;
  c_Audience : list string;
}.

#[global] Instance OAuthClient_eq_dec : EqDecision OAuthClient.
Proof. solve_decision. Defined.

Definition ToV1OAuthClient (c : OAuthClient) : v1_OAuthClient :=
  {| v1c_ID := c_ID c; v1c_Name := c_Name c; v1c_Audience := c_Audience c;
     v1c_Secret := None |}.

Definition ToV1OAuthClients (cs : list OAuthClient) : result (list v1_OAuthClient) :=
  Ok (ToV1OAuthClient <$> cs).

(** The methods of [fosite.Client] that do not panic. *)
Definition GetAudience (c : OAuthClient) : list string := c_Audience c.
Definition GetHashedSecret (c : OAuthClient) : string := c_Secret c.
Definition GetID (c : OAuthClient) : string := c_ID c.
Definition IsPublic (c : OAuthClient) : bool := false.
Definition unimplemented {A} : result A := Panic "unimplemented".
Definition GetGrantTypes (c : OAuthClient) : result (list string) := unimplemented.
Definition GetRedirectURIs (c : OAuthClient) : result (list string) := unimplemented.
Definition GetResponseTypes (c : OAuthClient) : result (list string) := unimplemented.
Definition GetScopes (c : OAuthClient) : result (list string) := unimplemented.

(** ** Issuers *)
Section issuers.
Context `{CEL}.

(** A possibly nil map of claims to expressions. *)
Abbreviation ClaimsMapping := (option (gmap string Ast)).

(** A struct with a possibly nil AST; a [*ClaimConditions] is an option of it. *)
Record ClaimConditions : Type := { cc_ast : option Ast }.

Record Issuer : Type := {
  i_OwnerID : PrefixedID;
  i_ID : PrefixedID;
  i_Name : string;
  i_URI : string;
  i_JWKSURI : string;
  i_ClaimMappings : ClaimsMapping;
  i_ClaimConditions : option ClaimConditions;
}.

Record IssuerUpdate : Type := {
  iu_Name : option string;
  iu_URI : option string;
  iu_JWKSURI : option string;
  iu_ClaimMappings : ClaimsMapping;
  iu_ClaimConditions : option ClaimConditions;
}.

Definition NewClaimsMapping (exprs : gmap string string) : result (gmap string Ast) :=
  map_result ParseCEL exprs.

Definition ClaimsMapping_Repr (c : ClaimsMapping) : result (gmap string string) :=
  map_result AstToString (default ∅ c).

(** One entry of [ClaimsMapping.MarshalJSON]. *)
Definition marshal_ast (a : Ast) : result string :=
  expr ← AstToCheckedExpr a; prototext_Marshal expr.

Definition unmarshal_ast (b : string) : result Ast :=
  expr ← prototext_Unmarshal b; Ok (CheckedExprToAst expr).

Definition ClaimsMapping_MarshalJSON (c : ClaimsMapping) : result string :=
  out ← map_result marshal_ast (default ∅ c); Ok (json_Marshal out).

Definition ClaimsMapping_UnmarshalJSON (data : string) : result ClaimsMapping :=
  in_ ← json_Unmarshal data; out ← map_result unmarshal_ast in_; Ok (Some out).

Definition BuildClaimsMappingFromMap (in_ : gmap string CheckedExpr) : gmap string Ast :=
  CheckedExprToAst <$> in_.

Definition NewClaimConditions (expr : string) : result ClaimConditions :=
  if decide (expr = "") then Ok {| cc_ast := None |}
  else
    ast ← ParseCEL expr;
    if decide (OutputTypeName ast ≠ "bool") then
      Err (wrapf ErrInvalidCEL ("expected bool output type, got " +:+ OutputTypeName ast))
    else Ok {| cc_ast := Some ast |}.

Definition ClaimConditions_MarshalJSON (c : ClaimConditions) : result string :=
  match cc_ast c with
  | None => Ok ""
  | Some ast => marshal_ast ast
  end.

Definition ClaimConditions_UnmarshalJSON (data : string) : result ClaimConditions :=
  if decide (data = "") then Ok {| cc_ast := None |}
  else ast ← unmarshal_ast data; Ok {| cc_ast := Some ast |}.

Definition ToV1Issuer (i : Issuer) : result v1_Issuer :=
  claimsMappingRepr ← ClaimsMapping_Repr (i_ClaimMappings i);
  claimConditions ←
    match i_ClaimConditions i ≫= cc_ast with
    | Some ast => AstToString ast
    | None => Ok ""
    end;
  Ok {| v1i_ID := i_ID i; v1i_Name := i_Name i; v1i_URI := i_URI i;
        v1i_JWKSURI := i_JWKSURI i; v1i_ClaimMappings := claimsMappingRepr;
        v1i_ClaimConditions := claimConditions |}.

Definition ToV1Issuers (l : list Issuer) : result (list v1_Issuer) := result_map ToV1Issuer l.
End issuers.
#[global] Arguments ClaimConditions {_}.
#[global] Arguments Issuer {_}.
#[global] Arguments IssuerUpdate {_}.

(** ** Lemmas *)

Lemma ToV1Groups_pure gs : ∃ out, ToV1Groups gs = Ok out ∧ v1g_ID <$> out = ToPrefixedIDs gs.
Proof.
  unfold ToV1Groups, ToPrefixedIDs. induction gs as [|g gs (out & Hout & IH)]; [by exists []|].
  eexists. simpl. rewrite Hout. split; [done|]. simpl. by f_equal.
Qed.

Lemma ToV1Users_pure us : ∃ out, ToV1Users us = Ok out ∧ v1u_ID <$> out = u_ID <$> us.
Proof.
  unfold ToV1Users. induction us as [|u us (out & Hout & IH)]; [by exists []|].
  eexists. simpl. rewrite Hout. split; [done|]. simpl. by f_equal.
Qed.

Section codec.
Context `{CELRoundTrip}.

Lemma unmarshal_marshal_ast a b : marshal_ast a = Ok b → unmarshal_ast b = Ok a.
Proof.
  unfold marshal_ast, unmarshal_ast. intros (e & He & Hb)%result_bind_Ok.
  rewrite (text_roundtrip _ _ Hb); simpl. by rewrite (expr_roundtrip _ _ He).
Qed.

Lemma map_unmarshal_marshal m b :
  map_result marshal_ast m = Ok b → map_result unmarshal_ast b = Ok m.
Proof.
  intros Hm. destruct (map_result_total unmarshal_ast b) as [m' Hb].
  { intros k y Hy. destruct (map_result_Ok _ _ _ Hm k) as [(x & y' & _ & Hy' & Hf)|[_ Hn]];
      [|congruence]. exists x. apply unmarshal_marshal_ast. congruence. }
  rewrite Hb. f_equal. apply map_eq. intros k.
  destruct (map_result_Ok _ _ _ Hm k) as [(x & y & Hx & Hy & Hf)|[Hx Hy]];
    destruct (map_result_Ok _ _ _ Hb k) as [(y' & x' & Hy' & Hx' & Hf')|[Hy' Hx']];
    simplify_eq; try congruence.
  apply unmarshal_marshal_ast in Hf. congruence.
Qed.
End codec.
