(* ===== verification/Storage.v ===== *)
(** What the services of [internal/storage] share: the engine's transaction
    methods ([crdb.go], [engine.go]), [Diff] ([helpers.go]), and the two idioms
    every method is built from: a query of one row, and a page of rows. *)
From S2P Require Import Prelude GoStrings Errors Pagination V1 ListQuery World Frame.

(** ** Definitions *)

(** [Diff]. The two maps built by the first loops are sets of the values. *)
Definition Diff {T V} `{Countable V} (current incoming : list T) (val : T → V)
    : list T * list T :=
  let curr : gset V := list_to_set (val <$> current) in
  let in_ : gset V := list_to_set (val <$> incoming) in
  let rm := filter (λ c, val c ∉ in_) current in
  let add := filter (λ i, val i ∉ curr) incoming in
  (add, rm).

Section storage.
Context `{Env}.

(** [engine.BeginContext], [CommitContext] and [RollbackContext]. *)
Definition BeginContext (ctx : Context) : M Context := beginTxContext ctx.
Definition CommitContext (ctx : Context) : M unit := commitContextTx ctx.
Definition RollbackContext (ctx : Context) : M unit := rollbackContextTx ctx.

(** The engine as fosite's [AccessTokenStorage]: issued tokens are not stored,
    and the two methods that would need them are not there. *)
Definition CreateAccessTokenSession (signature : string) : M unit := mret ().
Definition DeleteAccessTokenSession (signature : string) : M unit := panic "unimplemented".
Definition GetAccessTokenSession {R} (signature : string) : M R := panic "unimplemented".

(** [row.Scan] of a query that selects at most one row. *)
Definition row_scan {A} (row : option A) : result A :=
  match row with Some a => Ok a | None => Err ErrNoRows end.

(** [row = tx.QueryRowContext(...)] or [row = s.db.QueryRowContext(...)], as
    the context has a transaction or not, then [row.Scan]. *)
Definition query_row {A} `{EqDecision A} (ctx : Context) (q : DB → option A) : M A :=
  row ← ctx_read ctx q; lift (row_scan row).

(** The same in the transaction [t]. *)
Definition tx_query_row {A} `{EqDecision A} (t : nat) (q : DB → option A) : M A :=
  row ← tx_read t q; lift (row_scan row).

(** [if errors.Is(err, sql.ErrNoRows) { return e }; return err]. *)
Definition no_rows {A} (m : M A) (e : error) : M A :=
  on_error m (λ err, if Is err ErrNoRows then fail e else fail err).

(** [switch err { case sql.ErrNoRows: return e; default: return err }]. *)
Definition no_rows_eq {A} (m : M A) (e : error) : M A :=
  on_error m (λ err, if is_sentinel err ErrNoRows then fail e else fail err).

Definition undefined_column : error := PQError "42703" "column does not exist".

(** A page of rows: [paginate := crdbx.Paginate(pagination,
    crdbx.ContextAsOfSystemTime(ctx, "-1m"))], the statement with its three
    clauses, and the rows. The server refuses a column the tables do not have. *)
Definition paged_read {Row} (columns : list string) (col : Row → string → string)
    (ctx : Context) (pagination : Paginator) (qual : string) (rows : DB → list Row)
    : M (list Row) :=
  let paginate := WithQualifier
    (Paginate pagination (ContextAsOfSystemTime (ctx_asOf ctx) (Some (AsOfString "-1m")))) qual in
  asOf ← lift (as_of_value paginate);
  if decide (Forall (.∈ columns) (fields paginate ++ orderFields paginate)) then
    rows_read asOf (λ d, list_query col paginate (rows d))
  else
    _ ← db_read (λ _, tt); fail undefined_column.
End storage.

(** *** Frames *)

Section frames.
Context {E : Env} (ctx : Context) (R : relation World) `{!StoreRel ctx R}.

Lemma keeps_query_row {A} `{EqDecision A} (q : DB → option A) : keeps R (query_row ctx q).
Proof. unfold query_row. frame. Qed.

Lemma keeps_tx_query_row {A} `{EqDecision A} t (q : DB → option A) :
  ctx_tx ctx = Some t → keeps R (tx_query_row t q).
Proof. unfold tx_query_row. frame. Qed.

Lemma keeps_no_rows {A} (m : M A) e : keeps R m → keeps R (no_rows m e).
Proof. unfold no_rows. frame. Qed.

Lemma keeps_no_rows_eq {A} (m : M A) e : keeps R m → keeps R (no_rows_eq m e).
Proof. unfold no_rows_eq. frame. Qed.

Lemma keeps_paged_read {Row} columns (col : Row → string → string) p q rows :
  keeps R (paged_read columns col ctx p q rows).
Proof. unfold paged_read. frame. Qed.
End frames.
#[export] Hint Resolve keeps_query_row keeps_tx_query_row keeps_no_rows keeps_no_rows_eq
  keeps_paged_read : frame.

(** ** [Diff] *)

Section diff.
Context {T V : Type} `{Countable V} (val : T → V).
Implicit Types current incoming : list T.

Lemma Diff_rm current incoming c :
  c ∈ (Diff current incoming val).2 ↔ c ∈ current ∧ val c ∉ val <$> incoming.
Proof. simpl. rewrite list_elem_of_filter, elem_of_list_to_set. tauto. Qed.

Lemma Diff_add current incoming i :
  i ∈ (Diff current incoming val).1 ↔ i ∈ incoming ∧ val i ∉ val <$> current.
Proof. simpl. rewrite list_elem_of_filter, elem_of_list_to_set. tauto. Qed.

Lemma Diff_add_NoDup current incoming :
  NoDup incoming → NoDup (Diff current incoming val).1.
Proof. simpl. apply NoDup_filter. Qed.

(** The values of the two results. *)
Lemma Diff_vals current incoming x :
  (x ∈ val <$> (Diff current incoming val).2 ↔ x ∈ val <$> current ∧ x ∉ val <$> incoming) ∧
  (x ∈ val <$> (Diff current incoming val).1 ↔ x ∈ val <$> incoming ∧ x ∉ val <$> current).
Proof.
  pose proof (λ l, list_elem_of_fmap val l x) as Hx.
  split; rewrite Hx; [setoid_rewrite Diff_rm|setoid_rewrite Diff_add];
    (split; [intros (y & -> & ? & ?); eauto using list_elem_of_fmap_2|]);
    intros [(y & -> & ?)%Hx ?]; eauto.
Qed.

(** [Diff] is the difference of the two lists: taking the values of [rm]
    from those of [current] and adding those of [add] gives exactly the values
    of [incoming]; nothing of [rm] is in [incoming] and nothing of [add] in
    [current]; and both are sublists of their source, which keep every
    occurrence (repetitions included) of the elements they keep. *)
Lemma Diff_spec current incoming :
  let '(add, rm) := Diff current incoming val in
  (list_to_set (val <$> current) ∖ list_to_set (val <$> rm)) ∪ list_to_set (val <$> add)
    =@{gset V} list_to_set (val <$> incoming) ∧
  list_to_set (val <$> rm) ##@{gset V} list_to_set (val <$> incoming) ∧
  list_to_set (val <$> add) ##@{gset V} list_to_set (val <$> current) ∧
  rm `sublist_of` current ∧ add `sublist_of` incoming ∧
  (∀ v, filter (λ i, val i = v) add =
        if decide (v ∈ val <$> current) then [] else filter (λ i, val i = v) incoming).
Proof.
  pose proof (λ x, proj1 (Diff_vals current incoming x)) as Hrm.
  pose proof (λ x, proj2 (Diff_vals current incoming x)) as Hadd.
  pose proof (λ i, Diff_add current incoming i) as Hel.
  assert ((Diff current incoming val).2 `sublist_of` current) by apply sublist_filter.
  assert ((Diff current incoming val).1 `sublist_of` incoming) by apply sublist_filter.
  assert (∀ i, i ∈ incoming → val i ∉ val <$> current ↔ i ∈ (Diff current incoming val).1) as Hin.
  { intros i Hi. rewrite Hel. tauto. }
  assert ((Diff current incoming val).1 = filter (λ i, val i ∉ val <$> current) incoming) as Hf.
  { apply list_filter_iff. intros i. by rewrite elem_of_list_to_set. }
  destruct (Diff current incoming val) as [add rm]; simpl in *. subst add.
  split_and!; [| | |done|done|].
  - apply set_eq. intros x. rewrite elem_of_union, elem_of_difference, !elem_of_list_to_set, Hrm, Hadd.
    destruct (decide (x ∈ val <$> current)), (decide (x ∈ val <$> incoming)); tauto.
  - intros x. rewrite !elem_of_list_to_set, Hrm. tauto.
  - intros x. rewrite !elem_of_list_to_set, Hadd. tauto.
  - intros v. rewrite list_filter_filter. case_decide as Hv.
    + apply filter_Forall_nil, Forall_forall. intros i _. naive_solver.
    + apply list_filter_iff. naive_solver.
Qed.
End diff.
#[global] Arguments Diff : simpl never.

Example Diff_example : Diff ["a"; "b"] ["b"; "c"; "c"] id = (["c"; "c"], ["a"]).
Proof. reflexivity. Qed.
