(* ===== verification/GroupStore.v ===== *)
(** The group service, [internal/storage/groups.go]. *)
From S2P Require Import Prelude GoStrings Errors Pagination V1 ListQuery World Frame Run Types.
From S2P Require Import Storage.

(** ** The statements *)

(** Another group of the owner has the name. *)
Definition name_taken (d : DB) (id owner name : string) : bool :=
  existsb (λ '(g, r), negb (bool_decide (g = id)) &&
    bool_decide (gr_owner_id r = owner) && bool_decide (gr_name r = name))
    (map_to_list (groups d)).

(** [INSERT INTO groups (id, owner_id, name, description) VALUES ...]. *)
Definition sql_insert_group (id : PrefixedID) (r : group_row) : stmt () := λ d,
  if bool_decide (is_Some (groups d !! id)) || name_taken d id (gr_owner_id r) (gr_name r)
  then inl unique_violation
  else inr (tt, with_groups <[id := r]> d).

(** [UPDATE groups SET (name, description) = ($1, $2) WHERE id = $3]. *)
Definition sql_update_group (id : PrefixedID) (name description : string) : stmt () := λ d,
  match groups d !! id with
  | None => inr (tt, d)
  | Some r =>
    if name_taken d id (gr_owner_id r) name then inl unique_violation
    else inr (tt, with_groups <[id := GroupRow (gr_owner_id r) name description]> d)
  end.

(** The members of a group, in the order of the primary key. *)
Definition members_of (d : DB) (g : PrefixedID) : list PrefixedID :=
  (filter (λ gs, gs.1 = g) (elements (group_members d))).*2.

(** [DELETE FROM groups WHERE id = $1]; members refer to their group. *)
Definition sql_delete_group (id : PrefixedID) : stmt () := λ d,
  match groups d !! id with
  | None => inr (tt, d)
  | Some _ =>
    if decide (members_of d id = []) then inr (tt, with_groups (delete id) d)
    else inl foreign_key_violation
  end.

(** [UPSERT INTO group_members (group_id, subject_id) VALUES ...]. *)
Definition sql_upsert_members (g : PrefixedID) (subjects : list PrefixedID) : stmt () := λ d,
  match groups d !! g with
  | None => inl foreign_key_violation
  | Some _ => inr (tt, with_members (λ m, m ∪ list_to_set (pair g <$> subjects)) d)
  end.

(** The same when a row may occur twice in the statement. *)
Definition sql_upsert `{Env} (g : PrefixedID) (subjects : list PrefixedID) : stmt () := λ d,
  match upsert_twice with
  | Some e => if decide (NoDup subjects) then sql_upsert_members g subjects d else inl e
  | None => sql_upsert_members g subjects d
  end.

(** [DELETE FROM group_members WHERE group_id = $1 AND subject_id = $2]: the
    number of rows. *)
Definition sql_delete_member (g s : PrefixedID) : stmt nat := λ d,
  if decide ((g, s) ∈ group_members d) then inr (1, with_members (.∖ {[(g, s)]}) d)
  else inr (0, d).

(** [... AND subject_id = ANY($2)]. *)
Definition sql_delete_members (g : PrefixedID) (ss : list PrefixedID) : stmt () := λ d,
  inr (tt, with_members (.∖ list_to_set (pair g <$> ss)) d).

(** ** The service *)

Definition groupCols : list string := ["id"; "owner_id"; "name"; "description"].
Definition groupMemberCols : list string := ["group_id"; "subject_id"].

Definition row_Group (g : PrefixedID) (r : group_row) : Group :=
  {| g_ID := g; g_OwnerID := gr_owner_id r; g_Name := gr_name r; g_Description := gr_description r |}.

(** A column of a selected row. *)
Definition group_col (g : Group) (c : string) : string :=
  if decide (c = "id") then g_ID g
  else if decide (c = "owner_id") then g_OwnerID g
  else if decide (c = "name") then g_Name g
  else g_Description g.

Section groups.
Context `{Env}.

(** [scanGroup]. *)
Definition scanGroup (row : M Group) : M Group := no_rows row ErrGroupNotFound.

Definition fetchGroupByID (ctx : Context) (id : PrefixedID) : M Group :=
  scanGroup (query_row ctx (λ d, row_Group id <$> groups d !! id)).

Definition GetGroupByID (ctx : Context) (id : PrefixedID) : M Group := fetchGroupByID ctx id.

Definition insertGroup (ctx : Context) (group : Group) : M () :=
  tx ← lift (getContextTx ctx);
  if decide (g_Name group = "") then fail ErrGroupNameEmpty
  else tx_write tx (sql_insert_group (g_ID group)
    (GroupRow (g_OwnerID group) (g_Name group) (g_Description group))).

Definition CreateGroup (ctx : Context) (group : Group) : M Group :=
  _ ← on_error (insertGroup ctx group) (λ err,
    if isPQDuplicateKeyError err then fail ErrGroupExists else fail err);
  fetchGroupByID ctx (g_ID group).

Definition ListGroupsByOwner (ctx : Context) (ownerID : PrefixedID) (pagination : Paginator)
    : M (list Group) :=
  paged_read groupCols group_col ctx pagination "" (λ d,
    filter (λ g, g_OwnerID g = ownerID) (uncurry row_Group <$> map_to_list (groups d))).

Definition UpdateGroup (ctx : Context) (id : PrefixedID) (updates : GroupUpdate) : M Group :=
  tx ← lift (getContextTx ctx);
  current ← fetchGroupByID ctx id;
  let name := match gu_Name updates with
              | Some n => if decide (n ≠ "") then n else g_Name current
              | None => g_Name current
              end in
  let description := default (g_Description current) (gu_Description updates) in
  let incoming := {| g_ID := g_ID current; g_OwnerID := g_OwnerID current;
                     g_Name := name; g_Description := description |} in
  _ ← on_error (tx_write tx (sql_update_group (g_ID incoming) (g_Name incoming) (g_Description incoming)))
    (λ err, if isPQDuplicateKeyError err then fail ErrGroupExists else fail err);
  mret incoming.

Definition DeleteGroup (ctx : Context) (id : PrefixedID) : M () :=
  tx ← lift (getContextTx ctx);
  _ ← fetchGroupByID ctx id;
  tx_write tx (sql_delete_group id).

Definition AddGroupMembers (ctx : Context) (groupID : PrefixedID) (subjects : list PrefixedID)
    : M () :=
  if decide (length subjects = 0) then mret tt
  else
    tx ← lift (getContextTx ctx);
    _ ← fetchGroupByID ctx groupID;
    tx_write tx (sql_upsert groupID subjects).

Definition ListGroupMembers (ctx : Context) (groupID : PrefixedID) (pagination : option Paginator)
    : M (list PrefixedID) :=
  _ ← fetchGroupByID ctx groupID;
  match pagination with
  | Some pagination =>
    paged_read groupMemberCols (λ s c, if decide (c = "subject_id") then s else groupID)
      ctx pagination "" (λ d, members_of d groupID)
  | None => rows_read "" (λ d, scan (members_of d groupID))
  end.

Definition RemoveGroupMember (ctx : Context) (groupID subject : PrefixedID) : M () :=
  tx ← lift (getContextTx ctx);
  _ ← fetchGroupByID ctx groupID;
  rowsAffected ← tx_write tx (sql_delete_member groupID subject);
  if decide (rowsAffected = 0) then fail ErrGroupMemberNotFound else mret tt.

Definition ReplaceGroupMembers (ctx : Context) (groupID : PrefixedID) (incoming : list PrefixedID)
    : M (list PrefixedID * list PrefixedID) :=
  tx ← lift (getContextTx ctx);
  current ← ListGroupMembers ctx groupID None;
  let '(add, rm) := Diff current incoming id in
  _ ← tx_write tx (sql_delete_members groupID rm);
  _ ← AddGroupMembers ctx groupID add;
  mret (add, rm).

(** The rows of [group_members LEFT JOIN groups]; the second component is null
    for a member of no group, which [rows.Scan] refuses to store in a string. *)
Definition groups_of (d : DB) (subject : PrefixedID) : list (PrefixedID * option group_row) :=
  (λ g, (g, groups d !! g)) <$>
    (filter (λ gs, gs.2 = subject) (elements (group_members d))).*1.

Definition joined_col (r : PrefixedID * option group_row) (c : string) : string :=
  if decide (c = "group_id") then r.1
  else match r.2 with Some row => group_col (row_Group r.1 row) c | None => "" end.

Definition scan_null : error := ExtError "converting NULL to string is unsupported".

Definition ListGroupsBySubject (ctx : Context) (subject : PrefixedID) (pagination : Paginator)
    : M (list Group) :=
  rows ← paged_read ("group_id" :: groupCols) joined_col ctx pagination "" (λ d, groups_of d subject);
  lift (result_map (λ r : PrefixedID * option group_row,
    match r.2 with Some row => Ok (row_Group r.1 row) | None => Err scan_null end) rows).

Definition GroupMembersCount (ctx : Context) (groupID : PrefixedID) : M nat :=
  db_read (λ d, length (members_of d groupID)).
End groups.

(** ** What the service promises

    Pure specifications, over the committed tables and the transaction's view. *)

(** A group other than [id] has this owner and this name. *)
Definition taken (d : DB) (id owner name : string) : Prop :=
  ∃ g r, g ≠ id ∧ groups d !! g = Some r ∧ gr_owner_id r = owner ∧ gr_name r = name.

Lemma name_taken_spec d id owner name :
  name_taken d id owner name = true ↔ taken d id owner name.
Proof.
  unfold name_taken. rewrite existsb_exists. split.
  - intros ([g r] & Hin & H). apply list_elem_of_In, elem_of_map_to_list in Hin.
    apply andb_true_iff in H as [H ?%bool_decide_eq_true].
    apply andb_true_iff in H as [?%negb_true_iff%bool_decide_eq_false ?%bool_decide_eq_true].
    by exists g, r.
  - intros (g & r & Hne & Hg & <- & <-). exists (g, r).
    split; [by apply list_elem_of_In, elem_of_map_to_list|].
    by rewrite bool_decide_false, !bool_decide_true by done.
Qed.

Lemma name_not_taken d id owner name :
  name_taken d id owner name = false → ∀ g r, g ≠ id → groups d !! g = Some r →
  gr_owner_id r = owner → gr_name r = name → False.
Proof. intros Ht%not_true_iff_false g r ????. apply Ht, name_taken_spec. by exists g, r. Qed.

#[global] Instance taken_dec d id owner name : Decision (taken d id owner name).
Proof.
  refine (cast_if (decide (name_taken d id owner name = true))); by rewrite <-name_taken_spec.
Defined.

(** A group with the identifier of [g] exists, or another one with its name. *)
Definition group_conflict (d : DB) (g : Group) : Prop :=
  is_Some (groups d !! g_ID g) ∨ taken d (g_ID g) (g_OwnerID g) (g_Name g).

#[global] Instance group_conflict_dec d g : Decision (group_conflict d g).
Proof. unfold group_conflict. apply _. Defined.

Definition insert_Group (g : Group) : DB → DB :=
  with_groups <[g_ID g := GroupRow (g_OwnerID g) (g_Name g) (g_Description g)]>.

(** A group after an update: an empty name is no name. *)
Definition apply_update (g : Group) (u : GroupUpdate) : Group :=
  {| g_ID := g_ID g; g_OwnerID := g_OwnerID g;
     g_Name := match gu_Name u with Some "" | None => g_Name g | Some n => n end;
     g_Description := default (g_Description g) (gu_Description u) |}.

Definition CreateGroup_spec (g : Group)
    : tx_spec Group := λ _ d,
  if decide (g_Name g = "") then (Err ErrGroupNameEmpty, TxOpen d)
  else if decide (group_conflict d g) then (Err ErrGroupExists, TxAborted)
  else (Ok g, TxOpen (insert_Group g d)).

Definition UpdateGroup_spec (id : PrefixedID) (u : GroupUpdate)
    : tx_spec Group := λ _ d,
  match groups d !! id with
  | None => (Err ErrGroupNotFound, TxOpen d)
  | Some r =>
    let g := apply_update (row_Group id r) u in
    if decide (taken d id (g_OwnerID g) (g_Name g)) then (Err ErrGroupExists, TxAborted)
    else (Ok g, TxOpen (insert_Group g d))
  end.

Definition DeleteGroup_spec (id : PrefixedID) : tx_spec () := λ _ d,
  if decide (groups d !! id = None) then (Err ErrGroupNotFound, TxOpen d)
  else if decide (members_of d id = []) then (Ok tt, TxOpen (with_groups (delete id) d))
  else (Err foreign_key_violation, TxAborted).

Definition AddGroupMembers_spec (g : PrefixedID) (ss : list PrefixedID) : tx_spec () := λ _ d,
  if decide (ss = []) then (Ok tt, TxOpen d)
  else if decide (groups d !! g = None) then (Err ErrGroupNotFound, TxOpen d)
  else (Ok tt, TxOpen (with_members (.∪ list_to_set (pair g <$> ss)) d)).

Definition RemoveGroupMember_spec (g s : PrefixedID) : tx_spec () := λ _ d,
  if decide (groups d !! g = None) then (Err ErrGroupNotFound, TxOpen d)
  else if decide ((g, s) ∈ group_members d)
  then (Ok tt, TxOpen (with_members (.∖ {[(g, s)]}) d))
  else (Err ErrGroupMemberNotFound, TxOpen d).

(** The difference is taken with the committed members, and applied to those
    of the transaction. *)
Definition ReplaceGroupMembers_spec `{Scan} (g : PrefixedID) (incoming : list PrefixedID)
    : tx_spec (list PrefixedID * list PrefixedID) := λ c d,
  if decide (groups d !! g = None) then (Err ErrGroupNotFound, TxOpen d)
  else
    let '(add, rm) := Diff (scan (members_of c g)) incoming id in
    (Ok (add, rm), TxOpen (with_members (λ m,
       m ∖ list_to_set (pair g <$> rm) ∪ list_to_set (pair g <$> add)) d)).

(** ** Lemmas *)

Lemma elem_of_members_of d g s : s ∈ members_of d g ↔ (g, s) ∈ group_members d.
Proof.
  unfold members_of. rewrite list_elem_of_fmap. split.
  - intros ([g' s'] & -> & [Hg Hin]%list_elem_of_filter). simpl in *. subst.
    by apply elem_of_elements.
  - intros Hin. exists (g, s). split; [done|]. apply list_elem_of_filter.
    split; [done|]. by apply elem_of_elements.
Qed.

Lemma members_of_NoDup d g : NoDup (members_of d g).
Proof.
  unfold members_of. apply NoDup_fmap_2_strong; [|apply NoDup_filter, NoDup_elements].
  intros [g1 s1] [g2 s2] [? _]%list_elem_of_filter [? _]%list_elem_of_filter ?. simpl in *. by subst.
Qed.

Lemma members_of_nil d g : members_of d g = [] ↔ ∀ s, (g, s) ∉ group_members d.
Proof.
  split.
  - intros H s Hs%elem_of_members_of. rewrite H in Hs. by apply elem_of_nil in Hs.
  - intros H. apply elem_of_nil_inv. intros s. rewrite elem_of_members_of. apply H.
Qed.

Lemma elem_of_pairs (g g' s : PrefixedID) (ss : list PrefixedID) :
  (g', s) ∈ (list_to_set (pair g <$> ss) : gset _) ↔ g' = g ∧ s ∈ ss.
Proof.
  rewrite elem_of_list_to_set, list_elem_of_fmap. split; [naive_solver|].
  intros [-> ?]. eauto.
Qed.

(** *** The statements keep the schema *)

Lemma sql_insert_group_wf id r : stmt_wf (sql_insert_group id r).
Proof.
  intros d [] d' Hd. unfold sql_insert_group. case_match eqn:Hc; [done|]. intros [= <-].
  apply orb_false_iff in Hc as [Hnew Htaken]. apply bool_decide_eq_false in Hnew.
  pose proof (name_not_taken _ _ _ _ Htaken) as Hnt.
  destruct Hd as [Hn Hm ? ? ?]. split; simpl; [|..|done|done|done].
  - intros g1 g2 r1 r2. rewrite !lookup_insert_Some.
    intros [[<- <-]|[? ?]] [[<- <-]|[? ?]] ? ?; [done|..|by eauto]; exfalso; eauto.
  - intros g s Hin. rewrite lookup_insert_is_Some'. right. by eapply Hm.
Qed.

Lemma sql_update_group_wf id n de : stmt_wf (sql_update_group id n de).
Proof.
  intros d [] d' Hd. unfold sql_update_group. destruct (groups d !! id) as [r|] eqn:Hid;
    [|by intros [= <-]].
  case_match eqn:Htaken; [done|]. intros [= <-].
  pose proof (name_not_taken _ _ _ _ Htaken) as Hnt.
  destruct Hd as [Hn Hm ? ? ?]. split; simpl; [|..|done|done|done].
  - intros g1 g2 r1 r2. rewrite !lookup_insert_Some.
    intros [[<- <-]|[? ?]] [[<- <-]|[? ?]] ? ?; simpl in *; [done|..|by eauto]; exfalso; eauto.
  - intros g s Hin. rewrite lookup_insert_is_Some'. right. by eapply Hm.
Qed.

Lemma sql_delete_group_wf id : stmt_wf (sql_delete_group id).
Proof.
  intros d [] d' Hd. unfold sql_delete_group. case_match; [|by intros [= <-]].
  case_decide as Hnil; [|done]. intros [= <-]. rewrite members_of_nil in Hnil.
  destruct Hd as [Hn Hm ? ? ?]. split; simpl; [|..|done|done|done].
  - intros g1 g2 r1 r2 [_ ?]%lookup_delete_Some [_ ?]%lookup_delete_Some. eauto.
  - intros g' s Hin. destruct (decide (id = g')) as [->|Hne]; [by destruct (Hnil s)|].
    rewrite lookup_delete_ne by done. by eapply Hm.
Qed.

Lemma sql_upsert_members_wf g ss : stmt_wf (sql_upsert_members g ss).
Proof.
  intros d [] d' Hd. unfold sql_upsert_members. case_match eqn:Hg; [|done]. intros [= <-].
  destruct Hd as [? Hm ? ? ?]. split; simpl; [done| |done..].
  intros g' s [Hin|[-> _]%elem_of_pairs]%elem_of_union; [by eapply Hm|by eexists].
Qed.

Lemma sql_upsert_wf `{Env} g ss : stmt_wf (sql_upsert g ss).
Proof.
  intros d a d' Hd. unfold sql_upsert.
  destruct upsert_twice; [case_decide; [|done]|]; by apply sql_upsert_members_wf.
Qed.

Lemma sql_delete_member_wf g s : stmt_wf (sql_delete_member g s).
Proof.
  intros d a d' Hd. unfold sql_delete_member. case_decide; intros [= <- <-]; [|done].
  destruct Hd as [? Hm ? ? ?]. split; simpl; [done| |done..].
  intros g' s' [Hin _]%elem_of_difference. by eapply Hm.
Qed.

Lemma sql_delete_members_wf g ss : stmt_wf (sql_delete_members g ss).
Proof.
  intros d a d' Hd. intros [= <- <-].
  destruct Hd as [? Hm ? ? ?]. split; simpl; [done| |done..].
  intros g' s' [Hin _]%elem_of_difference. by eapply Hm.
Qed.
#[export] Hint Resolve sql_insert_group_wf sql_update_group_wf sql_delete_group_wf
  sql_upsert_wf sql_delete_member_wf sql_delete_members_wf : wf.

(** *** Frames *)

Section frames.
Context {E : Env} (ctx : Context) (R : relation World) `{!StoreRel ctx R}.

Lemma fetchGroupByID_frame id : keeps R (fetchGroupByID ctx id).
Proof. unfold fetchGroupByID, scanGroup. frame. Qed.
Hint Resolve fetchGroupByID_frame : frame.

Lemma GetGroupByID_frame id : keeps R (GetGroupByID ctx id).
Proof. apply fetchGroupByID_frame. Qed.
Lemma insertGroup_frame g : keeps R (insertGroup ctx g).
Proof. unfold insertGroup. frame. Qed.
Hint Resolve insertGroup_frame : frame.
Lemma CreateGroup_frame g : keeps R (CreateGroup ctx g).
Proof. unfold CreateGroup. frame. Qed.
Lemma ListGroupsByOwner_frame o p : keeps R (ListGroupsByOwner ctx o p).
Proof. unfold ListGroupsByOwner. frame. Qed.
Lemma UpdateGroup_frame id u : keeps R (UpdateGroup ctx id u).
Proof. unfold UpdateGroup. frame. Qed.
Lemma DeleteGroup_frame id : keeps R (DeleteGroup ctx id).
Proof. unfold DeleteGroup. frame. Qed.
Lemma AddGroupMembers_frame g ss : keeps R (AddGroupMembers ctx g ss).
Proof. unfold AddGroupMembers. frame. Qed.
Hint Resolve AddGroupMembers_frame : frame.
Lemma ListGroupMembers_frame g p : keeps R (ListGroupMembers ctx g p).
Proof. unfold ListGroupMembers. frame. Qed.
Hint Resolve ListGroupMembers_frame : frame.
Lemma RemoveGroupMember_frame g s : keeps R (RemoveGroupMember ctx g s).
Proof. unfold RemoveGroupMember. frame. Qed.
Lemma ReplaceGroupMembers_frame g ss : keeps R (ReplaceGroupMembers ctx g ss).
Proof. unfold ReplaceGroupMembers. frame. Qed.
Lemma ListGroupsBySubject_frame s p : keeps R (ListGroupsBySubject ctx s p).
Proof. unfold ListGroupsBySubject. frame. Qed.
Lemma GroupMembersCount_frame g : keeps R (GroupMembersCount ctx g).
Proof. unfold GroupMembersCount. frame. Qed.
End frames.
#[export] Hint Resolve fetchGroupByID_frame GetGroupByID_frame CreateGroup_frame
  ListGroupsByOwner_frame UpdateGroup_frame DeleteGroup_frame AddGroupMembers_frame
  ListGroupMembers_frame RemoveGroupMember_frame ReplaceGroupMembers_frame
  ListGroupsBySubject_frame GroupMembersCount_frame : frame.

(** *** The statements, in terms of the specification *)

Lemma sql_insert_group_spec g d :
  sql_insert_group (g_ID g) (GroupRow (g_OwnerID g) (g_Name g) (g_Description g)) d =
  if decide (group_conflict d g) then inl unique_violation else inr (tt, insert_Group g d).
Proof.
  unfold sql_insert_group, group_conflict. simpl.
  destruct (bool_decide _) eqn:Hid; simpl.
  - apply bool_decide_eq_true in Hid. by rewrite decide_True by auto.
  - apply bool_decide_eq_false in Hid. destruct (name_taken _ _ _ _) eqn:Ht.
    + apply name_taken_spec in Ht. by rewrite decide_True by auto.
    + apply not_true_iff_false in Ht. rewrite name_taken_spec in Ht.
      by rewrite decide_False by tauto.
Qed.

Lemma sql_update_group_spec g d r :
  groups d !! g_ID g = Some r → gr_owner_id r = g_OwnerID g →
  sql_update_group (g_ID g) (g_Name g) (g_Description g) d =
  if decide (taken d (g_ID g) (g_OwnerID g) (g_Name g)) then inl unique_violation
  else inr (tt, insert_Group g d).
Proof.
  intros Hg Ho. unfold sql_update_group. rewrite Hg, Ho.
  destruct (name_taken _ _ _ _) eqn:Ht.
  - apply name_taken_spec in Ht. by rewrite decide_True.
  - apply not_true_iff_false in Ht. rewrite name_taken_spec in Ht. by rewrite decide_False.
Qed.

Lemma apply_update_eq g u :
  {| g_ID := g_ID g; g_OwnerID := g_OwnerID g;
     g_Name := match gu_Name u with
               | Some n => if decide (n ≠ "") then n else g_Name g
               | None => g_Name g
               end;
     g_Description := default (g_Description g) (gu_Description u) |} = apply_update g u.
Proof.
  unfold apply_update. f_equal. destruct (gu_Name u) as [[|c n]|]; [done| |done].
  by rewrite decide_True.
Qed.

Lemma sql_upsert_run `{Env} g ss d :
  is_Some (groups d !! g) → NoDup ss ∨ upsert_twice = None →
  sql_upsert g ss d = inr (tt, with_members (.∪ list_to_set (pair g <$> ss)) d).
Proof.
  intros [r Hr] Hss. unfold sql_upsert, sql_upsert_members. rewrite Hr.
  destruct upsert_twice as [e|]; [|done]. rewrite decide_True; [done|].
  by destruct Hss.
Qed.

Lemma members_replaced g add rm (d : DB) s :
  (g, s) ∈ group_members d ∖ list_to_set (pair g <$> rm) ∪ list_to_set (pair g <$> add) ↔
  ((g, s) ∈ group_members d ∧ s ∉ rm) ∨ s ∈ add.
Proof. rewrite elem_of_union, elem_of_difference, !elem_of_pairs. tauto. Qed.

(** ** Properties *)

Section service.
Context {E : Env} `{!Reliable E}.

Lemma wp_fetchGroupByID ctx id w t d Φ :
  in_tx ctx t w d →
  (∀ f, Φ (match groups d !! id with
           | Some r => Ok (row_Group id r)
           | None => Err ErrGroupNotFound
           end) (next_tick (rerun t f w))) →
  wp (fetchGroupByID ctx id) w Φ.
Proof.
  intros Hw HΦ. unfold fetchGroupByID, scanGroup, no_rows, query_row. wp.
  destruct (groups d !! id); apply HΦ.
Qed.

Lemma lookup_row_Group g r d :
  groups (insert_Group g d) !! g_ID g = Some r → row_Group (g_ID g) r = g.
Proof. simpl. rewrite lookup_insert_eq. intros [= <-]. by destruct g. Qed.

(** [CreateGroup], in an open transaction: it refuses an empty name,
    refuses a group whose identifier or whose name among the owner's groups is
    taken (and the transaction is then aborted), and otherwise inserts the
    group and returns it. *)
Lemma CreateGroup_implements ctx g : implements ctx (CreateGroup ctx g) (CreateGroup_spec g).
Proof.
  apply implements_intro; [frame..|]. intros w t d Hw.
  unfold CreateGroup, CreateGroup_spec, insertGroup. wp. case_decide as Hn; wp.
  - wp_done.
  - rewrite sql_insert_group_spec. case_decide; wp.
    + wp_done.
    + eapply wp_fetchGroupByID; [wp_in_tx|]. intros f. simpl. rewrite lookup_insert_eq.
      destruct g; wp_done.
Qed.

Lemma UpdateGroup_run ctx id u :
  implements ctx (UpdateGroup ctx id u) (UpdateGroup_spec id u).
Proof.
  apply implements_intro; [frame..|]. intros w t d Hw.
  unfold UpdateGroup, UpdateGroup_spec. wp. eapply wp_fetchGroupByID; [wp_in_tx|]. intros f.
  destruct (groups d !! id) as [r|] eqn:Hid; cbn beta iota zeta; [|wp_done].
  rewrite apply_update_eq.
  assert (g_ID (apply_update (row_Group id r) u) = id ∧
          g_OwnerID (apply_update (row_Group id r) u) = gr_owner_id r) as [Hi Ho] by done.
  revert Hi Ho. generalize (apply_update (row_Group id r) u). intros g <- Ho.
  wp_step. wp_step. wp_step.
  rewrite (sql_update_group_spec g d r Hid) by done. case_decide; wp; wp_done.
Qed.

(** C31: [UpdateGroup]: an unknown group is not found; a name another group of
    the owner has is refused (and the transaction aborted); otherwise exactly
    the name and description that are given, and not an empty name, change. *)
Theorem UpdateGroup_implements ctx id u :
  implements ctx (UpdateGroup ctx id u) (UpdateGroup_spec id u).
Proof. apply UpdateGroup_run. Qed.

(** [DeleteGroup]: an unknown group is not found; a group with members is
    refused by the foreign key of the members; any other is deleted. *)
Lemma DeleteGroup_implements ctx id :
  implements ctx (DeleteGroup ctx id) (DeleteGroup_spec id).
Proof.
  apply implements_intro; [frame..|]. intros w t d Hw.
  unfold DeleteGroup, DeleteGroup_spec. wp. eapply wp_fetchGroupByID; [wp_in_tx|]. intros f.
  destruct (groups d !! id) as [r|] eqn:Hid; simpl; [|wp_done].
  wp. unfold sql_delete_group. rewrite Hid. case_decide; wp_done.
Qed.

Lemma AddGroupMembers_implements ctx g ss :
  NoDup ss ∨ upsert_twice = None →
  implements ctx (AddGroupMembers ctx g ss) (AddGroupMembers_spec g ss).
Proof.
  intros Hss. apply implements_intro; [frame..|]. intros w t d Hw.
  unfold AddGroupMembers, AddGroupMembers_spec. destruct ss as [|s ss]; simpl; [wp_done|].
  wp. eapply wp_fetchGroupByID; [wp_in_tx|]. intros f.
  destruct (groups d !! g) as [r|] eqn:Hg; simpl; [|wp_done].
  wp. rewrite sql_upsert_run by eauto. wp_done.
Qed.

Lemma RemoveGroupMember_run ctx g s :
  implements ctx (RemoveGroupMember ctx g s) (RemoveGroupMember_spec g s).
Proof.
  apply implements_intro; [frame..|]. intros w t d Hw.
  unfold RemoveGroupMember, RemoveGroupMember_spec. wp. eapply wp_fetchGroupByID; [wp_in_tx|]. intros f.
  destruct (groups d !! g) as [r|] eqn:Hg; simpl; [|wp_done].
  wp. unfold sql_delete_member. case_decide; wp; wp_done.
Qed.

(** [RemoveGroupMember]: an unknown group, and a subject that is not a
    member, are not found, and nothing is written in the transaction's view;
    otherwise exactly this membership is removed. *)
Lemma RemoveGroupMember_implements ctx g s :
  implements ctx (RemoveGroupMember ctx g s) (RemoveGroupMember_spec g s).
Proof. apply RemoveGroupMember_run. Qed.

Lemma ReplaceGroupMembers_implements ctx g incoming :
  NoDup incoming ∨ upsert_twice = None →
  implements ctx (ReplaceGroupMembers ctx g incoming) (ReplaceGroupMembers_spec g incoming).
Proof.
  intros Hin. apply implements_intro; [frame..|]. intros w t d Hw.
  unfold ReplaceGroupMembers, ReplaceGroupMembers_spec, ListGroupMembers. wp.
  eapply wp_fetchGroupByID; [wp_in_tx|]. intros f.
  destruct (groups d !! g) as [r|] eqn:Hg; cbn beta iota; [|wp_done].
  wp. destruct (Diff (scan (members_of (committed w) g)) incoming id) as [add rm] eqn:Hdiff.
  change (if decide ("" = "") then _ else _) with (committed w).
  rewrite decide_False by done. rewrite Hdiff. wp.
  assert (NoDup add ∨ upsert_twice = None) as Hadd.
  { destruct Hin as [Hin|]; [left|by right].
    pose proof (Diff_add_NoDup id (scan (members_of (committed w) g)) incoming Hin) as H.
    by rewrite Hdiff in H. }
  apply wp_bind. eapply wp_implements; [by apply AddGroupMembers_implements|wp_in_tx|].
  intros w' _ _ Ht. unfold AddGroupMembers_spec in *. destruct (decide (add = [])) as [->|].
  - wp. split; [done|]. etrans; [exact Ht|]. do 2 f_equal. unfold with_members. f_equal. simpl.
    by rewrite (right_id_L ∅ (∪)).
  - rewrite decide_False in * by (simpl; congruence). wp. by split.
Qed.

(** C14: [ReplaceGroupMembers] leaves the group with exactly the members it is
    given, and no other group's members changed, when the transaction sees the
    committed members (they are read outside the transaction); it returns the
    subjects it added, none of which was a member, and those it removed. *)
Theorem ReplaceGroupMembers_exact ctx g incoming w t d :
  NoDup incoming ∨ upsert_twice = None →
  in_tx ctx t w d → is_Some (groups d !! g) →
  (∀ s, s ∈ members_of d g ↔ s ∈ members_of (committed w) g) →
  ∃ add rm d' w',
    ReplaceGroupMembers ctx g incoming w = (Ok (add, rm), w') ∧
    txs w' !! t = Some (TxOpen d') ∧ committed w' = committed w ∧
    (∀ s, s ∈ members_of d' g ↔ s ∈ incoming) ∧
    (∀ g' s, g' ≠ g → s ∈ members_of d' g' ↔ s ∈ members_of d g') ∧
    groups d' = groups d ∧
    (∀ s, s ∈ add ↔ s ∈ incoming ∧ s ∉ members_of d g) ∧
    (∀ s, s ∈ rm ↔ s ∈ members_of d g ∧ s ∉ incoming).
Proof.
  intros Hin Hw [r Hr] Hagree.
  destruct (ReplaceGroupMembers_implements ctx g incoming Hin w t d Hw) as (Hres & Ht & [Hc _] & _).
  unfold ReplaceGroupMembers_spec in *. rewrite decide_False in Hres, Ht by congruence.
  destruct (Diff _ _ _) as [add rm] eqn:Hdiff.
  assert (∀ s, s ∈ add ↔ s ∈ incoming ∧ s ∉ members_of d g) as Hadd.
  { intros s. change add with (add, rm).1. rewrite <-Hdiff, Diff_add, list_fmap_id.
    rewrite (scan_perm (members_of _ g)), Hagree. done. }
  assert (∀ s, s ∈ rm ↔ s ∈ members_of d g ∧ s ∉ incoming) as Hrm.
  { intros s. change rm with (add, rm).2. rewrite <-Hdiff, Diff_rm, list_fmap_id.
    rewrite (scan_perm (members_of _ g)), Hagree. done. }
  destruct (ReplaceGroupMembers ctx g incoming w) as [res w']. simpl in *. subst res.
  eexists add, rm, _, w'. split_and!; [done..| | |done|done|done].
  - intros s. rewrite elem_of_members_of. simpl. rewrite members_replaced, Hadd, Hrm.
    rewrite <-elem_of_members_of. destruct (decide (s ∈ incoming)), (decide (s ∈ members_of d g)); tauto.
  - intros g' s Hne. rewrite !elem_of_members_of. simpl.
    rewrite elem_of_union, elem_of_difference, !elem_of_pairs. tauto.
Qed.
End service.

(** *** At a concrete input *)

Definition sample_group : Group :=
  {| g_ID := "idntgrp-3"; g_OwnerID := "tnntten-1"; g_Name := "auditors"; g_Description := "" |}.

Lemma sample_in_tx : in_tx ctx_0 0 (world_in_tx sample_DB) sample_DB.
Proof. by split. Qed.

Lemma CreateGroup_implements_witness :
  Reliable quiet_env ∧
  (CreateGroup (H:=quiet_env) ctx_0 sample_group (world_in_tx sample_DB)).1 = Ok sample_group.
Proof.
  split; [apply quiet_reliable|].
  refine (eq_trans (proj1 (CreateGroup_implements (E:=quiet_env) ctx_0 sample_group _ 0 _ sample_in_tx)) _). vm_compute. reflexivity.
Defined.

Lemma UpdateGroup_implements_witness :
  Reliable quiet_env ∧
  (UpdateGroup (H:=quiet_env) ctx_0 "idntgrp-1" {| gu_Name := Some "users"; gu_Description := None |}
     (world_in_tx sample_DB)).1 = Err ErrGroupExists.
Proof.
  split; [apply quiet_reliable|].
  refine (eq_trans (proj1 (UpdateGroup_implements (E:=quiet_env) ctx_0 "idntgrp-1" _ _ 0 _ sample_in_tx)) _). vm_compute. reflexivity.
Defined.

Lemma DeleteGroup_implements_witness :
  Reliable quiet_env ∧
  (DeleteGroup (H:=quiet_env) ctx_0 "idntgrp-1" (world_in_tx sample_DB)).1 = Err foreign_key_violation.
Proof.
  split; [apply quiet_reliable|].
  refine (eq_trans (proj1 (DeleteGroup_implements (E:=quiet_env) ctx_0 "idntgrp-1" _ 0 _ sample_in_tx)) _). vm_compute. reflexivity.
Defined.

Lemma RemoveGroupMember_implements_witness :
  Reliable quiet_env ∧
  (RemoveGroupMember (H:=quiet_env) ctx_0 "idntgrp-1" "idntusr-3" (world_in_tx sample_DB)).1 =
  Err ErrGroupMemberNotFound.
Proof.
  split; [apply quiet_reliable|].
  refine (eq_trans (proj1 (RemoveGroupMember_implements (E:=quiet_env) ctx_0 "idntgrp-1" "idntusr-3" _ 0 _ sample_in_tx)) _). vm_compute. reflexivity.
Defined.

Lemma ReplaceGroupMembers_exact_witness :
  ∃ add rm d' w',
    ReplaceGroupMembers (H:=quiet_env) ctx_0 "idntgrp-1" ["idntusr-2"; "idntusr-3"]
      (world_in_tx sample_DB) = (Ok (add, rm), w') ∧
    txs w' !! 0 = Some (TxOpen d') ∧
    ∀ s, s ∈ members_of d' "idntgrp-1" ↔ s ∈ ["idntusr-2"; "idntusr-3"].
Proof.
  destruct (ReplaceGroupMembers_exact (E:=quiet_env) ctx_0 "idntgrp-1" ["idntusr-2"; "idntusr-3"]
    (world_in_tx sample_DB) 0 sample_DB (or_intror eq_refl) sample_in_tx)
    as (add & rm & d' & w' & H1 & H2 & _ & H3 & _); [by eexists|reflexivity|].
  exists add, rm, d', w'. exact (conj H1 (conj H2 H3)).
Defined.
