(* ===== verification/UserStore.v ===== *)
(** The user-info service, [internal/storage/userinfo.go]. *)
From S2P Require Import Prelude GoStrings Errors Base64 Sha256 Pagination V1 ListQuery World.
From S2P Require Import Frame Run Cel Types Storage.

(** ** The statements *)

(** [user_info JOIN issuers ON iss_id = issuers.id]. *)
Definition joined_users (d : DB) : list (PrefixedID * user_row * issuer_row) :=
  omap (λ '(id, r), (λ i, (id, r, i)) <$> issuers d !! ur_iss_id r) (map_to_list (user_info d)).

(** The user of an issuer with a subject, if there is one. *)
Definition find_user (d : DB) (iss sub : string) : option PrefixedID :=
  fst <$> List.find (λ '(_, r), bool_decide (ur_iss_id r = iss) && bool_decide (ur_sub r = sub))
    (map_to_list (user_info d)).

(** The issuer with a URI, if there is one. *)
Definition find_issuer (d : DB) (uri : string) : option PrefixedID :=
  fst <$> List.find (λ '(_, r), bool_decide (ir_uri r = uri)) (map_to_list (issuers d)).

(** [INSERT INTO user_info ... ON CONFLICT (sub, iss_id) DO UPDATE SET sub =
    excluded.sub, iss_id = excluded.iss_id RETURNING id]. The row in conflict
    is given the values it has; any other conflict is an error. *)
Definition sql_store_user (newID : PrefixedID) (r : user_row) : stmt PrefixedID := λ d,
  match find_user d (ur_iss_id r) (ur_sub r) with
  | Some id => inr (id, d)
  | None =>
    if decide (is_Some (user_info d !! newID)) then inl unique_violation
    else if decide (is_Some (issuers d !! ur_iss_id r)) then
      inr (newID, with_users <[newID := r]> d)
    else inl foreign_key_violation
  end.

(** ** The service *)

Definition jwtClaimSubject : string := "sub".
Definition jwtClaimName : string := "name".
Definition jwtClaimEmail : string := "email".
Definition jwtClaimIssuer : string := "iss".
Definition userInfoCols : list string := ["id"; "name"; "email"; "sub"; "iss_id"].

Definition row_UserInfo (x : PrefixedID * user_row * issuer_row) : UserInfo :=
  let '(id, r, i) := x in
  {| u_ID := id; u_Name := ur_name r; u_Email := ur_email r;
     u_Issuer := ir_uri i; u_Subject := ur_sub r |}.

Definition user_col (x : PrefixedID * user_row * issuer_row) (c : string) : string :=
  let '(id, r, _) := x in
  if decide (c = "id") then id
  else if decide (c = "name") then ur_name r
  else if decide (c = "email") then ur_email r
  else if decide (c = "sub") then ur_sub r
  else ur_iss_id r.

(** [parseClaim]. A missing claim is an empty string. *)
Definition parseClaim (claims : gmap string any) (key : string) (required : bool) : result string :=
  match default (AnyString "") (claims !! key) with
  | AnyString val =>
    if required && bool_decide (val = "") then Err errMissingClaim else Ok val
  | _ => Err errInvalidClaim
  end.

Definition ParseUserInfoFromClaims (claims : gmap string any) : result UserInfo :=
  iss ← parseClaim claims jwtClaimIssuer true;
  sub ← parseClaim claims jwtClaimSubject true;
  name ← parseClaim claims jwtClaimName false;
  email ← parseClaim claims jwtClaimEmail false;
  Ok {| u_ID := ""; u_Name := name; u_Email := email; u_Issuer := iss; u_Subject := sub |}.

(** The text that [generateSubjectID] builds. *)
Definition subject_text (prefix iss sub : string) : string :=
  prefix +:+ "-" +:+ RawURLEncoding_EncodeToString (Sum256 (to_bytes (iss +:+ sub))).

Section users.
Context `{Env}.

Definition generateSubjectID (prefix iss sub : string) : result PrefixedID :=
  gidx_Parse (subject_text prefix iss sub).

(** The identifier is not among the selected columns. *)
Definition LookupUserInfoByClaims (ctx : Context) (iss sub : string) : M UserInfo :=
  no_rows (query_row ctx (λ d,
      (λ x, let ui := row_UserInfo x in
            {| u_ID := ""; u_Name := u_Name ui; u_Email := u_Email ui;
               u_Issuer := u_Issuer ui; u_Subject := u_Subject ui |}) <$>
      head (scan (filter (λ x, ir_uri x.2 = iss ∧ ur_sub x.1.2 = sub) (joined_users d)))))
    ErrUserInfoNotFound.

Definition LookupUserInfoByID (ctx : Context) (id : PrefixedID) : M UserInfo :=
  no_rows (query_row ctx (λ d,
      row_UserInfo <$> head (scan (filter (λ x, x.1.1 = id) (joined_users d)))))
    ErrUserInfoNotFound.

Definition LookupUserOwnerID (ctx : Context) (id : PrefixedID) : M PrefixedID :=
  no_rows (query_row ctx (λ d,
      (λ x, ir_owner_id x.2) <$> head (scan (filter (λ x, x.1.1 = id) (joined_users d)))))
    ErrUserInfoNotFound.

Definition LookupUserInfosByIssuerID (ctx : Context) (id : PrefixedID) (pagination : Paginator)
    : M (list UserInfo) :=
  rows ← paged_read userInfoCols user_col ctx pagination "user_info" (λ d,
    filter (λ x, ur_iss_id x.1.2 = id) (joined_users d));
  mret (row_UserInfo <$> rows).

Definition StoreUserInfo (ctx : Context) (userInfo : UserInfo) : M UserInfo :=
  if decide (u_Issuer userInfo = "") then
    fail (wrapf ErrInvalidUserInfo "issuer is empty")
  else if decide (u_Subject userInfo = "") then
    fail (wrapf ErrInvalidUserInfo "subject is empty")
  else
    tx ← lift (getContextTx ctx);
    issuerID ← no_rows_eq (tx_query_row tx (λ d, find_issuer d (u_Issuer userInfo)))
      ErrorIssuerNotFound;
    newID ←
      (if decide (u_ID userInfo = "") then
         lift (generateSubjectID IdentityUserIDPrefix (u_Issuer userInfo) (u_Subject userInfo))
       else mret (u_ID userInfo));
    userID ← tx_write tx (sql_store_user newID
      (UserRow (u_Name userInfo) (u_Email userInfo) (u_Subject userInfo) issuerID));
    mret {| u_ID := userID; u_Name := u_Name userInfo; u_Email := u_Email userInfo;
            u_Issuer := u_Issuer userInfo; u_Subject := u_Subject userInfo |}.
End users.

(** ** What the service promises *)

Definition with_ID (u : UserInfo) (id : PrefixedID) : UserInfo :=
  {| u_ID := id; u_Name := u_Name u; u_Email := u_Email u;
     u_Issuer := u_Issuer u; u_Subject := u_Subject u |}.

(** The identifier a user that is not stored yet gets. *)
Definition fresh_user_ID `{Env} (u : UserInfo) : result PrefixedID :=
  if decide (u_ID u = "") then generateSubjectID IdentityUserIDPrefix (u_Issuer u) (u_Subject u)
  else Ok (u_ID u).

(** The user [u] of the issuer [iss], stored with a fresh identifier. *)
Definition store_user_spec (d : DB) (u : UserInfo) (iss newID : PrefixedID)
    : result UserInfo * tx_state :=
  match find_user d iss (u_Subject u) with
  | Some id => (Ok (with_ID u id), TxOpen d)
  | None =>
    if decide (is_Some (user_info d !! newID)) then (Err unique_violation, TxAborted)
    else (Ok (with_ID u newID), TxOpen (with_users
            <[newID := UserRow (u_Name u) (u_Email u) (u_Subject u) iss]> d))
  end.

(** Users are known by issuer and subject: one that is stored keeps its
    identifier, name and email; a new one gets a fresh identifier, which no
    other user may have. *)
Definition StoreUserInfo_spec `{Env} (u : UserInfo) : tx_spec UserInfo := λ _ d,
  if decide (u_Issuer u = "") then (Err (wrapf ErrInvalidUserInfo "issuer is empty"), TxOpen d)
  else if decide (u_Subject u = "") then
    (Err (wrapf ErrInvalidUserInfo "subject is empty"), TxOpen d)
  else match find_issuer d (u_Issuer u) with
  | None => (Err ErrorIssuerNotFound, TxOpen d)
  | Some iss =>
    match fresh_user_ID u with
    | Err e => (Err e, TxOpen d)
    | Panic s => (Panic s, TxOpen d)
    | Ok newID => store_user_spec d u iss newID
    end
  end.

(** ** Lemmas *)

Lemma find_map_Some {A} (P : PrefixedID * A → bool) (m : gmap PrefixedID A) id :
  fst <$> List.find P (map_to_list m) = Some id → ∃ r, m !! id = Some r ∧ P (id, r) = true.
Proof.
  destruct (List.find _ _) as [[id' r]|] eqn:Hf; [|done]. simpl. intros [= ->].
  apply List.find_some in Hf as [Hin%list_elem_of_In%elem_of_map_to_list HP]. eauto.
Qed.

Lemma find_map_None {A} (P : PrefixedID * A → bool) (m : gmap PrefixedID A) :
  fst <$> List.find P (map_to_list m) = None → ∀ id r, m !! id = Some r → P (id, r) = false.
Proof.
  destruct (List.find _ _) as [|] eqn:Hf; [done|]. intros _ id r Hr.
  eapply List.find_none; [done|]. by apply list_elem_of_In, elem_of_map_to_list.
Qed.

Lemma find_user_Some d iss sub id :
  find_user d iss sub = Some id →
  ∃ r, user_info d !! id = Some r ∧ ur_iss_id r = iss ∧ ur_sub r = sub.
Proof.
  intros (r & Hr & [? ?]%andb_true_iff)%find_map_Some. exists r.
  split_and!; [done|by eapply bool_decide_eq_true..].
Qed.

Lemma find_user_None d iss sub id r :
  find_user d iss sub = None → user_info d !! id = Some r →
  ur_iss_id r = iss → ur_sub r = sub → False.
Proof.
  intros Hf Hr <- <-. pose proof (find_map_None _ _ Hf _ _ Hr) as H. simpl in H.
  by rewrite !bool_decide_true in H.
Qed.

Lemma find_issuer_Some d uri id :
  find_issuer d uri = Some id → ∃ r, issuers d !! id = Some r ∧ ir_uri r = uri.
Proof.
  intros (r & Hr & ?)%find_map_Some. exists r. split; [done|by eapply bool_decide_eq_true].
Qed.

(** In tables that satisfy the schema the searches are the lookups by key. *)
Lemma find_user_wf d id r :
  db_wf d → user_info d !! id = Some r → find_user d (ur_iss_id r) (ur_sub r) = Some id.
Proof.
  intros Hd Hr. destruct (find_user _ _ _) as [id'|] eqn:Hf.
  - apply find_user_Some in Hf as (r' & Hr' & ? & ?). f_equal.
    by eapply (wf_users d Hd id' id r' r).
  - exfalso. by eapply find_user_None.
Qed.

Lemma joined_users_lookup d id r i : (id, r, i) ∈ joined_users d ↔
  user_info d !! id = Some r ∧ issuers d !! ur_iss_id r = Some i.
Proof.
  unfold joined_users. rewrite list_elem_of_omap. split.
  - intros ([id' r'] & Hin%elem_of_map_to_list & Hx).
    destruct (issuers d !! ur_iss_id r') as [i'|] eqn:Hi; [|done]. by injection Hx as <- <- <-.
  - intros [Hr Hi]. exists (id, r). rewrite elem_of_map_to_list. by rewrite Hi.
Qed.

Lemma find_issuer_wf d id r :
  db_wf d → issuers d !! id = Some r → find_issuer d (ir_uri r) = Some id.
Proof.
  intros Hd Hr. destruct (find_issuer d (ir_uri r)) as [id'|] eqn:Hf.
  - apply find_issuer_Some in Hf as (r' & Hr' & ?). f_equal. by eapply (wf_issuer_uris d Hd id' id).
  - pose proof (find_map_None _ _ Hf _ _ Hr) as Hno. simpl in Hno. by rewrite bool_decide_true in Hno.
Qed.

Lemma sql_store_user_wf id r : stmt_wf (sql_store_user id r).
Proof.
  intros d a d' Hd. unfold sql_store_user.
  destruct (find_user d _ _) as [id'|] eqn:Hf; [by intros [= _ <-]|].
  case_decide as Hid; [done|]. case_decide as Hiss; [|done]. intros [= _ <-].
  destruct Hd as [? ? ? Hu Hui]. split; simpl; [done..| |].
  - intros u1 u2 r1 r2. rewrite !lookup_insert_Some.
    intros [[<- <-]|[? ?]] [[<- <-]|[? ?]] ? ?; [done|..|by eauto]; exfalso;
      eapply find_user_None; eauto.
  - intros u r'. rewrite lookup_insert_Some. intros [[<- <-]|[? ?]]; [done|by eauto].
Qed.
#[export] Hint Resolve sql_store_user_wf : wf.

Section frames.
Context {E : Env} (ctx : Context) (R : relation World) `{!StoreRel ctx R}.

Lemma LookupUserInfoByClaims_frame iss sub : keeps R (LookupUserInfoByClaims ctx iss sub).
Proof. unfold LookupUserInfoByClaims. frame. Qed.
Lemma LookupUserInfoByID_frame id : keeps R (LookupUserInfoByID ctx id).
Proof. unfold LookupUserInfoByID. frame. Qed.
Lemma LookupUserOwnerID_frame id : keeps R (LookupUserOwnerID ctx id).
Proof. unfold LookupUserOwnerID. frame. Qed.
Lemma LookupUserInfosByIssuerID_frame id p : keeps R (LookupUserInfosByIssuerID ctx id p).
Proof. unfold LookupUserInfosByIssuerID. frame. Qed.
Lemma StoreUserInfo_frame u : keeps R (StoreUserInfo ctx u).
Proof. unfold StoreUserInfo. frame. Qed.
End frames.
#[export] Hint Resolve LookupUserInfoByClaims_frame LookupUserInfoByID_frame
  LookupUserOwnerID_frame LookupUserInfosByIssuerID_frame StoreUserInfo_frame : frame.

(** ** Properties *)

(** The identifier [generateSubjectID] builds is the prefix, a dash and 43
    characters, whatever the issuer and the subject. *)
Lemma subject_text_length prefix iss sub :
  String.length (subject_text prefix iss sub) = String.length prefix + 44.
Proof.
  unfold subject_text, RawURLEncoding_EncodeToString.
  rewrite !string_length_app, <-(length_to_bytes (of_bytes _)), to_of_bytes, encode_bytes_raw_length, Sum256_length.
  simpl. lia.
Qed.

(** The identifier that docs/token-format.md gives for its example has 20
    characters after the prefix and the dash. *)
Example documented_subject_differs :
  subject_text "idntusr" "https://example.com" "foo@example.com" ≠ "idntusr-G9KRgCBGlE6lYkoLKCdK".
Proof. intros H. vm_compute in H. discriminate. Qed.

(** [ParseUserInfoFromClaims] succeeds exactly when [iss] and [sub] are
    non-empty strings, and [name] and [email] are strings or absent; the user
    has these values and no identifier. *)
Lemma ParseUserInfoFromClaims_spec claims u :
  ParseUserInfoFromClaims claims = Ok u ↔
  ∃ iss sub name email,
    claims !! "iss" = Some (AnyString iss) ∧ iss ≠ "" ∧
    claims !! "sub" = Some (AnyString sub) ∧ sub ≠ "" ∧
    default (AnyString "") (claims !! "name") = AnyString name ∧
    default (AnyString "") (claims !! "email") = AnyString email ∧
    u = {| u_ID := ""; u_Name := name; u_Email := email; u_Issuer := iss; u_Subject := sub |}.
Proof.
  assert (∀ key v, parseClaim claims key true = Ok v ↔
            claims !! key = Some (AnyString v) ∧ v ≠ "") as Hreq.
  { intros key v. unfold parseClaim. destruct (claims !! key) as [[]|]; simpl;
      try (split; [done|naive_solver]).
    case_bool_decide; split; naive_solver. }
  assert (∀ key v, parseClaim claims key false = Ok v ↔
            default (AnyString "") (claims !! key) = AnyString v) as Hopt.
  { intros key v. unfold parseClaim. destruct (claims !! key) as [[]|]; simpl; naive_solver. }
  unfold ParseUserInfoFromClaims. rewrite result_bind_Ok. setoid_rewrite result_bind_Ok.
  setoid_rewrite result_bind_Ok. setoid_rewrite result_bind_Ok. setoid_rewrite Hreq.
  setoid_rewrite Hopt. split.
  - intros (iss & [? ?] & sub & [? ?] & name & ? & email & ? & [= <-]).
    by exists iss, sub, name, email.
  - intros (iss & sub & name & email & ? & ? & ? & ? & ? & ? & ->). eauto 15.
Qed.

Section service.
Context {E : Env} `{!Reliable E}.

Lemma StoreUserInfo_run ctx u : implements ctx (StoreUserInfo ctx u) (StoreUserInfo_spec u).
Proof.
  apply implements_intro; [frame..|]. intros w t d Hw.
  unfold StoreUserInfo, StoreUserInfo_spec, no_rows_eq, tx_query_row.
  case_decide; wp; [wp_done|]. case_decide; wp; [wp_done|]. wp.
  destruct (find_issuer d (u_Issuer u)) as [iss|] eqn:Hiss; simpl; [|wp_done].
  unfold fresh_user_ID. apply find_issuer_Some in Hiss as (ri & Hri & _).
  assert (∀ newID f, wp (userID ← tx_write t (sql_store_user newID (UserRow (u_Name u) (u_Email u) (u_Subject u) iss));
            mret (with_ID u userID)) (next_tick (rerun t f w)) (λ r w',
              r = (store_user_spec d u iss newID).1 ∧
              txs w' !! t = Some (store_user_spec d u iss newID).2)) as Hstore.
  { intros newID f. wp. unfold sql_store_user, store_user_spec; simpl.
    destruct (find_user d iss (u_Subject u)); [wp; wp_done|].
    case_decide; [wp; wp_done|]. rewrite decide_True by eauto. wp. wp_done. }
  wp. case_decide; wp_step; cbn beta iota.
  - destruct (generateSubjectID _ _ _) as [newID|e|s]; simpl; [apply Hstore|wp_done..].
  - apply Hstore.
Qed.

(** The user that is stored is found by its issuer and subject. *)
Lemma find_user_stored d u iss newID :
  find_user d iss (u_Subject u) = None →
  find_user (with_users <[newID := UserRow (u_Name u) (u_Email u) (u_Subject u) iss]> d)
    iss (u_Subject u) = Some newID.
Proof.
  intros Hnone. destruct (find_user (with_users _ _) _ _) as [id|] eqn:Hf.
  - apply find_user_Some in Hf as (r & Hr & Hi & Hs). simpl in Hr.
    apply lookup_insert_Some in Hr as [[-> _]|[_ Hr]]; [done|].
    exfalso. by eapply find_user_None.
  - exfalso. eapply (find_user_None _ _ _ newID); [done|simpl; by rewrite lookup_insert_eq|done..].
Qed.

Lemma store_user_stable d u iss newID d' id :
  store_user_spec d u iss newID = (Ok (with_ID u id), TxOpen d') →
  find_user d' iss (u_Subject u) = Some id.
Proof.
  unfold store_user_spec. destruct (find_user d iss (u_Subject u)) as [id'|] eqn:Hf.
  - by intros [= -> ->].
  - case_decide; [done|]. intros [= -> <-]. by apply find_user_stored.
Qed.

(** Identifiers are stable. Once a user is stored, storing the same issuer
    and subject again, whatever the name, the email or the identifier given,
    returns the identifier of the first time and changes no table. *)
Lemma StoreUserInfo_stable ctx t w d u u1 w1 v newID :
  in_tx ctx t w d →
  StoreUserInfo ctx u w = (Ok u1, w1) →
  u_Issuer v = u_Issuer u → u_Subject v = u_Subject u → fresh_user_ID v = Ok newID →
  ∃ w2 d', StoreUserInfo ctx v w1 = (Ok (with_ID v (u_ID u1)), w2) ∧
    txs w1 !! t = Some (TxOpen d') ∧ txs w2 !! t = Some (TxOpen d').
Proof.
  intros Hw Hu Hiss Hsub Hfresh.
  destruct (StoreUserInfo_run ctx u w t d Hw) as (Hres & Ht & Hc & _). rewrite Hu in Hres, Ht, Hc.
  simpl in *. unfold StoreUserInfo_spec in Hres, Ht.
  destruct (decide (u_Issuer u = "")) as [|Hni]; [done|].
  destruct (decide (u_Subject u = "")) as [|Hns]; [done|].
  destruct (find_issuer d (u_Issuer u)) as [iss|] eqn:Hfi; [|done].
  destruct (fresh_user_ID u) as [id| |]; [|done..].
  destruct (store_user_spec d u iss id) as [r s] eqn:Hst. simpl in *. subst r.
  assert (∃ d', s = TxOpen d' ∧ issuers d' = issuers d ∧ u1 = with_ID u (u_ID u1)) as (d' & -> & Hi & Hu1).
  { clear -Hst. unfold store_user_spec in Hst. repeat case_match; simplify_eq; eauto. }
  rewrite Hu1 in Hst. apply store_user_stable in Hst.
  assert (in_tx ctx t w1 d') as Hw1 by (split; [apply Hw|done]).
  destruct (StoreUserInfo_run ctx v w1 t d' Hw1) as (Hres & Ht2 & _). unfold StoreUserInfo_spec in Hres, Ht2.
  rewrite Hiss, Hsub, !decide_False in Hres, Ht2 by done. unfold find_issuer in *.
  rewrite Hi, Hfi, Hfresh in Hres, Ht2. unfold store_user_spec in Hres, Ht2.
  rewrite Hsub, Hst in Hres, Ht2. simpl in *.
  destruct (StoreUserInfo ctx v w1) as [r2 w2]. simpl in *. subst. by exists w2, d'.
Qed.

Lemma find_user_other d u iss iss' sub newID :
  find_user d iss' sub = None → iss ≠ iss' →
  find_user (with_users <[newID := UserRow (u_Name u) (u_Email u) (u_Subject u) iss]> d)
    iss' sub = None.
Proof.
  intros Hnone Hne. destruct (find_user (with_users _ _) _ _) as [id|] eqn:Hf; [|done].
  apply find_user_Some in Hf as (r & Hr & Hi & Hs). simpl in Hr.
  apply lookup_insert_Some in Hr as [[-> <-]|[_ Hr]]; [done|].
  exfalso. by eapply find_user_None.
Qed.

(** Two different users, of issuers whose URIs and subjects run together
    to the same text, have the same generated identifier: once the first is
    stored, storing the second is refused for the duplicate key. *)
Theorem StoreUserInfo_collision ctx t w d u v iu iv id :
  in_tx ctx t w d → u_ID u = "" → u_ID v = "" → u_Issuer u ≠ u_Issuer v →
  u_Issuer u +:+ u_Subject u = u_Issuer v +:+ u_Subject v →
  u_Subject u ≠ "" → u_Subject v ≠ "" → u_Issuer u ≠ "" → u_Issuer v ≠ "" →
  find_issuer d (u_Issuer u) = Some iu → find_issuer d (u_Issuer v) = Some iv →
  find_user d iu (u_Subject u) = None → find_user d iv (u_Subject v) = None →
  gidx_Parse (subject_text IdentityUserIDPrefix (u_Issuer u) (u_Subject u)) = Ok id →
  user_info d !! id = None →
  ∃ w1, StoreUserInfo ctx u w = (Ok (with_ID u id), w1) ∧
        (StoreUserInfo ctx v w1).1 = Err unique_violation.
Proof.
  intros Hw Hu Hv Hne Hcat Hsu Hsv Hiu Hiv Hfu Hfv Hnu Hnv Hgen Hid.
  assert (fresh_user_ID u = Ok id ∧ fresh_user_ID v = Ok id) as [Hidu Hidv].
  { unfold fresh_user_ID, generateSubjectID, subject_text in *.
    rewrite Hu, Hv, <-Hcat, Hgen. by rewrite decide_True. }
  assert (iu ≠ iv) as Hiss.
  { intros ->. apply find_issuer_Some in Hfu as (r & Hr & ?), Hfv as (r' & Hr' & ?). congruence. }
  destruct (StoreUserInfo_run ctx u w t d Hw) as (Hres & Ht & Hc & _).
  unfold StoreUserInfo_spec in Hres, Ht. rewrite !decide_False, Hfu, Hidu in Hres, Ht by done.
  unfold store_user_spec in Hres, Ht. rewrite Hnu, decide_False in Hres, Ht by (rewrite Hid; by intros []).
  destruct (StoreUserInfo ctx u w) as [r w1]. simpl in *. subst r. exists w1. split; [done|].
  destruct (StoreUserInfo_run ctx v w1 t _ (conj (proj1 Hw) Ht)) as (-> & _).
  unfold StoreUserInfo_spec. rewrite !decide_False by done.
  unfold find_issuer in *. simpl. rewrite Hfv, Hidv. unfold store_user_spec.
  rewrite find_user_other by done. rewrite decide_True; [done|]. simpl. rewrite lookup_insert_eq. by eexists.
Qed.

(** C15: [StoreUserInfo], in an open transaction, is a find-or-insert by issuer
    and subject: an empty issuer or subject is refused and an unknown issuer
    not found; a stored user keeps its row, whatever name, email or identifier
    is given; a new user gets the given identifier, or the generated one, which
    must not be taken. *)
Theorem StoreUserInfo_implements ctx u : implements ctx (StoreUserInfo ctx u) (StoreUserInfo_spec u).
Proof. apply StoreUserInfo_run. Qed.
End service.

(** ** At concrete inputs *)

(** A second issuer, whose URI runs into the subjects of the first. *)
Definition two_issuers_DB : DB :=
  with_issuers <["idntiss-2" := IssuerRow "tnntten-2" "other" "https://iss.exampleb" "" None None]>
    sample_DB.

Definition known_user : UserInfo :=
  {| u_ID := ""; u_Name := "Augusta"; u_Email := ""; u_Issuer := "https://iss.example"; u_Subject := "ada" |}.
Definition bob : UserInfo :=
  {| u_ID := ""; u_Name := "Bob"; u_Email := "bob@example.com";
     u_Issuer := "https://iss.example"; u_Subject := "bob" |}.
Definition other_bob : UserInfo :=
  {| u_ID := ""; u_Name := "Ob"; u_Email := ""; u_Issuer := "https://iss.exampleb"; u_Subject := "ob" |}.

Lemma two_issuers_in_tx : in_tx ctx_0 0 (world_in_tx two_issuers_DB) two_issuers_DB.
Proof. split; reflexivity. Qed.

Lemma StoreUserInfo_implements_witness :
  Reliable quiet_env ∧
  (StoreUserInfo (H:=quiet_env) ctx_0 known_user (world_in_tx two_issuers_DB)).1 =
  Ok (with_ID known_user "idntusr-1").
Proof.
  split; [apply quiet_reliable|].
  refine (eq_trans (proj1 (StoreUserInfo_implements (E:=quiet_env) ctx_0 known_user _ 0 _ two_issuers_in_tx)) _).
  vm_compute. reflexivity.
Defined.

Lemma StoreUserInfo_stable_witness :
  ∃ u1 w1 w2, StoreUserInfo (H:=quiet_env) ctx_0 bob (world_in_tx two_issuers_DB) = (Ok u1, w1) ∧
    StoreUserInfo (H:=quiet_env) ctx_0 (with_ID bob "idntusr-9") w1 = (Ok (with_ID bob (u_ID u1)), w2).
Proof.
  destruct (StoreUserInfo (H:=quiet_env) ctx_0 bob (world_in_tx two_issuers_DB)) as [r w1] eqn:Hrun.
  assert (∃ u1, r = Ok u1) as [u1 ->].
  { apply (f_equal fst) in Hrun. vm_compute in Hrun. subst r. by eexists. }
  destruct (StoreUserInfo_stable (E:=quiet_env) ctx_0 0 _ _ bob u1 w1 (with_ID bob "idntusr-9")
    "idntusr-9" two_issuers_in_tx Hrun eq_refl eq_refl eq_refl) as (w2 & d' & H & _).
  exists u1, w1, w2. exact (conj eq_refl H).
Defined.

Lemma StoreUserInfo_collision_witness :
  ∃ id w1,
    StoreUserInfo (H:=quiet_env) ctx_0 bob (world_in_tx two_issuers_DB) = (Ok (with_ID bob id), w1) ∧
    (StoreUserInfo (H:=quiet_env) ctx_0 other_bob w1).1 = Err unique_violation.
Proof.
  eexists.
  apply (StoreUserInfo_collision (E:=quiet_env) ctx_0 0 (world_in_tx two_issuers_DB) two_issuers_DB
    bob other_bob "idntiss-1" "idntiss-2"); try done; vm_compute; reflexivity.
Defined.
