(* ===== verification/IssuerStore.v ===== *)
(** The issuer service, [internal/storage/issuer.go] and
    [internal/storage/query.go], and the seeding of the database
    ([internal/storage/engine.go], [internal/storage/data.go]). *)
From S2P Require Import Prelude GoStrings Errors Utf8 JsonBytes Pagination V1 ListQuery World Frame.
From S2P Require Import Run Cel Types Storage UserStore.

(** ** Column bindings *)

(** A column and the string it is set to; the code binds nothing else. *)
Record colBinding : Type := { column : string; value : string }.

Definition colBindingsToParams (bindings : list colBinding) : string * list string :=
  (Join (imap (λ i b, column b +:+ " = $" +:+ Itoa (Z.of_nat i + 1)) bindings) ", ",
   value <$> bindings).

Definition bindIfNotNil (bindings : list colBinding) (column : string) (value : option string)
    : list colBinding :=
  match value with
  | Some v => bindings ++ [{| column := column; value := v |}]
  | None => bindings
  end.

(** [withQualifier]. *)
Definition withQualifier (items : list string) (qualifier : string) : list string :=
  (λ el, qualifier +:+ "." +:+ el) <$> items.

Definition issuerColumns : list string :=
  ["owner_id"; "id"; "name"; "uri"; "jwksuri"; "mappings"; "conditions"].

(** ** The statements *)

(** Another issuer has the URI. *)
Definition uri_taken (d : DB) (id uri : string) : bool :=
  existsb (λ '(i, r), negb (bool_decide (i = id)) && bool_decide (ir_uri r = uri))
    (map_to_list (issuers d)).

Definition sql_insert_issuer (id : PrefixedID) (r : issuer_row) : stmt () := λ d,
  if bool_decide (is_Some (issuers d !! id)) || uri_taken d id (ir_uri r)
  then inl unique_violation
  else inr (tt, with_issuers <[id := r]> d).

(** [column = value], for the columns an update binds. *)
Definition assign (r : issuer_row) (b : string * string) : issuer_row :=
  let '(c, v) := b in
  if decide (c = "name") then
    IssuerRow (ir_owner_id r) v (ir_uri r) (ir_jwksuri r) (ir_mappings r) (ir_conditions r)
  else if decide (c = "uri") then
    IssuerRow (ir_owner_id r) (ir_name r) v (ir_jwksuri r) (ir_mappings r) (ir_conditions r)
  else if decide (c = "jwksuri") then
    IssuerRow (ir_owner_id r) (ir_name r) (ir_uri r) v (ir_mappings r) (ir_conditions r)
  else if decide (c = "mappings") then
    IssuerRow (ir_owner_id r) (ir_name r) (ir_uri r) (ir_jwksuri r) (Some v) (ir_conditions r)
  else if decide (c = "conditions") then
    IssuerRow (ir_owner_id r) (ir_name r) (ir_uri r) (ir_jwksuri r) (ir_mappings r) (Some v)
  else r.

(** [UPDATE issuers SET <params> WHERE id = $n RETURNING ...]: the parser
    refuses an empty list of assignments. *)
Definition sql_update_issuer (params : string) (assignments : list (string * string))
    (id : PrefixedID) : stmt (option (PrefixedID * issuer_row)) := λ d,
  if decide (params = "") then inl syntax_error
  else match issuers d !! id with
  | None => inr (None, d)
  | Some r =>
    let r' := foldl assign r assignments in
    if uri_taken d id (ir_uri r') then inl unique_violation
    else inr (Some (id, r'), with_issuers <[id := r']> d)
  end.

(** [DELETE FROM user_info WHERE iss_id = $1]. *)
Definition sql_delete_users_of (iss : PrefixedID) : stmt () := λ d,
  inr (tt, with_users (filter (λ kv, ur_iss_id kv.2 ≠ iss)) d).

(** A user of the issuer exists. *)
Definition has_users (d : DB) (iss : PrefixedID) : bool :=
  existsb (λ '(_, r), bool_decide (ur_iss_id r = iss)) (map_to_list (user_info d)).

(** [DELETE FROM issuers WHERE id = $1]; users refer to their issuer. *)
Definition sql_delete_issuer (id : PrefixedID) : stmt nat := λ d,
  match issuers d !! id with
  | None => inr (0, d)
  | Some _ =>
    if has_users d id then inl foreign_key_violation
    else inr (1, with_issuers (delete id) d)
  end.

Definition issuer_row_col (x : PrefixedID * issuer_row) (c : string) : string :=
  let '(id, r) := x in
  if decide (c = "id") then id
  else if decide (c = "owner_id") then ir_owner_id r
  else if decide (c = "name") then ir_name r
  else if decide (c = "uri") then ir_uri r
  else if decide (c = "jwksuri") then ir_jwksuri r
  else if decide (c = "mappings") then default "" (ir_mappings r)
  else default "" (ir_conditions r).

(** ** The service *)

(** [SeedIssuer]. *)
Record SeedIssuer : Type := {
  s_OwnerID : PrefixedID;
  s_ID : PrefixedID;
  s_Name : string;
  s_URI : string;
  s_JWKSURI : string;
  s_ClaimMappings : gmap string string;
  s_ClaimConditions : string;
}.

Section issuers.
Context `{Env, CEL}.

Definition issuerUpdateToColBindings (update : IssuerUpdate) : result (list colBinding) :=
  let bindings := bindIfNotNil [] "name" (iu_Name update) in
  let bindings := bindIfNotNil bindings "uri" (iu_URI update) in
  let bindings := bindIfNotNil bindings "jwksuri" (iu_JWKSURI update) in
  bindings ←
    match iu_ClaimMappings update with
    | Some _ =>
      mappingStr ← ClaimsMapping_MarshalJSON (iu_ClaimMappings update);
      Ok (bindIfNotNil bindings "mappings" (Some mappingStr))
    | None => Ok bindings
    end;
  match iu_ClaimConditions update with
  | Some c =>
    condStr ← ClaimConditions_MarshalJSON c;
    Ok (bindIfNotNil bindings "conditions" (Some condStr))
  | None => Ok bindings
  end.

(** The part of [scanIssuer] that follows [row.Scan]. *)
Definition decode_issuer (x : PrefixedID * issuer_row) : result Issuer :=
  let '(id, r) := x in
  mappings ←
    match ir_mappings r with
    | Some mapping => ClaimsMapping_UnmarshalJSON mapping
    | None => Ok None
    end;
  conditions ←
    match ir_conditions r with
    | Some cond => c ← ClaimConditions_UnmarshalJSON cond; Ok (Some c)
    | None => Ok None
    end;
  Ok {| i_OwnerID := ir_owner_id r; i_ID := id; i_Name := ir_name r; i_URI := ir_uri r;
        i_JWKSURI := ir_jwksuri r; i_ClaimMappings := mappings; i_ClaimConditions := conditions |}.

Definition scanIssuer (row : M (PrefixedID * issuer_row)) : M Issuer :=
  x ← no_rows row ErrorIssuerNotFound; lift (decode_issuer x).

Definition insertIssuer (ctx : Context) (iss : Issuer) : M () :=
  tx ← lift (getContextTx ctx);
  mappings ← lift (ClaimsMapping_MarshalJSON (i_ClaimMappings iss));
  conditions ←
    match i_ClaimConditions iss with
    | Some c => lift (ClaimConditions_MarshalJSON c)
    | None => mret ""
    end;
  tx_write tx (sql_insert_issuer (i_ID iss)
    (IssuerRow (i_OwnerID iss) (i_Name iss) (i_URI iss) (i_JWKSURI iss)
       (Some mappings) (Some conditions))).

Definition CreateIssuer (ctx : Context) (iss : Issuer) : M Issuer :=
  _ ← insertIssuer ctx iss; mret iss.

Definition GetIssuerByID (ctx : Context) (id : PrefixedID) : M Issuer :=
  scanIssuer (query_row ctx (λ d, pair id <$> issuers d !! id)).

Definition GetIssuerByURI (ctx : Context) (uri : string) : M Issuer :=
  scanIssuer (query_row ctx (λ d,
    id ← find_issuer d uri; pair id <$> issuers d !! id)).

Definition GetOwnerIssuers (ctx : Context) (id : PrefixedID) (pagination : Paginator)
    : M (list Issuer) :=
  rows ← paged_read issuerColumns issuer_row_col ctx pagination "" (λ d,
    filter (λ x, ir_owner_id x.2 = id) (map_to_list (issuers d)));
  lift (result_map decode_issuer rows).

Definition UpdateIssuer (ctx : Context) (id : PrefixedID) (update : IssuerUpdate) : M Issuer :=
  tx ← lift (getContextTx ctx);
  bindings ← lift (issuerUpdateToColBindings update);
  let '(params, args) := colBindingsToParams bindings in
  scanIssuer (row ← tx_write tx (sql_update_issuer params (zip (column <$> bindings) args) id);
              lift (row_scan row)).

Definition DeleteIssuer (ctx : Context) (id : PrefixedID) : M () :=
  tx ← lift (getContextTx ctx);
  _ ← tx_write tx (sql_delete_users_of id);
  rowsAffected ← tx_write tx (sql_delete_issuer id);
  if decide (rowsAffected = 0) then fail ErrorIssuerNotFound else mret tt.

(** *** Seeding *)

Definition buildIssuerFromSeed (seed : SeedIssuer) : result Issuer :=
  claimMappings ← NewClaimsMapping (s_ClaimMappings seed);
  claimConditions ← NewClaimConditions (s_ClaimConditions seed);
  Ok {| i_OwnerID := s_OwnerID seed; i_ID := s_ID seed; i_Name := s_Name seed;
        i_URI := s_URI seed; i_JWKSURI := s_JWKSURI seed;
        i_ClaimMappings := Some claimMappings; i_ClaimConditions := Some claimConditions |}.

(** The loop of [seedDatabase]: it returns at the first error, and does not
    roll back. *)
Fixpoint insert_seeds (ctx : Context) (seeds : list SeedIssuer) : M () :=
  match seeds with
  | [] => mret tt
  | seed :: rest =>
    iss ← lift (buildIssuerFromSeed seed);
    _ ← insertIssuer ctx iss;
    insert_seeds ctx rest
  end.

(** [seedDatabase]. The error of the rollback shadows that of the commit. *)
Definition seedDatabase (ctx : Context) (seeds : list SeedIssuer) : M () :=
  ctx ← beginTxContext ctx;
  _ ← insert_seeds ctx seeds;
  on_error (commitContextTx ctx) (λ err,
    _ ← rollbackContextTx ctx; fail err).
End issuers.

(** ** Lemmas *)

Lemma uri_taken_spec d id uri :
  uri_taken d id uri = true ↔ ∃ i r, i ≠ id ∧ issuers d !! i = Some r ∧ ir_uri r = uri.
Proof.
  unfold uri_taken. rewrite existsb_exists. split.
  - intros ([i r] & Hin & H). apply list_elem_of_In, elem_of_map_to_list in Hin.
    apply andb_true_iff in H as [?%negb_true_iff%bool_decide_eq_false ?%bool_decide_eq_true].
    by exists i, r.
  - intros (i & r & Hne & Hi & <-). exists (i, r).
    split; [by apply list_elem_of_In, elem_of_map_to_list|].
    by rewrite bool_decide_false, bool_decide_true by done.
Qed.

Lemma uri_not_taken d id uri :
  uri_taken d id uri = false → ∀ i r, i ≠ id → issuers d !! i = Some r → ir_uri r = uri → False.
Proof. intros Ht%not_true_iff_false i r ???. apply Ht, uri_taken_spec. by exists i, r. Qed.

Lemma has_users_false d iss :
  has_users d iss = false ↔ ∀ u r, user_info d !! u = Some r → ur_iss_id r ≠ iss.
Proof.
  unfold has_users. rewrite <-not_true_iff_false, existsb_exists. split.
  - intros H u r Hu Hiss. apply H. exists (u, r).
    split; [by apply list_elem_of_In, elem_of_map_to_list|]. by apply bool_decide_eq_true.
  - intros H ([u r] & Hin%list_elem_of_In%elem_of_map_to_list & ?%bool_decide_eq_true). by eapply H.
Qed.

(** *** The statements keep the schema *)

(** Tables with one issuer written. *)
Lemma insert_issuer_wf d id r :
  db_wf d → uri_taken d id (ir_uri r) = false → db_wf (with_issuers <[id := r]> d).
Proof.
  intros [? ? Hu ? Hi] Ht. pose proof (uri_not_taken _ _ _ Ht) as Hnt.
  split; simpl; [done..| |done|].
  - intros i1 i2 r1 r2. rewrite !lookup_insert_Some.
    intros [[<- <-]|[? ?]] [[<- <-]|[? ?]] ?; [done|..|by eauto]; exfalso; eauto.
  - intros u r' Hr. rewrite lookup_insert_is_Some'. right. by eapply Hi.
Qed.

Lemma sql_insert_issuer_wf id r : stmt_wf (sql_insert_issuer id r).
Proof.
  intros d [] d' Hd. unfold sql_insert_issuer. case_match eqn:Hc; [done|]. intros [= <-].
  apply orb_false_iff in Hc as [_ Ht]. by apply insert_issuer_wf.
Qed.

Lemma sql_update_issuer_wf p bs id : stmt_wf (sql_update_issuer p bs id).
Proof.
  intros d a d' Hd. unfold sql_update_issuer. case_decide; [done|].
  destruct (issuers d !! id); [|by intros [= _ <-]].
  case_match eqn:Ht; [done|]. intros [= _ <-]. by apply insert_issuer_wf.
Qed.

Lemma sql_delete_users_of_wf iss : stmt_wf (sql_delete_users_of iss).
Proof.
  intros d a d' [? ? ? Hu Hi] [= _ <-]. split; simpl; [done..| |].
  - intros u1 u2 r1 r2 [? _]%map_lookup_filter_Some [? _]%map_lookup_filter_Some. eauto.
  - intros u r [? _]%map_lookup_filter_Some. eauto.
Qed.

Lemma sql_delete_issuer_wf id : stmt_wf (sql_delete_issuer id).
Proof.
  intros d a d' [? ? Hu ? Hi]. unfold sql_delete_issuer.
  destruct (issuers d !! id); [|by intros [= _ <-]].
  case_match eqn:Hh; [done|]. intros [= _ <-]. rewrite has_users_false in Hh.
  split; simpl; [done..| |done|].
  - intros i1 i2 r1 r2 [_ ?]%lookup_delete_Some [_ ?]%lookup_delete_Some. eauto.
  - intros u r Hr. rewrite lookup_delete_ne; [by eapply Hi|]. intros ->. by eapply Hh.
Qed.
#[export] Hint Resolve sql_insert_issuer_wf sql_update_issuer_wf sql_delete_users_of_wf
  sql_delete_issuer_wf : wf.

Section frames.
Context {E : Env} {C : CEL} (ctx : Context) (R : relation World) `{!StoreRel ctx R}.

Lemma scanIssuer_frame m : keeps R m → keeps R (scanIssuer m).
Proof. intros Hm. unfold scanIssuer. frame. Qed.
Hint Resolve scanIssuer_frame : frame.
Lemma insertIssuer_frame i : keeps R (insertIssuer ctx i).
Proof. unfold insertIssuer. frame. Qed.
Hint Resolve insertIssuer_frame : frame.
Lemma CreateIssuer_frame i : keeps R (CreateIssuer ctx i).
Proof. unfold CreateIssuer. frame. Qed.
Lemma GetIssuerByID_frame id : keeps R (GetIssuerByID ctx id).
Proof. unfold GetIssuerByID. apply scanIssuer_frame. frame. Qed.
Lemma GetIssuerByURI_frame uri : keeps R (GetIssuerByURI ctx uri).
Proof. unfold GetIssuerByURI. apply scanIssuer_frame. frame. Qed.
Lemma GetOwnerIssuers_frame id p : keeps R (GetOwnerIssuers ctx id p).
Proof. unfold GetOwnerIssuers. frame. Qed.
Lemma UpdateIssuer_frame id u : keeps R (UpdateIssuer ctx id u).
Proof.
  unfold UpdateIssuer. eapply keeps_getContextTx; [apply _|]. intros t Hc.
  apply keeps_bind; [apply _|frame|]. intros bs. destruct (colBindingsToParams bs).
  apply scanIssuer_frame. frame.
Qed.
Lemma DeleteIssuer_frame id : keeps R (DeleteIssuer ctx id).
Proof. unfold DeleteIssuer. frame. Qed.
Lemma insert_seeds_frame seeds : keeps R (insert_seeds ctx seeds).
Proof. induction seeds; simpl; frame. Qed.
End frames.
#[export] Hint Resolve insertIssuer_frame CreateIssuer_frame GetIssuerByID_frame
  GetIssuerByURI_frame GetOwnerIssuers_frame UpdateIssuer_frame DeleteIssuer_frame
  insert_seeds_frame : frame.

(** ** What the service promises *)

Section promises.
Context {C : CEL}.

(** The row an issuer is stored as. *)
Definition encode_issuer (iss : Issuer) : result issuer_row :=
  mappings ← ClaimsMapping_MarshalJSON (i_ClaimMappings iss);
  conditions ←
    match i_ClaimConditions iss with
    | Some c => ClaimConditions_MarshalJSON c
    | None => Ok ""
    end;
  Ok (IssuerRow (i_OwnerID iss) (i_Name iss) (i_URI iss) (i_JWKSURI iss)
        (Some mappings) (Some conditions)).

(** An issuer as it is read back: a nil mapping is empty, and nil conditions
    are conditions without an expression. *)
Definition stored_form (iss : Issuer) : Issuer :=
  {| i_OwnerID := i_OwnerID iss; i_ID := i_ID iss; i_Name := i_Name iss; i_URI := i_URI iss;
     i_JWKSURI := i_JWKSURI iss;
     i_ClaimMappings := Some (default ∅ (i_ClaimMappings iss));
     i_ClaimConditions := Some {| cc_ast := i_ClaimConditions iss ≫= cc_ast |} |}.

Definition insert_Issuer (id : PrefixedID) (r : issuer_row) : DB → DB := with_issuers <[id := r]>.

Definition insertIssuer_spec (iss : Issuer) : tx_spec () := λ _ d,
  match encode_issuer iss with
  | Err e => (Err e, TxOpen d)
  | Panic s => (Panic s, TxOpen d)
  | Ok r =>
    if bool_decide (is_Some (issuers d !! i_ID iss)) || uri_taken d (i_ID iss) (i_URI iss)
    then (Err unique_violation, TxAborted)
    else (Ok tt, TxOpen (insert_Issuer (i_ID iss) r d))
  end.

Definition CreateIssuer_spec (iss : Issuer) : tx_spec Issuer := λ c d,
  let '(r, s) := insertIssuer_spec iss c d in (r ≫= λ _, Ok iss, s).

(** The tables after a list of seeds, or the error of the first that is refused. *)
Fixpoint seed_tables (seeds : list SeedIssuer) (d : DB) : result DB :=
  match seeds with
  | [] => Ok d
  | seed :: rest =>
    iss ← buildIssuerFromSeed seed;
    r ← encode_issuer iss;
    if bool_decide (is_Some (issuers d !! i_ID iss)) || uri_taken d (i_ID iss) (i_URI iss)
    then Err unique_violation
    else seed_tables rest (insert_Issuer (i_ID iss) r d)
  end.

(** An issuer after an update: the fields that are given. *)
Definition apply_issuer_update (i : Issuer) (u : IssuerUpdate) : Issuer :=
  {| i_OwnerID := i_OwnerID i; i_ID := i_ID i;
     i_Name := default (i_Name i) (iu_Name u);
     i_URI := default (i_URI i) (iu_URI u);
     i_JWKSURI := default (i_JWKSURI i) (iu_JWKSURI u);
     i_ClaimMappings :=
       match iu_ClaimMappings u with Some m => Some m | None => i_ClaimMappings i end;
     i_ClaimConditions :=
       match iu_ClaimConditions u with Some c => Some c | None => i_ClaimConditions i end |}.

Definition UpdateIssuer_spec (id : PrefixedID) (u : IssuerUpdate) : tx_spec Issuer := λ _ d,
  match issuerUpdateToColBindings u with
  | Err e => (Err e, TxOpen d)
  | Panic s => (Panic s, TxOpen d)
  | Ok bs =>
    if decide (bs = []) then (Err syntax_error, TxAborted)
    else match issuers d !! id with
    | None => (Err ErrorIssuerNotFound, TxOpen d)
    | Some row =>
      let row' := foldl assign row (zip (column <$> bs) (colBindingsToParams bs).2) in
      if uri_taken d id (ir_uri row') then (Err unique_violation, TxAborted)
      else (decode_issuer (id, row'), TxOpen (insert_Issuer id row' d))
    end
  end.

Definition DeleteIssuer_spec (id : PrefixedID) : tx_spec () := λ _ d,
  let d' := with_users (filter (λ kv, ur_iss_id kv.2 ≠ id)) d in
  if decide (issuers d !! id = None) then (Err ErrorIssuerNotFound, TxOpen d')
  else (Ok tt, TxOpen (with_issuers (delete id) d')).
End promises.

(** Names of claims that are UTF-8: all that JSON can hold. *)
Definition valid_names `{CEL} (m : option (gmap string Ast)) : Prop :=
  ∀ k, is_Some (default ∅ m !! k) → ValidString k = true.

Section codec.
Context `{CELRoundTrip}.

Lemma ClaimsMapping_roundtrip m s : valid_names m →
  ClaimsMapping_MarshalJSON m = Ok s → ClaimsMapping_UnmarshalJSON s = Ok (Some (default ∅ m)).
Proof.
  unfold ClaimsMapping_MarshalJSON, ClaimsMapping_UnmarshalJSON.
  intros Hv (out & Hout & [= <-])%result_bind_Ok. rewrite json_bytes_roundtrip; simpl.
  - by rewrite (map_unmarshal_marshal _ _ Hout).
  - intros k [y Hy]. apply Hv.
    destruct (map_result_Ok _ _ _ Hout k) as [(x & _ & -> & _)|[_ Hn]]; [by eexists|congruence].
Qed.

Lemma ClaimConditions_roundtrip c s :
  ClaimConditions_MarshalJSON c = Ok s → ClaimConditions_UnmarshalJSON s = Ok c.
Proof.
  unfold ClaimConditions_MarshalJSON, ClaimConditions_UnmarshalJSON.
  destruct c as [[a|]]; simpl; [|by intros [= <-]]. intros Ha. rewrite decide_False.
  - by rewrite (unmarshal_marshal_ast _ _ Ha).
  - unfold marshal_ast in Ha. apply result_bind_Ok in Ha as (e & _ & He). by eapply text_nonempty.
Qed.

Lemma decode_encode_issuer iss r : valid_names (i_ClaimMappings iss) →
  encode_issuer iss = Ok r → decode_issuer (i_ID iss, r) = Ok (stored_form iss).
Proof.
  unfold encode_issuer, decode_issuer, stored_form.
  intros Hv (m & Hm & (c & Hc & [= <-])%result_bind_Ok)%result_bind_Ok. simpl.
  rewrite (ClaimsMapping_roundtrip _ _ Hv Hm). simpl.
  destruct (i_ClaimConditions iss) as [cc|]; simpl.
  - rewrite (ClaimConditions_roundtrip _ _ Hc). by destruct cc.
  - by injection Hc as <-.
Qed.

(** The row after the assignments of an update, read back. *)
Lemma decode_assigned id r i u bs : valid_names (iu_ClaimMappings u) →
  decode_issuer (id, r) = Ok i → issuerUpdateToColBindings u = Ok bs →
  decode_issuer (id, foldl assign r (zip (column <$> bs) (colBindingsToParams bs).2)) =
    Ok (apply_issuer_update i u).
Proof.
  unfold decode_issuer. intros Hv (m & Hm & (c & Hc & [= <-])%result_bind_Ok)%result_bind_Ok.
  unfold issuerUpdateToColBindings. intros (bs1 & Hb1 & Hb2)%result_bind_Ok.
  destruct u as [n uri j um uc]; simpl in *.
  destruct um as [um|]; [apply result_bind_Ok in Hb1 as (ms & Hms%(ClaimsMapping_roundtrip _ _ Hv) & Hb1)|];
    (destruct uc as [uc|]; [apply result_bind_Ok in Hb2 as (cs & Hcs%ClaimConditions_roundtrip & Hb2)|]);
    injection Hb1 as <-; injection Hb2 as <-;
    destruct n, uri, j; simpl in *; rewrite ?Hms, ?Hcs, ?Hm; simpl; rewrite ?Hc; done.
Qed.
End codec.

(** ** Properties *)

Section service.
Context {E : Env} `{!Reliable E} {C : CEL}.

Lemma insertIssuer_run ctx iss : implements ctx (insertIssuer ctx iss) (insertIssuer_spec iss).
Proof.
  apply implements_intro; [frame..|]. intros w t d Hw.
  unfold insertIssuer, insertIssuer_spec, encode_issuer. wp.
  destruct (ClaimsMapping_MarshalJSON _) as [ms|e|s]; cbn; [|wp_done..].
  destruct (i_ClaimConditions iss) as [c|]; wp.
  - destruct (ClaimConditions_MarshalJSON c) as [cs|e|s]; cbn; [|wp_done..].
    wp. unfold sql_insert_issuer; cbn. destruct (_ || _); wp_done.
  - unfold sql_insert_issuer; cbn. destruct (_ || _); wp_done.
Qed.

Lemma CreateIssuer_run ctx iss : implements ctx (CreateIssuer ctx iss) (CreateIssuer_spec iss).
Proof.
  apply implements_intro; [frame..|]. intros w t d Hw. unfold CreateIssuer, CreateIssuer_spec.
  apply wp_bind. eapply wp_implements; [apply insertIssuer_run|exact Hw|]. intros w' _ _ Ht.
  by destruct (insertIssuer_spec iss (committed w) d) as [[[]| |] s].
Qed.

Lemma wp_GetIssuerByID ctx id w t d Φ :
  in_tx ctx t w d →
  (∀ f, Φ (match issuers d !! id with
           | Some r => decode_issuer (id, r)
           | None => Err ErrorIssuerNotFound
           end) (next_tick (rerun t f w))) →
  wp (GetIssuerByID ctx id) w Φ.
Proof.
  intros Hw HΦ. unfold GetIssuerByID, scanIssuer, no_rows, query_row. wp.
  destruct (issuers d !! id); cbn; wp; apply HΦ.
Qed.

(** C32: an issuer that [CreateIssuer] stores, with names of claims in UTF-8,
    is read back by [GetIssuerByID] as it was given, except that nil claim
    mappings come back as an empty map and nil conditions as conditions without
    an expression; a duplicate identifier or URI is refused and aborts the
    transaction. *)
Theorem CreateIssuer_roundtrip `{!CELRoundTrip C} ctx iss r w t d :
  in_tx ctx t w d → valid_names (i_ClaimMappings iss) → encode_issuer iss = Ok r →
  if bool_decide (is_Some (issuers d !! i_ID iss)) || uri_taken d (i_ID iss) (i_URI iss)
  then ∃ w1, CreateIssuer ctx iss w = (Err unique_violation, w1) ∧ txs w1 !! t = Some TxAborted
  else ∃ w1 w2, CreateIssuer ctx iss w = (Ok iss, w1) ∧
       GetIssuerByID ctx (i_ID iss) w1 = (Ok (stored_form iss), w2).
Proof.
  intros Hw Hv Hr. destruct (CreateIssuer_run ctx iss w t d Hw) as (Hres & Ht & _).
  unfold CreateIssuer_spec, insertIssuer_spec in Hres, Ht. rewrite Hr in Hres, Ht.
  destruct (CreateIssuer ctx iss w) as [res w1]. simpl in *.
  destruct (_ || _); simpl in *; subst res; [by exists w1|].
  assert (wp (GetIssuerByID ctx (i_ID iss)) w1 (λ r' _, r' = Ok (stored_form iss))) as Hget.
  { eapply wp_GetIssuerByID; [by split; [apply (proj1 Hw)|]|]. intros f. simpl. rewrite lookup_insert_eq.
    by apply decode_encode_issuer. }
  unfold wp in Hget. destruct (GetIssuerByID _ _ w1) as [res w2] eqn:Hw2. simpl in *. subst.
  by exists w1, w2.
Qed.

Lemma params_empty bs : (colBindingsToParams bs).1 = "" ↔ bs = [].
Proof.
  split; [|by intros ->]. destruct bs as [|b bs]; [done|]. intros H. exfalso. revert H.
  apply Join_nonempty, app_nonempty. right. by apply app_nonempty; left.
Qed.

Lemma UpdateIssuer_run ctx id u : implements ctx (UpdateIssuer ctx id u) (UpdateIssuer_spec id u).
Proof.
  apply implements_intro; [frame..|]. intros w t d Hw.
  unfold UpdateIssuer, UpdateIssuer_spec, scanIssuer, no_rows. wp.
  destruct (issuerUpdateToColBindings u) as [bs|e|s]; cbn beta iota; [|wp_done..].
  pose proof (params_empty bs) as Hps.
  destruct (colBindingsToParams bs) as [ps args]; simpl in Hps. cbn [snd]. wp.
  unfold sql_update_issuer. destruct (decide (bs = [])) as [Hbs|Hbs].
  - rewrite decide_True by tauto. cbn. wp. wp_done.
  - rewrite decide_False by tauto. destruct (issuers d !! id) as [row|]; cbn; [|wp; wp_done].
    destruct (uri_taken _ _ _); cbn; wp; [wp_done|]. wp_done.
Qed.

(** C33: [UpdateIssuer] of a stored issuer changes exactly the fields that are
    given (names of claims in UTF-8), and returns the issuer as it is then stored; an unknown issuer is
    not found; an update that gives no field is a syntax error in SQL, which
    aborts the transaction. *)
Theorem UpdateIssuer_fields `{!CELRoundTrip C} ctx id u bs w t d :
  in_tx ctx t w d → valid_names (iu_ClaimMappings u) → issuerUpdateToColBindings u = Ok bs →
  let '(r, w') := UpdateIssuer ctx id u w in
  if decide (bs = []) then r = Err syntax_error ∧ txs w' !! t = Some TxAborted
  else match issuers d !! id with
  | None => r = Err ErrorIssuerNotFound ∧ txs w' !! t = Some (TxOpen d)
  | Some row => ∀ i, decode_issuer (id, row) = Ok i →
    if uri_taken d id (i_URI (apply_issuer_update i u))
    then r = Err unique_violation ∧ txs w' !! t = Some TxAborted
    else r = Ok (apply_issuer_update i u) ∧
         ∃ row', txs w' !! t = Some (TxOpen (insert_Issuer id row' d)) ∧
                 decode_issuer (id, row') = Ok (apply_issuer_update i u)
  end.
Proof.
  intros Hw Hv Hbs. destruct (UpdateIssuer_run ctx id u w t d Hw) as (Hr & Ht & _).
  unfold UpdateIssuer_spec in Hr, Ht. rewrite Hbs in Hr, Ht.
  destruct (UpdateIssuer ctx id u w) as [r w']. cbn [fst snd] in *. case_decide; [done|].
  destruct (issuers d !! id) as [row|]; [|done]. intros i Hi.
  pose proof (decode_assigned id row i u bs Hv Hi Hbs) as Hdec.
  set (row' := foldl assign _ _) in *.
  assert (ir_uri row' = i_URI (apply_issuer_update i u)) as Huri.
  { clear -Hdec. unfold decode_issuer in Hdec.
    apply result_bind_Ok in Hdec as (m & _ & (c & _ & Heq)%result_bind_Ok).
    by injection Heq. }
  cbv zeta in *. rewrite Huri in Hr, Ht. destruct (uri_taken _ _ _); [done|].
  rewrite Hdec in Hr. split; [done|]. by exists row'.
Qed.

(** [DeleteIssuer] removes the issuer and its users, and nothing else; of
    an unknown issuer it is an error. *)
Lemma DeleteIssuer_implements ctx id : implements ctx (DeleteIssuer ctx id) (DeleteIssuer_spec id).
Proof.
  apply implements_intro; [frame..|]. intros w t d Hw.
  unfold DeleteIssuer, DeleteIssuer_spec, sql_delete_users_of. wp. unfold sql_delete_issuer. cbn.
  destruct (issuers d !! id) as [row|] eqn:Hid; cbn.
  - assert (has_users (with_users (filter (λ kv, ur_iss_id kv.2 ≠ id)) d) id = false) as ->.
    { apply has_users_false. intros u r [_ Hne]%map_lookup_filter_Some. done. }
    wp. wp_done.
  - wp. wp_done.
Qed.
End service.

(** ** Seeding *)

(** A transaction that has not ended does not end. *)
Definition not_ended (t : nat) (w : World) : Prop :=
  ∃ s, txs w !! t = Some s ∧ s ≠ TxDone.
Definition keeps_alive (t : nat) (w w' : World) : Prop := not_ended t w → not_ended t w'.

#[global] Instance keeps_alive_store ctx t : StoreRel ctx (keeps_alive t).
Proof.
  assert (∀ w t' s, s ≠ TxDone → keeps_alive t w (set_tx t' s w)) as Hset.
  { intros w t' s Hs (s' & Hs' & ?). unfold not_ended. simpl.
    destruct (decide (t' = t)) as [->|]; [exists s|exists s'];
      by rewrite ?lookup_insert_eq, ?lookup_insert_ne. }
  split.
  - split; unfold keeps_alive; [by intros w|eauto].
  - intros w H. exact H.
  - intros t' d w _ _. by apply Hset.
  - intros A HA q t' d w _ _ H. exact H.
  - intros A HA s t' d a d' w _ _ _ _. by apply (Hset (rerun t' (replay_write s a) w)).
Qed.

Section seeding.
Context {E : Env} {C : CEL}.

(** The loop over the seeds: the tables of the transaction become those of
    [seed_tables], and nothing else changes. *)
Lemma insert_seeds_run `{!Reliable E} ctx seeds w t d :
  in_tx ctx t w d →
  wp (insert_seeds ctx seeds) w (λ r w',
    r = (seed_tables seeds d ≫= λ _, Ok tt) ∧
    (∀ d', seed_tables seeds d = Ok d' → txs w' !! t = Some (TxOpen d'))).
Proof.
  revert w d. induction seeds as [|seed seeds IH]; intros w d Hw; simpl.
  { split; [done|]. intros d' [= <-]. apply Hw. }
  wp. destruct (buildIssuerFromSeed seed) as [iss|e|s]; cbn beta iota; [|done..].
  apply wp_bind. eapply wp_implements; [apply insertIssuer_run|exact Hw|].
  unfold insertIssuer_spec. cbn. intros w' _ _ Ht.
  destruct (encode_issuer iss) as [row|e|s]; cbn; [|done..].
  destruct (_ || _); cbn; [done|]. apply IH. split; [apply Hw|exact Ht].
Qed.

(** Seeding installs the tables of all the seeds, or none. *)
Lemma seedDatabase_run `{!Reliable E} ctx seeds w :
  wp (seedDatabase ctx seeds) w (λ r w',
    r = (seed_tables seeds (committed w) ≫= λ _, Ok tt) ∧
    committed w' = match seed_tables seeds (committed w) with Ok d => d | _ => committed w end).
Proof.
  unfold seedDatabase. apply wp_bind. unfold wp at 1, beginTxContext. rewrite no_sql_fault.
  cbn [fst snd]. set (ctx' := {| ctx_tx := Some (next_tx w); ctx_asOf := ctx_asOf ctx |}).
  set (w1 := next_tick (add_tx (TxOpen (committed w)) w)).
  assert (in_tx ctx' (next_tx w) w1 (committed w)) as Hw1 by (split; [done|apply lookup_insert_eq]).
  apply wp_bind. eapply wp_mono; [|apply wp_keeps, insert_seeds_run, Hw1;
    exact (insert_seeds_frame ctx' (keeps_step (next_tx w)) seeds)].
  cbn beta. intros r w2 [[-> Ht] [[Hc _] Hs]]. specialize (Hs (in_step_begun w)). change (committed w1) with (committed w) in Hc.
  destruct (seed_tables seeds (committed w)) as [d|e|s]; simpl; [|done..].
  apply wp_on_error. eapply wp_commit; [split; [done|by apply Ht]|exact Hs|]. done.
Qed.

(** Nothing is committed when seeding fails. *)
Lemma seedDatabase_failed ctx seeds w r w' :
  (∀ n, ambiguous_commit n = false) → seedDatabase ctx seeds w = (r, w') → r ≠ Ok tt →
  committed w' = committed w.
Proof.
  intros Hamb. unfold seedDatabase, beginTxContext. unfold mbind at 1, M_bind at 1.
  destruct (sql_fault (tick w)); [by intros [= <- <-]|].
  set (ctx' := {| ctx_tx := Some (next_tx w); ctx_asOf := ctx_asOf ctx |}).
  set (w1 := next_tick (add_tx (TxOpen (committed w)) w)).
  pose proof (insert_seeds_frame ctx' same_committed seeds w1) as [Hc _].
  unfold mbind at 1, M_bind at 1. cbn [fst snd].
  destruct (insert_seeds ctx' seeds w1) as [[[]|e|s] w2]; [|by intros [= <- <-]..].
  intros Hr Hne. trans (committed w2); [|exact Hc]. cbn [fst snd] in Hc. clear Hc.
  change (commitContextTx ctx') with (tx_commit (next_tx w)) in Hr.
  pose proof (tx_commit_failed (next_tx w) w2 Hamb) as Hfail.
  unfold on_error, attempt, mret, M_ret, fail in Hr. unfold mbind at 1, M_bind at 1 in Hr.
  destruct (tx_commit (next_tx w) w2) as [[[]|e|s] w3]; cbn [fst snd] in Hfail; simplify_eq/=; try done.
  all: destruct Hfail as [Hf _]; [done|]; try exact Hf.
  trans (committed w3); [|exact Hf].
  pose proof (rollbackContextTx_committed ctx' w3) as [Hroll _]. unfold mbind, M_bind in Hr.
  destruct (rollbackContextTx ctx' w3) as [[]]; simplify_eq/=; done.
Qed.

(** Seeding is all or nothing: when it returns an error, the committed
    tables are those of before (unless the server loses track of a commit);
    but when a seed is refused, the transaction that was begun is neither
    committed nor rolled back: it is left open. *)
Lemma seedDatabase_atomic ctx seeds w :
  (∀ n, ambiguous_commit n = false) → sql_fault (tick w) = None →
  let '(r, w') := seedDatabase ctx seeds w in
  let begun := beginTxContext ctx w in
  (r ≠ Ok tt → committed w' = committed w) ∧
  (∀ ctx' e, begun.1 = Ok ctx' → (insert_seeds ctx' seeds begun.2).1 = Err e →
     r = Err e ∧ not_ended (next_tx w) w').
Proof.
  intros Hamb Hbegin. pose proof (λ r w', seedDatabase_failed ctx seeds w r w' Hamb) as Hfail.
  unfold seedDatabase, beginTxContext in *. unfold mbind at 1, M_bind at 1 in Hfail.
  unfold mbind at 1, M_bind at 1.
  rewrite Hbegin in *. set (ctx' := {| ctx_tx := Some (next_tx w); ctx_asOf := ctx_asOf ctx |}) in *.
  set (w1 := next_tick (add_tx (TxOpen (committed w)) w)) in *.
  pose proof (insert_seeds_frame ctx' (keeps_alive (next_tx w)) seeds w1) as Ha.
  destruct ((insert_seeds ctx' seeds ≫= _) w1) as [r w'] eqn:Hrun.
  split; [by apply Hfail|]. intros ctx'' e [= <-]. fold ctx'. intros Hins.
  cbn [fst snd] in Hins. unfold mbind, M_bind in Hrun.
  destruct (insert_seeds ctx' seeds w1) as [[[]|e'|s] w2]; simpl in Hins; try done.
  injection Hins as ->. injection Hrun as <- <-. split; [done|]. apply Ha.
  exists (TxOpen (committed w)). split; [|done]. apply lookup_insert_eq.
Qed.
End seeding.

(** *** At a concrete input *)

Definition seed1 : SeedIssuer :=
  {| s_OwnerID := "tnntten-1"; s_ID := "idntiss-3"; s_Name := "seeded"; s_URI := "https://seed.example";
     s_JWKSURI := ""; s_ClaimMappings := {[ "infratographer:sub" := "sub" ]}; s_ClaimConditions := "true" |}.
(** Its URI is that of a stored issuer. *)
Definition seed2 : SeedIssuer :=
  {| s_OwnerID := "tnntten-1"; s_ID := "idntiss-4"; s_Name := "seeded"; s_URI := "https://iss.example";
     s_JWKSURI := ""; s_ClaimMappings := ∅; s_ClaimConditions := "" |}.

(** An issuer that maps the claim that is called [naïve], in UTF-8. *)
Definition naive : string := "na" +:+ of_bytes (encode_rune 0xEF) +:+ "ve".
Definition sample_issuer : Issuer (H:=claim_cel) :=
  {| i_OwnerID := "tnntten-1"; i_ID := "idntiss-5"; i_Name := "new"; i_URI := "https://new.example";
     i_JWKSURI := ""; i_ClaimMappings := Some {[ naive := "name" ]}; i_ClaimConditions := None |}.

Lemma sample_issuer_names : valid_names (i_ClaimMappings sample_issuer).
Proof. intros k [v Hv]. simpl in Hv. apply lookup_singleton_Some in Hv as [<- _]. reflexivity. Qed.

Lemma CreateIssuer_roundtrip_witness : ∃ w1 w2,
  CreateIssuer (H:=quiet_env) (H0:=claim_cel) ctx_0 sample_issuer (world_in_tx sample_DB) =
    (Ok sample_issuer, w1) ∧
  GetIssuerByID (H:=quiet_env) (H0:=claim_cel) ctx_0 "idntiss-5" w1 = (Ok (stored_form sample_issuer), w2).
Proof.
  apply (CreateIssuer_roundtrip (E:=quiet_env) (C:=claim_cel) ctx_0 sample_issuer
    (IssuerRow "tnntten-1" "new" "https://new.example" ""
       (Some (json_Marshal {[ naive := "ename" ]})) (Some ""))
    (world_in_tx sample_DB) 0 sample_DB);
    [by split|apply sample_issuer_names|vm_compute; reflexivity].
Defined.

Lemma UpdateIssuer_fields_witness :
  let '(r, w') := UpdateIssuer (H:=quiet_env) (H0:=claim_cel) ctx_0 "idntiss-1"
    {| iu_Name := None; iu_URI := None; iu_JWKSURI := None;
       iu_ClaimMappings := None; iu_ClaimConditions := None |} (world_in_tx sample_DB) in
  r = Err syntax_error ∧ txs w' !! 0 = Some TxAborted.
Proof.
  apply (UpdateIssuer_fields (E:=quiet_env) (C:=claim_cel) ctx_0 "idntiss-1" _ []
    (world_in_tx sample_DB) 0 sample_DB); [by split|by intros k []|reflexivity].
Defined.

Lemma DeleteIssuer_implements_witness :
  Reliable quiet_env ∧
  txs (DeleteIssuer (H:=quiet_env) ctx_0 "idntiss-1" (world_in_tx sample_DB)).2 !! 0 =
  Some (TxOpen (with_users (λ _, ∅) (with_issuers (λ _, ∅) sample_DB))).
Proof.
  split; [apply quiet_reliable|].
  refine (eq_trans (proj1 (proj2 (DeleteIssuer_implements (E:=quiet_env) ctx_0 "idntiss-1"
    (world_in_tx sample_DB) 0 sample_DB _))) _); [by split|vm_compute; reflexivity].
Defined.

Lemma seedDatabase_atomic_witness :
  let '(r, w') := seedDatabase (H:=quiet_env) (H0:=claim_cel) ctx_none [seed1; seed2]
    (world_of sample_DB) in
  r = Err unique_violation ∧ not_ended 0 w'.
Proof.
  pose proof (seedDatabase_atomic (E:=quiet_env) (C:=claim_cel) ctx_none [seed1; seed2]
    (world_of sample_DB) (λ _, eq_refl) eq_refl) as H.
  destruct (seedDatabase _ _ _) as [r w']. destruct H as [_ H].
  apply (H ctx_0 unique_violation); [reflexivity|vm_compute; reflexivity].
Defined.
