(* ===== verification/ClientStore.v ===== *)
(** The OAuth client manager, [internal/storage/oauth_client.go]. *)
From S2P Require Import Prelude GoStrings Errors Pagination V1 ListQuery World Frame Run Types.
From S2P Require Import Storage.

(** [fosite.Hasher]: bcrypt, which salts, so that a hash depends on the moment. *)
Class Hasher : Type := {
  Hash : nat → string → result string;
  Compare : string → string → bool;
}.

(** What authentication relies on: a hash is recognised by its secret. *)
Class HasherLaws (H : Hasher) : Prop := {
  Compare_Hash : ∀ n s h, Hash n s = Ok h → Compare h s = true;
}.

(** ** The statements *)

Definition sql_insert_client (id : PrefixedID) (r : client_row) : stmt PrefixedID := λ d,
  if decide (is_Some (oauth_clients d !! id)) then inl unique_violation
  else inr (id, with_clients <[id := r]> d).

Definition sql_delete_client (id : PrefixedID) : stmt () := λ d,
  inr (tt, with_clients (delete id) d).

Definition oauthClientColumns : list string := ["id"; "owner_id"; "name"; "secret"; "audience"].

Definition client_row_col (x : PrefixedID * client_row) (c : string) : string :=
  let '(id, r) := x in
  if decide (c = "id") then id
  else if decide (c = "owner_id") then cr_owner_id r
  else if decide (c = "name") then cr_name r
  else if decide (c = "secret") then cr_secret r
  else cr_audience r.

Definition row_OAuthClient (x : PrefixedID * client_row) : OAuthClient :=
  let '(id, r) := x in
  {| c_ID := id; c_OwnerID := cr_owner_id r; c_Name := cr_name r; c_Secret := cr_secret r;
     c_Audience := Fields (cr_audience r) |}.

(** ** The manager *)

Section clients.
Context `{Env, Hasher}.

Definition hash_secret (secret : string) : M string := λ w,
  (Hash (tick w) secret, next_tick w).

Definition CreateOAuthClient (ctx : Context) (client : OAuthClient) : M OAuthClient :=
  tx ← lift (getContextTx ctx);
  hashedSecret ← hash_secret (c_Secret client);
  clientID ← NewID IdentityClientIDPrefix;
  id ← tx_write tx (sql_insert_client clientID
    (ClientRow (c_OwnerID client) (c_Name client) hashedSecret (Join (c_Audience client) " ")));
  mret {| c_ID := id; c_OwnerID := c_OwnerID client; c_Name := c_Name client;
          c_Secret := hashedSecret; c_Audience := c_Audience client |}.

(** Deleting a client that does not exist is no error. *)
Definition DeleteOAuthClient (ctx : Context) (clientID : PrefixedID) : M () :=
  tx ← lift (getContextTx ctx);
  tx_write tx (sql_delete_client clientID).

Definition LookupOAuthClientByID (ctx : Context) (clientID : PrefixedID) : M OAuthClient :=
  if decide (clientID = "") then fail ErrOAuthClientNotFound
  else
    x ← no_rows_eq (query_row ctx (λ d, pair clientID <$> oauth_clients d !! clientID))
      ErrOAuthClientNotFound;
    mret (row_OAuthClient x).

Definition GetClient (ctx : Context) (id : string) : M OAuthClient :=
  clientID ← lift (gidx_Parse id);
  LookupOAuthClientByID ctx clientID.

Definition GetOwnerOAuthClients (ctx : Context) (id : PrefixedID) (pagination : Paginator)
    : M (list OAuthClient) :=
  rows ← paged_read oauthClientColumns client_row_col ctx pagination "" (λ d,
    filter (λ x, cr_owner_id x.2 = id) (map_to_list (oauth_clients d)));
  mret (row_OAuthClient <$> rows).

(** The methods that panic. *)
Definition ClientAssertionJWTValid (ctx : Context) (jti : string) : M () := panic "unimplemented".
Definition SetClientAssertionJWT (ctx : Context) (jti exp : string) : M () := panic "unimplemented".
End clients.

(** ** Lemmas *)

Lemma sql_insert_client_wf id r : stmt_wf (sql_insert_client id r).
Proof.
  intros d a d' [] Hs. unfold sql_insert_client in Hs. case_decide; [done|].
  injection Hs as _ <-. by split.
Qed.

Lemma sql_delete_client_wf id : stmt_wf (sql_delete_client id).
Proof. intros d a d' [] [= _ <-]. by split. Qed.
#[export] Hint Resolve sql_insert_client_wf sql_delete_client_wf : wf.

Section frames.
Context {E : Env} {H : Hasher} (ctx : Context) (R : relation World) `{HR : !StoreRel ctx R}.

Lemma hash_secret_frame s : keeps R (hash_secret s).
Proof using HR. intros w. apply store_tick. Qed.
Hint Resolve hash_secret_frame : frame.
Lemma CreateOAuthClient_frame c : keeps R (CreateOAuthClient ctx c).
Proof using HR. unfold CreateOAuthClient. frame. Qed.
Lemma DeleteOAuthClient_frame id : keeps R (DeleteOAuthClient ctx id).
Proof using HR. unfold DeleteOAuthClient. frame. Qed.
Lemma LookupOAuthClientByID_frame id : keeps R (LookupOAuthClientByID ctx id).
Proof using HR. unfold LookupOAuthClientByID. frame. Qed.
Hint Resolve LookupOAuthClientByID_frame : frame.
Lemma GetClient_frame id : keeps R (GetClient ctx id).
Proof using HR. unfold GetClient. frame. Qed.
Lemma GetOwnerOAuthClients_frame id p : keeps R (GetOwnerOAuthClients ctx id p).
Proof using HR. unfold GetOwnerOAuthClients. frame. Qed.
End frames.
#[export] Hint Resolve CreateOAuthClient_frame DeleteOAuthClient_frame LookupOAuthClientByID_frame
  GetClient_frame GetOwnerOAuthClients_frame : frame.

(** ** Properties *)

Section service.
Context {E : Env} `{!Reliable E} `{HasherLaws}.

Lemma wp_hash_secret s w (Φ : result string → World → Prop) :
  Φ (Hash (tick w) s) (next_tick w) → wp (hash_secret s) w Φ.
Proof. done. Qed.

Lemma wp_GetClient ctx id r w t d (Φ : result OAuthClient → World → Prop) :
  in_tx ctx t w d → gidx_Parse id = Ok id → id ≠ "" → oauth_clients d !! id = Some r →
  (∀ f, Φ (Ok (row_OAuthClient (id, r))) (next_tick (rerun t f w))) → wp (GetClient ctx id) w Φ.
Proof.
  intros Hw Hparse Hne Hr HΦ. unfold GetClient, LookupOAuthClientByID, no_rows_eq, query_row.
  wp. rewrite Hparse, decide_False by done. wp. rewrite Hr. apply HΦ.
Qed.

(** The client that [CreateOAuthClient] stores is the one that
    [GetClient] then loads for authentication: it has a fresh identifier, the
    secret is stored only as a hash, which the given secret passes, and the
    audience is read back as the words of the audiences that were given, that
    is, unchanged when they contain no white space. *)
Theorem CreateOAuthClient_roundtrip ctx client id w t d :
  in_tx ctx t w d →
  gidx_NewID (S (tick w)) IdentityClientIDPrefix = Ok id → id ≠ "" → gidx_Parse id = Ok id →
  oauth_clients d !! id = None →
  let '(r, w1) := CreateOAuthClient ctx client w in
  match r with
  | Ok c =>
    c_ID c = id ∧ c_OwnerID c = c_OwnerID client ∧ c_Name c = c_Name client ∧
    c_Audience c = c_Audience client ∧ Compare (c_Secret c) (c_Secret client) = true ∧
    ∃ c' w2, GetClient ctx id w1 = (Ok c', w2) ∧
      c_ID c' = id ∧ c_OwnerID c' = c_OwnerID c ∧ c_Name c' = c_Name c ∧ c_Secret c' = c_Secret c ∧
      c_Audience c' = c_Audience client ≫= Fields ∧
      (Forall is_field (c_Audience client) → c_Audience c' = c_Audience client)
  | Err e => Hash (tick w) (c_Secret client) = Err e ∧ txs w1 !! t = Some (TxOpen d)
  | Panic s => Hash (tick w) (c_Secret client) = Panic s
  end.
Proof.
  intros Hw Hid Hne Hparse Hnew. apply wp_elim. unfold CreateOAuthClient. wp.
  apply wp_hash_secret. destruct (Hash (tick w) (c_Secret client)) as [h|e|s] eqn:Hh;
    [|split; [done|apply Hw]|done].
  wp. simpl. rewrite Hid. wp. unfold sql_insert_client. rewrite decide_False by (rewrite Hnew; by intros []).
  wp. split_and!; [done..|by eapply Compare_Hash|].
  set (r := ClientRow _ _ _ _).
  match goal with |- context [GetClient ctx id ?w1] =>
    assert (in_tx ctx t w1 (with_clients <[id := r]> d)) as Hw1 by wp_in_tx; revert Hw1;
    generalize w1 end.
  intros w1 Hw1.
  assert (wp (GetClient ctx id) w1 (λ res _, res = Ok (row_OAuthClient (id, r)))) as Hget.
  { eapply wp_GetClient; [done..| |done]. simpl. apply lookup_insert_eq. }
  apply wp_elim in Hget. destruct (GetClient ctx id w1) as [res w2] eqn:Hw2. subst res.
  eexists _, w2. split_and!; [done..| |]; simpl.
  - apply Fields_Join.
  - intros Hf. rewrite Fields_Join. by apply Fields_words.
Qed.
End service.

(** *** At a concrete input *)

Definition plain_hasher : Hasher :=
  {| Hash n s := Ok (String "#" s); Compare h s := bool_decide (h = String "#" s) |}.

#[global] Instance plain_hasher_laws : HasherLaws plain_hasher.
Proof. split. intros n s h [= <-]. by apply bool_decide_eq_true. Qed.

Definition sample_client : OAuthClient :=
  {| c_ID := ""; c_OwnerID := "tnntten-1"; c_Name := "cli"; c_Secret := "s3cret";
     c_Audience := ["https://api.example"; "two words"] |}.

Lemma CreateOAuthClient_roundtrip_witness :
  let '(r, w1) := CreateOAuthClient (H:=quiet_env) (H0:=plain_hasher) ctx_0 sample_client
    (world_in_tx sample_DB) in
  match r with
  | Ok c => ∃ c' w2, GetClient (H:=quiet_env) ctx_0 "idntcli-1" w1 = (Ok c', w2) ∧
      c_Audience c' = ["https://api.example"; "two"; "words"]
  | _ => False
  end.
Proof.
  pose proof (CreateOAuthClient_roundtrip (E:=quiet_env) (H:=plain_hasher) ctx_0 sample_client
    "idntcli-1" (world_in_tx sample_DB) 0 sample_DB ltac:(by split) eq_refl ltac:(discriminate)
    eq_refl eq_refl) as H.
  destruct (CreateOAuthClient _ _ _) as [[c|e|s] w1]; [|destruct H as [H _]; simpl in H; discriminate|simpl in H; discriminate].
  destruct H as (_ & _ & _ & _ & _ & c' & w2 & Hget & _ & _ & _ & _ & Haud & _).
  exists c', w2. split; [exact Hget|]. rewrite Haud. reflexivity.
Defined.
