(* ===== verification/Migrations.v ===== *)
(** The schema: the migrations of [internal/storage/migrations] as statements
    on a catalog with its rows, what they make of any tables, that the tables
    of the model ([World.DB] with [World.db_wf]) are the schema they lead to, and
    that the statements of the services check it. *)
From S2P Require Import Prelude GoStrings Errors Utf8 Pagination V1 ListQuery World.
From S2P Require Import Cel Types Storage GroupStore UserStore IssuerStore ClientStore.

(** ** Catalogs *)

(** [VARCHAR(n)] and [VARCHAR], the only types. *)
Definition sql_type : Type := option nat.

Record column : Type := Column {
  col_name : string;
  col_type : sql_type;
  col_not_null : bool;
  col_default : option string;
}.

Inductive table_constraint : Type :=
  | PRIMARY_KEY (columns : list string)
  | UNIQUE (columns : list string)
  | REFERENCES (column table target : string).

Record table : Type := Table {
  t_columns : list column;
  t_constraints : list table_constraint;
  t_indexes : list (string * list string);
}.

Abbreviation catalog := (gmap string table).

Inductive ddl : Type :=
  | CREATE_TABLE (name : string) (columns : list column) (constraints : list table_constraint)
  | DROP_TABLE (name : string)
  | ALTER_COLUMN_TYPE (name column : string) (type : sql_type)
  | ADD_COLUMN (name : string) (c : column)
  | DROP_COLUMN (name column : string)
  | CREATE_INDEX (if_not_exists : bool) (index name : string) (columns : list string)
  | DROP_INDEX (index : string).

Definition undefined_table : error := PQError "42P01" "relation does not exist".
Definition duplicate_table : error := PQError "42P07" "relation already exists".
Definition duplicate_column : error := PQError "42701" "column already exists".
Definition dependent_objects : error := PQError "2BP01" "other objects depend on it".
Definition undefined_object : error := PQError "42704" "index does not exist".
Definition value_too_long : error := PQError "22001" "value too long for type".
Definition not_null_violation : error := PQError "23502" "null value violates not-null constraint".

Definition column_names (t : table) : list string := col_name <$> t_columns t.

(** The columns of its own table that a constraint is about. *)
Definition constraint_columns (k : table_constraint) : list string :=
  match k with PRIMARY_KEY cs | UNIQUE cs => cs | REFERENCES c _ _ => [c] end.
Definition refers_to (name : string) (k : table_constraint) : bool :=
  match k with REFERENCES _ t _ => bool_decide (t = name) | _ => false end.
Definition target_exists (cat : catalog) (k : table_constraint) : bool :=
  match k with REFERENCES _ t _ => bool_decide (is_Some (cat !! t)) | _ => true end.

(** Some constraint of a table of the catalog satisfies [f]. *)
Definition some_constraint (cat : catalog) (f : string → table_constraint → bool) : bool :=
  existsb (λ kt, existsb (f kt.1) (t_constraints kt.2)) (map_to_list cat).

Definition with_columns (f : list column → list column) (t : table) : table :=
  Table (f (t_columns t)) (t_constraints t) (t_indexes t).
Definition with_indexes (f : list (string * list string) → list (string * list string)) (t : table) : table :=
  Table (t_columns t) (t_constraints t) (f (t_indexes t)).

Definition set_type (c : string) (ty : sql_type) (col : column) : column :=
  if decide (col_name col = c) then Column c ty (col_not_null col) (col_default col) else col.

(** What a statement does to the catalog. *)
Definition change (s : ddl) (cat : catalog) : error + catalog :=
  match s with
  | CREATE_TABLE name columns constraints =>
    if decide (is_Some (cat !! name)) then inl duplicate_table
    else if negb (forallb (target_exists cat) constraints) then inl undefined_table
    else if negb (bool_decide ((constraints ≫= constraint_columns) ⊆ col_name <$> columns))
    then inl undefined_column
    else inr (<[name := Table columns constraints []]> cat)
  | DROP_TABLE name =>
    if decide (cat !! name = None) then inl undefined_table
    else if some_constraint cat (λ n k, negb (bool_decide (n = name)) && refers_to name k)
    then inl dependent_objects
    else inr (delete name cat)
  | ALTER_COLUMN_TYPE name c ty =>
    match cat !! name with
    | None => inl undefined_table
    | Some t =>
      if decide (c ∈ column_names t) then
        inr (<[name := with_columns (fmap (set_type c ty)) t]> cat)
      else inl undefined_column
    end
  | ADD_COLUMN name c =>
    match cat !! name with
    | None => inl undefined_table
    | Some t =>
      if decide (col_name c ∈ column_names t) then inl duplicate_column
      else inr (<[name := with_columns (λ cs, cs ++ [c]) t]> cat)
    end
  | DROP_COLUMN name c =>
    match cat !! name with
    | None => inl undefined_table
    | Some t =>
      if decide (c ∉ column_names t) then inl undefined_column
      else if existsb (λ k, bool_decide (c ∈ constraint_columns k)) (t_constraints t) ||
              existsb (λ i, bool_decide (c ∈ i.2)) (t_indexes t) ||
              some_constraint cat (λ _ k, match k with
                REFERENCES _ t' c' => bool_decide (t' = name ∧ c' = c) | _ => false end)
      then inl dependent_objects
      else inr (<[name := with_columns (filter (λ col, col_name col ≠ c)) t]> cat)
    end
  | CREATE_INDEX if_not_exists index name columns =>
    match cat !! name with
    | None => inl undefined_table
    | Some t =>
      if negb (bool_decide (columns ⊆ column_names t)) then inl undefined_column
      else if decide (index ∈ (t_indexes t).*1) then
        if if_not_exists : bool then inr cat else inl duplicate_table
      else inr (<[name := with_indexes (cons (index, columns)) t]> cat)
    end
  | DROP_INDEX index =>
    if existsb (λ kt, bool_decide (index ∈ (t_indexes kt.2).*1)) (map_to_list cat)
    then inr (with_indexes (filter (λ i, i.1 ≠ index)) <$> cat)
    else inl undefined_object
  end.

(** ** Rows

    A row gives a value to some columns; the others are null. *)
Definition row : Type := string → option string.

Record store : Type := Store {
  cat : catalog;
  rows : string → list row;
}.

(** A length is counted in characters. *)
Definition fits (ty : sql_type) (v : string) : bool :=
  match ty with Some n => bool_decide (length (runes v) ≤ n) | None => true end.

Definition set_rows (name : string) (l : list row) (r : string → list row) : string → list row :=
  λ n, if decide (n = name) then l else r n.
Definition set_cell (c : string) (v : option string) (r : row) : row :=
  λ c', if decide (c' = c) then v else r c'.

(** What a statement does to the rows. *)
Definition rewrite_rows (s : ddl) (r : string → list row) : error + (string → list row) :=
  match s with
  | CREATE_TABLE name _ _ | DROP_TABLE name => inr (set_rows name [] r)
  | ALTER_COLUMN_TYPE name c ty =>
    if forallb (λ x : row, match x c with Some v => fits ty v | None => true end) (r name)
    then inr r else inl value_too_long
  | ADD_COLUMN name c =>
    match col_default c with
    | Some v => inr (set_rows name (set_cell (col_name c) (Some v) <$> r name) r)
    | None =>
      if decide (col_not_null c = true ∧ r name ≠ []) then inl not_null_violation
      else inr r
    end
  | DROP_COLUMN name c => inr (set_rows name (set_cell c None <$> r name) r)
  | CREATE_INDEX _ _ _ _ | DROP_INDEX _ => inr r
  end.

Definition exec (s : ddl) (st : store) : error + store :=
  match change s (cat st) with
  | inl e => inl e
  | inr cat' =>
    match rewrite_rows s (rows st) with
    | inl e => inl e
    | inr rows' => inr (Store cat' rows')
    end
  end.

Fixpoint exec_all (l : list ddl) (st : store) : error + store :=
  match l with
  | [] => inr st
  | s :: l => match exec s st with inl e => inl e | inr st' => exec_all l st' end
  end.

(** ** The migrations *)

Definition not_null (name : string) (ty : sql_type) : column := Column name ty true None.
Definition nullable (name : string) (ty : sql_type) : column := Column name ty false None.

Record migration : Type := Migration {
  m_version : nat;
  m_up : list ddl;
  m_down : list ddl;
}.

Definition m0001_initial : migration := Migration 1
  [CREATE_TABLE "issuers"
     [not_null "id" (Some 29); not_null "owner_id" (Some 29); not_null "uri" None;
      not_null "name" None; not_null "jwksuri" None; nullable "mappings" None]
     [PRIMARY_KEY ["id"]; UNIQUE ["uri"]];
   CREATE_TABLE "user_info"
     [not_null "id" (Some 29); not_null "name" None; not_null "email" None; not_null "sub" None;
      not_null "iss_id" (Some 29)]
     [PRIMARY_KEY ["id"]; REFERENCES "iss_id" "issuers" "id"; UNIQUE ["iss_id"; "sub"]]] [].

Definition m0002_oauth_client : migration := Migration 2
  [CREATE_TABLE "oauth_clients"
     [not_null "id" (Some 29); not_null "owner_id" (Some 29); not_null "name" None;
      not_null "secret" None; not_null "audience" None]
     [PRIMARY_KEY ["id"]]] [].

Definition m0003_ids_to_string : migration := Migration 3
  [ALTER_COLUMN_TYPE "issuers" "id" None; ALTER_COLUMN_TYPE "issuers" "owner_id" None;
   ALTER_COLUMN_TYPE "user_info" "id" None; ALTER_COLUMN_TYPE "user_info" "iss_id" None;
   ALTER_COLUMN_TYPE "oauth_clients" "id" None; ALTER_COLUMN_TYPE "oauth_clients" "owner_id" None] [].

Definition m0004_groups : migration := Migration 4
  [CREATE_TABLE "groups"
     [not_null "id" None; not_null "owner_id" None; not_null "name" None;
      Column "description" None true (Some "")]
     [PRIMARY_KEY ["id"]; UNIQUE ["owner_id"; "name"]]]
  [DROP_TABLE "groups"].

Definition m0005_group_membership : migration := Migration 5
  [CREATE_TABLE "group_members" [not_null "group_id" None; not_null "subject_id" None]
     [REFERENCES "group_id" "groups" "id"; PRIMARY_KEY ["group_id"; "subject_id"]];
   CREATE_INDEX true "group_memberships_subject_id_index" "group_members" ["subject_id"]]
  [DROP_INDEX "group_memberships_subject_id_index"; DROP_TABLE "group_members"].

Definition m0006_claim_conditions : migration := Migration 6
  [ADD_COLUMN "issuers" (nullable "conditions" None)]
  [DROP_COLUMN "issuers" "conditions"].

(** [embedMigrations]. *)
Definition embedMigrations : list migration :=
  [m0001_initial; m0002_oauth_client; m0003_ids_to_string; m0004_groups;
   m0005_group_membership; m0006_claim_conditions].

(** The catalog after some of them. *)
Fixpoint change_all (l : list ddl) (c : catalog) : option catalog :=
  match l with
  | [] => Some c
  | s :: l => match change s c with inl _ => None | inr c' => change_all l c' end
  end.
Definition catalog_at (n : nat) : catalog := default ∅ (change_all (take n embedMigrations ≫= m_up) ∅).

(** ** Constraints *)

(** The rows agree on columns that are not null in either. *)
Definition agree (cs : list string) (r1 r2 : row) : Prop :=
  ∀ c, c ∈ cs → is_Some (r1 c) ∧ r1 c = r2 c.
Definition unique_rows (cs : list string) (l : list row) : Prop :=
  ∀ i j r1 r2, l !! i = Some r1 → l !! j = Some r2 → agree cs r1 r2 → i = j.

Definition filled (cs : list string) (l : list row) : Prop :=
  ∀ r c, r ∈ l → c ∈ cs → is_Some (r c).
(** Each value of column [c] is one of column [target] in [m]. *)
Definition refers (c : string) (l : list row) (target : string) (m : list row) : Prop :=
  ∀ r v, r ∈ l → r c = Some v → ∃ r', r' ∈ m ∧ r' target = Some v.

Definition holds (st : store) (l : list row) (k : table_constraint) : Prop :=
  match k with
  | PRIMARY_KEY cs => unique_rows cs l ∧ filled cs l
  | UNIQUE cs => unique_rows cs l
  | REFERENCES c t target => is_Some (cat st !! t) ∧ refers c l target (rows st t)
  end.

(** The values of a row are in columns of the table, of their types, and not
    null where that is asked. *)
Record row_ok (t : table) (r : row) : Prop := {
  row_columns : ∀ c v, r c = Some v → ∃ col, col ∈ t_columns t ∧ col_name col = c ∧ fits (col_type col) v = true;
  row_not_null : ∀ col, col ∈ t_columns t → col_not_null col = true → is_Some (r (col_name col));
}.

Record table_ok (st : store) (name : string) (t : table) : Prop := {
  table_rows : ∀ r, r ∈ rows st name → row_ok t r;
  table_names : NoDup (column_names t);
  table_constraints : ∀ k, k ∈ t_constraints t → holds st (rows st name) k ∧ constraint_columns k ⊆ column_names t;
}.

(** The rows satisfy the schema. *)
Definition valid_store (st : store) : Prop := ∀ name t, cat st !! name = Some t → table_ok st name t.

(** ** Lemmas *)

(** Statements that neither remove nor narrow anything. *)
Definition grows (s : ddl) : bool :=
  match s with
  | CREATE_TABLE _ columns _ => bool_decide (NoDup (col_name <$> columns))
  | ALTER_COLUMN_TYPE _ _ ty => bool_decide (ty = None)
  | ADD_COLUMN _ c => negb (col_not_null c) && bool_decide (col_default c = None)
  | CREATE_INDEX _ _ _ _ => true
  | _ => false
  end.

Lemma holds_other st name l k l' :
  cat st !! name = None ∨ l' = rows st name → holds st l k →
  ∀ cat', (∀ n, is_Some (cat st !! n) → is_Some (cat' !! n)) →
  holds (Store cat' (set_rows name l' (rows st))) l k.
Proof.
  intros Hname Hk cat' Hcat. destruct k as [cs|cs|c t target]; [done..|].
  destruct Hk as [Ht Hk]. split; [by apply Hcat|]. intros r v Hr Hv.
  destruct (Hk r v Hr Hv) as (r' & Hr' & Hv'). exists r'. split; [|done].
  unfold set_rows. simpl. case_decide as Hn; [|done]. subst t.
  destruct Hname as [Hname| ->]; [|done]. rewrite Hname in Ht. by destruct Ht.
Qed.

(** The rows of a statement that grows stay as they are, but for the table that
    it creates, which has none. *)
Lemma grows_rows s r : grows s = true →
  rewrite_rows s r = inr (match s with CREATE_TABLE name _ _ => set_rows name [] r | _ => r end).
Proof.
  destruct s as [| |name c ty|name c| | |]; simpl; try done.
  - intros ->%bool_decide_eq_true.
    assert (forallb (λ x : row, match x c with Some v => fits None v | None => true end) (r name) = true) as ->; [|done].
    apply forallb_forall. intros x _. by destruct (x c).
  - intros [Hn%negb_true_iff ->%bool_decide_eq_true]%andb_true_iff.
    rewrite Hn, decide_False; [done|]. by intros [? _].
Qed.

Lemma grows_exec s st : grows s = true →
  exec s st = match change s (cat st) with
              | inl e => inl e
              | inr cat' => inr (Store cat' (match s with
                                             | CREATE_TABLE name _ _ => set_rows name [] (rows st)
                                             | _ => rows st
                                             end))
              end.
Proof. intros Hs. unfold exec. by rewrite grows_rows. Qed.

Lemma NoDup_snoc {A} (l : list A) x : NoDup l → x ∉ l → NoDup (l ++ [x]).
Proof.
  intros Hl Hx. apply NoDup_app. split_and!; [done| |by apply NoDup_singleton].
  intros y Hy ->%list_elem_of_singleton. done.
Qed.

(** A statement that grows keeps every table that there was. *)
Lemma grows_keeps s c c' : grows s = true → change s c = inr c' →
  ∀ n, is_Some (c !! n) → is_Some (c' !! n).
Proof.
  intros Hg Hs n Hn. destruct s as [name cols ks| |name col ty|name col| |ine i name cs|]; simpl in *; try done.
  - repeat case_match; simplify_eq. apply lookup_insert_is_Some'. by right.
  - repeat case_match; simplify_eq. apply lookup_insert_is_Some'. by right.
  - repeat case_match; simplify_eq. apply lookup_insert_is_Some'. by right.
  - repeat case_match; simplify_eq; [done|]. apply lookup_insert_is_Some'. by right.
Qed.

(** A table whose columns change, and its rows and constraints do not. *)
Lemma table_ok_columns st name t t' cat' :
  table_ok st name t → t_constraints t' = t_constraints t →
  (∀ n, is_Some (cat st !! n) → is_Some (cat' !! n)) →
  NoDup (column_names t') → column_names t ⊆ column_names t' →
  (∀ r, row_ok t r → row_ok t' r) →
  table_ok (Store cat' (rows st)) name t'.
Proof.
  intros [Hr _ Hk] Hks Hcat Hnd Hsub Hrow. split; [by auto|done|].
  rewrite Hks. intros k Hin. destruct (Hk k Hin) as [Hh Hc]. split; [|by etrans].
  destruct k as [cs|cs|c u target]; [done..|]. destruct Hh as [Hu Hv]. split; [by apply Hcat|done].
Qed.

Lemma set_type_name c ty col : col_name (set_type c ty col) = col_name col.
Proof. unfold set_type. by case_decide. Qed.

Lemma row_ok_widened t c r : row_ok t r → row_ok (with_columns (fmap (set_type c None)) t) r.
Proof.
  intros [Hc Hn]. split; simpl.
  - intros c' v Hv. destruct (Hc c' v Hv) as (col & Hcol & Hname & Hfits).
    exists (set_type c None col). rewrite set_type_name. split_and!; [by apply list_elem_of_fmap_2|done|].
    unfold set_type. by case_decide.
  - intros col' (col & -> & Hcol)%list_elem_of_fmap. rewrite set_type_name. intros Hnn.
    apply (Hn col Hcol). revert Hnn. unfold set_type. by case_decide.
Qed.

Lemma row_ok_added t c r :
  col_not_null c = false → row_ok t r → row_ok (with_columns (λ cs, cs ++ [c]) t) r.
Proof.
  intros Hc [Hr Hn]. split; simpl.
  - intros c' v Hv. destruct (Hr c' v Hv) as (col & Hcol & ?). exists col.
    split; [apply elem_of_app; by left|done].
  - intros col [Hcol| ->%list_elem_of_singleton]%elem_of_app; [by apply Hn|congruence].
Qed.

Lemma create_preserves st name cols ks cat' :
  NoDup (col_name <$> cols) → valid_store st → change (CREATE_TABLE name cols ks) (cat st) = inr cat' →
  valid_store (Store cat' (set_rows name [] (rows st))).
Proof.
  intros Hcolsnd Hst Hchange n u Hn. simpl in Hchange, Hn. case_decide as Hnone; [done|].
  destruct (forallb _ _) eqn:Htargets; [|done]. case_bool_decide as Hcols; [|done]. injection Hchange as <-.
  assert (cat st !! name = None) as Hnew by (by apply eq_None_not_Some).
  assert (∀ n, is_Some (cat st !! n) → is_Some (<[name := Table cols ks []]> (cat st) !! n)) as Hkeeps.
  { intros n' Hn'. apply lookup_insert_is_Some'. by right. }
  apply lookup_insert_Some in Hn as [[<- <-]|[Hne Hn]].
  - assert (set_rows name [] (rows st) name = []) as Hrows by (unfold set_rows; by rewrite decide_True).
    split; simpl; rewrite ?Hrows; [by intros r ?%elem_of_nil|done|]. intros k Hk. split.
    2:{ intros c Hc. apply Hcols, list_elem_of_bind. eauto. }
    assert (target_exists (cat st) k = true) as Hk'
      by (by apply (proj1 (forallb_forall _ _) Htargets), list_elem_of_In).
    destruct k as [cs|cs|c t target]; simpl.
    + split; [by intros i j r1 r2|by intros r c ?%elem_of_nil].
    + by intros i j r1 r2.
    + simpl in Hk'. apply bool_decide_eq_true in Hk'. split; [by apply Hkeeps|by intros r v ?%elem_of_nil].
  - destruct (Hst n u Hn) as [Hr Hnd Hk].
    assert (set_rows name [] (rows st) n = rows st n) as Hrows by (unfold set_rows; by rewrite decide_False).
    split; simpl; rewrite ?Hrows; [done..|]. intros k Hin. destruct (Hk k Hin) as [Hh Hc].
    split; [|done]. apply holds_other; [by left|done..].
Qed.

(** One table with other columns. *)
Lemma columns_preserve st name t t' :
  valid_store st → cat st !! name = Some t → t_constraints t' = t_constraints t →
  NoDup (column_names t') → column_names t ⊆ column_names t' → (∀ r, row_ok t r → row_ok t' r) →
  valid_store (Store (<[name := t']> (cat st)) (rows st)).
Proof.
  intros Hst Ht Hks Hnd Hsub Hrow n u Hn. simpl in Hn.
  assert (∀ n, is_Some (cat st !! n) → is_Some (<[name := t']> (cat st) !! n)) as Hkeeps.
  { intros n' Hn'. apply lookup_insert_is_Some'. by right. }
  apply lookup_insert_Some in Hn as [[<- <-]|[Hne Hn]].
  - eapply table_ok_columns; [by apply Hst|done..].
  - pose proof (Hst n u Hn) as Hu. eapply table_ok_columns; [done|done|done|apply Hu|done|done].
Qed.

Lemma set_type_names c ty t : column_names (with_columns (fmap (set_type c ty)) t) = column_names t.
Proof.
  unfold column_names. simpl. rewrite <-list_fmap_compose. apply list_fmap_ext. intros. apply set_type_name.
Qed.

Lemma grows_preserves s st st' :
  grows s = true → valid_store st → exec s st = inr st' → valid_store st'.
Proof.
  intros Hg Hst Hrun. rewrite grows_exec in Hrun by done.
  destruct (change s (cat st)) as [e|cat'] eqn:Hchange; [done|]. injection Hrun as <-.
  destruct s as [name cols ks| |name c ty|name c| |ine i name cs|]; try done; cbn [grows] in Hg.
  - apply bool_decide_eq_true in Hg. by eapply create_preserves.
  - simpl in Hchange. apply bool_decide_eq_true in Hg as ->.
    destruct (cat st !! name) as [t|] eqn:Ht; [|done]. case_decide; [|done]. injection Hchange as <-.
    eapply columns_preserve; [done|done|done|rewrite set_type_names|by rewrite set_type_names|].
    + apply (Hst _ _ Ht).
    + intros r. apply row_ok_widened.
  - simpl in Hchange. apply andb_true_iff in Hg as [Hnull%negb_true_iff _].
    destruct (cat st !! name) as [t|] eqn:Ht; [|done]. case_decide; [done|]. injection Hchange as <-.
    eapply columns_preserve; [done|done|done| | |intros r; by apply row_ok_added];
      unfold column_names; simpl; rewrite fmap_app.
    + apply NoDup_snoc; [apply (Hst _ _ Ht)|done].
    + intros x Hx. apply elem_of_app. by left.
  - simpl in Hchange. destruct (cat st !! name) as [t|] eqn:Ht; [|done].
    destruct (negb _); [done|]. case_decide.
    { destruct ine; [|done]. injection Hchange as <-. by destruct st. }
    injection Hchange as <-. eapply columns_preserve; [done|done|done|apply (Hst _ _ Ht)|done|].
    intros r [Hc Hnn]. by split.
Qed.

Lemma change_all_app l1 l2 c : change_all (l1 ++ l2) c = change_all l1 c ≫= change_all l2.
Proof.
  revert c. induction l1 as [|s l1 IH]; intros c; [done|]. simpl. destruct (change s c); [done|]. apply IH.
Qed.

(** A table that is not created keeps its rows. *)
Lemma exec_grows_rows s st st' name :
  grows s = true → exec s st = inr st' → is_Some (cat st !! name) → rows st' name = rows st name.
Proof.
  intros Hg Hrun Hname. rewrite grows_exec in Hrun by done.
  destruct (change s (cat st)) as [e|cat'] eqn:Hs; [done|]. injection Hrun as <-.
  destruct s as [n cols ks| | | | | |]; try done. simpl in *. unfold set_rows.
  rewrite decide_False; [done|]. intros ->. by case_decide.
Qed.

(** A table that is there after a statement and was not before was created. *)
Lemma grows_creates s c c1 r name t :
  grows s = true → change s c = inr c1 → c !! name = None → c1 !! name = Some t →
  match s with CREATE_TABLE n _ _ => set_rows n [] r | _ => r end name = [].
Proof.
  intros Hg Hs Hnone Ht.
  assert (∀ n t', c1 = <[n := t']> c → n = name) as Hins.
  { intros n t' Hc1. rewrite Hc1 in Ht. apply lookup_insert_Some in Ht as [[-> _]|[_ Hold]]; [done|].
    by rewrite Hnone in Hold. }
  destruct s as [n cols ks| |n col ty|n col| |ine i n cs|]; try done; simpl in Hs.
  - case_decide; [done|]. destruct (negb _); [done|]. destruct (negb _); [done|]. injection Hs as <-.
    rewrite (Hins n _ eq_refl). unfold set_rows. by rewrite decide_True.
  - destruct (c !! n) as [t'|] eqn:Hn; [|done]. case_decide; [|done]. injection Hs as <-.
    rewrite (Hins n _ eq_refl) in Hn. congruence.
  - destruct (c !! n) as [t'|] eqn:Hn; [|done]. case_decide; [done|]. injection Hs as <-.
    rewrite (Hins n _ eq_refl) in Hn. congruence.
  - destruct (c !! n) as [t'|] eqn:Hn; [|done]. destruct (negb _); [done|].
    case_decide; [destruct ine; [|done]; congruence|]. injection Hs as <-.
    rewrite (Hins n _ eq_refl) in Hn. congruence.
Qed.

Lemma exec_all_grows l st c' :
  forallb grows l = true → change_all l (cat st) = Some c' → valid_store st →
  ∃ st', exec_all l st = inr st' ∧ cat st' = c' ∧ valid_store st' ∧
    (∀ name, is_Some (cat st !! name) → rows st' name = rows st name) ∧
    (∀ name, cat st !! name = None → is_Some (c' !! name) → rows st' name = []).
Proof.
  revert st. induction l as [|s l IH]; intros st Hg Hc Hst; simpl in *.
  { injection Hc as <-. exists st. split_and!; [done..|]. by intros name -> [? ?]. }
  apply andb_true_iff in Hg as [Hs Hl]. destruct (change s (cat st)) as [e|c1] eqn:Hchange; [done|].
  assert (exec s st = inr (Store c1 (match s with CREATE_TABLE name _ _ => set_rows name [] (rows st) | _ => rows st end)))
    as Hrun by (by rewrite grows_exec, Hchange).
  rewrite Hrun. set (st1 := Store c1 _) in *.
  pose proof (grows_preserves _ _ _ Hs Hst Hrun) as Hst1.
  destruct (IH st1 Hl Hc Hst1) as (st' & Hrun' & Hcat & Hst' & Hkept & Hnew).
  exists st'. split_and!; [done..| |].
  - intros name Hname. rewrite Hkept; [by eapply exec_grows_rows|]. by eapply grows_keeps.
  - intros name Hnone Hsome. destruct (c1 !! name) as [t|] eqn:Ht; [|by apply Hnew].
    rewrite Hkept by done. subst st1. simpl. by eapply grows_creates.
Qed.

Lemma catalog_at_rest n :
  change_all (drop n embedMigrations ≫= m_up) (catalog_at n) = Some (catalog_at (length embedMigrations)).
Proof.
  assert (is_Some (change_all (embedMigrations ≫= m_up) ∅)) as [c Hc]
    by (eexists; vm_compute; reflexivity).
  pose proof Hc as Hsplit. rewrite <-(take_drop n embedMigrations), bind_app, change_all_app in Hsplit.
  unfold catalog_at. rewrite firstn_all, Hc.
  destruct (change_all (take n embedMigrations ≫= m_up) ∅) as [cn|]; done.
Qed.

(** ** The tables of the model *)

Fixpoint row_of (l : list (string * option string)) : row := λ c,
  match l with
  | [] => None
  | (c', v) :: l => if String.eqb c c' then v else row_of l c
  end.

Definition group_cells (x : PrefixedID * group_row) : row :=
  row_of [("id", Some x.1); ("owner_id", Some (gr_owner_id x.2)); ("name", Some (gr_name x.2));
          ("description", Some (gr_description x.2))].
Definition member_cells (x : PrefixedID * PrefixedID) : row :=
  row_of [("group_id", Some x.1); ("subject_id", Some x.2)].
Definition issuer_cells (x : PrefixedID * issuer_row) : row :=
  row_of [("id", Some x.1); ("owner_id", Some (ir_owner_id x.2)); ("uri", Some (ir_uri x.2));
          ("name", Some (ir_name x.2)); ("jwksuri", Some (ir_jwksuri x.2));
          ("mappings", ir_mappings x.2); ("conditions", ir_conditions x.2)].
Definition user_cells (x : PrefixedID * user_row) : row :=
  row_of [("id", Some x.1); ("name", Some (ur_name x.2)); ("email", Some (ur_email x.2));
          ("sub", Some (ur_sub x.2)); ("iss_id", Some (ur_iss_id x.2))].
Definition client_cells (x : PrefixedID * client_row) : row :=
  row_of [("id", Some x.1); ("owner_id", Some (cr_owner_id x.2)); ("name", Some (cr_name x.2));
          ("secret", Some (cr_secret x.2)); ("audience", Some (cr_audience x.2))].

(** The rows of the tables. *)
Definition encode (d : DB) : string → list row := λ name,
  if decide (name = "groups") then group_cells <$> map_to_list (groups d)
  else if decide (name = "group_members") then member_cells <$> elements (group_members d)
  else if decide (name = "issuers") then issuer_cells <$> map_to_list (issuers d)
  else if decide (name = "user_info") then user_cells <$> map_to_list (user_info d)
  else if decide (name = "oauth_clients") then client_cells <$> map_to_list (oauth_clients d)
  else [].

(** The tables with the schema of all the migrations. *)
Definition migrated (r : string → list row) : store := Store (catalog_at (length embedMigrations)) r.

Definition varchar (c : string) : column := not_null c None.

(** What the migrations come to. *)
Definition schema : list (string * table) :=
  [("issuers", Table [varchar "id"; varchar "owner_id"; varchar "uri"; varchar "name"; varchar "jwksuri";
                      nullable "mappings" None; nullable "conditions" None]
                     [PRIMARY_KEY ["id"]; UNIQUE ["uri"]] []);
   ("user_info", Table [varchar "id"; varchar "name"; varchar "email"; varchar "sub"; varchar "iss_id"]
                       [PRIMARY_KEY ["id"]; REFERENCES "iss_id" "issuers" "id"; UNIQUE ["iss_id"; "sub"]] []);
   ("oauth_clients", Table [varchar "id"; varchar "owner_id"; varchar "name"; varchar "secret"; varchar "audience"]
                           [PRIMARY_KEY ["id"]] []);
   ("groups", Table [varchar "id"; varchar "owner_id"; varchar "name"; Column "description" None true (Some "")]
                    [PRIMARY_KEY ["id"]; UNIQUE ["owner_id"; "name"]] []);
   ("group_members", Table [varchar "group_id"; varchar "subject_id"]
                           [REFERENCES "group_id" "groups" "id"; PRIMARY_KEY ["group_id"; "subject_id"]]
                           [("group_memberships_subject_id_index", ["subject_id"])])].

Lemma catalog_at_all : catalog_at (length embedMigrations) = list_to_map schema.
Proof. vm_compute. reflexivity. Qed.

Lemma valid_migrated r : valid_store (migrated r) ↔ Forall (λ nt, table_ok (migrated r) nt.1 nt.2) schema.
Proof.
  unfold valid_store. unfold migrated at 1. rewrite Forall_forall. cbn [cat]. rewrite catalog_at_all.
  assert (NoDup schema.*1) as Hnd by (by apply (bool_decide_unpack _)).
  split.
  - intros Hv [n t] Hin. apply Hv. by apply elem_of_list_to_map.
  - intros Hf n t Ht. apply (Hf (n, t)). by apply elem_of_list_to_map_2.
Qed.

Lemma table_ok_iff st name t :
  table_ok st name t ↔
  Forall (row_ok t) (rows st name) ∧ NoDup (column_names t) ∧
  Forall (holds st (rows st name)) (t_constraints t) ∧
  Forall (λ k, constraint_columns k ⊆ column_names t) (t_constraints t).
Proof.
  rewrite !Forall_forall. split.
  - intros [Hr Hn Hk]. split_and!; [done..| |]; intros k Hin; by apply Hk.
  - intros (Hr & Hn & Hk & Hc). split; [done..|]. intros k Hin. split; [by apply Hk|by apply Hc].
Qed.

Lemma agree_nil r1 r2 : agree [] r1 r2 ↔ True.
Proof. split; [done|]. by intros _ c ?%elem_of_nil. Qed.
Lemma agree_cons c cs r1 r2 : agree (c :: cs) r1 r2 ↔ (is_Some (r1 c) ∧ r1 c = r2 c) ∧ agree cs r1 r2.
Proof. unfold agree. split.
  - intros Ha. split; [apply Ha; left|intros c' Hc'; apply Ha; by right].
  - by intros [Hc Ha] c' [->|Hc']%elem_of_cons; [|apply Ha]. Qed.

Lemma unique_fmap {A} (f : A → row) cs l :
  NoDup l → unique_rows cs (f <$> l) ↔ ∀ x y, x ∈ l → y ∈ l → agree cs (f x) (f y) → x = y.
Proof.
  intros Hnd. split.
  - intros Hu x y [i Hi]%list_elem_of_lookup [j Hj]%list_elem_of_lookup Ha.
    assert (i = j) as -> by (eapply Hu; [rewrite list_lookup_fmap, Hi; done|rewrite list_lookup_fmap, Hj; done|done]).
    congruence.
  - intros Hx i j r1 r2. rewrite !list_lookup_fmap, !fmap_Some. intros (x & Hi & ->) (y & Hj & ->) Ha.
    assert (x = y) as -> by (apply Hx; [by eapply list_elem_of_lookup_2..|done]).
    by eapply NoDup_lookup.
Qed.

Lemma unique_rows_perm cs l1 l2 : l1 ≡ₚ l2 → unique_rows cs l1 → unique_rows cs l2.
Proof.
  intros [_ (f & Hinj & Hf)]%symmetry%Permutation_inj Hu i j r1 r2. rewrite !Hf. intros Hi Hj Ha.
  apply Hinj. by eapply Hu.
Qed.

(** The order of the rows of a table does not matter. *)
Lemma valid_perm c r1 r2 : (∀ n, r1 n ≡ₚ r2 n) → valid_store (Store c r1) → valid_store (Store c r2).
Proof.
  intros Hp Hv n t Ht. destruct (Hv n t Ht) as [Hr Hn Hk]. simpl in *. split; simpl.
  - intros r. rewrite <-Hp. apply Hr.
  - done.
  - intros k Hin. destruct (Hk k Hin) as [Hh Hc]. split; [|done]. destruct k as [cs|cs|c' u target]; simpl in *.
    + destruct Hh as [Hu Hs]. split; [by eapply unique_rows_perm; [apply Hp|]|]. intros r x. rewrite <-Hp. apply Hs.
    + by eapply unique_rows_perm; [apply Hp|].
    + destruct Hh as [Hu Hv']. split; [done|]. intros r v. rewrite <-Hp. intros Hr' Hv''.
      destruct (Hv' r v Hr' Hv'') as (r' & Hin' & ?). exists r'. by rewrite <-Hp.
Qed.

(** A row of the columns of a table without lengths. *)
Lemma row_of_ok t l :
  l.*1 ⊆ column_names t → Forall (λ col, col_type col = None) (t_columns t) →
  Forall (λ col, col_not_null col = true → is_Some (row_of l (col_name col))) (t_columns t) →
  row_ok t (row_of l).
Proof.
  rewrite !Forall_forall. intros Hl Hty Hnn. split; [|done]. intros c v Hc.
  assert (c ∈ l.*1) as Hin.
  { clear -Hc. induction l as [|[c' v'] l IH]; [done|]. simpl in *. apply elem_of_cons.
    destruct (String.eqb_spec c c'); [by left|right; by apply IH]. }
  apply Hl, list_elem_of_fmap in Hin as (col & -> & Hcol). exists col. split_and!; [done..|].
  by rewrite Hty.
Qed.

Ltac row_ok_by tac :=
  tac;
    [by apply (bool_decide_unpack _)
    |by repeat constructor
    |repeat (apply Forall_cons; split; [first [discriminate|intros _; eexists; reflexivity]|]); constructor].

Lemma encoded_rows d : Forall (λ nt, Forall (row_ok nt.2) (encode d nt.1)) schema.
Proof.
  unfold schema. repeat (apply Forall_cons; split); [..|constructor];
    cbn [fst snd]; unfold encode; cbn; apply Forall_fmap, Forall_forall.
  all: intros x _; row_ok_by ltac:(apply row_of_ok).
Qed.

(** What a table definition is, whatever its rows: the columns of the primary
    key are not null. *)
Definition well_defined (t : table) : bool :=
  bool_decide (NoDup (column_names t)) &&
  forallb (λ k, bool_decide (constraint_columns k ⊆ column_names t)) (t_constraints t) &&
  forallb (λ k, match k with
    | PRIMARY_KEY cs =>
      forallb (λ c, existsb (λ col, bool_decide (col_name col = c) && col_not_null col) (t_columns t)) cs
    | _ => true
    end) (t_constraints t).

Definition satisfied (st : store) (l : list row) (k : table_constraint) : Prop :=
  match k with
  | PRIMARY_KEY cs | UNIQUE cs => unique_rows cs l
  | REFERENCES c t target => is_Some (cat st !! t) ∧ refers c l target (rows st t)
  end.

Lemma table_ok_well_defined st name t :
  well_defined t = true →
  table_ok st name t ↔
  Forall (row_ok t) (rows st name) ∧ Forall (satisfied st (rows st name)) (t_constraints t).
Proof.
  intros [[Hnd%bool_decide_eq_true Hsub]%andb_true_iff Hkeys]%andb_true_iff.
  rewrite forallb_forall in Hsub, Hkeys. rewrite table_ok_iff, !Forall_forall. split.
  - intros (Hr & _ & Hk & _). split; [done|]. intros k Hin. specialize (Hk k Hin).
    destruct k; [apply Hk|done..].
  - intros [Hr Hk]. split_and!; [done..| |].
    + intros k Hin. specialize (Hk k Hin). destruct k as [cs| |]; [|done..]. split; [done|].
      intros r c Hrin Hc. specialize (Hkeys _ (proj1 (list_elem_of_In _ _) Hin)). simpl in Hkeys.
      rewrite forallb_forall in Hkeys. specialize (Hkeys c (proj1 (list_elem_of_In _ _) Hc)).
      apply existsb_exists in Hkeys as (col & Hcol & [<-%bool_decide_eq_true Hnn]%andb_true_iff).
      apply (Hr r Hrin); [by apply list_elem_of_In|done].
    + intros k Hin. apply (bool_decide_eq_true_1 _). by apply Hsub, list_elem_of_In.
Qed.

(** The schema, constraint by constraint. *)
Lemma valid_migrated_iff r :
  valid_store (migrated r) ↔
  Forall (λ nt, Forall (row_ok nt.2) (r nt.1)) schema ∧
  unique_rows ["id"] (r "issuers") ∧ unique_rows ["uri"] (r "issuers") ∧
  unique_rows ["id"] (r "user_info") ∧ refers "iss_id" (r "user_info") "id" (r "issuers") ∧
  unique_rows ["iss_id"; "sub"] (r "user_info") ∧
  unique_rows ["id"] (r "oauth_clients") ∧
  unique_rows ["id"] (r "groups") ∧ unique_rows ["owner_id"; "name"] (r "groups") ∧
  refers "group_id" (r "group_members") "id" (r "groups") ∧
  unique_rows ["group_id"; "subject_id"] (r "group_members").
Proof.
  rewrite valid_migrated.
  assert (is_Some (cat (migrated r) !! "issuers") ∧ is_Some (cat (migrated r) !! "groups")) as [Hiss Hgrp]
    by (by split; apply (bool_decide_unpack _)).
  assert (forallb (λ nt, well_defined nt.2) schema = true) as Hdef by done.
  transitivity (Forall (λ nt, Forall (row_ok nt.2) (r nt.1)) schema ∧
    Forall (λ nt, Forall (satisfied (migrated r) (r nt.1)) (t_constraints nt.2)) schema).
  - rewrite <-Forall_and, !Forall_forall. rewrite forallb_forall in Hdef.
    split; intros Hf nt Hin; specialize (Hdef nt (proj1 (list_elem_of_In _ _) Hin));
      by apply (table_ok_well_defined (migrated r) _ _ Hdef), Hf.
  - unfold schema. rewrite !Forall_cons, !Forall_nil. cbn [fst snd t_constraints].
    rewrite !Forall_cons, !Forall_nil. cbn [satisfied]. tauto.
Qed.

Lemma refers_fmap {A B} (f : A → row) (g : B → row) (l : list A) (m : list B) c target :
  refers c (f <$> l) target (g <$> m) ↔
  ∀ x v, x ∈ l → f x c = Some v → ∃ y, y ∈ m ∧ g y target = Some v.
Proof.
  split.
  - intros Hr x v Hx Hv. destruct (Hr (f x) v) as (? & (y & -> & Hy)%list_elem_of_fmap & ?);
      [by apply list_elem_of_fmap_2|done|]. by exists y.
  - intros Hf ? v (x & -> & Hx)%list_elem_of_fmap Hv. destruct (Hf x v Hx Hv) as (y & Hy & ?).
    exists (g y). split; [by apply list_elem_of_fmap_2|done].
Qed.

Lemma unique_table {V} (f : PrefixedID * V → row) cs (m : gmap PrefixedID V) :
  unique_rows cs (f <$> map_to_list m) ↔
  ∀ k1 k2 v1 v2, m !! k1 = Some v1 → m !! k2 = Some v2 → agree cs (f (k1, v1)) (f (k2, v2)) → k1 = k2.
Proof.
  rewrite unique_fmap by apply NoDup_map_to_list. split.
  - intros Hu k1 k2 v1 v2 H1%elem_of_map_to_list H2%elem_of_map_to_list Ha. by injection (Hu _ _ H1 H2 Ha).
  - intros Hk [k1 v1] [k2 v2] H1%elem_of_map_to_list H2%elem_of_map_to_list Ha.
    assert (k1 = k2) as -> by eauto. congruence.
Qed.

Lemma refers_table {A V} (f : A → row) (g : PrefixedID * V → row) (l : list A) (m : gmap PrefixedID V) c target :
  (∀ x, g x target = Some x.1) →
  refers c (f <$> l) target (g <$> map_to_list m) ↔ ∀ x v, x ∈ l → f x c = Some v → is_Some (m !! v).
Proof.
  intros Hg. rewrite refers_fmap. setoid_rewrite Hg. split; intros Hf x v Hx Hv; destruct (Hf x v Hx Hv) as [y Hy].
  - destruct y as [k r], Hy as [Hy%elem_of_map_to_list [= <-]]. by exists r.
  - exists (v, y). split; [by apply elem_of_map_to_list|done].
Qed.

(** The tables of the model are those of the migrations: their rows satisfy the
    schema exactly when the tables satisfy [db_wf], the invariant of every
    operation of the services. *)
Lemma valid_encoded d : valid_store (migrated (encode d)) ↔ db_wf d.
Proof.
  rewrite valid_migrated_iff. pose proof (encoded_rows d) as Hrows.
  change (encode d "issuers") with (issuer_cells <$> map_to_list (issuers d)).
  change (encode d "user_info") with (user_cells <$> map_to_list (user_info d)).
  change (encode d "oauth_clients") with (client_cells <$> map_to_list (oauth_clients d)).
  change (encode d "groups") with (group_cells <$> map_to_list (groups d)).
  change (encode d "group_members") with (member_cells <$> elements (group_members d)).
  rewrite !unique_table, !refers_table, unique_fmap by (done || apply NoDup_elements).
  unfold group_cells, issuer_cells, user_cells, client_cells, member_cells.
  repeat setoid_rewrite agree_cons. setoid_rewrite agree_nil. cbn. split.
  - intros (_ & _ & Huri & _ & Hiss & Hsub & _ & _ & Hname & Hgrp & _). split.
    + intros g1 g2 r1 r2 H1 H2 Ho Hn. eapply Hname; [done..|]. rewrite Ho, Hn. by split_and!; try eexists.
    + intros g s Hin. by apply (Hgrp (g, s)); [apply elem_of_elements|].
    + intros i1 i2 r1 r2 H1 H2 Hu. eapply Huri; [done..|]. rewrite Hu. by split_and!; try eexists.
    + intros u1 u2 r1 r2 H1 H2 Hi Hs. eapply Hsub; [done..|]. rewrite Hi, Hs. by split_and!; try eexists.
    + intros u r Hu. by apply (Hiss (u, r)); [apply elem_of_map_to_list|].
  - intros [Hname Hgrp Huri Hsub Hiss]. split_and!; [done|..]; try by (intros; destruct_and!; simplify_eq; eauto).
    + intros [u r] v Hu%elem_of_map_to_list [= <-]. by eapply Hiss.
    + intros [g s] v Hin%elem_of_elements [= <-]. by eapply Hgrp.
    + intros [g s] [g' s'] _ _. by intros [[_ [= ->]] [[_ [= ->]] _]].
Qed.

(** *** The statements check the schema *)

(** A statement whose rows would be [r]: done when the schema allows them, and
    refused otherwise. *)
Definition checked {A} (s : stmt A) (d : DB) (r : string → list row) : Prop :=
  (valid_store (migrated r) ∧ ∃ a d', s d = inr (a, d') ∧ ∀ n, encode d' n ≡ₚ r n) ∨
  (¬ valid_store (migrated r) ∧ ∃ e, s d = inl e).

(** One more row. *)
Definition inserted (name : string) (x : row) (d : DB) : string → list row :=
  set_rows name (x :: encode d name) (encode d).
(** [DELETE FROM name WHERE id = ...]. *)
Definition deleted (name : string) (id : PrefixedID) (d : DB) : string → list row :=
  set_rows name (filter (λ x : row, x "id" ≠ Some id) (encode d name)) (encode d).

Lemma valid_rows d r : (∀ n, encode d n ≡ₚ r n) → valid_store (migrated r) ↔ db_wf d.
Proof.
  intros Hr. rewrite <-valid_encoded. split; apply valid_perm; intros n; by rewrite Hr.
Qed.

Lemma checked_tables {A} (s : stmt A) d d' r :
  (∀ n, encode d' n ≡ₚ r n) →
  (db_wf d' ∧ (∃ a, s d = inr (a, d'))) ∨ (¬ db_wf d' ∧ ∃ e, s d = inl e) → checked s d r.
Proof.
  intros Hr Hs. unfold checked. rewrite (valid_rows d' r Hr).
  destruct Hs as [[? [a ?]]|[? ?]]; [left|by right]. split; [done|]. by exists a, d'.
Qed.

(** A row whose key is taken. *)
Lemma fresh_key {V} (f : PrefixedID * V → row) id v (m : gmap PrefixedID V) :
  (∀ x, f x "id" = Some x.1) → unique_rows ["id"] (f (id, v) :: (f <$> map_to_list m)) → m !! id = None.
Proof.
  intros Hf Hu. destruct (m !! id) as [v'|] eqn:Hm; [|done].
  apply elem_of_map_to_list, list_elem_of_lookup in Hm as [k Hk]. exfalso.
  assert (0 = S k) as [=]. apply (Hu 0 (S k) (f (id, v)) (f (id, v'))); [done|simpl; by rewrite list_lookup_fmap, Hk|].
  rewrite agree_cons, agree_nil, !Hf. split; [|done]. by split; [eexists|].
Qed.

Lemma filter_table {V} (f : PrefixedID * V → row) (m : gmap PrefixedID V) id :
  (∀ x, f x "id" = Some x.1) →
  filter (λ x : row, x "id" ≠ Some id) (f <$> map_to_list m) ≡ₚ f <$> map_to_list (delete id m).
Proof.
  intros Hf.
  assert (∀ m' : gmap PrefixedID V, m' !! id = None →
    filter (λ x : row, x "id" ≠ Some id) (f <$> map_to_list m') = f <$> map_to_list m') as Hrest.
  { intros m' Hm'. apply filter_Forall_id, Forall_forall. intros ? ([k v] & -> & Hk%elem_of_map_to_list)%list_elem_of_fmap.
    rewrite Hf. intros [= ->]. by rewrite Hm' in Hk. }
  destruct (m !! id) as [v|] eqn:Hm.
  - rewrite <-(map_to_list_delete m id v Hm). rewrite fmap_cons, filter_cons_False by (rewrite Hf; auto).
    rewrite Hrest; [done|apply lookup_delete_eq].
  - by rewrite Hrest, delete_id.
Qed.

Lemma checked_insert {V A} (f : PrefixedID * V → row) (m : gmap PrefixedID V) (s : stmt A) d d' name id v :
  (∀ x, f x "id" = Some x.1) →
  encode d name = f <$> map_to_list m → encode d' name = f <$> map_to_list (<[id := v]> m) →
  (∀ n, n ≠ name → encode d' n = encode d n) →
  (∀ r, valid_store (migrated r) → unique_rows ["id"] (r name)) →
  (is_Some (m !! id) → ∃ e, s d = inl e) →
  (m !! id = None → (db_wf d' ∧ ∃ a, s d = inr (a, d')) ∨ (¬ db_wf d' ∧ ∃ e, s d = inl e)) →
  checked s d (inserted name (f (id, v)) d).
Proof.
  intros Hf Hd Hd' Hother Hkey Htaken Hfresh. destruct (m !! id) as [v'|] eqn:Hm.
  - right. split; [|by apply Htaken]. intros Hv%Hkey. unfold inserted, set_rows in Hv.
    rewrite decide_True, Hd in Hv by done. apply fresh_key in Hv; [congruence|done].
  - apply (checked_tables s d d'); [|by apply Hfresh]. intros n. unfold inserted, set_rows. case_decide as Hn.
    + subst n. by rewrite Hd, Hd', map_to_list_insert.
    + by rewrite Hother.
Qed.

(** The tables but one. *)
Ltac other_tables := intros ? ?; unfold encode; repeat case_decide; done.

Lemma insert_group_checked d id r :
  db_wf d → checked (sql_insert_group id r) d (inserted "groups" (group_cells (id, r)) d).
Proof.
  intros Hd. apply (checked_insert _ (groups d) _ _ (with_groups <[id := r]> d));
    [done..|other_tables|by intros ? ?%valid_migrated_iff; tauto| |]; unfold sql_insert_group.
  - intros Hs. rewrite bool_decide_true by done. by eexists.
  - intros Hnone. rewrite bool_decide_false by (rewrite Hnone; by intros []). simpl.
    destruct (name_taken _ _ _ _) eqn:Ht; [right|left]; (split; [|by eexists]).
    + apply name_taken_spec in Ht as (g & r' & Hne & Hg & Ho & Hn). intros Hwf. apply Hne.
      eapply (wf_group_names _ Hwf g id); simpl; [by rewrite lookup_insert_ne|apply lookup_insert_eq|done..].
    + eapply (sql_insert_group_wf id r d tt); [done|]. unfold sql_insert_group.
      by rewrite Hnone, bool_decide_false, Ht by (by intros []).
Qed.

Lemma insert_issuer_checked d id r :
  db_wf d → checked (sql_insert_issuer id r) d (inserted "issuers" (issuer_cells (id, r)) d).
Proof.
  intros Hd. apply (checked_insert _ (issuers d) _ _ (with_issuers <[id := r]> d));
    [done..|other_tables|by intros ? ?%valid_migrated_iff; tauto| |]; unfold sql_insert_issuer.
  - intros Hs. rewrite bool_decide_true by done. by eexists.
  - intros Hnone. rewrite bool_decide_false by (rewrite Hnone; by intros []). simpl.
    destruct (uri_taken _ _ _) eqn:Ht; [right|left]; (split; [|by eexists]); [|by apply insert_issuer_wf].
    apply uri_taken_spec in Ht as (i & r' & Hne & Hi & Hu). intros Hwf. apply Hne.
    eapply (wf_issuer_uris _ Hwf i id); simpl; [by rewrite lookup_insert_ne|apply lookup_insert_eq|done].
Qed.

Lemma insert_client_checked d id r :
  db_wf d → checked (sql_insert_client id r) d (inserted "oauth_clients" (client_cells (id, r)) d).
Proof.
  intros Hd. apply (checked_insert _ (oauth_clients d) _ _ (with_clients <[id := r]> d));
    [done..|other_tables|by intros ? ?%valid_migrated_iff; tauto| |]; unfold sql_insert_client.
  - intros Hs. rewrite decide_True by done. by eexists.
  - intros Hnone. rewrite decide_False by (rewrite Hnone; by intros []). left. split; [|by eexists].
    by destruct Hd.
Qed.

(** No user of the issuer has the subject: the [INSERT] part of the statement. *)
Lemma store_user_checked d id r :
  db_wf d → find_user d (ur_iss_id r) (ur_sub r) = None →
  checked (sql_store_user id r) d (inserted "user_info" (user_cells (id, r)) d).
Proof.
  intros Hd Hnone. apply (checked_insert _ (user_info d) _ _ (with_users <[id := r]> d));
    [done..|other_tables|by intros ? ?%valid_migrated_iff; tauto| |]; unfold sql_store_user; rewrite Hnone.
  - intros Hs. rewrite decide_True by done. by eexists.
  - intros Hid. rewrite decide_False by (rewrite Hid; by intros []). case_decide as Hi; [left|right].
    + split; [|by eexists]. eapply (sql_store_user_wf id r d id); [done|]. unfold sql_store_user.
      by rewrite Hnone, decide_False, decide_True by (done || rewrite Hid; by intros []).
    + split; [|by eexists]. intros Hwf. apply Hi, (wf_user_issuers _ Hwf id r). apply lookup_insert_eq.
Qed.

Lemma update_group_checked d id r name description :
  db_wf d → groups d !! id = Some r →
  checked (sql_update_group id name description) d
    (encode (with_groups <[id := GroupRow (gr_owner_id r) name description]> d)).
Proof.
  intros Hd Hr. eapply checked_tables; [done|].
  pose proof (sql_update_group_wf id name description d tt) as Hwf. unfold sql_update_group in *.
  rewrite Hr in *. destruct (name_taken _ _ _ _) eqn:Ht; [right|left; split; [by apply Hwf|by eexists]].
  split; [|by eexists]. apply name_taken_spec in Ht as (g & r' & Hne & Hg & Ho & Hn). intros Hwf'. apply Hne.
  eapply (wf_group_names _ Hwf' g id); simpl; [by rewrite lookup_insert_ne|apply lookup_insert_eq|done..].
Qed.

Lemma update_issuer_checked d id r params assignments :
  db_wf d → params ≠ "" → issuers d !! id = Some r →
  checked (sql_update_issuer params assignments id) d
    (encode (with_issuers <[id := foldl assign r assignments]> d)).
Proof.
  intros Hd Hp Hr. eapply checked_tables; [done|]. unfold sql_update_issuer.
  rewrite decide_False, Hr by done. set (r' := foldl assign r assignments).
  destruct (uri_taken _ _ _) eqn:Ht; [right|left]; (split; [|by eexists]); [|by apply insert_issuer_wf].
  apply uri_taken_spec in Ht as (i & ri & Hne & Hi & Hu). intros Hwf. apply Hne.
  eapply (wf_issuer_uris _ Hwf i id); simpl; [by rewrite lookup_insert_ne|apply lookup_insert_eq|done].
Qed.

(** The rows left by a [DELETE]. *)
Lemma deleted_tables {V} (f : PrefixedID * V → row) (m : gmap PrefixedID V) d d' name id :
  (∀ x, f x "id" = Some x.1) → encode d name = f <$> map_to_list m →
  encode d' name = f <$> map_to_list (delete id m) → (∀ n, n ≠ name → encode d' n = encode d n) →
  ∀ n, encode d' n ≡ₚ deleted name id d n.
Proof.
  intros Hf Hd Hd' Hother n. unfold deleted, set_rows. case_decide as Hn; [|by rewrite Hother].
  subst n. by rewrite Hd, Hd', filter_table.
Qed.

Lemma delete_group_checked d id :
  db_wf d → checked (sql_delete_group id) d (deleted "groups" id d).
Proof.
  intros Hd. apply (checked_tables _ _ (with_groups (delete id) d));
    [apply (deleted_tables group_cells (groups d)); [done..|other_tables]|].
  pose proof (sql_delete_group_wf id d tt) as Hwf. unfold sql_delete_group in *.
  destruct (groups d !! id) as [r|] eqn:Hr.
  - case_decide as Hm; [left; split; [by apply Hwf|by eexists]|right]. split; [|by eexists].
    intros Hd'. apply Hm, members_of_nil. intros s Hs. apply (wf_members _ Hd') in Hs as [? Hs].
    simpl in Hs. by rewrite lookup_delete_eq in Hs.
  - left. assert (with_groups (delete id) d = d) as -> by (unfold with_groups; rewrite delete_id by done; by destruct d).
    split; [done|by eexists].
Qed.

Lemma delete_issuer_checked d id :
  db_wf d → checked (sql_delete_issuer id) d (deleted "issuers" id d).
Proof.
  intros Hd. apply (checked_tables _ _ (with_issuers (delete id) d));
    [apply (deleted_tables issuer_cells (issuers d)); [done..|other_tables]|].
  pose proof (sql_delete_issuer_wf id d 1) as Hwf. unfold sql_delete_issuer in *.
  destruct (issuers d !! id) as [r|] eqn:Hr.
  - destruct (has_users d id) eqn:Hu; [right|left; split; [by apply Hwf|by eexists]]. split; [|by eexists].
    intros Hd'. apply not_false_iff_true in Hu. apply Hu, has_users_false. intros u ru Hin <-.
    apply (wf_user_issuers _ Hd') in Hin as [? Hin]. simpl in Hin. by rewrite lookup_delete_eq in Hin.
  - left. assert (with_issuers (delete id) d = d) as -> by (unfold with_issuers; rewrite delete_id by done; by destruct d).
    split; [done|by eexists].
Qed.

Lemma upsert_members_checked d g subjects :
  db_wf d → subjects ≠ [] →
  checked (sql_upsert_members g subjects) d
    (encode (with_members (λ m, m ∪ list_to_set (pair g <$> subjects)) d)).
Proof.
  intros Hd Hne. eapply checked_tables; [done|].
  pose proof (sql_upsert_members_wf g subjects d tt) as Hwf. unfold sql_upsert_members in *.
  destruct (groups d !! g) as [r|] eqn:Hg; [left; split; [by apply Hwf|by eexists]|right]. split; [|by eexists].
  intros Hd'. destruct subjects as [|s subjects]; [done|].
  destruct (wf_members _ Hd' g s) as [? Hs]; [|simpl in Hs; congruence].
  simpl. set_solver.
Qed.

(** ** Properties *)

(** C20: from the schema that any number of the migrations lead to, with any rows
    that satisfy it, the other migrations succeed, one after the other: they end
    in the schema of all the migrations, with rows that satisfy it; every table
    keeps its rows, and a table that is created has none. *)
Theorem migrations_preserve n st :
  valid_store st → cat st = catalog_at n →
  ∃ st', exec_all (drop n embedMigrations ≫= m_up) st = inr st' ∧
    cat st' = catalog_at (length embedMigrations) ∧ valid_store st' ∧
    (∀ name, is_Some (cat st !! name) → rows st' name = rows st name) ∧
    (∀ name, cat st !! name = None → is_Some (cat st' !! name) → rows st' name = []).
Proof.
  intros Hst Hcat.
  assert (forallb grows (drop n embedMigrations ≫= m_up) = true) as Hgrows.
  { assert (forallb grows (embedMigrations ≫= m_up) = true) as Hall by (by vm_compute).
    rewrite <-(take_drop n embedMigrations), bind_app, forallb_app in Hall.
    by apply andb_true_iff in Hall as [_ ?]. }
  pose proof (catalog_at_rest n) as Hrest. rewrite <-Hcat in Hrest.
  destruct (exec_all_grows _ st _ Hgrows Hrest Hst) as (st' & Hrun & Hcat' & Hst' & Hkept & Hnew).
  exists st'. split_and!; [done..|]. by rewrite Hcat'.
Qed.

(** A database of the first three migrations, with an issuer and a user. *)
Definition old_issuer : list (string * option string) :=
  [("id", Some "idntiss-1"); ("owner_id", Some "tnntten-1"); ("uri", Some "https://iss.example");
   ("name", Some "issuer"); ("jwksuri", Some "https://iss.example/jwks")].
Definition old_user : list (string * option string) :=
  [("id", Some "idntusr-1"); ("name", Some "Ada"); ("email", Some "ada@example.com"); ("sub", Some "ada");
   ("iss_id", Some "idntiss-1")].
Definition old_store : store :=
  Store (catalog_at 3) (λ name,
    if String.eqb name "issuers" then [row_of old_issuer]
    else if String.eqb name "user_info" then [row_of old_user] else []).

Lemma unique_singleton cs x : unique_rows cs [x].
Proof. intros [|i] [|j] r1 r2; by rewrite ?lookup_nil. Qed.

Lemma unique_nil cs : unique_rows cs [].
Proof. intros i j r1 r2. by rewrite lookup_nil. Qed.

Lemma valid_tables st : Forall (λ nt, table_ok st nt.1 nt.2) (map_to_list (cat st)) → valid_store st.
Proof.
  rewrite Forall_forall. intros Hf name t Ht. by apply (Hf (name, t)), elem_of_map_to_list.
Qed.

Lemma old_store_valid : valid_store old_store.
Proof.
  apply valid_tables. set (l := map_to_list (cat old_store)). vm_compute in l. subst l.
  repeat (apply Forall_cons; split); [..|by constructor]; apply table_ok_well_defined; try done; split;
    repeat (apply Forall_cons; split); try (by constructor); try (by apply unique_singleton); try (by apply unique_nil); cbn.
  - row_ok_by ltac:(apply (row_of_ok _ old_user)).
  - split; [by eexists|]. intros r v ->%list_elem_of_singleton [= <-]. eexists. split; [left|done].
  - row_ok_by ltac:(apply (row_of_ok _ old_issuer)).
Qed.

Lemma migrations_preserve_witness :
  ∃ st', exec_all (drop 3 embedMigrations ≫= m_up) old_store = inr st' ∧
    rows st' "issuers" = rows old_store "issuers" ∧ valid_store st'.
Proof.
  destruct (migrations_preserve 3 old_store old_store_valid eq_refl) as (st' & Hrun & _ & Hv & Hkept & _).
  exists st'. split_and!; [done| |done]. apply Hkept. vm_compute. by eexists.
Defined.

(** C19: the tables satisfy [db_wf], the invariant of every operation of the
    services, exactly when their rows satisfy the schema of the migrations; on
    such tables a statement of the services that could violate it does to the
    rows what its SQL says, when the schema of the migrations allows the rows
    that would result, and is otherwise refused. *)
Theorem statements_check_schema d :
  (valid_store (migrated (encode d)) ↔ db_wf d) ∧
  (db_wf d →
  (∀ id r, checked (sql_insert_group id r) d (inserted "groups" (group_cells (id, r)) d)) ∧
  (∀ id r, checked (sql_insert_issuer id r) d (inserted "issuers" (issuer_cells (id, r)) d)) ∧
  (∀ id r, checked (sql_insert_client id r) d (inserted "oauth_clients" (client_cells (id, r)) d)) ∧
  (∀ id r, find_user d (ur_iss_id r) (ur_sub r) = None →
    checked (sql_store_user id r) d (inserted "user_info" (user_cells (id, r)) d)) ∧
  (∀ id r name description, groups d !! id = Some r →
    checked (sql_update_group id name description) d
      (encode (with_groups <[id := GroupRow (gr_owner_id r) name description]> d))) ∧
  (∀ id r params assignments, params ≠ "" → issuers d !! id = Some r →
    checked (sql_update_issuer params assignments id) d
      (encode (with_issuers <[id := foldl assign r assignments]> d))) ∧
  (∀ g subjects, subjects ≠ [] →
    checked (sql_upsert_members g subjects) d
      (encode (with_members (λ m, m ∪ list_to_set (pair g <$> subjects)) d))) ∧
  (∀ id, checked (sql_delete_group id) d (deleted "groups" id d)) ∧
  (∀ id, checked (sql_delete_issuer id) d (deleted "issuers" id d))).
Proof.
  split; [apply valid_encoded|]. intros Hd. split_and!; intros.
  - by apply insert_group_checked.
  - by apply insert_issuer_checked.
  - by apply insert_client_checked.
  - by apply store_user_checked.
  - by apply update_group_checked.
  - by apply update_issuer_checked.
  - by apply upsert_members_checked.
  - by apply delete_group_checked.
  - by apply delete_issuer_checked.
Qed.

(** The sample tables have a group with members and an issuer with a user:
    neither can be deleted. *)
Lemma statements_check_schema_witness :
  ¬ valid_store (migrated (deleted "groups" "idntgrp-1" sample_DB)) ∧
  ¬ valid_store (migrated (deleted "issuers" "idntiss-1" sample_DB)) ∧
  ¬ valid_store (migrated (inserted "groups" (group_cells ("idntgrp-3", GroupRow "tnntten-1" "admins" "")) sample_DB)).
Proof.
  destruct (proj2 (statements_check_schema sample_DB) sample_DB_wf) as (Hins & _ & _ & _ & _ & _ & _ & Hdg & Hdi).
  split_and!.
  - destruct (Hdg "idntgrp-1") as [[_ (a & d' & Hs & _)]|[? _]]; [|done]. vm_compute in Hs. discriminate.
  - destruct (Hdi "idntiss-1") as [[_ (a & d' & Hs & _)]|[? _]]; [|done]. vm_compute in Hs. discriminate.
  - destruct (Hins "idntgrp-3" (GroupRow "tnntten-1" "admins" "")) as [[_ (a & d' & Hs & _)]|[? _]]; [|done].
    vm_compute in Hs. discriminate.
Defined.
