(* ===== verification/Migrate.v ===== *)
(** [runMigrations] of [internal/storage/migrate.go], called by any number of
    goroutines at once: [migrationMutex] as a lock and goose as a parameter. *)
From S2P Require Import Prelude Errors World Migrations.

(** ** goose *)

(** The database as goose finds it: the version is that of its table
    [goose_db_version]. *)
Record database : Type := Database {
  contents : store;
  version : nat;
}.

(** The migrations from the version of [db] to [m], in order, lead to [db']. *)
Definition migrated_to (db : database) (m : nat) (db' : database) : Prop :=
  version db ≤ m ≤ length embedMigrations ∧ version db' = m ∧
  exec_all (drop (version db) (take m embedMigrations) ≫= m_up) (contents db) = inr (contents db').

(** A database that the migrations up to its version led to. *)
Record well_formed (db : database) : Prop := {
  wf_version : version db ≤ length embedMigrations;
  wf_catalog : cat (contents db) = catalog_at (version db);
  wf_rows : valid_store (contents db);
}.

(** [goose.Up(db, "migrations")] on the files of [goose.SetBaseFS]: what it
    keeps while it runs, and the exchanges with the server, each of which may
    fail. An exchange leads to another one, or to the result of the call. *)
Class Goose : Type := {
  session : Type;
  goose_begin : session;
  goose_step : session → database → session + option error → database → Prop;
}.

(** What a call that started on [db0] has come to, when nothing else changes
    the database. *)
Inductive going `{Goose} (db0 : database) : session → database → Prop :=
  | going_begin : going db0 goose_begin db0
  | going_step s db s' db' : going db0 s db → goose_step s db (inl s') db' → going db0 s' db'.

(** A call that nothing interferes with applies, in order, the migrations that
    the database does not have yet, until one fails, and returns. *)
Class GooseLaws (H : Goose) : Prop := {
  goose_up db0 s db r db' :
    well_formed db0 → going db0 s db → goose_step s db (inr r) db' →
    ∃ m, migrated_to db0 m db' ∧ (r = None → m = length embedMigrations);
  goose_answers db0 s db :
    well_formed db0 → going db0 s db → ∃ o db', goose_step s db o db';
  goose_ends db0 :
    well_formed db0 → Acc (λ p' p, goose_step p.1 p.2 (inl p'.1) p'.2) (goose_begin, db0);
}.

(** ** [runMigrations] *)

Section runMigrations.
Context `{Goose}.

(** Where a call of [runMigrations] is: before [migrationMutex.Lock()], in
    [goose.Up], before the deferred [Unlock()], or back at its caller. *)
Inductive call : Type :=
  | Calling
  | Up (s : session)
  | Deferred (err : option error)
  | Returned (err : option error).

Record system : Type := System {
  migrationMutex : bool;
  db : database;
  calls : list call;
}.

(** [Lock] and [Unlock] of [sync.Mutex]. *)
Definition Lock (locked : bool) : option bool := if locked then None else Some true.
Definition Unlock (locked : bool) : bool := false.

Inductive runMigrations_step : system → system → Prop :=
  | step_lock i σ locked :
      calls σ !! i = Some Calling → Lock (migrationMutex σ) = Some locked →
      runMigrations_step σ (System locked (db σ) (<[i := Up goose_begin]> (calls σ)))
  | step_up i σ s s' db' :
      calls σ !! i = Some (Up s) → goose_step s (db σ) (inl s') db' →
      runMigrations_step σ (System (migrationMutex σ) db' (<[i := Up s']> (calls σ)))
  | step_return i σ s err db' :
      calls σ !! i = Some (Up s) → goose_step s (db σ) (inr err) db' →
      runMigrations_step σ (System (migrationMutex σ) db' (<[i := Deferred err]> (calls σ)))
  | step_unlock i σ err :
      calls σ !! i = Some (Deferred err) →
      runMigrations_step σ (System (Unlock (migrationMutex σ)) (db σ) (<[i := Returned err]> (calls σ))).

(** [k] goroutines that call [runMigrations]. *)
Definition goroutines (k : nat) (db0 : database) : system := System false db0 (replicate k Calling).

(** A call that is between [Lock] and [Unlock]. *)
Definition inside (c : call) : Prop :=
  match c with Up _ | Deferred _ => True | Calling | Returned _ => False end.
End runMigrations.

(** ** Lemmas *)

Lemma exec_all_app l1 l2 st :
  exec_all (l1 ++ l2) st = match exec_all l1 st with inl e => inl e | inr st' => exec_all l2 st' end.
Proof.
  revert st. induction l1 as [|s l1 IH]; intros st; [done|]. simpl. by destruct (exec s st).
Qed.

Lemma drop_take_split {A} (l : list A) a b c :
  a ≤ b → b ≤ c → b ≤ length l → drop a (take c l) = drop a (take b l) ++ drop b (take c l).
Proof.
  intros Hab Hbc Hl. rewrite <-(take_drop b (take c l)) at 1.
  rewrite take_take, (Nat.min_l b c) by done. rewrite drop_app_le; [done|]. rewrite length_take. lia.
Qed.

Lemma migrated_to_refl db0 : version db0 ≤ length embedMigrations → migrated_to db0 (version db0) db0.
Proof.
  intros Hv. split_and!; [done..|]. rewrite drop_ge; [done|]. rewrite length_take. lia.
Qed.

Lemma migrated_to_trans db1 db2 db3 m2 m3 :
  migrated_to db1 m2 db2 → migrated_to db2 m3 db3 → migrated_to db1 m3 db3.
Proof.
  intros ([H1 H2] & Hv2 & Hrun2) ([H3 H4] & Hv3 & Hrun3). rewrite Hv2 in *. split_and!; [lia|done|done|].
  rewrite (drop_take_split _ _ m2 m3), bind_app, exec_all_app, Hrun2 by lia. done.
Qed.

Lemma change_all_up a b : a ≤ b →
  change_all (drop a (take b embedMigrations) ≫= m_up) (catalog_at a) = Some (catalog_at b).
Proof.
  intros Hab.
  assert (∀ n, change_all (take n embedMigrations ≫= m_up) ∅ = Some (catalog_at n)) as Hat.
  { intros n. destruct (decide (n ≤ 6)) as [Hn|Hn].
    - assert (forallb (λ n, bool_decide (change_all (take n embedMigrations ≫= m_up) ∅ ≠ None)) (seq 0 7) = true)
        as Hall by (by vm_compute).
      rewrite forallb_forall in Hall. assert (In n (seq 0 7)) as Hin by (apply in_seq; lia).
      specialize (Hall n Hin). apply (bool_decide_eq_true_1 _) in Hall. unfold catalog_at. by destruct (change_all _ _).
    - unfold catalog_at. rewrite take_ge by (simpl; lia). by vm_compute. }
  pose proof (Hat b) as Hb. rewrite <-(take_drop a (take b _)), take_take, Nat.min_l, bind_app, change_all_app, Hat in Hb by done.
  done.
Qed.

Lemma migrated_to_well_formed db0 m db' :
  well_formed db0 → migrated_to db0 m db' → well_formed db'.
Proof.
  intros [Hv Hcat Hrows] ([Hm1 Hm2] & <- & Hrun).
  assert (forallb grows (drop (version db0) (take (version db') embedMigrations) ≫= m_up) = true) as Hgrows.
  { assert (forallb grows (embedMigrations ≫= m_up) = true) as Hall by (by vm_compute).
    rewrite <-(take_drop (version db') embedMigrations), bind_app, forallb_app in Hall.
    apply andb_true_iff in Hall as [Hall _]. revert Hall.
    rewrite <-(take_drop (version db0) (take _ _)) at 1. rewrite bind_app, forallb_app.
    by intros [_ ?]%andb_true_iff. }
  pose proof (change_all_up _ _ Hm1) as Hc. rewrite <-Hcat in Hc.
  destruct (exec_all_grows _ _ _ Hgrows Hc Hrows) as (st' & Hrun' & Hcat' & Hst' & _).
  assert (st' = contents db') as -> by congruence. by split.
Qed.

(** ** The invariant *)

Section lock.
Context {G : Goose} {GL : GooseLaws G}.
Variable (db0 : database).
Hypothesis Hdb0 : well_formed db0.

(** A call has returned without an error. *)
Definition finished (cs : list call) : Prop := ∃ i, cs !! i = Some (Returned None).

Lemma finished_insert i c cs : finished (<[i := c]> cs) → c = Returned None ∨ finished cs.
Proof using.
  intros [j Hj]. apply list_lookup_insert_Some in Hj as [(_ & -> & _)|[_ Hj]]; [by left|right; by exists j].
Qed.

(** What the call that is inside has made of the database. *)
Definition call_ok (cs : list call) (c : call) (d : database) : Prop :=
  match c with
  | Up s => ∃ m dbm, migrated_to db0 m dbm ∧ (finished cs → m = length embedMigrations) ∧ going dbm s d
  | Deferred err =>
    ∃ m, migrated_to db0 m d ∧ (err = None ∨ finished cs → m = length embedMigrations)
  | _ => False
  end.

Inductive invariant (σ : system) : Prop :=
  | inv_free m :
      migrationMutex σ = false → (∀ j c, calls σ !! j = Some c → ¬ inside c) →
      migrated_to db0 m (db σ) → (finished (calls σ) → m = length embedMigrations) → invariant σ
  | inv_held i c :
      migrationMutex σ = true → calls σ !! i = Some c → inside c → call_ok (calls σ) c (db σ) →
      (∀ j c', j ≠ i → calls σ !! j = Some c' → ¬ inside c') → invariant σ.

(** The call that is inside is the one that holds the lock. *)
Lemma invariant_inside σ i c :
  invariant σ → calls σ !! i = Some c → inside c →
  migrationMutex σ = true ∧ call_ok (calls σ) c (db σ) ∧
  (∀ j c', j ≠ i → calls σ !! j = Some c' → ¬ inside c').
Proof using.
  intros [m Hm Hidle _ _|j cj Hm Hj Hin Hok Hidle] Hc Hinside.
  - by destruct (Hidle i c Hc).
  - destruct (decide (i = j)) as [->|Hne]; [|by destruct (Hidle i c Hne Hc)].
    assert (c = cj) as -> by congruence. done.
Qed.

(** The calls but the one that moves. *)
Lemma others_insert i c (cs : list call) :
  (∀ j c', j ≠ i → cs !! j = Some c' → ¬ inside c') →
  ∀ j c', j ≠ i → <[i := c]> cs !! j = Some c' → ¬ inside c'.
Proof using. intros Hidle j c' Hne. rewrite list_lookup_insert_ne by done. by apply Hidle. Qed.

Lemma goroutines_invariant k : invariant (goroutines k db0).
Proof using Hdb0.
  apply (inv_free _ (version db0)); [done| |apply migrated_to_refl, Hdb0|].
  - intros j c [-> _]%lookup_replicate. by intros [].
  - by intros [i [[=] _]%lookup_replicate].
Qed.

Lemma step_invariant σ σ' : invariant σ → runMigrations_step σ σ' → invariant σ'.
Proof using GL Hdb0.
  intros Hinv Hstep. destruct Hstep as [i σ locked Hi Hlock|i σ s s' db' Hi Hup|i σ s err db' Hi Hup|i σ err Hi].
  all: assert (i < length (calls σ)) as Hlt by (by eapply lookup_lt_Some).
  - unfold Lock in Hlock. destruct (migrationMutex σ) eqn:Hm; [done|]. injection Hlock as <-.
    destruct Hinv as [m _ Hidle Hdb Hfin|]; [|congruence].
    eapply (inv_held _ i (Up goose_begin)); simpl; [done|by apply list_lookup_insert_eq|done| |].
    + exists m, (db σ). split_and!; [done| |constructor]. intros [[=]|Hf]%finished_insert. by apply Hfin.
    + apply others_insert. intros j c' _. apply Hidle.
  - destruct (invariant_inside _ _ _ Hinv Hi I) as (Hm & (m & dbm & Hdbm & Hfin & Hgo) & Hidle).
    eapply (inv_held _ i (Up s')); simpl; [done|by apply list_lookup_insert_eq|done| |by apply others_insert].
    exists m, dbm. split_and!; [done| |by econstructor]. intros [[=]|Hf]%finished_insert. by apply Hfin.
  - destruct (invariant_inside _ _ _ Hinv Hi I) as (Hm & (m & dbm & Hdbm & Hfin & Hgo) & Hidle).
    destruct (goose_up dbm s (db σ) err db') as (m' & Hdb' & Hend);
      [by eapply migrated_to_well_formed|done..|].
    eapply (inv_held _ i (Deferred err)); simpl; [done|by apply list_lookup_insert_eq|done| |by apply others_insert].
    exists m'. split; [by eapply migrated_to_trans|].
    intros [Herr|[[=]|Hf]%finished_insert]; [by apply Hend|]. specialize (Hfin Hf).
    destruct Hdb' as ([Hle1 Hle2] & _), Hdbm as (_ & Hv & _). change (length embedMigrations) with 6 in *. lia.
  - destruct (invariant_inside _ _ _ Hinv Hi I) as (Hm & (m & Hdb & Hfin) & Hidle).
    eapply (inv_free _ m); simpl; [done| |done|].
    + intros j c. destruct (decide (j = i)) as [->|Hne]; [|by apply others_insert].
      rewrite list_lookup_insert_eq by done. intros [= <-] [].
    + intros [[= ->]|Hf]%finished_insert; apply Hfin; [by left|by right].
Qed.

Lemma reachable_invariant k σ : rtc runMigrations_step (goroutines k db0) σ → invariant σ.
Proof using GL Hdb0.
  intros Hsteps. pose proof (goroutines_invariant k) as Hinv. revert Hinv.
  induction Hsteps as [|σ1 σ2 σ3 Hstep _ IH]; [done|]. intros Hinv. by apply IH, (step_invariant σ1).
Qed.

(** A call that has not returned can move, or waits for one that can. *)
Lemma invariant_progress σ :
  invariant σ → (∀ i c, calls σ !! i = Some c → ∃ err, c = Returned err) ∨ ∃ σ', runMigrations_step σ σ'.
Proof using GL Hdb0.
  intros [m Hm Hidle Hdb Hfin|i c Hm Hi Hin Hok Hidle].
  - destruct (existsb (λ c, match c with Calling => true | _ => false end) (calls σ)) eqn:Hc.
    + right. apply existsb_exists in Hc as (c & [i Hi]%list_elem_of_In%list_elem_of_lookup & Hc). destruct c; try done.
      eexists. eapply step_lock; [done|]. by rewrite Hm.
    + left. intros i c Hi. destruct c as [|s|err|err];
        [|by destruct (Hidle i _ Hi)|by destruct (Hidle i _ Hi)|by exists err].
      apply not_true_iff_false in Hc. destruct Hc. apply existsb_exists. exists Calling.
      split; [by eapply list_elem_of_In, list_elem_of_lookup_2|done].
  - right. destruct c as [|s|err|err]; try done; [|by eexists; eapply step_unlock].
    destruct Hok as (m & dbm & Hdbm & _ & Hgo).
    destruct (goose_answers dbm s (db σ)) as ([s'|err] & db' & Hup); [by eapply migrated_to_well_formed|done| |];
      eexists; [by eapply step_up|by eapply step_return].
Qed.

(** *** Termination *)

Definition weight (c : call) : nat :=
  match c with Calling => 3 | Up _ => 2 | Deferred _ => 1 | Returned _ => 0 end.
Fixpoint total (cs : list call) : nat := match cs with [] => 0 | c :: cs => weight c + total cs end.

Lemma total_insert i c c' cs : cs !! i = Some c → total (<[i := c']> cs) + weight c = total cs + weight c'.
Proof using.
  revert i. induction cs as [|c0 cs IH]; intros [|i]; simpl; [done|done| |].
  - intros [= ->]. lia.
  - intros Hi. specialize (IH i Hi). lia.
Qed.

Lemma going_acc dbm s d :
  well_formed dbm → going dbm s d → Acc (λ p' p, goose_step p.1 p.2 (inl p'.1) p'.2) (s, d).
Proof using GL.
  intros Hdbm Hgo. induction Hgo as [|s d s' d' _ IH Hstep]; [by apply goose_ends|].
  by apply (Acc_inv IH).
Qed.

(** A step is one of [goose.Up], or brings a call nearer to its end. *)
Lemma step_total σ σ' :
  runMigrations_step σ σ' →
  total (calls σ') < total (calls σ) ∨
  ∃ i s s', calls σ !! i = Some (Up s) ∧ goose_step s (db σ) (inl s') (db σ') ∧
    calls σ' = <[i := Up s']> (calls σ) ∧ total (calls σ') = total (calls σ).
Proof using.
  intros Hstep. destruct Hstep as [i σ locked Hi Hlock|i σ s s' db' Hi Hup|i σ s err db' Hi Hup|i σ err Hi]; simpl.
  - left. pose proof (total_insert i _ (Up goose_begin) _ Hi). simpl in *. lia.
  - right. exists i, s, s'. pose proof (total_insert i _ (Up s') _ Hi). simpl in *. split_and!; [done..|lia].
  - left. pose proof (total_insert i _ (Deferred err) _ Hi). simpl in *. lia.
  - left. pose proof (total_insert i _ (Returned err) _ Hi). simpl in *. lia.
Qed.

Lemma invariant_acc σ : invariant σ → Acc (flip runMigrations_step) σ.
Proof using GL Hdb0.
  remember (total (calls σ)) as n eqn:Hn. revert σ Hn.
  induction n as [n IH] using lt_wf_ind. intros σ -> Hinv.
  assert (∀ p, Acc (λ p' p, goose_step p.1 p.2 (inl p'.1) p'.2) p → ∀ σ1 i,
    total (calls σ1) = total (calls σ) → invariant σ1 → db σ1 = p.2 → calls σ1 !! i = Some (Up p.1) →
    Acc (flip runMigrations_step) σ1) as Hup.
  { intros p Hp. induction Hp as [p _ IHp]. intros σ1 i Hn1 Hinv1 Hd Hi. constructor. intros σ2 Hstep.
    pose proof (step_invariant _ _ Hinv1 Hstep) as Hinv2.
    destruct (step_total _ _ Hstep) as [Hlt|(j & s & s' & Hj & Hup & Hcalls & Heq)];
      [by eapply (IH (total (calls σ2))); [lia|done|done]|].
    destruct (invariant_inside _ _ _ Hinv1 Hi I) as (_ & _ & Hidle).
    destruct (decide (j = i)) as [->|Hne]; [|by destruct (Hidle j _ Hne Hj)].
    rewrite Hi in Hj. injection Hj as <-. rewrite Hd in Hup.
    apply (IHp (s', db σ2) Hup σ2 i); [congruence|done|done|].
    rewrite Hcalls. eapply list_lookup_insert_eq, lookup_lt_Some. exact Hi. }
  constructor. intros σ2 Hstep. pose proof (step_invariant _ _ Hinv Hstep) as Hinv2.
  destruct (step_total _ _ Hstep) as [Hlt|(i & s & s' & Hi & Hgo & Hcalls & Heq)];
    [by eapply (IH (total (calls σ2)))|].
  assert (calls σ2 !! i = Some (Up s')) as Hi2
    by (rewrite Hcalls; eapply list_lookup_insert_eq, lookup_lt_Some; exact Hi).
  destruct (invariant_inside _ _ _ Hinv2 Hi2 I) as (_ & (m & dbm & Hdbm & _ & Hgo2) & _).
  eapply (Hup (s', db σ2)); [|done|done|done|done].
  eapply going_acc; [|done]. by eapply migrated_to_well_formed.
Qed.
End lock.

(** ** A goose for the samples

    Each exchange is a migration in a transaction of its own, which the server
    may refuse. *)
Section sample_goose.

Definition connection_error : error := PQError "08006" "connection failure".

Inductive apply_next (d : database) : unit + option error → database → Prop :=
  | apply_none : embedMigrations !! version d = None → apply_next d (inr None) d
  | apply_one m st :
      embedMigrations !! version d = Some m → exec_all (m_up m) (contents d) = inr st →
      apply_next d (inl ()) (Database st (S (version d)))
  | apply_fails : version d < length embedMigrations → apply_next d (inr (Some connection_error)) d.

#[local] Instance sample_goose : Goose :=
  {| session := unit; goose_begin := (); goose_step _ := apply_next |}.

Lemma sample_going d0 s d : well_formed d0 → going d0 s d → migrated_to d0 (version d) d.
Proof.
  intros Hd0 Hgo. induction Hgo as [|s d s' d' _ IH Hstep]; [apply migrated_to_refl, Hd0|].
  inversion Hstep as [|m st Hm Hrun|]; subst. eapply migrated_to_trans; [apply IH|].
  split_and!; [simpl; lia|by apply lookup_lt_Some in Hm|done|]. cbn [version contents].
  rewrite (take_S_r _ _ _ Hm), drop_app_ge; rewrite length_take_le; try done.
  - rewrite Nat.sub_diag. simpl. by rewrite app_nil_r.
  - apply lookup_lt_Some in Hm. lia.
  - apply lookup_lt_Some in Hm. lia.
Qed.

#[local] Instance sample_goose_laws : GooseLaws sample_goose.
Proof.
  split.
  - intros d0 s d r d' Hd0 Hgo Hstep. exists (version d'). pose proof (sample_going _ _ _ Hd0 Hgo) as Hd.
    inversion Hstep as [Hnone| |Hlt]; subst; (split; [done|]); [|done]. intros _.
    apply lookup_ge_None in Hnone. destruct Hd as ([_ Hle] & _). lia.
  - intros d0 s d Hd0 Hgo. destruct (embedMigrations !! version d) as [m|] eqn:Hm.
    + exists (inr (Some connection_error)), d. constructor. by eapply lookup_lt_Some.
    + exists (inr None), d. by constructor.
  - intros d0 _. generalize (() : session) as s.
    assert (∀ n d (s : session), length embedMigrations - version d = n →
      Acc (λ p' p : session * database, goose_step p.1 p.2 (inl p'.1) p'.2) (s, d)) as Hacc; [|by intros; eapply Hacc].
    induction n as [n IH] using lt_wf_ind. intros d s Hn. constructor. intros [s' d'] Hstep.
    simpl in Hstep. inversion Hstep as [|m st Hm Hrun|]; subst. apply lookup_lt_Some in Hm.
    eapply (IH (length embedMigrations - S (version d))); [lia|done].
Qed.

(** A database without a table. *)
Definition new_database : database := Database (Store ∅ (λ _, [])) 0.

Lemma new_database_well_formed : well_formed new_database.
Proof. split; simpl; [lia|done|]. intros name t [=]. Qed.

(** The first of two goroutines runs all the migrations. *)
Lemma sample_run :
  ∃ σ, rtc runMigrations_step (goroutines 2 new_database) σ ∧
    calls σ = [Returned None; Calling] ∧ migrationMutex σ = false.
Proof.
  eexists. split; [|shelve].
  eapply rtc_l; [by eapply (step_lock 0)|]. cbn.
  do 6 (eapply rtc_l; [eapply (step_up 0); [done|eapply apply_one; [reflexivity|vm_compute; reflexivity]]|]; cbn).
  eapply rtc_l; [eapply (step_return 0); [done|by apply apply_none]|]. cbn.
  eapply rtc_l; [by eapply (step_unlock 0)|]. apply rtc_refl.
  Unshelve. done.
Qed.
End sample_goose.

(** ** Properties *)

(** C21: [runMigrations] is safe to run across goroutines, and subsequent calls
    have no effect: in every state that any number of concurrent calls reach, one
    of them at most is in [goose.Up]; while the lock is free, the database is
    what some of the migrations, in order and each once, make of the one at the
    start: all of them, once a call returned without an error, as each that does
    leaves it. No run is infinite, and when none of the calls can move all of
    them have returned, with the lock free. *)
Theorem runMigrations_concurrent {G : Goose} {GL : GooseLaws G} db0 k σ :
  well_formed db0 → rtc runMigrations_step (goroutines k db0) σ →
  (∀ i j c1 c2, calls σ !! i = Some c1 → calls σ !! j = Some c2 → inside c1 → inside c2 → i = j) ∧
  (migrationMutex σ = false →
    ∃ m, migrated_to db0 m (db σ) ∧ well_formed (db σ) ∧
      ((∃ i, calls σ !! i = Some (Returned None)) → m = length embedMigrations)) ∧
  (∀ i err, calls σ !! i = Some (Deferred err) →
    ∃ m, migrated_to db0 m (db σ) ∧ (err = None → m = length embedMigrations)) ∧
  Acc (flip runMigrations_step) σ ∧
  ((∀ σ', ¬ runMigrations_step σ σ') →
    migrationMutex σ = false ∧ ∀ i c, calls σ !! i = Some c → ∃ err, c = Returned err).
Proof.
  intros Hdb0 Hreach. pose proof (reachable_invariant db0 Hdb0 k σ Hreach) as Hinv. split_and!.
  - intros i j c1 c2 Hi Hj H1 H2. destruct (invariant_inside db0 _ _ _ Hinv Hi H1) as (_ & _ & Hidle).
    destruct (decide (j = i)) as [->|Hne]; [done|]. by destruct (Hidle j c2 Hne Hj).
  - intros Hm. destruct Hinv as [m _ _ Hdb Hfin|]; [|congruence]. exists m.
    split_and!; [done|by eapply migrated_to_well_formed|done].
  - intros i err Hi. destruct (invariant_inside db0 _ _ _ Hinv Hi I) as (_ & (m & Hdb & Hfin) & _).
    exists m. split; [done|]. intros. apply Hfin. by left.
  - by eapply invariant_acc.
  - intros Hstuck. destruct (invariant_progress db0 Hdb0 σ Hinv) as [Hret|[σ' Hstep]]; [|by destruct (Hstuck σ')].
    split; [|done]. destruct Hinv as [m Hm _ _ _|i c _ Hi Hin _ _]; [done|]. by destruct (Hret i c Hi) as [err ->].
Qed.

Section witnesses.
#[local] Existing Instance sample_goose.
#[local] Existing Instance sample_goose_laws.

Lemma runMigrations_concurrent_witness :
  ∃ σ, rtc runMigrations_step (goroutines 2 new_database) σ ∧ calls σ = [Returned None; Calling] ∧
    migrated_to new_database (length embedMigrations) (db σ).
Proof.
  destruct sample_run as (σ & Hrun & Hcalls & Hm). exists σ. split_and!; [done..|].
  destruct (runMigrations_concurrent new_database 2 σ new_database_well_formed Hrun) as (_ & Hfree & _).
  destruct (Hfree Hm) as (m & Hdb & _ & Hall). rewrite Hall in Hdb; [done|]. exists 0. by rewrite Hcalls.
Defined.
End witnesses.
