(* ===== verification/Engine.v ===== *)
(** The storage engine as a state machine: what any sequence of calls of its
    methods, by any number of requests in any order, can do to the world, and
    the sense in which their transactions are serializable. *)
From S2P Require Import Prelude GoStrings Errors Pagination V1 ListQuery World Frame Run Cel.
From S2P Require Import Types Storage GroupStore UserStore IssuerStore ClientStore.

(** ** Definitions *)

(** The methods of the interface [Engine] that run statements, with the
    context they are given. *)
Inductive method `{Env, CEL, Hasher} (ctx : Context) : ∀ A, M A → Prop :=
  | call_CreateGroup g : method ctx _ (CreateGroup ctx g)
  | call_GetGroupByID id : method ctx _ (GetGroupByID ctx id)
  | call_ListGroupsByOwner o p : method ctx _ (ListGroupsByOwner ctx o p)
  | call_UpdateGroup id u : method ctx _ (UpdateGroup ctx id u)
  | call_DeleteGroup id : method ctx _ (DeleteGroup ctx id)
  | call_AddGroupMembers g ss : method ctx _ (AddGroupMembers ctx g ss)
  | call_ListGroupMembers g p : method ctx _ (ListGroupMembers ctx g p)
  | call_RemoveGroupMember g s : method ctx _ (RemoveGroupMember ctx g s)
  | call_ReplaceGroupMembers g ss : method ctx _ (ReplaceGroupMembers ctx g ss)
  | call_ListGroupsBySubject s p : method ctx _ (ListGroupsBySubject ctx s p)
  | call_GroupMembersCount g : method ctx _ (GroupMembersCount ctx g)
  | call_LookupUserInfoByClaims i s : method ctx _ (LookupUserInfoByClaims ctx i s)
  | call_LookupUserInfoByID id : method ctx _ (LookupUserInfoByID ctx id)
  | call_LookupUserOwnerID id : method ctx _ (LookupUserOwnerID ctx id)
  | call_LookupUserInfosByIssuerID id p : method ctx _ (LookupUserInfosByIssuerID ctx id p)
  | call_StoreUserInfo u : method ctx _ (StoreUserInfo ctx u)
  | call_CreateIssuer i : method ctx _ (CreateIssuer ctx i)
  | call_GetIssuerByID id : method ctx _ (GetIssuerByID ctx id)
  | call_GetIssuerByURI uri : method ctx _ (GetIssuerByURI ctx uri)
  | call_GetOwnerIssuers o p : method ctx _ (GetOwnerIssuers ctx o p)
  | call_UpdateIssuer id u : method ctx _ (UpdateIssuer ctx id u)
  | call_DeleteIssuer id : method ctx _ (DeleteIssuer ctx id)
  | call_CreateOAuthClient c : method ctx _ (CreateOAuthClient ctx c)
  | call_DeleteOAuthClient id : method ctx _ (DeleteOAuthClient ctx id)
  | call_LookupOAuthClientByID id : method ctx _ (LookupOAuthClientByID ctx id)
  | call_GetClient id : method ctx _ (GetClient ctx id)
  | call_GetOwnerOAuthClients o p : method ctx _ (GetOwnerOAuthClients ctx o p).

(** One call of the engine, of any context. *)
Inductive engine_step `{Env, CEL, Hasher} : relation World :=
  | step_begin ctx w : engine_step w (BeginContext ctx w).2
  | step_commit ctx w : engine_step w (CommitContext ctx w).2
  | step_rollback ctx w : engine_step w (RollbackContext ctx w).2
  | step_call ctx A (m : M A) w : method ctx A m → engine_step w (m w).2.

(** The same with what was called and answered: a sequence of calls, the last one
    at the end. The transaction of a commit or a rollback is the context's. *)
Inductive call : Type :=
  | Begun (answer : result Context)
  | Committed (t : option nat) (answer : result ())
  | RolledBack (t : option nat) (answer : result ())
  | Called.

Inductive engine_run `{Env, CEL, Hasher} (w0 : World) : list call → World → Prop :=
  | run_start : engine_run w0 [] w0
  | run_begin l w ctx :
      engine_run w0 l w → engine_run w0 (l ++ [Begun (BeginContext ctx w).1]) (BeginContext ctx w).2
  | run_commit l w ctx :
      engine_run w0 l w →
      engine_run w0 (l ++ [Committed (ctx_tx ctx) (CommitContext ctx w).1]) (CommitContext ctx w).2
  | run_rollback l w ctx :
      engine_run w0 l w →
      engine_run w0 (l ++ [RolledBack (ctx_tx ctx) (RollbackContext ctx w).1]) (RollbackContext ctx w).2
  | run_call l w ctx A m :
      engine_run w0 l w → method ctx A m → engine_run w0 (l ++ [Called]) (m w).2.

(** Transactions are numbered in the order they are begun. *)
Definition numbered (w : World) : Prop := ∀ t, next_tx w ≤ t → txs w !! t = None.
Definition keeps_numbered (w w' : World) : Prop := numbered w → numbered w'.

(** The life of a transaction: it is begun once, a failed statement aborts it,
    and it ends once, for good. *)
Definition tx_next (s s' : option tx_state) : Prop :=
  match s, s' with
  | None, (None | Some (TxOpen _))
  | Some (TxOpen _), Some _
  | Some TxAborted, Some (TxAborted | TxDone)
  | Some TxDone, Some TxDone => True
  | _, _ => False
  end.
(** What a method may do, which neither begins nor ends one. *)
Definition tx_step (t : nat) (w w' : World) : Prop :=
  match txs w !! t, txs w' !! t with
  | None, None
  | Some (TxOpen _), Some (TxOpen _ | TxAborted)
  | Some TxAborted, Some TxAborted
  | Some TxDone, Some TxDone => True
  | _, _ => False
  end.

(** A transaction that has ended stays as it is. *)
Definition keeps_done (t : nat) (w w' : World) : Prop :=
  txs w !! t = Some TxDone → txs w' !! t = Some TxDone ∧ redo w' !! t = redo w !! t.

(** The statements of transactions, run one transaction after the other. *)
Definition run_serially (l : list (nat * (DB → option DB))) (d : DB) : option DB :=
  foldl (λ o tf, o ≫= tf.2) (Some d) l.

(** The transactions of [l] account for the calls: the committed tables of [w']
    are those that their statements leave when they are run, one transaction
    after the other, on the tables of [w]; they are those whose commit succeeded,
    or was reported as failed and took effect all the same. *)
Record serial `{Env} (w : World) (calls : list call) (w' : World)
    (l : list (nat * (DB → option DB))) : Prop := {
  serial_tables : run_serially l (committed w) = Some (committed w');
  serial_once : NoDup l.*1;
  serial_statements : ∀ t f, (t, f) ∈ l → redo w' !! t = Some f;
  serial_committed : ∀ t, Committed (Some t) (Ok ()) ∈ calls → t ∈ l.*1;
  serial_only : ∀ t, t ∈ l.*1 → ∃ r, Committed (Some t) r ∈ calls ∧
    (r = Ok () ∨ ∃ n, ambiguous_commit n = true);
  serial_rolled_back : ∀ t, RolledBack (Some t) (Ok ()) ∈ calls → t ∉ l.*1;
}.

(** ** Lemmas *)

#[global] Instance keeps_numbered_store ctx : StoreRel ctx keeps_numbered.
Proof.
  assert (∀ w t d s, txs w !! t = Some (TxOpen d) → numbered w → numbered (set_tx t s w)) as Hset.
  { intros w t d s Ht Hn t' Ht'. simpl. destruct (decide (t = t')) as [->|].
    - specialize (Hn t' Ht'). congruence.
    - rewrite lookup_insert_ne by done. by apply Hn. }
  split.
  - split; unfold keeps_numbered; [by intros w|eauto].
  - intros w H. exact H.
  - intros t d w _ Ht Hn. exact (Hset _ _ _ _ Ht Hn).
  - intros A HA q t d w _ _ Hn. exact Hn.
  - intros A HA s t d a d' w _ Ht _ _ Hn. exact (Hset _ _ _ _ Ht Hn).
Qed.

#[global] Instance tx_step_store ctx t : StoreRel ctx (tx_step t).
Proof.
  unfold tx_step. split.
  - split; [intros w; by destruct (txs w !! t) as [[]|]|].
    intros w1 w2 w3. by destruct (txs w1 !! t) as [[]|], (txs w2 !! t) as [[]|], (txs w3 !! t) as [[]|].
  - intros w. simpl. by destruct (txs w !! t) as [[]|].
  - intros t' d w _ Ht. simpl. destruct (decide (t' = t)) as [->|].
    + by rewrite Ht, lookup_insert_eq.
    + rewrite lookup_insert_ne by done. by destruct (txs w !! t) as [[]|].
  - intros A HA q t' d w _ _. simpl. by destruct (txs w !! t) as [[]|].
  - intros A HA s t' d a d' w _ Ht _ _. simpl. destruct (decide (t' = t)) as [->|].
    + by rewrite Ht, lookup_insert_eq.
    + rewrite lookup_insert_ne by done. by destruct (txs w !! t) as [[]|].
Qed.

#[global] Instance keeps_done_store ctx t : StoreRel ctx (keeps_done t).
Proof.
  unfold keeps_done. split.
  - split; [by intros w|]. intros w1 w2 w3 H12 H23 [Ht <-]%H12. by apply H23.
  - by intros w.
  - intros t' d w _ Ht. simpl. intros Hd. by rewrite lookup_insert_ne by congruence.
  - intros A HA q t' d w _ Ht. simpl. intros Hd. by rewrite lookup_alter_ne by congruence.
  - intros A HA s t' d a d' w _ Ht _ _. simpl. intros Hd.
    by rewrite lookup_insert_ne, lookup_alter_ne by congruence.
Qed.

Section engine.
Context {E : Env} {C : CEL} {H : Hasher}.

Lemma method_frame ctx A (m : M A) R `{!StoreRel ctx R} : method ctx A m → keeps R m.
Proof. intros []; frame. Qed.

(** The three transaction methods, case by case. *)
Lemma BeginContext_world ctx w :
  (BeginContext ctx w).2 = next_tick w ∨
  (BeginContext ctx w).2 = next_tick (add_tx (TxOpen (committed w)) w).
Proof. unfold BeginContext, beginTxContext. destruct (sql_fault _); auto. Qed.

(** The statements of the transaction [t], run again on the committed tables,
    answer as they did, and leave [c]. *)
Definition commits_as (t : nat) (w : World) (c : DB) : Prop :=
  (redo w !! t ≫= λ f, f (committed w)) = Some c.

(** The transaction [t] has ended, and the committed tables are as before, or
    those that its statements leave there. *)
Definition ended (t : nat) (w w' : World) : Prop :=
  ∃ s c, txs w !! t = Some s ∧ s ≠ TxDone ∧
    w' = next_tick (set_committed c (set_tx t TxDone w)) ∧
    (c = committed w ∨ (∃ d, s = TxOpen d) ∧ commits_as t w c).

Lemma set_committed_same w : set_committed (committed w) w = w.
Proof. by destruct w. Qed.

Lemma CommitContext_world ctx w :
  (CommitContext ctx w).2 = w ∨
  ∃ t, ctx_tx ctx = Some t ∧ ended t w (CommitContext ctx w).2.
Proof.
  unfold CommitContext, commitContextTx, getContextTx. destruct (ctx_tx ctx) as [t|]; [|by left].
  unfold mbind, M_bind, lift, tx_commit. destruct (txs w !! t) as [[d| |]|] eqn:Ht; [|right|by left..].
  - right. exists t. split; [done|].
    destruct (redo w !! t ≫= _) as [c|] eqn:Hc;
      [|by exists (TxOpen d), (committed w); split_and!; auto].
    destruct (sql_fault _); simpl; [|exists (TxOpen d), c; split_and!; eauto].
    exists (TxOpen d), (if ambiguous_commit (tick w) then c else committed w).
    split_and!; [done..|by destruct (ambiguous_commit _)|destruct (ambiguous_commit _); eauto].
  - exists t. split; [done|]. exists TxAborted, (committed w). by split_and!; auto.
Qed.

Lemma RollbackContext_world ctx w :
  (RollbackContext ctx w).2 = w ∨
  ∃ t s, ctx_tx ctx = Some t ∧ txs w !! t = Some s ∧ s ≠ TxDone ∧
    (RollbackContext ctx w).2 = next_tick (set_tx t TxDone w).
Proof.
  unfold RollbackContext, rollbackContextTx, getContextTx. destruct (ctx_tx ctx) as [t|]; [|by left].
  unfold mbind, M_bind, lift, tx_rollback.
  destruct (txs w !! t) as [[d| |]|] eqn:Ht; [right|right|by left..]; by eexists t, _.
Qed.

Lemma rollback_ended t s w :
  txs w !! t = Some s → s ≠ TxDone → ended t w (next_tick (set_tx t TxDone w)).
Proof. intros Ht Hs. exists s, (committed w). by split_and!; auto. Qed.

(** A call of the engine, seen from outside: a method call, the begin, or the
    end, of a transaction. *)
Lemma engine_step_cases w w' : engine_step w w' →
  (∃ ctx, ∀ R, StoreRel ctx R → R w w') ∨
  w' = next_tick (add_tx (TxOpen (committed w)) w) ∨
  ∃ t, ended t w w'.
Proof.
  intros [ctx w1|ctx w1|ctx w1|ctx A m w1 Hm].
  - destruct (BeginContext_world ctx w1) as [-> | ->]; [left; exists ctx; intros; apply store_tick|auto].
  - destruct (CommitContext_world ctx w1) as [-> |(t & _ & ?)]; [|eauto].
    left. exists ctx. intros. reflexivity.
  - destruct (RollbackContext_world ctx w1) as [-> |(t & s & _ & Ht & Hs & ->)].
    + left. exists ctx. intros. reflexivity.
    + right; right. exists t. by eapply rollback_ended.
  - left. exists ctx. intros R HR. by apply (method_frame ctx A).
Qed.

Lemma ended_wf t w w' : ended t w w' → world_wf w → world_wf w'.
Proof.
  intros (s & c & _ & _ & -> & Hc) Hw. apply world_wf_next_tick, world_wf_commit;
    [|by apply world_wf_set_tx]. destruct Hc as [-> | [_ (f & Hf & Hc)%bind_Some]]; [apply Hw|].
  eapply wf_redo; [done..|apply Hw|done].
Qed.

(** ** Properties *)

(** Whatever calls are made of the engine, in whatever order and whatever fails,
    the tables satisfy the schema. *)
Lemma engine_steps_wf w w' : rtc engine_step w w' → world_wf w → world_wf w'.
Proof.
  induction 1 as [|w1 w2 w3 Hstep _ IH]; [done|]. intros Hw. apply IH. clear IH.
  apply engine_step_cases in Hstep as [[ctx HR]|[->|(t & Hend)]].
  - by apply (HR keeps_wf _).
  - apply world_wf_next_tick, world_wf_add_tx; [apply Hw|done].
  - by eapply ended_wf.
Qed.

(** A transaction stays in step until another one commits. *)
Lemma engine_step_in_step t w w' : engine_step w w' → committed w' = committed w →
  in_step t w → in_step t w'.
Proof.
  intros Hstep Heq Hs.
  apply engine_step_cases in Hstep as [[ctx HR]|[->|(t' & s & c & Ht & _ & -> & _)]].
  - by apply (HR (keeps_step t) _).
  - destruct (decide (next_tx w = t)) as [<-|Hne]; [apply in_step_begun|].
    intros d. simpl. rewrite !lookup_insert_ne by done. apply Hs.
  - simpl in Heq. subst c. intros d. simpl. destruct (decide (t' = t)) as [->|Hne].
    + by rewrite lookup_insert_eq.
    + rewrite lookup_insert_ne by done. apply Hs.
Qed.

Lemma engine_steps_in_step t w w' :
  rtc (λ w1 w2, engine_step w1 w2 ∧ committed w2 = committed w1) w w' → in_step t w → in_step t w'.
Proof. induction 1 as [|w1 w2 w3 [] _ IH]; [done|]. eauto using engine_step_in_step. Qed.

(** The committed tables change only when a transaction ends, and they become
    what its statements leave when they are run again on the tables as they
    were just before. If no other transaction has committed since it began,
    that is its own view. *)
Lemma engine_commits w w' : engine_step w w' → committed w' ≠ committed w →
  ∃ t d f, txs w !! t = Some (TxOpen d) ∧ redo w !! t = Some f ∧
    f (committed w) = Some (committed w') ∧ txs w' !! t = Some TxDone ∧ redo w' !! t = Some f ∧
    (in_step t w → committed w' = d).
Proof.
  intros Hstep Hne.
  apply engine_step_cases in Hstep as [[ctx HR]|[->|(t & s & c & Ht & Hs & -> & Hc)]].
  - by destruct (HR same_committed _).
  - done.
  - simpl in *. destruct Hc as [-> | [[d ->] Hc]]; [done|].
    pose proof Hc as (f & Hf & Hfc)%bind_Some. exists t, d, f. rewrite lookup_insert_eq.
    split_and!; [done..|]. intros Hd%(λ H, H d Ht). unfold commits_as in Hc. congruence.
Qed.

Lemma engine_step_done t w w' : engine_step w w' → numbered w → keeps_done t w w'.
Proof.
  intros Hstep Hn.
  apply engine_step_cases in Hstep as [[ctx HR]|[->|(t' & s & c & Ht & Hs & -> & _)]].
  - by apply (HR (keeps_done t) _).
  - intros Hd. simpl. rewrite !lookup_insert_ne; [done|intros <-; by rewrite Hn in Hd..].
  - intros Hd. simpl. by rewrite lookup_insert_ne by congruence.
Qed.

Lemma run_serially_app l t f d : run_serially (l ++ [(t, f)]) d = run_serially l d ≫= f.
Proof. unfold run_serially. by rewrite foldl_app. Qed.

(** Every transaction lives once: it is begun under a new number, a failed
    statement aborts it, an aborted one can only end, and one that has ended,
    by commit or rollback, stays ended whatever is called. *)
Lemma engine_tx_life w w' : engine_step w w' → numbered w →
  numbered w' ∧ ∀ t, tx_next (txs w !! t) (txs w' !! t).
Proof.
  intros Hstep Hn.
  apply engine_step_cases in Hstep as [[ctx HR]|[->|(t & s & c & Ht & Hs & -> & Hc)]].
  - split; [by apply (HR keeps_numbered _)|]. intros t. pose proof (HR (tx_step t) _) as Htx.
    unfold tx_step, tx_next in *. by destruct (txs w !! t) as [[]|], (txs w' !! t) as [[]|].
  - split.
    + intros t. simpl. intros Hle. rewrite lookup_insert_ne by lia. apply Hn. lia.
    + intros t. simpl. destruct (decide (next_tx w = t)) as [<-|Hne].
      * by rewrite Hn, lookup_insert_eq.
      * rewrite lookup_insert_ne by done. by destruct (txs w !! t) as [[]|].
  - split.
    + intros t' Hle. simpl in *. specialize (Hn t' Hle). rewrite lookup_insert_ne; congruence.
    + intros t'. simpl. destruct (decide (t = t')) as [->|Hne].
      * rewrite Ht, lookup_insert_eq. by destruct s.
      * rewrite lookup_insert_ne by done. by destruct (txs w !! t') as [[]|].
Qed.

(** A commit with its answer. *)
Lemma CommitContext_call ctx w :
  let r := (CommitContext ctx w).1 in let w' := (CommitContext ctx w).2 in
  (committed w' = committed w ∧ r ≠ Ok ()) ∨
  ∃ t d f, ctx_tx ctx = Some t ∧ txs w !! t = Some (TxOpen d) ∧ redo w !! t = Some f ∧
    f (committed w) = Some (committed w') ∧ txs w' !! t = Some TxDone ∧ redo w' !! t = Some f ∧
    (r = Ok () ∨ ambiguous_commit (tick w) = true).
Proof.
  cbv zeta. unfold CommitContext, commitContextTx, getContextTx. destruct (ctx_tx ctx) as [t|]; [|by left].
  unfold mbind, M_bind, lift, tx_commit. destruct (txs w !! t) as [[d| |]|] eqn:Ht; [|by left..].
  destruct (redo w !! t ≫= _) as [c|] eqn:Hc; [|by left].
  apply bind_Some in Hc as (f & Hf & Hc).
  destruct (sql_fault _); simpl.
  - destruct (ambiguous_commit _) eqn:Ha; [right|by left]. exists t, d, f. simpl.
    rewrite lookup_insert_eq. by split_and!; auto.
  - right. exists t, d, f. simpl. rewrite lookup_insert_eq. by split_and!; auto.
Qed.

Lemma RollbackContext_call ctx w :
  committed (RollbackContext ctx w).2 = committed w ∧
  ((RollbackContext ctx w).1 = Ok () →
    ∃ t s, ctx_tx ctx = Some t ∧ txs w !! t = Some s ∧ s ≠ TxDone ∧
      txs (RollbackContext ctx w).2 !! t = Some TxDone).
Proof.
  unfold RollbackContext, rollbackContextTx, getContextTx. destruct (ctx_tx ctx) as [t|]; [|done].
  unfold mbind, M_bind, lift, tx_rollback. destruct (txs w !! t) as [[d| |]|] eqn:Ht; simpl; try done;
    (split; [done|]); intros _; eexists t, _; by rewrite lookup_insert_eq.
Qed.

(** The invariant of a run: the transactions that account for it have ended, and
    so have those that were rolled back. *)
Definition accounted (w : World) (calls : list call) (w' : World) (l : list (nat * (DB → option DB))) : Prop :=
  numbered w' ∧ serial w calls w' l ∧ (∀ t, t ∈ l.*1 → txs w' !! t = Some TxDone) ∧
  (∀ t, RolledBack (Some t) (Ok ()) ∈ calls → txs w' !! t = Some TxDone).

(** A call that commits nothing. *)
Lemma accounted_call w calls w1 l c w2 :
  accounted w calls w1 l → engine_step w1 w2 → committed w2 = committed w1 →
  (∀ t, c ≠ Committed (Some t) (Ok ())) →
  (∀ t, c = RolledBack (Some t) (Ok ()) → (t ∉ l.*1) ∧ txs w2 !! t = Some TxDone) →
  accounted w (calls ++ [c]) w2 l.
Proof.
  intros (Hn & [Htab Hnd Hst Hcom Honly Hrb] & Hdone & Hrbd) Hstep Hsame Hc Hr.
  pose proof (λ t, engine_step_done t _ _ Hstep Hn) as Hkeep. unfold keeps_done in Hkeep.
  split_and!; [by eapply engine_tx_life|split| |].
  - by rewrite Hsame.
  - done.
  - intros t f Hin. rewrite <-(Hst t f Hin). apply Hkeep, Hdone. exact (list_elem_of_fmap_2 fst _ _ Hin).
  - intros t [Hin|Heq%list_elem_of_singleton]%elem_of_app; [by apply Hcom|]. by destruct (Hc t).
  - intros t (r & Hin & ?)%Honly. exists r. split; [apply elem_of_app; by left|done].
  - intros t [Hin|Heq%list_elem_of_singleton]%elem_of_app; [by apply Hrb|]. by apply Hr.
  - intros t Hin. apply Hkeep. by apply Hdone.
  - intros t [Hin|Heq%list_elem_of_singleton]%elem_of_app; [by apply Hkeep, Hrbd|]. by apply Hr.
Qed.

(** A commit that takes effect. *)
Lemma accounted_commit w calls w1 l t d f r w2 :
  accounted w calls w1 l → engine_step w1 w2 → txs w1 !! t = Some (TxOpen d) →
  f (committed w1) = Some (committed w2) → txs w2 !! t = Some TxDone → redo w2 !! t = Some f →
  (r = Ok () ∨ ∃ n, ambiguous_commit n = true) →
  accounted w (calls ++ [Committed (Some t) r]) w2 (l ++ [(t, f)]).
Proof.
  intros (Hn & [Htab Hnd Hst Hcom Honly Hrb] & Hdone & Hrbd) Hstep Ht Hf Ht2 Hf2 Hr.
  pose proof (λ t, engine_step_done t _ _ Hstep Hn) as Hkeep. unfold keeps_done in Hkeep.
  assert (t ∉ l.*1) as Hnew by (intros Hin%Hdone; congruence).
  assert (∀ t', t' ∈ (l ++ [(t, f)]).*1 ↔ t' ∈ l.*1 ∨ t' = t) as Hl
    by (intros t'; rewrite fmap_app, elem_of_app; simpl; by rewrite list_elem_of_singleton).
  split_and!; [by eapply engine_tx_life|split| |].
  - by rewrite run_serially_app, Htab.
  - rewrite fmap_app. apply NoDup_app. split_and!; [done| |apply NoDup_singleton].
    by intros t' Hin ->%list_elem_of_singleton.
  - intros t' f' [Hin|[= -> ->]%list_elem_of_singleton]%elem_of_app; [|done].
    rewrite <-(Hst t' f' Hin). apply Hkeep, Hdone. exact (list_elem_of_fmap_2 fst _ _ Hin).
  - intros t' [Hin|[= -> _]%list_elem_of_singleton]%elem_of_app; apply Hl; [left; by apply Hcom|by right].
  - intros t' [(r' & Hin & ?)%Honly | ->]%Hl.
    + exists r'. split; [apply elem_of_app; by left|done].
    + exists r. split; [apply elem_of_app; right; left|done].
  - intros t' [Hin|[=]%list_elem_of_singleton]%elem_of_app [Hin'|Heq]%Hl; [by eapply Hrb|].
    apply Hrbd in Hin. congruence.
  - intros t' [Hin | ->]%Hl; [by apply Hkeep, Hdone|done].
  - intros t' [Hin|[=]%list_elem_of_singleton]%elem_of_app. by apply Hkeep, Hrbd.
Qed.

Lemma method_committed ctx A (m : M A) w : method ctx A m → committed (m w).2 = committed w.
Proof. intros Hm. by apply (method_frame ctx A m same_committed Hm w). Qed.

(** C34: the engine keeps the serializability of the server, whose transactions
    commit only when their statements, run again on the tables as they then are,
    answer as they did. However the calls of the requests are interleaved, and
    whatever fails, the committed tables are those that some transactions, one
    after the other and each once and in full, leave. They are all those whose
    [CommitContext] succeeded, so that no committed update is lost; no others,
    unless the server reports a commit as failed that took effect; and none
    whose [RollbackContext] succeeded, so that nothing of a transaction that was
    rolled back is seen. *)
Theorem engine_serializable w calls w' :
  engine_run w calls w' → numbered w → ∃ l, serial w calls w' l.
Proof.
  intros Hrun Hn0. enough (∃ l, accounted w calls w' l) as (l & _ & ? & _) by by exists l.
  induction Hrun as [|calls w1 ctx _ (l & Hl)|calls w1 ctx _ (l & Hl)|calls w1 ctx _ (l & Hl)|calls w1 ctx A m _ (l & Hl) Hm].
  - exists []. split_and!; [done|split|..]; try done; try (by intros ? ?%elem_of_nil);
      [constructor|by intros ? ? ?%elem_of_nil].
  - exists l. eapply accounted_call; [done|apply step_begin| |done|done].
    by destruct (BeginContext_world ctx w1) as [-> | ->].
  - destruct (CommitContext_call ctx w1) as [[Hc Hr]|(t & d & f & -> & Ht & _ & Hf & Ht2 & Hf2 & Hr)].
    + exists l. eapply accounted_call; [done|apply step_commit|done| |done]. intros t [= _ ?]. done.
    + exists (l ++ [(t, f)]). eapply accounted_commit; [done|apply step_commit|done..|].
      destruct Hr; [by left|right; eauto].
  - exists l. destruct (RollbackContext_call ctx w1) as [Hc Hr].
    eapply accounted_call; [done|apply step_rollback|done|done|].
    intros t [= Ht Hok]. destruct (Hr Hok) as (t' & s & Ht' & Hs & Hne & Hd).
    assert (t' = t) as -> by congruence. split; [|done].
    destruct Hl as (_ & _ & Hdone & _). intros Hin%Hdone. congruence.
  - exists l. eapply accounted_call; [done|by eapply step_call|by eapply method_committed|done|done].
Qed.
End engine.

(** *** At a concrete input *)

(** Two transactions create a group of the same name; each finds the name free,
    and the second to commit has to be restarted. *)
Definition race_group (id : string) : Group :=
  {| g_ID := id; g_OwnerID := "tnntten-1"; g_Name := "new"; g_Description := "" |}.
Definition race_step {A} (m : M A) (w : World) : World := (m w).2.
Definition sample_race : World :=
  race_step (CommitContext (H:=quiet_env) ctx_1) (race_step (CommitContext (H:=quiet_env) ctx_0)
    (race_step (CreateGroup (H:=quiet_env) ctx_1 (race_group "idntgrp-8"))
      (race_step (CreateGroup (H:=quiet_env) ctx_0 (race_group "idntgrp-7"))
        (race_step (BeginContext (H:=quiet_env) ctx_none)
          (race_step (BeginContext (H:=quiet_env) ctx_none) (world_of sample_DB)))))).

Definition race_calls : list call :=
  [Begun (Ok ctx_0); Begun (Ok ctx_1); Called; Called;
   Committed (Some 0) (Ok ()); Committed (Some 1) (Err serialization_failure)].

Lemma sample_race_run :
  engine_run (H:=quiet_env) (H0:=claim_cel) (H1:=plain_hasher) (world_of sample_DB) race_calls sample_race.
Proof.
  pose proof (run_start (H:=quiet_env) (H0:=claim_cel) (H1:=plain_hasher) (world_of sample_DB)) as Hrun.
  do 2 apply (run_begin _ _ _ ctx_none) in Hrun.
  apply (λ H, run_call _ _ _ ctx_0 _ _ H (call_CreateGroup ctx_0 (race_group "idntgrp-7"))) in Hrun.
  apply (λ H, run_call _ _ _ ctx_1 _ _ H (call_CreateGroup ctx_1 (race_group "idntgrp-8"))) in Hrun.
  apply (run_commit _ _ _ ctx_0) in Hrun. apply (run_commit _ _ _ ctx_1) in Hrun.
  match type of Hrun with
  | engine_run _ ?l _ => assert (l = race_calls) as <- by (vm_compute; reflexivity)
  end.
  exact Hrun.
Qed.

Lemma engine_serializable_witness :
  ∃ l, serial (H:=quiet_env) (world_of sample_DB) race_calls sample_race l ∧
    l.*1 = [0] ∧ groups (committed sample_race) !! "idntgrp-8" = None.
Proof.
  destruct (engine_serializable _ _ _ sample_race_run (λ t _, lookup_empty t)) as (l & Hl).
  exists l. split_and!; [exact Hl| |by vm_compute]. destruct Hl as [_ Hnd _ Hcom Honly _].
  assert (∀ t, t ∈ l.*1 ↔ t = 0) as Hl.
  { intros t. split.
    - intros (r & Hr & Hok)%Honly. unfold race_calls in Hr. rewrite !elem_of_cons in Hr.
      by destruct Hr as [|[|[|[|[[=]|[[=]|Hr%elem_of_nil]]]]]], Hok as [|[]]; subst.
    - intros ->. apply Hcom. unfold race_calls. do 4 right. left. }
  destruct (l.*1) as [|t [|t' l']].
  - by assert (0 ∈ @nil nat) as ?%elem_of_nil by by apply Hl.
  - by rewrite (proj1 (Hl t)) by left.
  - apply NoDup_cons in Hnd as [Hnd _]. destruct Hnd.
    rewrite (proj1 (Hl t)), (proj1 (Hl t')); [left|right; left|left].
Defined.

(** [ReplaceGroupMembers] reads the members it replaces outside its transaction,
    so that nothing makes two replacements wait for one another: both succeed
    and are committed, and the group has the members of both, which it would
    have after neither order. *)
Lemma concurrent_replacements_merge :
  let g := "idntgrp-2" in
  let run A (m : M A) (w : World) := (m w).2 in
  let replace ctx ss := ReplaceGroupMembers (H:=quiet_env) ctx g ss in
  let commit := CommitContext (H:=quiet_env) in
  let w0 := run _ (BeginContext (H:=quiet_env) ctx_none)
              (run _ (BeginContext (H:=quiet_env) ctx_none) (world_of sample_DB)) in
  let w1 := run _ (replace ctx_0 ["idntusr-1"]) w0 in
  let w2 := run _ (replace ctx_1 ["idntusr-2"]) w1 in
  let w3 := run _ (commit ctx_0) w2 in
  members_of sample_DB g = [] ∧
  (replace ctx_0 ["idntusr-1"] w0).1 = Ok (["idntusr-1"], []) ∧
  (replace ctx_1 ["idntusr-2"] w1).1 = Ok (["idntusr-2"], []) ∧
  (commit ctx_0 w2).1 = Ok () ∧ (commit ctx_1 w3).1 = Ok () ∧
  members_of (committed (run _ (commit ctx_1) w3)) g ≡ₚ ["idntusr-1"; "idntusr-2"].
Proof.
  cbv zeta. split_and!; [by vm_compute..|]. apply (bool_decide_unpack _). by vm_compute.
Qed.

Lemma engine_tx_life_witness :
  numbered (CommitContext (H:=quiet_env) ctx_0 (world_in_tx sample_DB)).2 ∧
  tx_next (Some (TxOpen sample_DB))
    (txs (CommitContext (H:=quiet_env) ctx_0 (world_in_tx sample_DB)).2 !! 0).
Proof.
  destruct (engine_tx_life (E:=quiet_env) (C:=claim_cel) (H:=plain_hasher) (world_in_tx sample_DB)
    (CommitContext (H:=quiet_env) ctx_0 (world_in_tx sample_DB)).2) as [H1 H2];
    [apply step_commit| |exact (conj H1 (H2 0))].
  intros t Ht. apply lookup_insert_None. split; [apply lookup_empty|].
  intros <-. simpl in Ht. lia.
Defined.
