(* ===== verification/Events.v ===== *)
(** Group events for permissions-api: the interface [events.Service]
    ([internal/events/service.go]) and its implementation
    ([internal/events/groups_event.go]). *)
From S2P Require Import Prelude GoStrings Errors Pagination V1 ListQuery World Frame Run.

(** ** The interface *)

(** An event that is published, not asked. *)
Definition published (e : event) : bool :=
  match e with
  | EvCreateAuthRelationships _ _ _ | EvDeleteAuthRelationships _ _ _ => true
  | EvCheckAccess _ _ _ | EvWrite => false
  end.

(** [events.Service]. *)
Class EventService : Type := {
  es_AddGroupMembers : Context → PrefixedID → list PrefixedID → M ();
  es_RemoveGroupMembers : Context → PrefixedID → list PrefixedID → M ();
  es_CreateGroup : Context → PrefixedID → PrefixedID → M ();
  es_DeleteGroup : Context → PrefixedID → PrefixedID → M ();
}.

(** Relations kept by publishing. *)
Class PublishRel (R : relation World) : Prop := {
  publish_preorder :: PreOrder R;
  publish_tick : ∀ w, R w (next_tick w);
  publish_log : ∀ e w, published e = true → R w (next_tick (log e w));
}.

(** What a call of the service did: it returned, and published one event or
    none, according to its specification; or it failed and published none. *)
Definition publishes (m : M ()) (spec : option event) : Prop :=
  ∀ w, match (m w).1 with
       | Ok _ => trace (m w).2 = trace w ++ option_list spec
       | Err _ => trace (m w).2 = trace w
       | Panic _ => False
       end.

(** The relations of a group's members that a call is about. *)
Definition DirectMemberRelationship : string := "direct_member".
Definition GroupParentRelationship : string := "parent".
Definition GroupTopic : string := "group".

Definition member_relations (subjIDs : list PrefixedID) : list (string * string) :=
  (λ subj, (DirectMemberRelationship, subj)) <$> filter (λ subj, subj ≠ "") subjIDs.

Definition members_event (ev : string → string → list (string * string) → event)
    (gid : PrefixedID) (subjIDs : list PrefixedID) : option event :=
  if decide (member_relations subjIDs = []) then None
  else Some (ev GroupTopic gid (member_relations subjIDs)).

(** What a client of the service relies on: a call changes nothing but the
    log, and publishes the relationships of the group, of the members whose
    identifier is not empty, or nothing when it fails. *)
Class EventServiceLaws (S : EventService) : Prop := {
  AddGroupMembers_keeps R ctx g ss : PublishRel R → keeps R (es_AddGroupMembers ctx g ss);
  RemoveGroupMembers_keeps R ctx g ss : PublishRel R → keeps R (es_RemoveGroupMembers ctx g ss);
  CreateGroup_keeps R ctx p g : PublishRel R → keeps R (es_CreateGroup ctx p g);
  DeleteGroup_keeps R ctx p g : PublishRel R → keeps R (es_DeleteGroup ctx p g);
  AddGroupMembers_publishes ctx g ss :
    publishes (es_AddGroupMembers ctx g ss) (members_event EvCreateAuthRelationships g ss);
  RemoveGroupMembers_publishes ctx g ss :
    publishes (es_RemoveGroupMembers ctx g ss) (members_event EvDeleteAuthRelationships g ss);
  CreateGroup_publishes ctx p g :
    publishes (es_CreateGroup ctx p g)
      (Some (EvCreateAuthRelationships GroupTopic g [(GroupParentRelationship, p)]));
  DeleteGroup_publishes ctx p g :
    publishes (es_DeleteGroup ctx p g)
      (Some (EvDeleteAuthRelationships GroupTopic g [(GroupParentRelationship, p)]));
}.

(** ** The implementation *)

Section events.
Context `{Env}.

Definition AddGroupMembers (ctx : Context) (gid : PrefixedID) (subjIDs : list PrefixedID) : M () :=
  if decide (length subjIDs = 0) then mret tt
  else
    let rels := member_relations subjIDs in
    if decide (length rels = 0) then mret tt
    else CreateAuthRelationships GroupTopic gid rels.

Definition RemoveGroupMembers (ctx : Context) (gid : PrefixedID) (subjIDs : list PrefixedID) : M () :=
  let rels := member_relations subjIDs in
  if decide (length rels = 0) then mret tt
  else DeleteAuthRelationships GroupTopic gid rels.

Definition CreateGroup (ctx : Context) (parentID gid : PrefixedID) : M () :=
  CreateAuthRelationships GroupTopic gid [(GroupParentRelationship, parentID)].

Definition DeleteGroup (ctx : Context) (parentID gid : PrefixedID) : M () :=
  DeleteAuthRelationships GroupTopic gid [(GroupParentRelationship, parentID)].

(** [NewEvents]. *)
#[global] Instance NewEvents : EventService := {|
  es_AddGroupMembers := AddGroupMembers;
  es_RemoveGroupMembers := RemoveGroupMembers;
  es_CreateGroup := CreateGroup;
  es_DeleteGroup := DeleteGroup;
|}.
End events.

(** ** Lemmas *)

#[global] Instance same_committed_publish : PublishRel same_committed.
Proof. split; [apply _|done..]. Qed.
#[global] Instance same_response_publish : PublishRel same_response.
Proof. split; [apply _|done..]. Qed.
#[global] Instance trace_grows_publish : PublishRel trace_grows.
Proof. unfold trace_grows. split; [apply _|done|]. intros. simpl. by apply prefix_app_r. Qed.
#[global] Instance keeps_wf_publish : PublishRel keeps_wf.
Proof. split; [apply _|..]; intros; intros Hw; auto with wf. Qed.

(** The transactions are as they were. *)
Definition same_txs (w w' : World) : Prop := txs w' = txs w.
#[global] Instance same_txs_preorder : PreOrder same_txs.
Proof. unfold same_txs. split; [by intros w|]. intros w1 w2 w3. congruence. Qed.
#[global] Instance same_txs_publish : PublishRel same_txs.
Proof. split; [apply _|done..]. Qed.

Section laws.
Context {E : Env}.

Lemma publish_keeps R e : PublishRel R → published e = true → keeps R (publish e).
Proof.
  intros HR He w. unfold publish. destruct (publish_fault _); simpl;
    [apply publish_tick|by apply publish_log].
Qed.

Lemma publish_publishes e : publishes (publish e) (Some e).
Proof.
  intros w. unfold publish. by destruct (publish_fault _).
Qed.

Lemma ret_publishes : publishes (mret tt) None.
Proof. intros w. simpl. by rewrite app_nil_r. Qed.

Lemma members_publishes ev g ss m :
  (member_relations ss ≠ [] → m = publish (ev GroupTopic g (member_relations ss))) →
  publishes (if decide (length (member_relations ss) = 0) then mret tt else m) (members_event ev g ss).
Proof.
  intros Hm. unfold members_event. destruct (member_relations ss) as [|r rs] eqn:Hr; simpl.
  - apply ret_publishes.
  - rewrite Hm by done. apply publish_publishes.
Qed.

#[global] Instance NewEvents_laws : EventServiceLaws NewEvents.
Proof.
  split; simpl.
  - intros R ctx g ss HR. unfold AddGroupMembers, CreateAuthRelationships.
    repeat case_decide; try apply keeps_ret, _. by apply publish_keeps.
  - intros R ctx g ss HR. unfold RemoveGroupMembers, DeleteAuthRelationships.
    repeat case_decide; try apply keeps_ret, _. by apply publish_keeps.
  - intros R ctx p g HR. by apply publish_keeps.
  - intros R ctx p g HR. by apply publish_keeps.
  - intros ctx g ss. unfold AddGroupMembers. destruct ss as [|s ss]; [apply ret_publishes|].
    by apply (members_publishes EvCreateAuthRelationships).
  - intros ctx g ss. by apply (members_publishes EvDeleteAuthRelationships).
  - intros ctx p g. apply publish_publishes.
  - intros ctx p g. apply publish_publishes.
Qed.
End laws.
