(* ===== verification/Http.v ===== *)
(** What the API handlers share: [internal/api/httpsrv/handler.go],
    [internal/api/httpsrv/errors.go], and the response of a request. *)
From S2P Require Import Prelude GoStrings Errors Pagination V1 ListQuery World Frame Run.
From S2P Require Import Storage Events.

(** ** The web framework *)

(** echo, and the random strings of ory/x: the status that the error handler
    writes for an error, the failures to write a response, and the secrets. *)
Class Echo : Type := {
  echo_status : error → Z;
  encode_fault : nat → option error;
  RuneSequence : nat → Z → result string;
}.

(** The default error handler of echo: the code of an [*echo.HTTPError], and
    500 for any other error. *)
Fixpoint DefaultHTTPErrorHandler (e : error) : Z :=
  match e with
  | HTTPError code _ | HTTPErrorOf code _ => code
  | SetInternal e _ => DefaultHTTPErrorHandler e
  | _ => 500
  end.

Class DefaultEcho (E : Echo) : Prop := {
  default_status : ∀ e, echo_status e = DefaultHTTPErrorHandler e;
}.

Section http.
Context `{Env, Echo}.

(** The first status that is written is the one the client sees. *)
Definition write_status (code : Z) : M () := λ w,
  (Ok tt, match responded w with Some _ => w | None => set_responded (Some code) w end).

(** [eCtx.Error(err)]. *)
Definition write_error (err : error) : M () := write_status (echo_status err).

(** [validResponse.Visit...Response(ctx.Response())] of the strict server: the
    status, then the encoded body. *)
Definition encode_body : M () := λ w,
  (match encode_fault (tick w) with Some e => Err e | None => Ok tt end, next_tick w).
Definition visit_response : M () := _ ← write_status 200; encode_body.

(** A handler of the strict server: its response is written when it returns
    one, and its error is left to the middleware. *)
Definition strict_handler {Response} (handler : Context → M Response) (ctx : Context) : M () :=
  _ ← handler ctx; visit_response.

(** [storageMiddleware]. *)
Definition storageMiddleware (next : Context → M ()) (reqCtx : Context) : M () :=
  newCtx ← on_error (BeginContext reqCtx) (λ err, fail (HTTPErrorOf 502 err));
  r ← attempt (next newCtx);
  match r with
  | inl err =>
    _ ← write_error err;
    _ ← on_error (RollbackContext newCtx) (λ rbErr, fail (HTTPErrorOf 502 rbErr));
    fail err
  | inr _ => on_error (CommitContext newCtx) (λ err, fail (HTTPErrorOf 502 err))
  end.

(** [rollbackAndReturnError]. *)
Definition rollbackAndReturnError (ctx : Context) (httpcode : Z) (msg : string) : M error :=
  on_error (_ ← RollbackContext ctx; mret (HTTPError httpcode msg)) (λ err,
    mret (SetInternal (HTTPErrorOf 500
      (Errorf (msg +:+ " and " +:+ Error ErrDBRollbackFailed) ErrDBRollbackFailed)) err)).

(** [if err := m; err != nil { return nil, h.rollbackAndReturnError(...) }]. *)
Definition or_rollback (ctx : Context) (msg : string) (m : M ()) : M () :=
  on_error m (λ _, resperr ← rollbackAndReturnError ctx 500 msg; fail resperr).

(** [if _, err := gidx.Parse(string(id)); err != nil { return nil,
    echo.NewHTTPError(http.StatusBadRequest, "...: " + err.Error()) }]. *)
Definition parse_or_400 (id : string) (text : string) : M () :=
  on_error (_ ← lift (gidx_Parse id); mret tt) (λ err,
    fail (HTTPError 400 (text +:+ ": " +:+ Error err))).

(** [if err := permissions.CheckAccess(...); err != nil { return nil,
    permissionsError(err) }]. *)
Definition check_access (ctx : Context) (resource action : string) : M () :=
  on_error (CheckAccess ctx resource action) (λ err, fail (permissionsError err)).

(** [switch err { case t: return nil, e; default: return nil, err }]. *)
Definition on_sentinel {A} (m : M A) (t : sentinel) (e : error) : M A :=
  on_error m (λ err, if is_sentinel err t then fail e else fail err).

(** [switch err { case nil, t: default: return nil, err }]. *)
Definition ignore_sentinel (m : M ()) (t : sentinel) : M () :=
  on_error m (λ err, if is_sentinel err t then mret tt else fail err).

(** A request from its arrival: the middleware, and the framework's error
    handler for what it returns. *)
Definition ServeHTTP {Response} (handler : Context → M Response) (ctx : Context) : M () := λ w,
  on_error (storageMiddleware (strict_handler handler) ctx) write_error (set_responded None w).
End http.

(** ** Frames of the handlers *)

(** Relations kept by the storage methods, by what the handlers publish to
    permissions-api, and by the rollback of the request's own transaction. *)
Class EffectRel (ctx : Context) (R : relation World) : Prop := {
  effect_store :: StoreRel ctx R;
  effect_publish :: PublishRel R;
  effect_rollback : ∀ t s w, ctx_tx ctx = Some t → txs w !! t = Some s → s ≠ TxDone →
    R w (next_tick (set_tx t TxDone w));
}.

(** And by what they ask of permissions-api. *)
Class HandlerRel (ctx : Context) (R : relation World) : Prop := {
  handler_effect :: EffectRel ctx R;
  handler_check : ∀ r a g w, R w (next_tick (log (EvCheckAccess r a g) w));
}.

#[global] Instance same_committed_handler ctx : HandlerRel ctx same_committed.
Proof. split; [split; [apply _..|done]|done]. Qed.
#[global] Instance same_response_handler ctx : HandlerRel ctx same_response.
Proof. split; [split; [apply _..|done]|done]. Qed.
#[global] Instance keeps_wf_handler ctx : HandlerRel ctx keeps_wf.
Proof. split; [split; [apply _..|]|]; intros; intros Hw; auto with wf. Qed.
#[global] Instance trace_grows_handler ctx : HandlerRel ctx trace_grows.
Proof.
  split; [split; [apply _..|]|]; intros; unfold trace_grows; simpl; [done|by apply prefix_app_r].
Qed.

Lemma in_step_ended t t' w : in_step t w → in_step t (set_tx t' TxDone w).
Proof.
  intros Hw d. simpl. destruct (decide (t' = t)) as [->|Hne].
  - by rewrite lookup_insert_eq.
  - rewrite lookup_insert_ne by done. apply Hw.
Qed.
#[global] Instance keeps_step_handler ctx t : HandlerRel ctx (keeps_step t).
Proof.
  split; [split; [apply _| |]|].
  - split; [apply _|by intros w|by intros e w _].
  - intros t' s w _ _ _. split; [done|]. apply in_step_ended.
  - intros r a g w. by split.
Qed.

(** The handlers never end their transaction by anything but a rollback, and
    never begin one. *)
Definition own_tx (ctx : Context) (w w' : World) : Prop :=
  next_tx w' = next_tx w ∧
  (∀ t, ctx_tx ctx ≠ Some t → txs w' !! t = txs w !! t) ∧
  (∀ t, is_Some (txs w !! t) → is_Some (txs w' !! t)).

#[global] Instance own_tx_handler ctx : HandlerRel ctx (own_tx ctx).
Proof.
  assert (PreOrder (own_tx ctx)) as HP.
  { split; [intros w; unfold own_tx; by split_and!|]. intros w1 w2 w3 (H1 & H2 & H3) (H4 & H5 & H6).
    unfold own_tx. split_and!; [congruence| |auto]. intros t Ht. rewrite H5, H2; done. }
  assert (∀ t s w, ctx_tx ctx = Some t → own_tx ctx w (set_tx t s w)) as Hset.
  { intros t s w Hc. unfold own_tx. split_and!; [done|..]; intros t' Ht'; simpl.
    - rewrite lookup_insert_ne; [done|congruence].
    - rewrite lookup_insert_is_Some'. auto. }
  split; [split; [split|split|]|]; try done; intros;
    first [exact (Hset _ _ _ ltac:(eassumption))|by split_and!].
Qed.

Section frames.
Context {E : Env} {Ec : Echo} (ctx : Context) (R : relation World).

Lemma keeps_check_access r a : HandlerRel ctx R → keeps R (check_access ctx r a).
Proof.
  intros HR. unfold check_access. apply keeps_on_error; [apply _| |intros; apply keeps_fail, _].
  intros w. unfold CheckAccess. destruct (CheckAccess_err _ _ _); apply handler_check.
Qed.

Context {HR : EffectRel ctx R}.

Lemma keeps_parse_or_400 id text : keeps R (parse_or_400 id text).
Proof using HR. unfold parse_or_400. frame. Qed.

Lemma keeps_RollbackContext : keeps R (RollbackContext ctx).
Proof using HR.
  unfold RollbackContext, rollbackContextTx. eapply keeps_getContextTx; [apply _|].
  intros t Hc w. unfold tx_rollback. destruct (txs w !! t) as [[]|] eqn:Ht; try reflexivity;
    by eapply effect_rollback.
Qed.

Lemma keeps_rollbackAndReturnError code msg : keeps R (rollbackAndReturnError ctx code msg).
Proof using HR.
  unfold rollbackAndReturnError. apply keeps_on_error; [apply _| |intros; apply keeps_ret, _].
  apply keeps_bind; [apply _|apply keeps_RollbackContext|intros; apply keeps_ret, _].
Qed.

Lemma keeps_or_rollback msg m : keeps R m → keeps R (or_rollback ctx msg m).
Proof using HR.
  intros Hm. unfold or_rollback. apply keeps_on_error; [apply _|done|]. intros e.
  apply keeps_bind; [apply _|apply keeps_rollbackAndReturnError|intros; apply keeps_fail, _].
Qed.

Lemma on_sentinel_frame {A} (m : M A) t e : keeps R m → keeps R (on_sentinel m t e).
Proof using HR. intros Hm. unfold on_sentinel. frame. Qed.
Lemma ignore_sentinel_frame (m : M ()) t : keeps R m → keeps R (ignore_sentinel m t).
Proof using HR. intros Hm. unfold ignore_sentinel. frame. Qed.
End frames.
#[export] Hint Resolve on_sentinel_frame ignore_sentinel_frame keeps_check_access keeps_parse_or_400 keeps_rollbackAndReturnError
  keeps_or_rollback AddGroupMembers_keeps RemoveGroupMembers_keeps CreateGroup_keeps
  DeleteGroup_keeps : frame.
#[export] Hint Extern 0 (StoreRel _ _) => apply _ : frame.
#[export] Hint Extern 0 (PublishRel _) => apply _ : frame.
#[export] Hint Extern 0 (EffectRel _ _) => apply _ : frame.
#[export] Hint Extern 0 (HandlerRel _ _) => apply _ : frame.
