(* ===== verification/GroupHandler.v ===== *)
(** The group handlers of the API, [internal/api/httpsrv/handler_group.go] and
    [handler_group_members.go]. They are clients of the event service through
    its interface. *)
From S2P Require Import Prelude GoStrings Errors Cursor Pagination V1 ListQuery World Frame.
From S2P Require Import Run Types Storage GroupStore UserStore Events Http.

Definition actionGroupGet : string := "iam_group_get".
Definition actionGroupList : string := "iam_group_list".
Definition actionGroupCreate : string := "iam_group_create".
Definition actionGroupUpdate : string := "iam_group_update".
Definition actionGroupDelete : string := "iam_group_delete".
Definition actionGroupMembersList : string := "iam_group_members_list".
Definition actionGroupMembersAdd : string := "iam_group_members_add".
Definition actionGroupMembersPut : string := "iam_group_members_put".
Definition actionGroupMembersRemove : string := "iam_group_members_remove".
Definition actionUserGet : string := "iam_user_get".

(** A double quote, for [%q]-like messages. *)
Definition quoted (s : string) : string :=
  str1 dquote +:+ s +:+ str1 dquote.

Section handlers.
Context `{Env, Echo, EventService}.

Definition group_not_found (gid : PrefixedID) : error :=
  HTTPError 404 ("group " +:+ gid +:+ " not found").

(** [if errors.Is(err, types.ErrNotFound) { err = echo.NewHTTPError(404, err.Error()) }]. *)
Definition not_found_404 {A} (m : M A) : M A :=
  on_error m (λ err, if Is err ErrNotFound then fail (HTTPError 404 (Error err)) else fail err).

(** The loop that checks the member identifiers of a request. *)
Fixpoint parse_members (ids : list PrefixedID) : M () :=
  match ids with
  | [] => mret tt
  | mid :: rest => _ ← parse_or_400 mid ("invalid member id " +:+ mid); parse_members rest
  end.

(** *** [handler_group.go] *)

Definition CreateGroup (ctx : Context) (ownerID : PrefixedID) (reqbody : v1_CreateGroup) : M v1_Group :=
  _ ← parse_or_400 ownerID "invalid owner id";
  _ ← check_access ctx ownerID actionGroupCreate;
  id ← on_error (NewID IdentityGroupIDPrefix) (λ err,
    fail (HTTPError 500 ("failed to generate new id: " +:+ Error err)));
  let description := default "" (v1cg_Description reqbody) in
  g ← on_error
    (GroupStore.CreateGroup ctx {| g_ID := id; g_OwnerID := ownerID;
       g_Name := v1cg_Name reqbody; g_Description := description |})
    (λ err,
      if Is err ErrGroupExists then
        fail (HTTPError 409 ("group " +:+ quoted (v1cg_Name reqbody) +:+ " already exists"))
      else if Is err ErrInvalidArgument then fail (HTTPError 400 (Error err))
      else fail err);
  _ ← or_rollback ctx "failed to create group in permissions API" (es_CreateGroup ctx ownerID id);
  lift (ToV1Group g).

Definition GetGroupByID (ctx : Context) (gid : PrefixedID) : M v1_Group :=
  _ ← parse_or_400 gid "invalid group id";
  _ ← check_access ctx gid actionGroupGet;
  g ← on_error (GroupStore.GetGroupByID ctx gid) (λ err,
    if Is err ErrNotFound then fail (group_not_found gid) else fail err);
  lift (ToV1Group g).

Definition ListGroups (ctx : Context) (ownerID : PrefixedID) (params : PageParams)
    : M v1_GroupCollection :=
  _ ← parse_or_400 ownerID "invalid owner id";
  _ ← check_access ctx ownerID actionGroupList;
  groups ← ListGroupsByOwner ctx ownerID (params_Paginator v1_GroupCollection params);
  groupResp ← lift (ToV1Groups groups);
  lift (SetPagination params {| gc_Groups := groupResp; gc_Pagination := zero_Pagination |}).

Definition UpdateGroup (ctx : Context) (gid : PrefixedID) (reqbody : v1_UpdateGroup) : M v1_Group :=
  _ ← parse_or_400 gid "invalid group id";
  _ ← check_access ctx gid actionGroupUpdate;
  g ← on_error
    (GroupStore.UpdateGroup ctx gid
       {| gu_Name := v1ug_Name reqbody; gu_Description := v1ug_Description reqbody |})
    (λ err,
      if Is err ErrGroupNotFound then fail (group_not_found gid)
      else if Is err ErrGroupExists then fail (HTTPError 409 "group with same name already exists")
      else fail err);
  lift (ToV1Group g).

Definition DeleteGroup (ctx : Context) (gid : PrefixedID) : M bool :=
  _ ← parse_or_400 gid "invalid group id";
  _ ← check_access ctx gid actionGroupDelete;
  group ← on_error (GroupStore.GetGroupByID ctx gid) (λ err,
    if Is err ErrNotFound then fail (group_not_found gid) else fail err);
  mc ← GroupMembersCount ctx gid;
  if decide (0 < mc) then
    fail (HTTPError 400 ("cannot delete group " +:+ gid +:+ ": still has members"))
  else
    _ ← on_error (GroupStore.DeleteGroup ctx (g_ID group)) (λ err,
      if Is err ErrInvalidArgument then fail (HTTPError 400 (Error err)) else fail err);
    _ ← or_rollback ctx "failed to remove group in permissions API"
          (es_DeleteGroup ctx (g_OwnerID group) (g_ID group));
    mret true.

(** *** [handler_group_members.go] *)

Definition AddGroupMembers (ctx : Context) (gid : PrefixedID) (reqbody : v1_AddGroupMembers) : M bool :=
  _ ← parse_or_400 gid "invalid owner id";
  _ ← parse_members (v1_MemberIDs reqbody);
  _ ← check_access ctx gid actionGroupMembersAdd;
  _ ← not_found_404 (GroupStore.AddGroupMembers ctx gid (v1_MemberIDs reqbody));
  _ ← or_rollback ctx "failed to add group members in permissions API"
        (es_AddGroupMembers ctx gid (v1_MemberIDs reqbody));
  mret true.

Definition ListGroupMembers (ctx : Context) (gid : PrefixedID) (params : PageParams)
    : M v1_GroupMemberCollection :=
  _ ← parse_or_400 gid "invalid group id";
  _ ← check_access ctx gid actionGroupMembersList;
  members ← not_found_404 (GroupStore.ListGroupMembers ctx gid
    (Some (params_Paginator v1_GroupMemberCollection params)));
  lift (SetPagination params
    {| gmc_GroupID := gid; gmc_MemberIDs := members; gmc_Pagination := zero_Pagination |}).

(** The first of the two checks of the member's identifier returns nothing. *)
Definition RemoveGroupMember (ctx : Context) (gid sid : PrefixedID) : M bool :=
  _ ← parse_or_400 gid "invalid group id";
  _ ← attempt (lift (gidx_Parse sid));
  _ ← parse_or_400 sid "invalid member id";
  _ ← check_access ctx gid actionGroupMembersRemove;
  _ ← not_found_404 (GroupStore.RemoveGroupMember ctx gid sid);
  _ ← or_rollback ctx "failed to remove group member in permissions API"
        (es_RemoveGroupMembers ctx gid [sid]);
  mret true.

Definition ReplaceGroupMembers (ctx : Context) (gid : PrefixedID) (reqbody : v1_AddGroupMembers)
    : M bool :=
  _ ← parse_or_400 gid "invalid group id";
  _ ← parse_members (v1_MemberIDs reqbody);
  _ ← check_access ctx gid actionGroupMembersPut;
  addrm ← not_found_404 (GroupStore.ReplaceGroupMembers ctx gid (v1_MemberIDs reqbody));
  let '(add, rm) := addrm in
  _ ← or_rollback ctx "failed to replace group members in permissions API"
        (es_RemoveGroupMembers ctx gid rm);
  _ ← or_rollback ctx "failed to replace group members in permissions API"
        (es_AddGroupMembers ctx gid add);
  mret true.

Definition ListUserGroups (ctx : Context) (subject : PrefixedID) (params : PageParams)
    : M v1_GroupIDCollection :=
  _ ← parse_or_400 subject "invalid subject id";
  ownerID ← on_sentinel (LookupUserOwnerID ctx subject) ErrUserInfoNotFound
    (HTTPError 404 (Error ErrUserInfoNotFound));
  _ ← check_access ctx ownerID actionUserGet;
  groups ← not_found_404 (ListGroupsBySubject ctx subject
    (params_Paginator v1_GroupIDCollection params));
  lift (SetPagination params
    {| gic_GroupIDs := ToPrefixedIDs groups; gic_Pagination := zero_Pagination |}).
End handlers.

(** ** Frames *)

Section helpers.
Context {E : Env} (ctx : Context) (R : relation World) `{HR : !EffectRel ctx R}.

Lemma not_found_404_frame {A} (m : M A) : keeps R m → keeps R (not_found_404 m).
Proof using HR. intros Hm. unfold not_found_404. frame. Qed.
Lemma parse_members_frame ids : keeps R (parse_members ids).
Proof using HR. induction ids; simpl; frame. Qed.
End helpers.
#[export] Hint Resolve not_found_404_frame parse_members_frame : frame.

Section frames.
Context {E : Env} {Ec : Echo} {S : EventService} {HS : EventServiceLaws S}.
Context (ctx : Context) (R : relation World) `{HR : !HandlerRel ctx R}.

Lemma CreateGroup_handler_frame o b : keeps R (CreateGroup ctx o b).
Proof using HR HS. unfold CreateGroup. frame. Qed.
Lemma GetGroupByID_handler_frame g : keeps R (GetGroupByID ctx g).
Proof using HR. unfold GetGroupByID. frame. Qed.
Lemma ListGroups_handler_frame o p : keeps R (ListGroups ctx o p).
Proof using HR. unfold ListGroups. frame. Qed.
Lemma UpdateGroup_handler_frame g b : keeps R (UpdateGroup ctx g b).
Proof using HR. unfold UpdateGroup. frame. Qed.
Lemma DeleteGroup_handler_frame g : keeps R (DeleteGroup ctx g).
Proof using HR HS. unfold DeleteGroup. frame. Qed.
Lemma AddGroupMembers_handler_frame g b : keeps R (AddGroupMembers ctx g b).
Proof using HR HS. unfold AddGroupMembers. frame. Qed.
Lemma ListGroupMembers_handler_frame g p : keeps R (ListGroupMembers ctx g p).
Proof using HR. unfold ListGroupMembers. frame. Qed.
Lemma RemoveGroupMember_handler_frame g s : keeps R (RemoveGroupMember ctx g s).
Proof using HR HS. unfold RemoveGroupMember. frame. Qed.
Lemma ReplaceGroupMembers_handler_frame g b : keeps R (ReplaceGroupMembers ctx g b).
Proof using HR HS. unfold ReplaceGroupMembers. frame. Qed.
Lemma ListUserGroups_handler_frame u p : keeps R (ListUserGroups ctx u p).
Proof using HR. unfold ListUserGroups. frame. Qed.
End frames.
#[export] Hint Resolve CreateGroup_handler_frame GetGroupByID_handler_frame ListGroups_handler_frame
  UpdateGroup_handler_frame DeleteGroup_handler_frame AddGroupMembers_handler_frame ListGroupMembers_handler_frame
  RemoveGroupMember_handler_frame ReplaceGroupMembers_handler_frame ListUserGroups_handler_frame : frame.
