(* ===== verification/ResourceHandler.v ===== *)
(** The issuer, OAuth client and user handlers of the API:
    [internal/api/httpsrv/handler_issuer.go], [handler_oauth_client.go] and
    [handle_user.go]. *)
From S2P Require Import Prelude GoStrings Errors Pagination V1 ListQuery World Frame Run Cel.
From S2P Require Import Types Storage UserStore IssuerStore ClientStore Events Http.
From S2P Require Import GroupHandler.

Definition actionIssuerCreate : string := "iam_issuer_create".
Definition actionIssuerUpdate : string := "iam_issuer_update".
Definition actionIssuerDelete : string := "iam_issuer_delete".
Definition actionIssuerGet : string := "iam_issuer_get".
Definition actionIssuerList : string := "iam_issuer_list".
Definition actionOAuthClientCreate : string := "iam_oauthclient_create".
Definition actionOAuthClientDelete : string := "iam_oauthclient_delete".
Definition actionOAuthClientGet : string := "iam_oauthclient_get".
Definition actionOAuthClientList : string := "iam_oauthclient_list".
Definition defaultTokenLength : Z := 26.

Section handlers.
Context `{Env, CEL, Hasher, Echo}.

Definition cel_400 : error := ErrorWithStatus 400 "error parsing CEL expression".

(** The expressions of a request body, when it has any. *)
Definition parse_mappings (m : option (gmap string string)) : M (option (gmap string Ast)) :=
  match m with
  | Some m => on_error (lift (Some <$> NewClaimsMapping m)) (λ _, fail cel_400)
  | None => mret None
  end.

Definition parse_conditions (e : option string) (f : error → error) : M (option ClaimConditions) :=
  match e with
  | Some e => on_error (lift (Some <$> NewClaimConditions e)) (λ err, fail (f err))
  | None => mret None
  end.

(** *** [handler_issuer.go] *)

Definition CreateIssuer (ctx : Context) (ownerID : PrefixedID) (createOp : v1_CreateIssuer)
    : M v1_Issuer :=
  _ ← check_access ctx ownerID actionIssuerCreate;
  claimsMapping ← parse_mappings (v1ci_ClaimMappings createOp);
  claimConditions ← parse_conditions (v1ci_ClaimConditions createOp)
    (λ err, HTTPError 400 (Error err));
  id ← on_error (NewID IdentityIssuerIDPrefix) (λ _,
    fail (ErrorWithStatus 500 "failed to generate new id"));
  issuer ← IssuerStore.CreateIssuer ctx
    {| i_OwnerID := ownerID; i_ID := id; i_Name := v1ci_Name createOp;
       i_URI := v1ci_URI createOp; i_JWKSURI := v1ci_JWKSURI createOp;
       i_ClaimMappings := claimsMapping; i_ClaimConditions := claimConditions |};
  lift (ToV1Issuer issuer).

Definition GetIssuerByID (ctx : Context) (id : PrefixedID) : M v1_Issuer :=
  iss ← on_sentinel (IssuerStore.GetIssuerByID ctx id) ErrorIssuerNotFound errorNotFound;
  _ ← check_access ctx (i_OwnerID iss) actionIssuerGet;
  lift (ToV1Issuer iss).

Definition ListOwnerIssuers (ctx : Context) (ownerID : PrefixedID) (params : PageParams)
    : M v1_IssuerCollection :=
  _ ← check_access ctx ownerID actionIssuerList;
  iss ← GetOwnerIssuers ctx ownerID (params_Paginator v1_IssuerCollection params);
  issuers ← lift (ToV1Issuers iss);
  lift (SetPagination params {| ic_Issuers := issuers; ic_Pagination := zero_Pagination |}).

Definition UpdateIssuer (ctx : Context) (id : PrefixedID) (updateOp : v1_IssuerUpdate)
    : M v1_Issuer :=
  iss ← on_sentinel (IssuerStore.GetIssuerByID ctx id) ErrorIssuerNotFound errorNotFound;
  _ ← check_access ctx (i_OwnerID iss) actionIssuerUpdate;
  claimsMapping ← parse_mappings (v1iu_ClaimMappings updateOp);
  claimConditions ← parse_conditions (v1iu_ClaimConditions updateOp)
    (λ err, HTTPErrorOf 400 (Errorf ("error parsing CEL expression: " +:+ Error err) err));
  issuer ← on_sentinel (IssuerStore.UpdateIssuer ctx id
    {| iu_Name := v1iu_Name updateOp; iu_URI := v1iu_URI updateOp;
       iu_JWKSURI := v1iu_JWKSURI updateOp; iu_ClaimMappings := claimsMapping;
       iu_ClaimConditions := claimConditions |}) ErrorIssuerNotFound errorNotFound;
  lift (ToV1Issuer issuer).

Definition DeleteIssuer (ctx : Context) (id : PrefixedID) : M bool :=
  iss ← on_sentinel (IssuerStore.GetIssuerByID ctx id) ErrorIssuerNotFound errorNotFound;
  _ ← check_access ctx (i_OwnerID iss) actionIssuerDelete;
  _ ← ignore_sentinel (IssuerStore.DeleteIssuer ctx id) ErrorIssuerNotFound;
  mret true.

(** *** [handler_oauth_client.go] *)

(** [crypto.GenerateSecureToken]. *)
Definition GenerateSecureToken (length : Z) : M string := λ w,
  (RuneSequence (tick w) length, next_tick w).

Definition client_404 : error := ErrorWithStatus 404 (Error ErrOAuthClientNotFound).

Definition CreateOAuthClient (ctx : Context) (ownerID : PrefixedID) (body : v1_CreateOAuthClient)
    : M v1_OAuthClient :=
  _ ← check_access ctx ownerID actionOAuthClientCreate;
  let audience := default [] (v1cc_Audience body) in
  generatedSecret ← GenerateSecureToken defaultTokenLength;
  newClient ← ClientStore.CreateOAuthClient ctx
    {| c_ID := ""; c_OwnerID := ownerID; c_Name := v1cc_Name body; c_Secret := generatedSecret;
       c_Audience := audience |};
  let resp := ToV1OAuthClient newClient in
  mret {| v1c_Audience := v1c_Audience resp; v1c_ID := v1c_ID resp; v1c_Name := v1c_Name resp;
          v1c_Secret := Some generatedSecret |}.

Definition GetOAuthClient (ctx : Context) (clientID : PrefixedID) : M v1_OAuthClient :=
  client ← on_sentinel (LookupOAuthClientByID ctx clientID) ErrOAuthClientNotFound client_404;
  _ ← check_access ctx (c_OwnerID client) actionOAuthClientGet;
  mret (ToV1OAuthClient client).

Definition GetOwnerOAuthClients (ctx : Context) (ownerID : PrefixedID) (params : PageParams)
    : M v1_OAuthClientCollection :=
  _ ← check_access ctx ownerID actionOAuthClientList;
  iss ← ClientStore.GetOwnerOAuthClients ctx ownerID
    (params_Paginator v1_OAuthClientCollection params);
  clients ← lift (ToV1OAuthClients iss);
  lift (SetPagination params {| occ_Clients := clients; occ_Pagination := zero_Pagination |}).

Definition DeleteOAuthClient (ctx : Context) (clientID : PrefixedID) : M bool :=
  client ← on_sentinel (LookupOAuthClientByID ctx clientID) ErrOAuthClientNotFound client_404;
  _ ← check_access ctx (c_OwnerID client) actionOAuthClientDelete;
  _ ← ignore_sentinel (ClientStore.DeleteOAuthClient ctx clientID) ErrOAuthClientNotFound;
  mret true.

(** *** [handle_user.go] *)

Definition user_404 : error := ErrorWithStatus 404 (Error ErrUserInfoNotFound).

Definition GetUserByID (ctx : Context) (userID : PrefixedID) : M v1_User :=
  ownerID ← on_sentinel (LookupUserOwnerID ctx userID) ErrUserInfoNotFound user_404;
  _ ← check_access ctx ownerID actionUserGet;
  info ← on_sentinel (LookupUserInfoByID ctx userID) ErrUserInfoNotFound user_404;
  lift (ToV1User info).

Definition GetIssuerUsers (ctx : Context) (issuerID : PrefixedID) (params : PageParams)
    : M v1_UserCollection :=
  _ ← check_access ctx issuerID actionIssuerGet;
  userInfos ← LookupUserInfosByIssuerID ctx issuerID (params_Paginator v1_UserCollection params);
  users ← lift (ToV1Users userInfos);
  lift (SetPagination params {| uc_Pagination := zero_Pagination; uc_Users := users |}).
End handlers.

(** ** Frames *)

Section helpers.
Context {C : CEL} {Ec : Echo} {E : Env}.
Context (ctx : Context) (R : relation World) `{HR : !EffectRel ctx R}.

Lemma GenerateSecureToken_frame n : keeps R (GenerateSecureToken n).
Proof using HR. intros w. apply store_tick. Qed.
Lemma parse_mappings_frame m : keeps R (parse_mappings m).
Proof using HR. unfold parse_mappings. frame. Qed.
Lemma parse_conditions_frame e f : keeps R (parse_conditions e f).
Proof using HR. unfold parse_conditions. frame. Qed.
End helpers.
#[export] Hint Resolve GenerateSecureToken_frame parse_mappings_frame parse_conditions_frame : frame.

Section frames.
Context {E : Env} {C : CEL} {H : Hasher} {Ec : Echo}.
Context (ctx : Context) (R : relation World) `{HR : !HandlerRel ctx R}.

Lemma CreateIssuer_handler_frame o b : keeps R (CreateIssuer ctx o b).
Proof using HR. unfold CreateIssuer. frame. Qed.
Lemma GetIssuerByID_handler_frame id : keeps R (GetIssuerByID ctx id).
Proof using HR. unfold GetIssuerByID. frame. Qed.
Lemma ListOwnerIssuers_handler_frame o p : keeps R (ListOwnerIssuers ctx o p).
Proof using HR. unfold ListOwnerIssuers. frame. Qed.
Lemma UpdateIssuer_handler_frame id b : keeps R (UpdateIssuer ctx id b).
Proof using HR. unfold UpdateIssuer. frame. Qed.
Lemma DeleteIssuer_handler_frame id : keeps R (DeleteIssuer ctx id).
Proof using HR. unfold DeleteIssuer. frame. Qed.
Lemma CreateOAuthClient_handler_frame o b : keeps R (CreateOAuthClient ctx o b).
Proof using HR. unfold CreateOAuthClient. frame. Qed.
Lemma GetOAuthClient_handler_frame id : keeps R (GetOAuthClient ctx id).
Proof using HR. unfold GetOAuthClient. frame. Qed.
Lemma GetOwnerOAuthClients_handler_frame o p : keeps R (GetOwnerOAuthClients ctx o p).
Proof using HR. unfold GetOwnerOAuthClients. frame. Qed.
Lemma DeleteOAuthClient_handler_frame id : keeps R (DeleteOAuthClient ctx id).
Proof using HR. unfold DeleteOAuthClient. frame. Qed.
Lemma GetUserByID_handler_frame id : keeps R (GetUserByID ctx id).
Proof using HR. unfold GetUserByID. frame. Qed.
Lemma GetIssuerUsers_handler_frame id p : keeps R (GetIssuerUsers ctx id p).
Proof using HR. unfold GetIssuerUsers. frame. Qed.
End frames.
#[export] Hint Resolve CreateIssuer_handler_frame GetIssuerByID_handler_frame ListOwnerIssuers_handler_frame
  UpdateIssuer_handler_frame DeleteIssuer_handler_frame CreateOAuthClient_handler_frame GetOAuthClient_handler_frame
  GetOwnerOAuthClients_handler_frame DeleteOAuthClient_handler_frame GetUserByID_handler_frame GetIssuerUsers_handler_frame : frame.
