(* ===== verification/Server.v ===== *)
(** The API as a whole: the operations the router dispatches
    ([internal/api/httpsrv/server.gen.go], [handler.go]), what a served
    request does to the tables and tells the client, and the access checks. *)
From S2P Require Import Prelude GoStrings Errors Pagination V1 ListQuery World Frame Run Cel.
From S2P Require Import Types Storage GroupStore UserStore IssuerStore ClientStore Events Http.
From S2P Require Import GroupHandler ResourceHandler.

(** ** Requests *)

(** The operations of [openapi-v1.yaml], with their path, query and body. *)
Inductive request : Type :=
  | ReqCreateGroup (ownerID : PrefixedID) (body : v1_CreateGroup)
  | ReqGetGroupByID (groupID : PrefixedID)
  | ReqListGroups (ownerID : PrefixedID) (params : PageParams)
  | ReqUpdateGroup (groupID : PrefixedID) (body : v1_UpdateGroup)
  | ReqDeleteGroup (groupID : PrefixedID)
  | ReqAddGroupMembers (groupID : PrefixedID) (body : v1_AddGroupMembers)
  | ReqListGroupMembers (groupID : PrefixedID) (params : PageParams)
  | ReqRemoveGroupMember (groupID subjectID : PrefixedID)
  | ReqReplaceGroupMembers (groupID : PrefixedID) (body : v1_AddGroupMembers)
  | ReqListUserGroups (userID : PrefixedID) (params : PageParams)
  | ReqCreateIssuer (ownerID : PrefixedID) (body : v1_CreateIssuer)
  | ReqGetIssuerByID (id : PrefixedID)
  | ReqListOwnerIssuers (ownerID : PrefixedID) (params : PageParams)
  | ReqUpdateIssuer (id : PrefixedID) (body : v1_IssuerUpdate)
  | ReqDeleteIssuer (id : PrefixedID)
  | ReqCreateOAuthClient (ownerID : PrefixedID) (body : v1_CreateOAuthClient)
  | ReqGetOAuthClient (clientID : PrefixedID)
  | ReqGetOwnerOAuthClients (ownerID : PrefixedID) (params : PageParams)
  | ReqDeleteOAuthClient (clientID : PrefixedID)
  | ReqGetUserByID (userID : PrefixedID)
  | ReqGetIssuerUsers (issuerID : PrefixedID) (params : PageParams).

(** The bodies of the 200 responses. *)
Inductive response : Type :=
  | RespGroup (g : v1_Group)
  | RespGroups (c : v1_GroupCollection)
  | RespMembers (c : v1_GroupMemberCollection)
  | RespGroupIDs (c : v1_GroupIDCollection)
  | RespIssuer (i : v1_Issuer)
  | RespIssuers (c : v1_IssuerCollection)
  | RespClient (c : v1_OAuthClient)
  | RespClients (c : v1_OAuthClientCollection)
  | RespUser (u : v1_User)
  | RespUsers (c : v1_UserCollection)
  | RespSuccess (success : bool).

Section server.
Context `{Env, CEL, Hasher, Echo, EventService}.

Definition respond {A} (f : A → response) (m : M A) : M response := a ← m; mret (f a).

(** The dispatch of the strict server's operations to the handlers. *)
Definition handle (req : request) (ctx : Context) : M response :=
  match req with
  | ReqCreateGroup o b => respond RespGroup (GroupHandler.CreateGroup ctx o b)
  | ReqGetGroupByID g => respond RespGroup (GroupHandler.GetGroupByID ctx g)
  | ReqListGroups o p => respond RespGroups (ListGroups ctx o p)
  | ReqUpdateGroup g b => respond RespGroup (GroupHandler.UpdateGroup ctx g b)
  | ReqDeleteGroup g => respond RespSuccess (GroupHandler.DeleteGroup ctx g)
  | ReqAddGroupMembers g b => respond RespSuccess (GroupHandler.AddGroupMembers ctx g b)
  | ReqListGroupMembers g p => respond RespMembers (GroupHandler.ListGroupMembers ctx g p)
  | ReqRemoveGroupMember g s => respond RespSuccess (GroupHandler.RemoveGroupMember ctx g s)
  | ReqReplaceGroupMembers g b => respond RespSuccess (GroupHandler.ReplaceGroupMembers ctx g b)
  | ReqListUserGroups u p => respond RespGroupIDs (ListUserGroups ctx u p)
  | ReqCreateIssuer o b => respond RespIssuer (ResourceHandler.CreateIssuer ctx o b)
  | ReqGetIssuerByID i => respond RespIssuer (ResourceHandler.GetIssuerByID ctx i)
  | ReqListOwnerIssuers o p => respond RespIssuers (ListOwnerIssuers ctx o p)
  | ReqUpdateIssuer i b => respond RespIssuer (ResourceHandler.UpdateIssuer ctx i b)
  | ReqDeleteIssuer i => respond RespSuccess (ResourceHandler.DeleteIssuer ctx i)
  | ReqCreateOAuthClient o b => respond RespClient (ResourceHandler.CreateOAuthClient ctx o b)
  | ReqGetOAuthClient c => respond RespClient (GetOAuthClient ctx c)
  | ReqGetOwnerOAuthClients o p => respond RespClients (ResourceHandler.GetOwnerOAuthClients ctx o p)
  | ReqDeleteOAuthClient c => respond RespSuccess (ResourceHandler.DeleteOAuthClient ctx c)
  | ReqGetUserByID u => respond RespUser (GetUserByID ctx u)
  | ReqGetIssuerUsers i p => respond RespUsers (GetIssuerUsers ctx i p)
  end.

(** A request served: its response, if it was written, and the world. *)
Definition serve (req : request) (ctx : Context) : M () := ServeHTTP (handle req) ctx.
End server.

(** ** What access a request needs *)

Definition action_of (req : request) : string :=
  match req with
  | ReqCreateGroup _ _ => actionGroupCreate
  | ReqGetGroupByID _ => actionGroupGet
  | ReqListGroups _ _ => actionGroupList
  | ReqUpdateGroup _ _ => actionGroupUpdate
  | ReqDeleteGroup _ => actionGroupDelete
  | ReqAddGroupMembers _ _ => actionGroupMembersAdd
  | ReqListGroupMembers _ _ => actionGroupMembersList
  | ReqRemoveGroupMember _ _ => actionGroupMembersRemove
  | ReqReplaceGroupMembers _ _ => actionGroupMembersPut
  | ReqListUserGroups _ _ | ReqGetUserByID _ => actionUserGet
  | ReqCreateIssuer _ _ => actionIssuerCreate
  | ReqGetIssuerByID _ | ReqGetIssuerUsers _ _ => actionIssuerGet
  | ReqListOwnerIssuers _ _ => actionIssuerList
  | ReqUpdateIssuer _ _ => actionIssuerUpdate
  | ReqDeleteIssuer _ => actionIssuerDelete
  | ReqCreateOAuthClient _ _ => actionOAuthClientCreate
  | ReqGetOAuthClient _ => actionOAuthClientGet
  | ReqGetOwnerOAuthClients _ _ => actionOAuthClientList
  | ReqDeleteOAuthClient _ => actionOAuthClientDelete
  end.

(** The owner of a stored issuer, of the issuer of a stored user, and of a
    stored OAuth client. *)
Definition issuer_owner (d : DB) (id r : string) : Prop :=
  ∃ row, issuers d !! id = Some row ∧ ir_owner_id row = r.
Definition user_owner (d : DB) (id r : string) : Prop :=
  ∃ row, user_info d !! id = Some row ∧ issuer_owner d (ur_iss_id row) r.
Definition client_owner (d : DB) (id r : string) : Prop :=
  ∃ row, oauth_clients d !! id = Some row ∧ cr_owner_id row = r.

(** The resource that access is needed on: the one the request names, or the
    owner of the one it names. *)
Definition resource_of (d : DB) (req : request) (r : string) : Prop :=
  match req with
  | ReqCreateGroup x _ | ReqGetGroupByID x | ReqListGroups x _ | ReqUpdateGroup x _
  | ReqDeleteGroup x | ReqAddGroupMembers x _ | ReqListGroupMembers x _
  | ReqRemoveGroupMember x _ | ReqReplaceGroupMembers x _ | ReqCreateIssuer x _
  | ReqListOwnerIssuers x _ | ReqCreateOAuthClient x _ | ReqGetOwnerOAuthClients x _
  | ReqGetIssuerUsers x _ => r = x
  | ReqListUserGroups u _ | ReqGetUserByID u => user_owner d u r
  | ReqGetIssuerByID i | ReqUpdateIssuer i _ | ReqDeleteIssuer i => issuer_owner d i r
  | ReqGetOAuthClient c | ReqDeleteOAuthClient c => client_owner d c r
  end.

(** A log without access checks. *)
Definition is_check (e : event) : bool :=
  match e with EvCheckAccess _ _ _ => true | _ => false end.
Definition no_checks (w w' : World) : Prop :=
  ∃ l, trace w' = trace w ++ l ∧ Forall (λ e, is_check e = false) l.

(** [m], run in a transaction with the view [d], asks for access once, for
    [action] and a resource in [P], before it writes or publishes anything; and
    when access is refused it returns an error and writes and publishes
    nothing. *)
Definition guarded {A} (ctx : Context) (d : DB) (action : string) (P : string → Prop) (m : M A)
    : Prop :=
  ∀ w t, in_tx ctx t w d →
  ∃ l, trace (m w).2 = trace w ++ l ∧
  (l = [] ∧ (∀ a, (m w).1 ≠ Ok a) ∨
   ∃ r l', P r ∧ Forall (λ e, is_check e = false) l' ∧
     (l = EvCheckAccess r action true :: l' ∨
      l = [EvCheckAccess r action false] ∧ ∃ e, (m w).1 = Err e)).

(** ** Lemmas *)

#[global] Instance no_checks_effect ctx : EffectRel ctx no_checks.
Proof.
  assert (PreOrder no_checks) as HP.
  { split.
    - intros w. exists []. by rewrite app_nil_r.
    - intros w1 w2 w3 (l1 & H1 & ?) (l2 & H2 & ?). exists (l1 ++ l2).
      rewrite H2, H1, app_assoc. by rewrite Forall_app. }
  assert (∀ w w', trace w' = trace w → no_checks w w') as Hsame.
  { intros w w' H. exists []. by rewrite H, app_nil_r. }
  split; [split|split|].
  - done.
  - intros w. by apply Hsame.
  - intros. by apply Hsame.
  - intros. by apply Hsame.
  - intros. exists [EvWrite]. split; [done|]. by repeat constructor.
  - done.
  - intros w. by apply Hsame.
  - intros e w He. exists [e]. split; [done|]. constructor; [by destruct e|constructor].
  - intros. by apply Hsame.
Qed.

(** A step before the check: it logs nothing, and when it returns, the
    transaction is as it was and the value satisfies [Q]. *)
Definition silent {A} (ctx : Context) (d : DB) (m : M A) (Q : A → Prop) : Prop :=
  ∀ w t, in_tx ctx t w d →
  trace (m w).2 = trace w ∧ ∀ a, (m w).1 = Ok a → in_tx ctx t (m w).2 d ∧ Q a.

Section guarded.
Context {E : Env} (ctx : Context) (d : DB).

Lemma silent_lift {A} (r : result A) : silent ctx d (lift r) (λ a, r = Ok a).
Proof. intros w t Hw. split; [done|]. by intros a. Qed.

Lemma silent_ret {A} (a : A) : silent ctx d (mret a) (λ a', a' = a).
Proof. intros w t Hw. split; [done|]. by intros a' [= ->]. Qed.

Lemma silent_ctx_read {A} `{EqDecision A} (q : DB → A) : silent ctx d (ctx_read ctx q) (λ a, a = q d).
Proof.
  intros w t [Hc Ht]. unfold ctx_read, getContextTx, tx_read. rewrite Hc, Ht.
  destruct (sql_fault _); simpl; (split; [done|]); [done|]. by intros a [= ->].
Qed.

Lemma silent_bind {A B} (m : M A) (f : A → M B) Q Q' :
  silent ctx d m Q → (∀ a, Q a → silent ctx d (f a) Q') → silent ctx d (m ≫= f) Q'.
Proof.
  intros Hm Hf w t Hw. destruct (Hm w t Hw) as [Htr Hok]. unfold mbind, M_bind.
  destruct (m w) as [[a|e|s] w1]; simpl in *; [|done..].
  destruct (Hok a eq_refl) as [Hw1 Ha]. rewrite <-Htr. by apply Hf.
Qed.

Lemma silent_mono {A} (m : M A) (Q Q' : A → Prop) :
  silent ctx d m Q → (∀ a, Q a → Q' a) → silent ctx d m Q'.
Proof. intros Hm HQ w t Hw. destruct (Hm w t Hw) as [? H]. split; [done|]. intros a Ha. destruct (H a Ha). auto. Qed.

(** An error is turned into another. *)
Lemma silent_on_error {A} (m : M A) f Q :
  silent ctx d m Q → (∀ e w, ∃ e', f e w = (Err e', w)) → silent ctx d (on_error m f) Q.
Proof.
  intros Hm Hf w t Hw. destruct (Hm w t Hw) as [Htr Hok].
  unfold on_error, attempt, mbind, M_bind. destruct (m w) as [[a|e|s] w1]; simpl in *; try done.
  by destruct (Hf e w1) as [e' ->].
Qed.

Lemma silent_fail_if (b : bool) e1 e2 {A} (w : World) :
  ∃ e', (if b then fail e1 else fail e2 : M A) w = (Err e', w).
Proof. destruct b; by eexists. Qed.

Lemma silent_parse_or_400 id text : silent ctx d (parse_or_400 id text) (λ _, True).
Proof.
  apply silent_on_error; [|by eexists].
  eapply silent_mono; [eapply silent_bind; [apply silent_lift|]|done].
  intros a _. apply silent_ret.
Qed.

Lemma silent_parse_members ids : silent ctx d (parse_members ids) (λ _, True).
Proof.
  induction ids as [|id ids IH]; simpl; [by eapply silent_mono; [apply silent_ret|]|].
  eapply silent_bind; [apply silent_parse_or_400|]. by intros _ _.
Qed.

(** A step before the check, in front of a guarded computation. *)
Lemma guarded_bind {A B} action P (m : M A) (f : A → M B) Q :
  silent ctx d m Q → (∀ a, Q a → guarded ctx d action P (f a)) → guarded ctx d action P (m ≫= f).
Proof.
  intros Hm Hf w t Hw. destruct (Hm w t Hw) as [Htr Hok]. unfold mbind, M_bind.
  destruct (m w) as [[a|e|s] w1] eqn:Hw1; simpl in *.
  - destruct (Hok a eq_refl) as [Hin Ha]. rewrite <-Htr. by apply (Hf a Ha w1 t).
  - exists []. rewrite app_nil_r. by auto.
  - exists []. rewrite app_nil_r. by auto.
Qed.

Lemma guarded_map {A B} action P (m : M A) (f : A → B) :
  guarded ctx d action P m → guarded ctx d action P (a ← m; mret (f a)).
Proof.
  intros Hm w t Hw. destruct (Hm w t Hw) as (l & Htr & Hl). exists l.
  unfold mbind, M_bind. destruct (m w) as [[a|e|s] w1]; simpl in *; (split; [done|]).
  - destruct Hl as [[_ Hno]|(r & l' & ? & ? & [?|[_ [e ?]]])]; [by destruct (Hno a)| |done].
    right. exists r, l'. auto.
  - destruct Hl as [[-> _]|(r & l' & ? & ? & [?|[? _]])]; [by left|right; exists r, l'..]; eauto 6.
  - destruct Hl as [[-> _]|(r & l' & ? & ? & [?|[_ [e ?]]])]; [by left| |done].
    right. exists r, l'. auto.
Qed.

(** The check, in front of the rest of the handler. *)
Lemma guarded_check {A} action (P : string → Prop) r (f : () → M A) :
  P r → keeps no_checks (f tt) → guarded ctx d action P (check_access ctx r action ≫= f).
Proof.
  intros Hr Hf w t Hw.
  unfold check_access, on_error, attempt, CheckAccess, mbind, M_bind, fail.
  destruct (CheckAccess_err _ _ _) as [e|]; simpl.
  - exists [EvCheckAccess r action false]. split; [done|]. right. exists r, [].
    split_and!; [done..|]. right. by split; [|eexists].
  - set (w1 := next_tick _). destruct (Hf w1) as (l & Htr & Hl).
    exists (EvCheckAccess r action true :: l). split.
    + rewrite Htr. subst w1. simpl. by rewrite <-app_assoc.
    + right. exists r, l. auto.
Qed.
End guarded.

Section owners.
Context {E : Env} {C : CEL} {H : Hasher} (ctx : Context) (d : DB).

Lemma silent_query_row {A} `{EqDecision A} (q : DB → option A) : silent ctx d (query_row ctx q) (λ a, q d = Some a).
Proof.
  eapply silent_bind; [apply silent_ctx_read|]. intros o ->.
  eapply silent_mono; [apply silent_lift|]. intros a. by destruct (q d) as [|]; [intros [= ->]|].
Qed.

Lemma silent_no_rows {A} (m : M A) e Q : silent ctx d m Q → silent ctx d (no_rows m e) Q.
Proof. intros Hm. apply silent_on_error; [done|]. intros e' w. by destruct (Is e' ErrNoRows); eexists. Qed.

Lemma silent_on_sentinel {A} (m : M A) t e Q : silent ctx d m Q → silent ctx d (on_sentinel m t e) Q.
Proof.
  intros Hm. apply silent_on_error; [done|]. intros e' w. by destruct (is_sentinel e' t); eexists.
Qed.

Lemma decode_issuer_owner id row iss : decode_issuer (id, row) = Ok iss → i_OwnerID iss = ir_owner_id row.
Proof.
  unfold decode_issuer. intros (m & _ & (c & _ & [= <-])%result_bind_Ok)%result_bind_Ok. done.
Qed.

Lemma silent_GetIssuerByID id :
  silent ctx d (IssuerStore.GetIssuerByID ctx id) (λ iss, issuer_owner d id (i_OwnerID iss)).
Proof.
  unfold IssuerStore.GetIssuerByID, scanIssuer.
  eapply silent_bind; [apply silent_no_rows, silent_query_row|]. intros x Hx.
  cbv beta in Hx. destruct (issuers d !! id) as [row|] eqn:Hrow; [|done]. injection Hx as <-.
  eapply silent_mono; [apply silent_lift|]. intros iss Hiss%decode_issuer_owner. by exists row.
Qed.

Lemma silent_LookupUserOwnerID id : silent ctx d (LookupUserOwnerID ctx id) (user_owner d id).
Proof.
  unfold LookupUserOwnerID. apply silent_no_rows. eapply silent_mono; [apply silent_query_row|].
  intros o Ho. cbv beta in Ho.
  assert (∀ x, x ∈ scan (filter (λ x, x.1.1 = id) (joined_users d)) → x.1.1 = id ∧ x ∈ joined_users d) as Hin.
  { intros x. rewrite scan_perm, list_elem_of_filter. done. }
  destruct (scan _) as [|[[id' r] i] l]; [done|]. injection Ho as <-.
  destruct (Hin (id', r, i)) as [Hid Hj]; [left|]. simpl in Hid. subst id'.
  apply joined_users_lookup in Hj as [Hr Hi]. exists r. split; [done|]. by exists i.
Qed.

Lemma silent_LookupOAuthClientByID id :
  silent ctx d (LookupOAuthClientByID ctx id) (λ c, client_owner d id (c_OwnerID c)).
Proof.
  unfold LookupOAuthClientByID. case_decide; [intros w t Hw; split; [done|]; by intros a|].
  eapply silent_bind.
  { apply silent_on_error; [apply silent_query_row|]. intros e' w.
    by destruct (is_sentinel e' ErrNoRows); eexists. }
  intros x Hx. cbv beta in Hx. destruct (oauth_clients d !! id) as [row|] eqn:Hrow; [|done]. injection Hx as <-.
  eapply silent_mono; [apply silent_ret|]. intros c ->. by exists row.
Qed.
End owners.

Lemma silent_attempt_lift ctx d {A} (r : result A) : silent ctx d (attempt (lift r)) (λ _, True).
Proof. intros w t Hw. unfold attempt, lift. by destruct r. Qed.

Ltac guard_step :=
  first [ eapply guarded_bind; [apply silent_parse_or_400|intros _ _]
        | eapply guarded_bind; [apply silent_parse_members|intros _ _]
        | eapply guarded_bind; [apply silent_on_sentinel, silent_GetIssuerByID|intros ? ?]
        | eapply guarded_bind; [apply silent_on_sentinel, silent_LookupOAuthClientByID|intros ? ?]
        | eapply guarded_bind; [apply silent_on_sentinel, silent_LookupUserOwnerID|intros ? ?]
        | eapply guarded_bind; [apply silent_attempt_lift|intros ? _]
        | eapply guarded_check; [first [reflexivity|eassumption]|frame] ].

(** ** Properties *)

Section requests.
Context {E : Env} {C : CEL} {H : Hasher} {Ec : Echo} {Ev : EventService} {HS : EventServiceLaws Ev}.

(** C2: no request writes to the database, or publishes a relationship, before
    permissions-api has granted its action on the resource it is about: the
    owner or group that it names, or the owner of the stored issuer, user or
    client that it names. Access is asked for exactly once; when it is refused
    the request fails and nothing is written or published. *)
Theorem requests_guarded req ctx d :
  guarded ctx d (action_of req) (resource_of d req) (handle req ctx).
Proof.
  destruct req; apply guarded_map.
  all: unfold GroupHandler.CreateGroup, GroupHandler.GetGroupByID, ListGroups,
    GroupHandler.UpdateGroup, GroupHandler.DeleteGroup, GroupHandler.AddGroupMembers,
    GroupHandler.ListGroupMembers, GroupHandler.RemoveGroupMember,
    GroupHandler.ReplaceGroupMembers, ListUserGroups, ResourceHandler.CreateIssuer,
    ResourceHandler.GetIssuerByID, ListOwnerIssuers, ResourceHandler.UpdateIssuer,
    ResourceHandler.DeleteIssuer, ResourceHandler.CreateOAuthClient, GetOAuthClient,
    ResourceHandler.GetOwnerOAuthClients, ResourceHandler.DeleteOAuthClient, GetUserByID,
    GetIssuerUsers.
  all: repeat guard_step. Unshelve. all: exact ctx.
Qed.
End requests.

(** *** Serving a request *)

Section serving.
Context {E : Env} {C : CEL} {H : Hasher} {Ec : Echo} {Ev : EventService} {HS : EventServiceLaws Ev}.

Lemma respond_frame R {A} (f : A → response) (m : M A) `{!PreOrder R} :
  keeps R m → keeps R (respond f m).
Proof. intros Hm. apply keeps_bind; [apply _|done|]. intros a. apply keeps_ret, _. Qed.

Lemma handle_frame ctx R req : HandlerRel ctx R → keeps R (handle req ctx).
Proof using HS.
  intros HR. destruct req; (apply respond_frame; [apply _|]); eauto with frame.
Qed.

Lemma commit_response ctx : keeps same_response (CommitContext ctx).
Proof.
  unfold CommitContext, commitContextTx. apply keeps_bind; [apply _|apply keeps_lift, _|].
  intros t w. unfold tx_commit, same_response.
  destruct (txs w !! t) as [[d| |]|]; [|done..]. destruct (redo w !! t ≫= _); [|done].
  destruct (sql_fault _); [|done]. by destruct (ambiguous_commit _).
Qed.

Lemma rollback_response ctx : keeps same_response (RollbackContext ctx).
Proof.
  unfold RollbackContext, rollbackContextTx. apply keeps_bind; [apply _|apply keeps_lift, _|].
  intros t w. unfold tx_rollback, same_response. by destruct (txs w !! t) as [[d| |]|].
Qed.

Lemma rollback_no_panic ctx w s : (RollbackContext ctx w).1 ≠ Panic s.
Proof.
  unfold RollbackContext, rollbackContextTx, getContextTx, mbind, M_bind, lift, tx_rollback.
  destruct (ctx_tx ctx) as [t|]; [|done]. destruct (txs w !! t) as [[]|]; simpl; try done;
    by destruct (sql_fault _).
Qed.

Lemma commit_no_panic ctx w s : (CommitContext ctx w).1 ≠ Panic s.
Proof.
  unfold CommitContext, commitContextTx, getContextTx, mbind, M_bind, lift, tx_commit.
  destruct (ctx_tx ctx) as [t|]; [|done]. destruct (txs w !! t) as [[]|]; simpl; try done.
  destruct (redo w !! t ≫= _); [|done]. by destruct (sql_fault _).
Qed.

(** The world after a status is written, and once one was. *)
Definition wrote_status (code : Z) (w : World) : World :=
  match responded w with Some _ => w | None => set_responded (Some code) w end.

Lemma wrote_again code w : is_Some (responded w) → wrote_status code w = w.
Proof. intros [c Hc]. unfold wrote_status. by rewrite Hc. Qed.

Lemma wrote_responded code w : is_Some (responded (wrote_status code w)).
Proof. unfold wrote_status. destruct (responded w) eqn:Hr; [rewrite Hr|]; by eexists. Qed.

(** The end of a request after its handler. *)
Definition finish (ctx : Context) (r : result response) (w : World) : World :=
  match r with
  | Panic _ => w
  | Err e => (RollbackContext ctx (wrote_status (echo_status e) w)).2
  | Ok _ =>
    let w1 := wrote_status 200 w in
    match encode_fault (tick w1) with
    | Some e => (RollbackContext ctx (next_tick w1)).2
    | None => (CommitContext ctx (next_tick w1)).2
    end
  end.

Lemma write_status_run code w : write_status code w = (Ok tt, wrote_status code w).
Proof. done. Qed.

Lemma write_error_after w e : is_Some (responded w) → write_error e w = (Ok tt, w).
Proof. intros Hr. unfold write_error. by rewrite write_status_run, wrote_again. Qed.

(** The middleware's rollback, and what it returns. *)
Lemma middleware_error ctx (e : error) w1 w2 :
  write_error e w1 = (Ok tt, w2) →
  ∃ e', (_ ← write_error e;
         _ ← on_error (RollbackContext ctx) (λ rbErr, fail (HTTPErrorOf 502 rbErr));
         fail e : M ()) w1 = (Err e', (RollbackContext ctx w2).2) ∧
        e' = match (RollbackContext ctx w2).1 with Err rbErr => HTTPErrorOf 502 rbErr | _ => e end.
Proof.
  intros Hw. rewrite (bind_Ok _ _ _ _ _ Hw). pose proof (rollback_no_panic ctx w2) as Hnp.
  destruct (RollbackContext ctx w2) as [[[]|rb|s] w3] eqn:Hrb; [| |by destruct (Hnp s)].
  - rewrite (bind_Ok _ _ _ _ _ (on_error_Ok _ _ _ _ _ Hrb)). by exists e.
  - erewrite bind_Err; [|by erewrite on_error_Err by done]. by eexists.
Qed.

Lemma middleware_commit ctx w :
  ∃ r, on_error (CommitContext ctx) (λ err, fail (HTTPErrorOf 502 err)) w =
       (r, (CommitContext ctx w).2) ∧ ∀ s, r ≠ Panic s.
Proof.
  pose proof (commit_no_panic ctx w) as Hnp.
  destruct (CommitContext ctx w) as [[[]|e|s] w3] eqn:Hc; [| |by destruct (Hnp s)].
  - rewrite (on_error_Ok _ _ _ _ _ Hc). by eexists.
  - rewrite (on_error_Err _ _ _ _ _ Hc). by eexists.
Qed.

(** The framework's error handler changes nothing once a status is written. *)
Lemma handler_after (m : M ()) w r w' :
  m w = (r, w') → is_Some (responded w') → (on_error m write_error w).2 = w'.
Proof.
  intros Hm Hr. destruct r as [[]|e|s].
  - by rewrite (on_error_Ok _ _ _ _ _ Hm).
  - by rewrite (on_error_Err _ _ _ _ _ Hm), write_error_after.
  - by rewrite (on_error_Panic _ _ _ _ _ Hm).
Qed.

(** What the strict server makes of the handler's outcome. *)
Lemma strict_run req ctx w r w2 :
  handle req ctx w = (r, w2) →
  strict_handler (handle req) ctx w =
    match r with
    | Ok _ => let w3 := wrote_status 200 w2 in
              (match encode_fault (tick w3) with Some e => Err e | None => Ok tt end, next_tick w3)
    | Err e => (Err e, w2)
    | Panic s => (Panic s, w2)
    end.
Proof.
  intros Hh. unfold strict_handler. destruct r as [a|e|s].
  - by rewrite (bind_Ok _ _ _ _ _ Hh).
  - by rewrite (bind_Err _ _ _ _ _ Hh).
  - by rewrite (bind_Panic _ _ _ _ _ Hh).
Qed.

Lemma serve_run req ctx w newCtx w1 :
  BeginContext ctx (set_responded None w) = (Ok newCtx, w1) →
  let '(r, w2) := handle req newCtx w1 in (serve req ctx w).2 = finish newCtx r w2.
Proof.
  intros Hb. destruct (handle req newCtx w1) as [r w2] eqn:Hh.
  pose proof (strict_run req newCtx w1 r w2 Hh) as Hs.
  unfold serve, ServeHTTP. set (w0 := set_responded None w) in *.
  assert (∀ e' w3, strict_handler (handle req) newCtx w1 = (Err e', w3) →
    (on_error (storageMiddleware (strict_handler (handle req)) ctx) write_error w0).2 =
    (RollbackContext newCtx (wrote_status (echo_status e') w3)).2) as Herr.
  { intros e' w3 Hse.
    destruct (middleware_error newCtx e' w3 _ (write_status_run _ _)) as (e'' & Hm & _).
    eapply handler_after.
    - unfold storageMiddleware. rewrite (bind_Ok _ _ _ _ _ (on_error_Ok _ _ _ _ _ Hb)).
      rewrite (bind_Ok _ _ _ _ _ (attempt_Err _ _ _ _ Hse)). exact Hm.
    - rewrite (rollback_response newCtx). apply wrote_responded. }
  destruct r as [a|e|s]; simpl in Hs |- *.
  - destruct (encode_fault _) as [e|].
    + rewrite (Herr _ _ Hs). by rewrite wrote_again by apply (wrote_responded 200 w2).
    + destruct (middleware_commit newCtx (next_tick (wrote_status 200 w2))) as (r & Hc & _).
      eapply handler_after.
      * unfold storageMiddleware. rewrite (bind_Ok _ _ _ _ _ (on_error_Ok _ _ _ _ _ Hb)).
        rewrite (bind_Ok _ _ _ _ _ (attempt_Ok _ _ _ _ Hs)). exact Hc.
      * rewrite (commit_response newCtx). apply (wrote_responded 200 w2).
  - by rewrite (Herr _ _ Hs).
  - erewrite on_error_Panic; [done|]. unfold storageMiddleware.
    rewrite (bind_Ok _ _ _ _ _ (on_error_Ok _ _ _ _ _ Hb)).
    by rewrite (bind_Panic _ _ _ _ _ (attempt_Panic _ _ _ _ Hs)).
Qed.
(** The world a handler starts in. *)
Definition begun (ctx : Context) (w : World) : Context * World :=
  ({| ctx_tx := Some (next_tx w); ctx_asOf := ctx_asOf ctx |},
   next_tick (add_tx (TxOpen (committed w)) (set_responded None w))).

Lemma begin_run ctx w :
  sql_fault (tick w) = None →
  BeginContext ctx (set_responded None w) = (Ok (begun ctx w).1, (begun ctx w).2).
Proof. intros Hf. unfold BeginContext, beginTxContext. simpl. by rewrite Hf. Qed.

Lemma rollback_committed ctx w : committed (RollbackContext ctx w).2 = committed w.
Proof. apply rollbackContextTx_committed. Qed.

(** A transaction that is in step is committed as its view. *)
Lemma commit_run ctx t w d :
  in_tx ctx t w d → in_step t w →
  committed (CommitContext ctx w).2 =
    match sql_fault (tick w) with
    | None => d
    | Some _ => if ambiguous_commit (tick w) then d else committed w
    end.
Proof.
  intros [Hc Ht] Hs. unfold CommitContext, commitContextTx, getContextTx, mbind, M_bind, lift, tx_commit.
  rewrite Hc, Ht, (Hs d Ht). destruct (sql_fault _); [|done]. simpl. by destruct (ambiguous_commit _).
Qed.

Lemma commit_committed ctx t w :
  ctx_tx ctx = Some t → in_step t w →
  committed (CommitContext ctx w).2 = committed w ∨
  ∃ d, in_tx ctx t w d ∧ committed (CommitContext ctx w).2 = d.
Proof.
  intros Hc Hs. destruct (txs w !! t) as [[d| |]|] eqn:Ht.
  2-4: left; unfold CommitContext, commitContextTx, getContextTx, mbind, M_bind, lift, tx_commit;
    by rewrite Hc, Ht.
  rewrite (commit_run ctx t w d) by done.
  destruct (sql_fault _); [destruct (ambiguous_commit _)|]; [right|left|right]; [|done|]; by exists d.
Qed.

Lemma wrote_status_fresh code w : responded w = None → responded (wrote_status code w) = Some code.
Proof. intros Hr. unfold wrote_status. by rewrite Hr. Qed.

Lemma wrote_status_committed code w : committed (wrote_status code w) = committed w.
Proof. unfold wrote_status. by destruct (responded w). Qed.

Lemma wrote_status_in_tx code ctx t w d : in_tx ctx t (wrote_status code w) d → in_tx ctx t w d.
Proof. unfold in_tx, wrote_status. by destruct (responded w). Qed.

Lemma wrote_status_in_step code t w : in_step t w → in_step t (wrote_status code w).
Proof. unfold in_step, wrote_status. by destruct (responded w). Qed.

Lemma handle_same req ctx w r w2 :
  handle req (begun ctx w).1 (begun ctx w).2 = (r, w2) →
  committed w2 = committed w ∧ responded w2 = None ∧ in_step (next_tx w) w2.
Proof.
  intros Hh. pose proof (handle_frame (begun ctx w).1 same_committed req _ (begun ctx w).2) as [Hc _].
  pose proof (handle_frame (begun ctx w).1 same_response req _ (begun ctx w).2) as Hr.
  pose proof (handle_frame (begun ctx w).1 (keeps_step (next_tx w)) req _ (begun ctx w).2) as [_ Hs].
  unfold same_response in Hr. rewrite Hh in Hc, Hr, Hs. split_and!; [done..|].
  apply Hs, (in_step_begun (set_responded None w)).
Qed.

(** A request whose handler fails. *)
Lemma serve_Err req ctx w e w2 :
  sql_fault (tick w) = None → handle req (begun ctx w).1 (begun ctx w).2 = (Err e, w2) →
  responded (serve req ctx w).2 = Some (echo_status e) ∧ committed (serve req ctx w).2 = committed w.
Proof.
  intros Hf Hh. pose proof (serve_run req ctx w _ _ (begin_run ctx w Hf)) as Hrun.
  destruct (handle_same _ _ _ _ _ Hh) as (Hc & Hr & Hs). rewrite Hh in Hrun. rewrite Hrun. unfold finish.
  rewrite (rollback_response _ _), rollback_committed.
  by rewrite wrote_status_fresh, wrote_status_committed.
Qed.

(** A request whose handler succeeds. *)
Lemma serve_Ok req ctx w a w2 d :
  sql_fault (tick w) = None →
  handle req (begun ctx w).1 (begun ctx w).2 = (Ok a, w2) → in_tx (begun ctx w).1 (next_tx w) w2 d →
  encode_fault (tick w2) = None →
  responded (serve req ctx w).2 = Some 200%Z ∧
  committed (serve req ctx w).2 =
    match sql_fault (S (tick w2)) with
    | None => d
    | Some _ => if ambiguous_commit (S (tick w2)) then d else committed w
    end.
Proof.
  intros Hf Hh Hin Henc. pose proof (serve_run req ctx w _ _ (begin_run ctx w Hf)) as Hrun.
  destruct (handle_same _ _ _ _ _ Hh) as (Hc & Hr & Hs). rewrite Hh in Hrun.
  assert (wrote_status 200 w2 = set_responded (Some 200%Z) w2) as Hwrote
    by (unfold wrote_status; by rewrite Hr).
  rewrite Hrun. simpl. rewrite Hwrote. simpl. rewrite Henc, (commit_response _ _). split; [done|].
  rewrite (commit_run _ (next_tx w) _ d) by first [exact Hin|exact Hs]. simpl. by rewrite Hc.
Qed.

(** The end of a request logs nothing. *)
Lemma rollback_trace ctx w : trace (RollbackContext ctx w).2 = trace w.
Proof.
  unfold RollbackContext, rollbackContextTx, getContextTx, mbind, M_bind, lift, tx_rollback.
  destruct (ctx_tx ctx) as [t|]; [|done]. by destruct (txs w !! t) as [[]|].
Qed.

Lemma commit_trace ctx w : trace (CommitContext ctx w).2 = trace w.
Proof.
  unfold CommitContext, commitContextTx, getContextTx, mbind, M_bind, lift, tx_commit.
  destruct (ctx_tx ctx) as [t|]; [|done]. destruct (txs w !! t) as [[]|]; try done.
  destruct (redo w !! t ≫= _); [|done].
  destruct (sql_fault _); [|done]. by destruct (ambiguous_commit _).
Qed.

Lemma finish_trace ctx r w : trace (finish ctx r w) = trace w.
Proof.
  assert (∀ code, trace (wrote_status code w) = trace w) as Hw
    by (intros code; unfold wrote_status; by destruct (responded w)).
  destruct r as [a|e|s]; unfold finish; cbv zeta; [|by rewrite rollback_trace|done].
  destruct (encode_fault _); rewrite ?rollback_trace, ?commit_trace; apply Hw.
Qed.

(** The end of a transaction ends it, and touches no other. *)
Definition ends_tx (t : nat) (w w' : World) : Prop :=
  txs w' !! t = Some TxDone ∧ (∀ t', t' ≠ t → txs w' !! t' = txs w !! t') ∧ next_tx w' = next_tx w.

Lemma rollback_ends ctx t w :
  ctx_tx ctx = Some t → is_Some (txs w !! t) → ends_tx t w (RollbackContext ctx w).2.
Proof.
  intros Hc [s Hs]. unfold RollbackContext, rollbackContextTx, getContextTx, mbind, M_bind, lift, tx_rollback.
  rewrite Hc, Hs. destruct s; (split_and!; [|intros t' Ht'|done]); simpl;
    rewrite ?lookup_insert_eq, ?lookup_insert_ne by done; done.
Qed.

Lemma commit_ends ctx t w :
  ctx_tx ctx = Some t → is_Some (txs w !! t) → ends_tx t w (CommitContext ctx w).2.
Proof.
  intros Hc [s Hs]. unfold CommitContext, commitContextTx, getContextTx, mbind, M_bind, lift, tx_commit.
  rewrite Hc, Hs. destruct s; repeat case_match; (split_and!; [|intros t' Ht'|done]); simpl;
    rewrite ?lookup_insert_eq, ?lookup_insert_ne by done; done.
Qed.

Lemma wrote_status_txs code w :
  txs (wrote_status code w) = txs w ∧ next_tx (wrote_status code w) = next_tx w.
Proof. unfold wrote_status. by destruct (responded w). Qed.

Lemma finish_ends ctx t r w :
  ctx_tx ctx = Some t → is_Some (txs w !! t) → (∀ s, r ≠ Panic s) → ends_tx t w (finish ctx r w).
Proof.
  intros Hc Ht Hr. assert (∀ code, is_Some (txs (wrote_status code w) !! t)) as Hs
    by (intros code; by rewrite (proj1 (wrote_status_txs code w))).
  assert (∀ code w', ends_tx t (wrote_status code w) w' → ends_tx t w w') as Hends.
  { intros code w'. unfold ends_tx. by destruct (wrote_status_txs code w) as [-> ->]. }
  destruct r as [a|e|s]; unfold finish; cbv zeta; [|by eapply Hends, rollback_ends|by destruct (Hr s)].
  destruct (encode_fault _); apply (Hends 200%Z);
    [apply (rollback_ends ctx t (next_tick _))|apply (commit_ends ctx t (next_tick _))]; try done;
    exact (Hs 200%Z).
Qed.

(** A request whose transaction cannot be begun. *)
Lemma serve_not_begun req ctx w e :
  sql_fault (tick w) = Some e →
  let w1 := next_tick (set_responded None w) in
  storageMiddleware (strict_handler (handle req)) ctx (set_responded None w) = (Err (HTTPErrorOf 502 e), w1) ∧
  (serve req ctx w).2 = wrote_status (echo_status (HTTPErrorOf 502 e)) w1.
Proof.
  intros Hf. cbv zeta. match goal with |- ?P ∧ _ => assert P as Hm end.
  { unfold storageMiddleware. erewrite bind_Err; [done|]. erewrite on_error_Err; [done|].
    unfold BeginContext, beginTxContext. simpl. by rewrite Hf. }
  split; [exact Hm|]. unfold serve, ServeHTTP. by rewrite (on_error_Err _ _ _ _ _ Hm).
Qed.

(** C1: a request is atomic, and its response says so, up to the commit. When
    its handler fails, the client is sent the status of the error and the
    committed tables are those of before; when its handler succeeds, the client
    is sent 200, and the tables are those of before or exactly those that the
    handler left in its transaction; when it panics, nothing is sent and
    nothing is committed. When the transaction cannot be begun, nothing runs. *)
Theorem serve_outcome req ctx w :
  let w' := (serve req ctx w).2 in
  match sql_fault (tick w) with
  | Some e => responded w' = Some (echo_status (HTTPErrorOf 502 e)) ∧ committed w' = committed w
  | None =>
    let '(r, w2) := handle req (begun ctx w).1 (begun ctx w).2 in
    match r with
    | Ok _ => responded w' = Some 200 ∧
        (committed w' = committed w ∨
         ∃ d, in_tx (begun ctx w).1 (next_tx w) w2 d ∧ committed w' = d)
    | Err e => responded w' = Some (echo_status e) ∧ committed w' = committed w
    | Panic _ => responded w' = None ∧ committed w' = committed w
    end
  end%Z.
Proof.
  destruct (sql_fault (tick w)) as [e|] eqn:Hf; cbn zeta.
  - by destruct (serve_not_begun req ctx w e Hf) as [_ ->].
  - pose proof (serve_run req ctx w _ _ (begin_run ctx w Hf)) as Hrun.
    destruct (handle req _ _) as [r w2] eqn:Hh. rewrite Hrun. clear Hrun.
    destruct (handle_same _ _ _ _ _ Hh) as (Hc & Hr & Hs). destruct r as [a|e|s]; unfold finish; cbv zeta.
    + destruct (encode_fault _).
      * rewrite (rollback_response _ _), rollback_committed.
        split; [by apply wrote_status_fresh|left]. by etrans; [apply wrote_status_committed|].
      * rewrite (commit_response _ _). split; [by apply wrote_status_fresh|].
        destruct (commit_committed (begun ctx w).1 (next_tx w) (next_tick (wrote_status 200 w2)))
          as [-> |(d & Hin & ->)];
          [done|by apply wrote_status_in_step|left; by etrans; [apply wrote_status_committed|]|right].
        exists d. split; [exact (wrote_status_in_tx 200 _ _ w2 _ Hin)|done].
    + rewrite (rollback_response _ _), rollback_committed, wrote_status_fresh, wrote_status_committed; done.
    + done.
Qed.

(** C39: a successful request takes effect when nothing fails: the tables its
    handler left in the transaction are committed. But the 200 is sent before
    the commit: when the commit then fails, the client was told that the
    request succeeded and the tables are those of before. *)
Theorem serve_responds_before_commit req ctx w a w2 d :
  sql_fault (tick w) = None →
  handle req (begun ctx w).1 (begun ctx w).2 = (Ok a, w2) → in_tx (begun ctx w).1 (next_tx w) w2 d →
  encode_fault (tick w2) = None →
  let w' := (serve req ctx w).2 in
  responded w' = Some 200%Z ∧
  match sql_fault (S (tick w2)) with
  | None => committed w' = d
  | Some _ => ambiguous_commit (S (tick w2)) = false → committed w' = committed w
  end.
Proof.
  intros Hf Hh Hin Henc. cbv zeta. destruct (serve_Ok _ _ _ _ _ _ Hf Hh Hin Henc) as [Hr ->].
  split; [done|]. destruct (sql_fault (S (tick w2))); [|reflexivity]. by intros ->.
Qed.

(** C11: every request ends its transaction. Whatever it asks, and whatever
    fails, the transaction that was begun for it is committed or rolled back by
    the time it is answered, also when the rollback itself or the commit fails;
    it begins no other and touches none of those that other requests have open.
    Only a handler that panics leaves it: nothing in the middleware is
    deferred. *)
Theorem serve_ends_transaction req ctx w :
  let w' := (serve req ctx w).2 in
  match sql_fault (tick w) with
  | Some _ => txs w' = txs w ∧ next_tx w' = next_tx w
  | None =>
    next_tx w' = S (next_tx w) ∧ (∀ t, t ≠ next_tx w → txs w' !! t = txs w !! t) ∧
    match handle req (begun ctx w).1 (begun ctx w).2 with
    | (Panic _, w2) => w' = w2 ∧ is_Some (txs w' !! next_tx w)
    | _ => txs w' !! next_tx w = Some TxDone
    end
  end.
Proof.
  cbv zeta. destruct (sql_fault (tick w)) as [e|] eqn:Hf.
  - destruct (serve_not_begun req ctx w e Hf) as [_ ->].
    by destruct (wrote_status_txs (echo_status (HTTPErrorOf 502 e)) (next_tick (set_responded None w))).
  - pose proof (serve_run req ctx w _ _ (begin_run ctx w Hf)) as Hrun.
    pose proof (handle_frame (begun ctx w).1 (own_tx (begun ctx w).1) req _ (begun ctx w).2) as (Hn & Ho & Hs).
    destruct (handle req _ _) as [r w2]. rewrite Hrun. simpl in Hn, Ho, Hs.
    assert (is_Some (txs w2 !! next_tx w)) as Ht by (apply Hs; rewrite lookup_insert_eq; by eexists).
    assert (∀ t, t ≠ next_tx w → txs w2 !! t = txs w !! t) as Hother.
    { intros t Hne. rewrite Ho by congruence. by rewrite lookup_insert_ne. }
    destruct r as [a|e|s]; [| |by split_and!];
      match goal with |- context [finish ?ctx ?r w2] =>
        destruct (finish_ends ctx (next_tx w) r w2) as (Hd & Hd' & Hd''); [done..|] end;
      (split_and!; [congruence| |done]); intros t Hne; rewrite Hd' by done; by apply Hother.
Qed.
End serving.
