(* ===== verification/Consistency.v ===== *)
(** What served requests mean together: the relationships published to
    permissions-api against the members in the database, the statuses of
    requests about unknown resources, and the requests whose publishing fails. *)
From S2P Require Import Prelude GoStrings Errors Pagination V1 ListQuery World Frame Run Cel.
From S2P Require Import Types Storage GroupStore UserStore IssuerStore ClientStore Events Http.
From S2P Require Import GroupHandler ResourceHandler Server.

(** ** The relationships of a log *)

(** The members that a list of relations is about. *)
Definition direct_members (g : PrefixedID) (rels : list (string * string))
    : gset (PrefixedID * PrefixedID) :=
  list_to_set (pair g <$> (filter (λ r, r.1 = DirectMemberRelationship) rels).*2).

(** The group memberships that permissions-api holds after an event. *)
Definition apply_event (m : gset (PrefixedID * PrefixedID)) (e : event)
    : gset (PrefixedID * PrefixedID) :=
  match e with
  | EvCreateAuthRelationships _ g rels => m ∪ direct_members g rels
  | EvDeleteAuthRelationships _ g rels => m ∖ direct_members g rels
  | EvCheckAccess _ _ _ | EvWrite => m
  end.

(** From [m0], after a log. *)
Definition relationships (m0 : gset (PrefixedID * PrefixedID)) (l : list event)
    : gset (PrefixedID * PrefixedID) := foldl apply_event m0 l.

(** permissions-api, which held the memberships [m0] when the log began, holds
    those of the committed tables; no member is the empty identifier. *)
Definition synced (m0 : gset (PrefixedID * PrefixedID)) (w : World) : Prop :=
  relationships m0 (trace w) = group_members (committed w) ∧
  ∀ g, (g, "") ∉ group_members (committed w).

(** The requests that change memberships. *)
Definition member_request (req : request) : Prop :=
  match req with
  | ReqAddGroupMembers _ _ | ReqRemoveGroupMember _ _ | ReqReplaceGroupMembers _ _ => True
  | _ => False
  end.

(** ** Lemmas *)

Lemma relationships_app m0 l1 l2 :
  relationships m0 (l1 ++ l2) = relationships (relationships m0 l1) l2.
Proof. apply foldl_app. Qed.

Lemma relationships_writes m0 n : relationships m0 (replicate n EvWrite) = m0.
Proof. induction n; [done|]. done. Qed.

Lemma direct_members_relations g ss :
  "" ∉ ss → direct_members g (member_relations ss) = list_to_set (pair g <$> ss).
Proof.
  intros Hne. unfold direct_members, member_relations.
  rewrite (filter_Forall_id (λ subj, subj ≠ "")).
  2:{ apply Forall_forall. intros s Hs ->. done. }
  rewrite filter_Forall_id.
  2:{ apply Forall_forall. intros r (s & -> & _)%list_elem_of_fmap. done. }
  do 2 f_equal. rewrite <-list_fmap_compose. by apply list_fmap_id.
Qed.

Lemma member_relations_nil ss : "" ∉ ss → member_relations ss = [] → ss = [].
Proof.
  unfold member_relations. intros Hne. rewrite (filter_Forall_id (λ subj, subj ≠ "")).
  - by intros ?%fmap_nil_inv.
  - apply Forall_forall. intros s Hs ->. done.
Qed.

(** What the events of a call do to the memberships. *)
Lemma relationships_create m g ss : "" ∉ ss →
  relationships m (option_list (members_event EvCreateAuthRelationships g ss)) =
  m ∪ list_to_set (pair g <$> ss).
Proof.
  intros Hne. unfold members_event. case_decide as Hnil; simpl.
  - apply member_relations_nil in Hnil as ->; [|done]. simpl. set_solver.
  - by rewrite direct_members_relations.
Qed.

Lemma relationships_delete m g ss : "" ∉ ss →
  relationships m (option_list (members_event EvDeleteAuthRelationships g ss)) =
  m ∖ list_to_set (pair g <$> ss).
Proof.
  intros Hne. unfold members_event. case_decide as Hnil; simpl.
  - apply member_relations_nil in Hnil as ->; [|done]. simpl. set_solver.
  - by rewrite direct_members_relations.
Qed.

Section runs.
Context {E : Env} `{!Reliable E} {Ec : Echo}.

(** Rules for the steps that the handlers share. *)
Lemma wp_check_access ctx r a w (Φ : result () → World → Prop) :
  Φ (Ok tt) (next_tick (log (EvCheckAccess r a true) w)) →
  (∀ e, Φ (Err e) (next_tick (log (EvCheckAccess r a false) w))) →
  wp (check_access ctx r a) w Φ.
Proof.
  intros Hok Herr. unfold check_access. apply wp_on_error. unfold wp at 1, CheckAccess.
  destruct (CheckAccess_err _ _ _); simpl; [apply wp_fail, Herr|done].
Qed.

Lemma wp_parse_or_400 id text w (Φ : result () → World → Prop) :
  ((∃ x, gidx_Parse id = Ok x) → Φ (Ok tt) w) → (∀ e, Φ (Err e) w) → (∀ s, Φ (Panic s) w) →
  wp (parse_or_400 id text) w Φ.
Proof.
  intros Hok Herr Hpanic. unfold parse_or_400. wp. destruct (gidx_Parse id) as [x|e|s]; wp; eauto.
Qed.

Lemma wp_parse_members ids w (Φ : result () → World → Prop) :
  ((∀ id, id ∈ ids → ∃ x, gidx_Parse id = Ok x) → Φ (Ok tt) w) →
  (∀ e, Φ (Err e) w) → (∀ s, Φ (Panic s) w) → wp (parse_members ids) w Φ.
Proof.
  intros Hok Herr Hpanic. revert Hok.
  induction ids as [|id ids IH]; intros Hok; simpl.
  - apply wp_ret, Hok. intros id Hid. by apply elem_of_nil in Hid.
  - apply wp_bind. apply wp_parse_or_400; [|done..]. intros Hid. apply IH. intros Hids. apply Hok.
    intros id'. rewrite elem_of_cons. intros [->|?]; auto.
Qed.

(** A storage method: its result and transaction are those of its
    specification, and it logs only writes. *)
Lemma wp_store {A} ctx (m : M A) spec w t d (Φ : result A → World → Prop) :
  implements ctx m spec → keeps only_writes m → in_tx ctx t w d →
  (∀ w' n, committed w' = committed w → trace w' = trace w ++ replicate n EvWrite →
     txs w' !! t = Some (spec (committed w) d).2 → Φ (spec (committed w) d).1 w') →
  wp m w Φ.
Proof.
  intros Hm Hk Hw HΦ. destruct (Hm w t d Hw) as (Hr & Ht & [Hc _] & _).
  destruct (Hk w) as [n Hn]. unfold wp. rewrite Hr. by eapply HΦ.
Qed.

Lemma wp_not_found_404 {A} (m : M A) w (Φ : result A → World → Prop) :
  wp m w (λ r w', match r with Err e => ∀ e', Φ (Err e') w' | _ => Φ r w' end) →
  wp (not_found_404 m) w Φ.
Proof.
  intros Hm. unfold not_found_404. apply wp_on_error. eapply wp_mono, Hm.
  intros [a|e|s] w' H; [done| |done]. destruct (Is e ErrNotFound); apply wp_fail, H.
Qed.

(** A call of the event service, when the publisher does not fail. *)
Lemma publish_run e w : publish e w = (Ok tt, next_tick (log e w)).
Proof. unfold publish. by rewrite no_publish_fault. Qed.

Lemma wp_publish_members ctx ev m ctx' g ss w (Φ : result () → World → Prop) msg t d :
  in_tx ctx t w d →
  (m = mret tt ∧ members_event ev g ss = None ∨
   ∃ e, m = publish e ∧ members_event ev g ss = Some e) →
  (∀ w', trace w' = trace w ++ option_list (members_event ev g ss) →
     committed w' = committed w → in_tx ctx t w' d → Φ (Ok tt) w') →
  wp (or_rollback ctx' msg m) w Φ.
Proof.
  intros Hw Hm HΦ. unfold or_rollback. apply wp_on_error.
  destruct Hm as [[-> Hev]|(e & -> & Hev)].
  - apply wp_ret, HΦ; rewrite ?Hev; [by rewrite app_nil_r|done..].
  - unfold wp at 1. rewrite publish_run. simpl. apply HΦ; rewrite ?Hev; done.
Qed.

Lemma AddGroupMembers_event ctx g ss :
  Events.AddGroupMembers ctx g ss = mret tt ∧ members_event EvCreateAuthRelationships g ss = None ∨
  ∃ e, Events.AddGroupMembers ctx g ss = publish e ∧
       members_event EvCreateAuthRelationships g ss = Some e.
Proof.
  unfold Events.AddGroupMembers, members_event. destruct ss as [|s ss]; [by left|].
  rewrite decide_False by done. destruct (member_relations (s :: ss)); [by left|right].
  by eexists.
Qed.

Lemma RemoveGroupMembers_event ctx g ss :
  Events.RemoveGroupMembers ctx g ss = mret tt ∧ members_event EvDeleteAuthRelationships g ss = None ∨
  ∃ e, Events.RemoveGroupMembers ctx g ss = publish e ∧
       members_event EvDeleteAuthRelationships g ss = Some e.
Proof.
  unfold Events.RemoveGroupMembers, members_event.
  destruct (member_relations ss); [by left|right]. by eexists.
Qed.
End runs.

(** ** The handlers of memberships *)

Section synced.
Context {E : Env} `{!Reliable E} {C : CEL} {H : Hasher} {Ec : Echo}.
Context (parse_empty : ∀ x, gidx_Parse "" ≠ Ok x) (upsert_ok : upsert_twice = None).
Context (m0 : gset (PrefixedID * PrefixedID)).

(** The outcome of a handler that was started with the tables [d]. *)
Definition synced_outcome (ctx : Context) (t : nat) (d : DB) {A} (r : result A) (w : World) : Prop :=
  match r with
  | Ok _ => ∃ d', in_tx ctx t w d' ∧ relationships m0 (trace w) = group_members d' ∧
                  ∀ g, (g, "") ∉ group_members d'
  | _ => relationships m0 (trace w) = group_members d
  end.

(** The start of a handler. *)
Definition synced_start (ctx : Context) (t : nat) (d : DB) (w : World) : Prop :=
  in_tx ctx t w d ∧ committed w = d ∧ relationships m0 (trace w) = group_members d ∧
  ∀ g, (g, "") ∉ group_members d.

Lemma synced_check ctx t d r a g w :
  synced_start ctx t d w → synced_start ctx t d (next_tick (log (EvCheckAccess r a g) w)).
Proof.
  intros (Hw & Hc & Hr & Hne). split_and!; [exact Hw|done| |done].
  simpl. by rewrite relationships_app, Hr.
Qed.

Lemma wp_synced_check ctx t d r a w (Φ : result () → World → Prop) :
  synced_start ctx t d w →
  (∀ w1, synced_start ctx t d w1 → Φ (Ok tt) w1) →
  (∀ e w1, relationships m0 (trace w1) = group_members d → Φ (Err e) w1) →
  wp (check_access ctx r a) w Φ.
Proof.
  intros Hw Hok Herr. apply wp_check_access; [by apply Hok, synced_check|].
  intros e. apply Herr. by apply (synced_check ctx t d r a false w).
Qed.

Lemma no_empty_parsed (ids : list PrefixedID) :
  (∀ id, id ∈ ids → ∃ x, gidx_Parse id = Ok x) → "" ∉ ids.
Proof. intros Hids Hin. destruct (Hids "" Hin) as [x Hx]. by destruct (parse_empty x). Qed.

Lemma relationships_stored w w' n m :
  relationships m0 (trace w) = m → trace w' = trace w ++ replicate n EvWrite →
  relationships m0 (trace w') = m.
Proof. intros <- ->. by rewrite relationships_app, relationships_writes. Qed.

(** A check whose result is dropped. *)
Lemma wp_ignore {A B} (r : result A) (m : M B) w Φ :
  (∀ s, Φ (Panic s) w) → wp m w Φ → wp (_ ← attempt (lift r); m) w Φ.
Proof. intros Hp Hm. apply wp_bind, wp_attempt, wp_lift. by destruct r. Qed.

Lemma AddGroupMembers_synced ctx t d g b w :
  synced_start ctx t d w →
  wp (GroupHandler.AddGroupMembers ctx g b) w (synced_outcome ctx t d).
Proof.
  intros Hw. unfold GroupHandler.AddGroupMembers. pose proof Hw as (_ & _ & Hrel & _).
  apply wp_bind, wp_parse_or_400; [intros _|done..].
  apply wp_bind, wp_parse_members; [intros Hids%no_empty_parsed|done..].
  apply wp_bind. eapply wp_synced_check; [exact Hw| |done]. clear Hrel.
  intros w1 (Hin & Hc & Hrel & Hne). apply wp_bind, wp_not_found_404.
  eapply wp_store; [by apply AddGroupMembers_implements; right|apply AddGroupMembers_frame, _|exact Hin|].
  intros w2 n Hc2 Ht2 Htx. pose proof (relationships_stored _ _ _ _ Hrel Ht2) as Hrel2.
  unfold AddGroupMembers_spec in *. set (ss := v1_MemberIDs b) in *.
  destruct (decide (ss = [])) as [Hss|Hss]; cbn [fst snd] in *; [|case_decide; cbn [fst snd] in *; [done|]].
  all: apply wp_bind; eapply wp_publish_members; [split; [apply Hin|exact Htx]|apply AddGroupMembers_event|].
  all: intros w3 Ht3 _ Hin3; apply wp_ret; eexists; split; [exact Hin3|].
  all: rewrite Ht3, relationships_app, Hrel2, relationships_create by done.
  - rewrite Hss. simpl. split; [set_solver|done].
  - split; [done|]. intros g' [?|[_ ?]%elem_of_pairs]%elem_of_union; [by eapply Hne|done].
Qed.

Lemma RemoveGroupMember_synced ctx t d g sid w :
  synced_start ctx t d w →
  wp (GroupHandler.RemoveGroupMember ctx g sid) w (synced_outcome ctx t d).
Proof.
  intros Hw. unfold GroupHandler.RemoveGroupMember. pose proof Hw as (_ & _ & Hrel & _).
  apply wp_bind, wp_parse_or_400; [intros _|done..].
  apply wp_ignore; [done|]. apply wp_bind, wp_parse_or_400; [intros Hsid|done..].
  apply wp_bind. eapply wp_synced_check; [exact Hw| |done]. clear Hrel.
  intros w1 (Hin & Hc & Hrel & Hne). apply wp_bind, wp_not_found_404.
  eapply wp_store; [apply RemoveGroupMember_run|apply GroupStore.RemoveGroupMember_frame, _|exact Hin|].
  intros w2 n Hc2 Ht2 Htx. pose proof (relationships_stored _ _ _ _ Hrel Ht2) as Hrel2.
  unfold RemoveGroupMember_spec in *.
  case_decide; cbn [fst snd] in *; [done|]. case_decide; cbn [fst snd] in *; [|done].
  assert ("" ∉ [sid]) as Hse.
  { intros Heq%list_elem_of_singleton. subst sid. destruct Hsid as [x Hx]. by destruct (parse_empty x). }
  apply wp_bind; eapply wp_publish_members; [split; [apply Hin|exact Htx]|apply RemoveGroupMembers_event|].
  intros w3 Ht3 _ Hin3; apply wp_ret; eexists; split; [exact Hin3|].
  rewrite Ht3, relationships_app, Hrel2, relationships_delete by done.
  split; [simpl; set_solver|]. intros g' [? _]%elem_of_difference. by eapply Hne.
Qed.

Lemma ReplaceGroupMembers_synced ctx t d g b w :
  synced_start ctx t d w →
  wp (GroupHandler.ReplaceGroupMembers ctx g b) w (synced_outcome ctx t d).
Proof.
  intros Hw. unfold GroupHandler.ReplaceGroupMembers. pose proof Hw as (_ & _ & Hrel & _).
  apply wp_bind, wp_parse_or_400; [intros _|done..].
  apply wp_bind, wp_parse_members; [intros Hids%no_empty_parsed|done..].
  apply wp_bind. eapply wp_synced_check; [exact Hw| |done]. clear Hrel.
  intros w1 (Hin & Hc & Hrel & Hne). apply wp_bind, wp_not_found_404.
  eapply wp_store; [by apply ReplaceGroupMembers_implements; right|
    apply ReplaceGroupMembers_frame, _|exact Hin|].
  intros w2 n Hc2 Ht2 Htx. pose proof (relationships_stored _ _ _ _ Hrel Ht2) as Hrel2.
  unfold ReplaceGroupMembers_spec in *. case_decide; cbn [fst snd] in *; [done|].
  pose proof (Diff_rm id (scan (members_of (committed w1) g)) (v1_MemberIDs b)) as Hrm.
  pose proof (Diff_add id (scan (members_of (committed w1) g)) (v1_MemberIDs b)) as Hadd.
  destruct (Diff _ _ _) as [add rm]; cbn [fst snd] in *.
  assert ("" ∉ rm) as Hrme.
  { intros [Hin' _]%Hrm. rewrite scan_perm, elem_of_members_of, Hc in Hin'. by eapply Hne. }
  assert ("" ∉ add) as Hadde by (by intros [? _]%Hadd).
  apply wp_bind; eapply wp_publish_members; [split; [apply Hin|exact Htx]|apply RemoveGroupMembers_event|].
  intros w3 Ht3 _ Hin3.
  apply wp_bind; eapply wp_publish_members; [exact Hin3|apply AddGroupMembers_event|].
  intros w4 Ht4 _ Hin4; apply wp_ret; eexists; split; [exact Hin4|].
  rewrite Ht4, Ht3, !relationships_app, Hrel2, relationships_create, relationships_delete by done.
  split; [done|]. simpl.
  intros g' [[? _]%elem_of_difference|[_ ?]%elem_of_pairs]%elem_of_union; [by eapply Hne|done].
Qed.

Lemma handle_synced req ctx t d w :
  member_request req → synced_start ctx t d w → wp (handle req ctx) w (synced_outcome ctx t d).
Proof.
  intros Hreq Hw.
  assert (∀ A (f : A → response) m, wp m w (synced_outcome ctx t d) →
    wp (respond f m) w (synced_outcome ctx t d)) as Hresp.
  { intros A f m Hm. apply wp_bind. eapply wp_mono, Hm. by intros [a|e|s] w'. }
  destruct req; try done; apply Hresp;
    [by apply AddGroupMembers_synced|by apply RemoveGroupMember_synced|by apply ReplaceGroupMembers_synced].
Qed.

(** C3: permissions-api stays in step with the database: as long as nothing
    outside fails (neither the database, which takes a member that one statement
    adds twice, nor the event service, nor the writing of a response), any sequence of requests that add, remove or replace members
    of groups, granted or refused, valid or not, keeps the memberships
    that were published equal to those that are committed. *)
Theorem memberships_synced ctx reqs w :
  (∀ n, encode_fault n = None) → Forall member_request reqs →
  synced m0 w → synced m0 (foldl (λ w req, (serve req ctx w).2) w reqs).
Proof using All.
  intros Henc Hreqs. revert w. induction Hreqs as [|req reqs Hreq _ IH]; intros w Hw; [done|].
  simpl. apply IH. clear IH. destruct Hw as [Hrel Hne].
  pose proof (handle_synced req (begun ctx w).1 (next_tx w) (committed w) (begun ctx w).2 Hreq) as Hh.
  apply wp_elim in Hh; [|split_and!; [split; [done|apply lookup_insert_eq]|done..]].
  pose proof (serve_run req ctx w _ _ (begin_run ctx w (no_sql_fault _))) as Hrun.
  destruct (handle req _ _) as [r w2] eqn:Hhr.
  assert (trace (serve req ctx w).2 = trace w2) as Htr by (rewrite Hrun; apply finish_trace).
  unfold synced. rewrite Htr. destruct r as [a|e|s].
  - destruct Hh as (d' & Hin & Hrel' & Hne').
    destruct (serve_Ok _ _ _ _ _ _ (no_sql_fault _) Hhr Hin (Henc _)) as [_ ->].
    by rewrite no_sql_fault.
  - destruct (serve_Err _ _ _ _ _ (no_sql_fault _) Hhr) as [_ ->]. by split.
  - rewrite Hrun. simpl. destruct (handle_same _ _ _ _ _ Hhr) as [-> _]. by split.
Qed.
End synced.

(** ** When publishing fails half-way *)

Section partial.
Context {E : Env} `{!Reliable E} {C : CEL} {H : Hasher} {Ec : Echo}.
Context {Ev : EventService} {HS : EventServiceLaws Ev}.

(** After a failed call of the event service the transaction is rolled back,
    and the handler's error is a 500. *)
Lemma wp_or_rollback_failed ctx t msg m w e w1 (Φ : result () → World → Prop) d :
  m w = (Err e, w1) → in_tx ctx t w1 d →
  Φ (Err (HTTPError 500 msg)) (next_tick (set_tx t TxDone w1)) →
  wp (or_rollback ctx msg m) w Φ.
Proof.
  intros Hm [Hc Ht] HΦ. unfold wp, or_rollback. rewrite (on_error_Err _ _ _ _ _ Hm).
  assert (RollbackContext ctx w1 = (Ok tt, next_tick (set_tx t TxDone w1))) as Hroll.
  { unfold RollbackContext, rollbackContextTx, getContextTx, tx_rollback. rewrite Hc.
    unfold mbind, M_bind, lift. by rewrite Ht, no_sql_fault. }
  assert (rollbackAndReturnError ctx 500 msg w1 =
    (Ok (HTTPError 500 msg), next_tick (set_tx t TxDone w1))) as Hret.
  { unfold rollbackAndReturnError. apply on_error_Ok. by rewrite (bind_Ok _ _ _ _ _ Hroll). }
  by rewrite (bind_Ok _ _ _ _ _ Hret).
Qed.

Lemma parse_ok_run id text w x : gidx_Parse id = Ok x → parse_or_400 id text w = (Ok tt, w).
Proof. intros Hid. unfold parse_or_400. apply on_error_Ok. unfold mbind, M_bind, lift. by rewrite Hid. Qed.

Lemma parse_members_ok_run ids w :
  (∀ id, id ∈ ids → ∃ x, gidx_Parse id = Ok x) → parse_members ids w = (Ok tt, w).
Proof.
  induction ids as [|id ids IH]; intros Hids; [done|]. simpl.
  destruct (Hids id) as [x Hx]; [left|]. rewrite (bind_Ok _ _ _ _ _ (parse_ok_run _ _ _ _ Hx)).
  apply IH. intros id' ?. apply Hids. by right.
Qed.

Lemma granted_run ctx r a w :
  (∀ n r a, CheckAccess_err n r a = None) →
  check_access ctx r a w = (Ok tt, next_tick (log (EvCheckAccess r a true) w)).
Proof. intros Hok. unfold check_access. apply on_error_Ok. unfold CheckAccess. by rewrite Hok. Qed.

Lemma wp_run {A} (m : M A) w r w' Φ : m w = (r, w') → Φ r w' → wp m w Φ.
Proof. intros Hm. unfold wp. by rewrite Hm. Qed.

(** The second rollback fails. *)
Lemma second_rollback ctx w1 t :
  ctx_tx ctx = Some t → txs w1 !! t = Some TxDone →
  RollbackContext ctx w1 = (Err ErrTxDone, w1).
Proof.
  intros Hc Ht. unfold RollbackContext, rollbackContextTx, getContextTx, tx_rollback.
  rewrite Hc. unfold mbind, M_bind, lift. by rewrite Ht.
Qed.

(** A replacement whose removals are published and whose additions are not. *)
Definition partial_msg : string := "failed to replace group members in permissions API".
Lemma replace_partial_run ctx g b w e row add rm :
  let ids := v1_MemberIDs b in
  Diff (scan (members_of (committed w) g)) ids id = (add, rm) →
  groups (committed w) !! g = Some row →
  (∀ id, id = g ∨ id ∈ ids → ∃ x, gidx_Parse id = Ok x) →
  NoDup ids ∨ upsert_twice = None →
  (∀ n r a, CheckAccess_err n r a = None) →
  (∀ ctx w, (es_RemoveGroupMembers ctx g rm w).1 = Ok tt) →
  (∀ ctx w, (es_AddGroupMembers ctx g add w).1 = Err e) →
  member_relations rm ≠ [] →
  wp (handle (ReqReplaceGroupMembers g b) (begun ctx w).1) (begun ctx w).2 (λ r w2,
    r = Err (HTTPError 500 partial_msg) ∧ txs w2 !! next_tx w = Some TxDone ∧
    ∃ n, trace w2 = trace w ++ EvCheckAccess g actionGroupMembersPut true :: replicate n EvWrite ++
     [EvDeleteAuthRelationships GroupTopic g (member_relations rm)]).
Proof.
  cbv zeta. intros Hdiff Hg Hparse Hdup Haccess Hrem Hadd Hrels.
  apply wp_bind. unfold GroupHandler.ReplaceGroupMembers.
  destruct (Hparse g) as [x Hx]; [by left|].
  apply wp_bind. eapply wp_run; [by eapply parse_ok_run|].
  apply wp_bind. eapply wp_run; [apply parse_members_ok_run; auto|].
  apply wp_bind. eapply wp_run; [by apply granted_run|].
  apply wp_bind, wp_not_found_404.
  eapply wp_store; [by apply ReplaceGroupMembers_implements|
    apply ReplaceGroupMembers_frame, _|split; [done|apply lookup_insert_eq]|].
  intros w2 n Hc2 Ht2 Htx. unfold ReplaceGroupMembers_spec in *. simpl in Hc2.
  rewrite decide_False in * by (simpl; congruence).
  change (committed _) with (committed w) in Htx |- *. rewrite Hdiff in *. cbn [fst snd] in *.
  match type of Htx with _ = Some (TxOpen ?d') => set (d2 := d') in * end.
  (* the removals are published *)
  assert (in_tx (begun ctx w).1 (next_tx w) w2 d2) as Hin2 by by split.
  apply wp_bind. unfold or_rollback at 1. apply wp_on_error.
  pose proof (RemoveGroupMembers_publishes (begun ctx w).1 g rm w2) as Hpub.
  pose proof (RemoveGroupMembers_keeps same_txs (begun ctx w).1 g rm _ w2) as Hsame.
  destruct (es_RemoveGroupMembers (begun ctx w).1 g rm w2) as [r3 w3] eqn:Hrun3.
  pose proof (Hrem (begun ctx w).1 w2) as Hok. rewrite Hrun3 in Hok. cbn [fst snd] in Hok, Hpub, Hsame.
  subst r3. eapply wp_run; [exact Hrun3|]. cbv beta iota.
  (* the additions are not *)
  apply wp_bind.
  pose proof (AddGroupMembers_publishes (begun ctx w).1 g add w3) as Hpub4.
  pose proof (AddGroupMembers_keeps same_txs (begun ctx w).1 g add _ w3) as Hsame4.
  destruct (es_AddGroupMembers (begun ctx w).1 g add w3) as [r4 w4] eqn:Hrun4.
  pose proof (Hadd (begun ctx w).1 w3) as Herr. rewrite Hrun4 in Herr. cbn [fst snd] in Herr, Hpub4, Hsame4.
  subst r4. eapply wp_or_rollback_failed; [exact Hrun4| |].
  - split; [done|]. unfold same_txs in *. rewrite Hsame4, Hsame. apply Hin2.
  - split; [done|]. split; [apply lookup_insert_eq|]. exists n. simpl.
    rewrite Hpub4, Hpub, Ht2. simpl. unfold members_event. rewrite decide_False by done. simpl.
    by rewrite <-!app_assoc.
Qed.

(** C40: replacing members publishes twice. When the removals are published and
    the additions are not, the database is rolled back and the client is told
    500, but the removals stay published: permissions-api has lost members that
    the group still has. (The request's transaction is rolled back a second
    time by the middleware, which fails: what it returns is a 502.) *)
Theorem replace_partial_publish ctx g b w e row add rm :
  let ids := v1_MemberIDs b in
  Diff (scan (members_of (committed w) g)) ids id = (add, rm) →
  groups (committed w) !! g = Some row →
  (∀ id, id = g ∨ id ∈ ids → ∃ x, gidx_Parse id = Ok x) →
  NoDup ids ∨ upsert_twice = None →
  (∀ n r a, CheckAccess_err n r a = None) →
  (∀ ctx w, (es_RemoveGroupMembers ctx g rm w).1 = Ok tt) →
  (∀ ctx w, (es_AddGroupMembers ctx g add w).1 = Err e) →
  member_relations rm ≠ [] →
  let w' := (serve (ReqReplaceGroupMembers g b) ctx w).2 in
  let m := storageMiddleware (strict_handler (handle (ReqReplaceGroupMembers g b))) ctx
             (set_responded None w) in
  responded w' = Some (echo_status
    (HTTPError 500 "failed to replace group members in permissions API")) ∧
  committed w' = committed w ∧
  (∃ n, trace w' = trace w ++ EvCheckAccess g actionGroupMembersPut true :: replicate n EvWrite ++
     [EvDeleteAuthRelationships GroupTopic g (member_relations rm)]) ∧
  m.1 = Err (HTTPErrorOf 502 ErrTxDone).
Proof.
  cbv zeta. intros Hdiff Hg Hparse Hdup Haccess Hrem Hadd Hrels.
  set (req := ReqReplaceGroupMembers g b). change "failed to replace group members in permissions API" with partial_msg.
  assert (wp (handle req (begun ctx w).1) (begun ctx w).2 (λ r w2,
    r = Err (HTTPError 500 partial_msg) ∧ txs w2 !! next_tx w = Some TxDone ∧
    ∃ n, trace w2 = trace w ++ EvCheckAccess g actionGroupMembersPut true :: replicate n EvWrite ++
     [EvDeleteAuthRelationships GroupTopic g (member_relations rm)])) as Hh.
  { by eapply replace_partial_run. }
  apply wp_elim in Hh. pose proof (begin_run ctx w (no_sql_fault _)) as Hb.
  pose proof (serve_run req ctx w _ _ Hb) as Hrun.
  destruct (handle req (begun ctx w).1 (begun ctx w).2) as [r w2] eqn:Hhr.
  destruct Hh as (-> & Hdone & n & Htr).
  destruct (serve_Err _ _ _ _ _ (no_sql_fault _) Hhr) as [Hr Hc].
  split_and!; [done|done| |].
  - exists n. rewrite Hrun, finish_trace. exact Htr.
  - unfold storageMiddleware. rewrite (bind_Ok _ _ _ _ _ (on_error_Ok _ _ _ _ _ Hb)).
    rewrite (bind_Ok _ _ _ _ _ (attempt_Err _ _ _ _ (strict_run _ _ _ _ _ Hhr))).
    destruct (middleware_error (begun ctx w).1 (HTTPError 500 partial_msg) w2 _ (write_status_run _ _))
      as (e' & -> & ->).
    rewrite (second_rollback (begun ctx w).1 _ (next_tx w)); [done|done|].
    unfold wrote_status. by destruct (responded w2).
Qed.
End partial.

(** ** The statuses of unknown resources *)

Section statuses.
Context {E : Env} `{!Reliable E} {C : CEL} {H : Hasher} {Ec : Echo} `{!DefaultEcho Ec}.
Context {Ev : EventService} {HS : EventServiceLaws Ev}.

Lemma serve_status req ctx w e :
  wp (handle req (begun ctx w).1) (begun ctx w).2 (λ r _, r = Err e) →
  responded (serve req ctx w).2 = Some (DefaultHTTPErrorHandler e).
Proof.
  intros Hh%wp_elim. destruct (handle req _ _) as [r w2] eqn:Hhr. subst r.
  destruct (serve_Err _ _ _ _ _ (no_sql_fault _) Hhr) as [-> _]. by rewrite default_status.
Qed.

Lemma begun_in_tx ctx w : in_tx (begun ctx w).1 (next_tx w) (begun ctx w).2 (committed w).
Proof. split; [done|apply lookup_insert_eq]. Qed.

Lemma wp_unknown_issuer {A} ctx t d id w (f : Issuer → M A) :
  in_tx ctx t w d → issuers d !! id = None →
  wp (on_sentinel (IssuerStore.GetIssuerByID ctx id) ErrorIssuerNotFound errorNotFound ≫= f) w
    (λ r _, r = Err errorNotFound).
Proof.
  intros Hw Hid. apply wp_bind, wp_on_error. eapply wp_GetIssuerByID; [done|]. by rewrite Hid.
Qed.

Lemma wp_unknown_client {A} ctx t d id w (f : OAuthClient → M A) :
  in_tx ctx t w d → oauth_clients d !! id = None →
  wp (on_sentinel (LookupOAuthClientByID ctx id) ErrOAuthClientNotFound client_404 ≫= f) w
    (λ r _, r = Err client_404).
Proof.
  intros Hw Hid. apply wp_bind, wp_on_error. unfold LookupOAuthClientByID, no_rows_eq, query_row.
  case_decide; wp; [done|]. rewrite Hid. done.
Qed.

Lemma joined_unknown d id : user_info d !! id = None →
  filter (λ x, x.1.1 = id) (joined_users d) = [].
Proof.
  intros Hid. apply filter_Forall_nil, Forall_forall. intros [[id' r] i] Hin <-. simpl in *.
  apply joined_users_lookup in Hin as [Hr _]. congruence.
Qed.

Lemma wp_unknown_user {A} ctx t d id w (f : PrefixedID → M A) e :
  in_tx ctx t w d → user_info d !! id = None →
  wp (on_sentinel (LookupUserOwnerID ctx id) ErrUserInfoNotFound e ≫= f) w (λ r _, r = Err e).
Proof.
  intros Hw Hid. apply wp_bind, wp_on_error. unfold LookupUserOwnerID, no_rows, query_row. wp.
  rewrite joined_unknown by done.
  by rewrite (proj1 (Permutation_nil_r _) (scan_perm [])).
Qed.

(** With the framework's default error handler a request about an unknown
    group is answered 404, but one about an unknown issuer, OAuth client or
    user is answered 500: the status of [errorWithStatus] is never read. The
    same unknown user is a 404 when its groups are listed. *)
Theorem unknown_resource_statuses ctx w id x :
  (∀ n r a, CheckAccess_err n r a = None) → gidx_Parse id = Ok x →
  let status req := responded (serve req ctx w).2 in
  (groups (committed w) !! id = None → status (ReqGetGroupByID id) = Some 404%Z) ∧
  (issuers (committed w) !! id = None →
     status (ReqGetIssuerByID id) = Some 500%Z ∧ status (ReqDeleteIssuer id) = Some 500%Z ∧
     ∀ b, status (ReqUpdateIssuer id b) = Some 500%Z) ∧
  (oauth_clients (committed w) !! id = None →
     status (ReqGetOAuthClient id) = Some 500%Z ∧ status (ReqDeleteOAuthClient id) = Some 500%Z) ∧
  (user_info (committed w) !! id = None →
     status (ReqGetUserByID id) = Some 500%Z ∧ ∀ p, status (ReqListUserGroups id p) = Some 404%Z).
Proof.
  intros Haccess Hparse. cbv zeta. pose proof (begun_in_tx ctx w) as Hw.
  split_and!; intros Hid; [|split_and!; [..|intros b]|split_and!|split_and!; [|intros p]].
  - apply (serve_status _ _ _ (group_not_found id)). apply wp_bind.
    unfold GroupHandler.GetGroupByID. apply wp_bind. eapply wp_run; [by eapply parse_ok_run|].
    apply wp_bind. eapply wp_run; [by apply granted_run|]. apply wp_bind, wp_on_error.
    eapply wp_fetchGroupByID; [split; [done|apply lookup_insert_eq]|]. by rewrite Hid.
  - apply (serve_status _ _ _ errorNotFound), wp_bind.
    eapply wp_mono, wp_unknown_issuer; [|done..]. by intros r w' ->.
  - apply (serve_status _ _ _ errorNotFound), wp_bind.
    eapply wp_mono, wp_unknown_issuer; [|done..]. by intros r w' ->.
  - apply (serve_status _ _ _ errorNotFound), wp_bind.
    eapply wp_mono, wp_unknown_issuer; [|done..]. by intros r w' ->.
  - apply (serve_status _ _ _ client_404), wp_bind.
    eapply wp_mono, wp_unknown_client; [|done..]. by intros r w' ->.
  - apply (serve_status _ _ _ client_404), wp_bind.
    eapply wp_mono, wp_unknown_client; [|done..]. by intros r w' ->.
  - apply (serve_status _ _ _ user_404), wp_bind.
    eapply wp_mono, wp_unknown_user; [|done..]. by intros r w' ->.
  - apply (serve_status _ _ _ (HTTPError 404 (Error ErrUserInfoNotFound))), wp_bind.
    unfold ListUserGroups. apply wp_bind. eapply wp_run; [by eapply parse_ok_run|].
    eapply wp_mono, wp_unknown_user; [|done..]. by intros r w' ->.
Qed.
End statuses.

(** ** At concrete inputs *)

Definition quiet_echo : Echo :=
  {| echo_status := DefaultHTTPErrorHandler; encode_fault _ := None; RuneSequence _ _ := Ok "s3cret" |}.
#[global] Instance quiet_echo_default : DefaultEcho quiet_echo.
Proof. by split. Qed.

(** The event service of the program, over an environment where nothing fails. *)
Definition quiet_events : EventService := NewEvents (H:=quiet_env).
#[global] Instance quiet_events_laws : EventServiceLaws quiet_events.
Proof. apply NewEvents_laws. Qed.

(** An event service whose additions are always refused. *)
Definition no_adds (E : Env) : EventService :=
  {| es_AddGroupMembers _ _ _ := fail (ExtError "nats: timeout");
     es_RemoveGroupMembers := Events.RemoveGroupMembers;
     es_CreateGroup := Events.CreateGroup;
     es_DeleteGroup := Events.DeleteGroup |}.
#[global] Instance no_adds_laws E : EventServiceLaws (no_adds E).
Proof.
  destruct (NewEvents_laws (E:=E)). split; try done.
  intros R ctx g ss HR. apply keeps_fail, _.
Qed.

(** An environment whose second statement and everything after it fails. *)
Definition failing_env : Env := {|
  env_scan := stored_order;
  sql_fault n := if decide (n < 4) then None else Some (ExtError "connection reset");
  ambiguous_commit _ := false;
  rows_cut _ := None;
  upsert_twice := None;
  CheckAccess_err _ _ _ := None;
  publish_fault _ := None;
  gidx_Parse s := Ok s;
  gidx_NewID n prefix := Ok (prefix +:+ "-" +:+ pretty n);
|}.

Definition rename_users : request :=
  ReqUpdateGroup "idntgrp-2" {| v1ug_Description := None; v1ug_Name := Some "everyone" |}.

Lemma requests_guarded_witness :
  EventServiceLaws quiet_events ∧
  guarded ctx_0 sample_DB actionGroupUpdate (eq "idntgrp-2")
    (handle (H:=quiet_env) (H0:=claim_cel) (H1:=plain_hasher) (H2:=quiet_echo) (H3:=quiet_events) rename_users ctx_0).
Proof.
  split; [apply quiet_events_laws|]. intros w t Hw.
  destruct (requests_guarded (E:=quiet_env) (C:=claim_cel) (H:=plain_hasher) (Ec:=quiet_echo) (Ev:=quiet_events) rename_users ctx_0 sample_DB w t Hw) as (l & Htr & Hl).
  exists l. split; [exact Htr|]. destruct Hl as [Hl|(r & l' & Hr & Hl)]; [by left|right].
  exists r, l'. split; [symmetry; exact Hr|exact Hl].
Defined.

Lemma serve_outcome_witness :
  EventServiceLaws quiet_events ∧
  responded (serve (H:=quiet_env) (H0:=claim_cel) (H1:=plain_hasher) (H2:=quiet_echo) (H3:=quiet_events)
    rename_users ctx_none (world_of sample_DB)).2 = Some 200%Z.
Proof.
  split; [apply quiet_events_laws|].
  pose proof (serve_outcome (E:=quiet_env) (C:=claim_cel) (H:=plain_hasher) (Ec:=quiet_echo) (Ev:=quiet_events) rename_users ctx_none (world_of sample_DB)) as H. cbn zeta in H.
  change (sql_fault (tick (world_of sample_DB))) with (@None error) in H.
  assert (∃ a w2, handle (H:=quiet_env) (H0:=claim_cel) (H1:=plain_hasher) (H2:=quiet_echo) (H3:=quiet_events)
    rename_users (begun ctx_none (world_of sample_DB)).1 (begun ctx_none (world_of sample_DB)).2 =
    (Ok a, w2)) as (a & w2 & Hh) by (eexists _, _; vm_compute; reflexivity).
  rewrite Hh in H. exact (proj1 H).
Defined.

(** The statements succeed and the commit fails. *)
Definition renamed : result response * World :=
  handle (H:=failing_env) (H0:=claim_cel) (H1:=plain_hasher) (H2:=quiet_echo)
    (H3:=NewEvents (H:=failing_env)) rename_users
    (begun ctx_none (world_of sample_DB)).1 (begun ctx_none (world_of sample_DB)).2.
Definition renamed_DB : DB :=
  with_groups <["idntgrp-2" := GroupRow "tnntten-1" "everyone" "all users"]> sample_DB.

Lemma serve_responds_before_commit_witness :
  txs renamed.2 !! 0 = Some (TxOpen renamed_DB) ∧
  responded (serve (H:=failing_env) (H0:=claim_cel) (H1:=plain_hasher) (H2:=quiet_echo)
    (H3:=NewEvents (H:=failing_env)) rename_users ctx_none (world_of sample_DB)).2 = Some 200%Z ∧
  committed (serve (H:=failing_env) (H0:=claim_cel) (H1:=plain_hasher) (H2:=quiet_echo)
    (H3:=NewEvents (H:=failing_env)) rename_users ctx_none (world_of sample_DB)).2 = sample_DB.
Proof.
  assert (txs renamed.2 !! 0 = Some (TxOpen renamed_DB)) as Htx by (vm_compute; reflexivity).
  assert (∃ a, renamed = (Ok a, renamed.2)) as [a Ha] by (eexists; vm_compute; reflexivity).
  assert (encode_fault (Echo:=quiet_echo) (tick renamed.2) = None ∧
    sql_fault (Env:=failing_env) (S (tick renamed.2)) = Some (ExtError "connection reset"))
    as [Henc Hfault] by (split; vm_compute; reflexivity).
  destruct (serve_responds_before_commit (E:=failing_env) (C:=claim_cel) (H:=plain_hasher)
    (Ec:=quiet_echo) (Ev:=NewEvents (H:=failing_env)) rename_users ctx_none (world_of sample_DB)
    a renamed.2 renamed_DB eq_refl Ha (conj eq_refl Htx) Henc) as [H1 H2].
  rewrite Hfault in H2. exact (conj Htx (conj H1 (H2 eq_refl))).
Defined.

(** The commit of a request fails; its transaction is over. *)
Lemma serve_ends_transaction_witness :
  sql_fault (Env:=failing_env) (tick (world_of sample_DB)) = None ∧
  txs (serve (H:=failing_env) (H0:=claim_cel) (H1:=plain_hasher) (H2:=quiet_echo)
    (H3:=NewEvents (H:=failing_env)) rename_users ctx_none (world_of sample_DB)).2 !! 0 = Some TxDone.
Proof.
  split; [reflexivity|].
  destruct (serve_ends_transaction (E:=failing_env) (C:=claim_cel) (H:=plain_hasher)
    (Ec:=quiet_echo) (Ev:=NewEvents (H:=failing_env)) rename_users ctx_none (world_of sample_DB))
    as (_ & _ & Hend).
  assert (∃ a, renamed = (Ok a, renamed.2)) as [a Ha] by (eexists; vm_compute; reflexivity).
  unfold renamed in Ha. rewrite Ha in Hend. exact Hend.
Defined.

Definition member_requests : list request :=
  [ReqAddGroupMembers "idntgrp-2" {| v1_MemberIDs := ["idntusr-1"; "idntusr-9"] |};
   ReqRemoveGroupMember "idntgrp-1" "idntusr-1";
   ReqReplaceGroupMembers "idntgrp-2" {| v1_MemberIDs := ["idntusr-2"] |}].

Lemma memberships_synced_witness :
  synced (group_members sample_DB)
    (foldl (λ w req, (serve (H:=quiet_env) (H0:=claim_cel) (H1:=plain_hasher) (H2:=quiet_echo) (H3:=quiet_events)
              req ctx_none w).2) (world_of sample_DB) member_requests).
Proof.
  apply (memberships_synced (E:=quiet_env)).
  - intros x. discriminate.
  - reflexivity.
  - reflexivity.
  - by repeat constructor.
  - split; [reflexivity|]. intros g Hg. simpl in Hg.
    apply elem_of_union in Hg as [Hg|Hg]; apply elem_of_singleton in Hg; discriminate.
Defined.

Lemma replace_partial_publish_witness :
  let w' := (serve (H:=quiet_env) (H0:=claim_cel) (H1:=plain_hasher) (H2:=quiet_echo) (H3:=no_adds quiet_env)
    (ReqReplaceGroupMembers "idntgrp-1" {| v1_MemberIDs := ["idntusr-2"; "idntusr-3"] |})
    ctx_none (world_of sample_DB)).2 in
  responded w' = Some 500%Z ∧ committed w' = sample_DB ∧
  EvDeleteAuthRelationships "group" "idntgrp-1" [("direct_member", "idntusr-1")] ∈ trace w'.
Proof.
  destruct (replace_partial_publish (E:=quiet_env) (C:=claim_cel) (H:=plain_hasher)
    (Ec:=quiet_echo) (Ev:=no_adds quiet_env) ctx_none "idntgrp-1"
    {| v1_MemberIDs := ["idntusr-2"; "idntusr-3"] |} (world_of sample_DB)
    (ExtError "nats: timeout") (GroupRow "tnntten-1" "admins" "") ["idntusr-3"] ["idntusr-1"])
    as (H1 & H2 & [n H3] & _).
  - vm_compute. reflexivity.
  - vm_compute. reflexivity.
  - intros id Hid. exists id. destruct Hid as [->|Hid]; [reflexivity|].
    simpl in Hid. apply elem_of_cons in Hid as [->|Hid%list_elem_of_singleton]; [reflexivity|].
    by subst id.
  - right. reflexivity.
  - reflexivity.
  - reflexivity.
  - reflexivity.
  - discriminate.
  - split; [exact H1|]. split; [exact H2|]. rewrite H3.
    apply elem_of_app. right. right. apply elem_of_app. right. by left.
Defined.

Lemma unknown_resource_statuses_witness :
  let status req := responded (serve (H:=quiet_env) (H0:=claim_cel) (H1:=plain_hasher) (H2:=quiet_echo) (H3:=quiet_events) req ctx_none (world_of sample_DB)).2 in
  status (ReqGetGroupByID "idntgrp-9") = Some 404%Z ∧ status (ReqGetIssuerByID "idntgrp-9") = Some 500%Z.
Proof.
  destruct (unknown_resource_statuses (E:=quiet_env) (C:=claim_cel) (H:=plain_hasher) (Ec:=quiet_echo)
    (Ev:=quiet_events) ctx_none (world_of sample_DB) "idntgrp-9" "idntgrp-9") as (H1 & H2 & _); [done|done|].
  split; [by apply H1; vm_compute|]. by apply H2; vm_compute.
Defined.
