(* ===== verification/Jwt.v ===== *)
(** The token library and the configuration of the OAuth 2.0 provider: fosite's
    tokens, claims and errors behind an interface, the configuration struct of
    [internal/fositex/config.go] with its strategies, and the access requests
    that the token endpoint's handlers read and complete. *)
From S2P Require Import Prelude GoStrings Errors Query World Cel Types.

(** ** The token library *)

(** The bit set [ValidationError.Errors], as the values the code uses. *)
Inductive validation_errors : Type :=
  | ValidationErrorMalformed | ValidationErrorUnverifiable | ValidationErrorSignatureInvalid
  | ValidationErrorIssuer | ValidationErrorOther (bits : N).

#[global] Instance validation_errors_eq_dec : EqDecision validation_errors.
Proof. solve_decision. Defined.

(** [jwt.ValidationError]. *)
Record ValidationError : Type := {
  ve_Errors : validation_errors;
  ve_Inner : option error;
}.

(** The error of [jwt.Parse], by its dynamic type. *)
Inductive parse_error : Type :=
  | ParseValidationError (ve : ValidationError)
  | ParseOtherError (e : error).

(** [github.com/ory/fosite/token/jwt] and go-jose: claims with their standard
    fields, unverified tokens, key sets, and the parser. [verified raw tok key]
    says that the text [raw] is the token [tok], signed with [key], and valid
    in time. *)
Class JWT : Type := {
  JWTClaims : Type;
  zero_claims : JWTClaims;
  claims_Issuer : JWTClaims → string;
  claims_Subject : JWTClaims → string;
  set_Issuer : string → JWTClaims → JWTClaims;
  set_Subject : string → JWTClaims → JWTClaims;
  claims_Add : string → any → JWTClaims → JWTClaims;
  FromMapClaims : gmap string any → JWTClaims;
  ToMapClaims : JWTClaims → gmap string any;
  Token : Type;
  Token_Claims : Token → gmap string any;
  Token_Header : Token → gmap string any;
  JSONWebKey : Type;
  key_Use : JSONWebKey → string;
  JSONWebKeySet : Type;
  jwks_Key : JSONWebKeySet → string → list JSONWebKey;
  jwks_Resolve : nat → string → error + JSONWebKeySet;
  verified : string → Token → JSONWebKey → Prop;
  jwt_Parse : string → (Token → M (ValidationError + JSONWebKey)) → M (Token * option parse_error);
  ValidationError_text : ValidationError → string;
}.

(** The names of the claims that have a field of their own. *)
Definition registered_claims : list string :=
  ["jti"; "sub"; "iss"; "aud"; "iat"; "nbf"; "exp"; "scope"; "scp"].

(** What the code relies on. A field of the claims is in their map under its
    name if and only if it is set, whatever was added under that name; another
    claim is in the map when it was added. The parser calls the key function with the token
    whose signature it checks, and has no other effect. *)
Class JWTLaws (J : JWT) : Prop := {
  Subject_zero : claims_Subject zero_claims = "";
  Issuer_zero : claims_Issuer zero_claims = "";
  Subject_set_Subject s c : claims_Subject (set_Subject s c) = s;
  Subject_set_Issuer s c : claims_Subject (set_Issuer s c) = claims_Subject c;
  Issuer_set_Issuer s c : claims_Issuer (set_Issuer s c) = s;
  Issuer_set_Subject s c : claims_Issuer (set_Subject s c) = claims_Issuer c;
  Subject_Add k v c : claims_Subject (claims_Add k v c) = claims_Subject c;
  Issuer_Add k v c : claims_Issuer (claims_Add k v c) = claims_Issuer c;
  map_sub c : ToMapClaims c !! "sub" =
    if decide (claims_Subject c = "") then None else Some (AnyString (claims_Subject c));
  map_iss c : ToMapClaims c !! "iss" =
    if decide (claims_Issuer c = "") then None else Some (AnyString (claims_Issuer c));
  map_zero k : k ∉ registered_claims → ToMapClaims zero_claims !! k = None;
  map_set_Subject s c k : k ∉ registered_claims →
    ToMapClaims (set_Subject s c) !! k = ToMapClaims c !! k;
  map_set_Issuer s c k : k ∉ registered_claims →
    ToMapClaims (set_Issuer s c) !! k = ToMapClaims c !! k;
  map_Add k v c : k ∉ registered_claims → ToMapClaims (claims_Add k v c) !! k = Some v;
  map_Add_ne k k' v c : k ≠ k' → ToMapClaims (claims_Add k v c) !! k' = ToMapClaims c !! k';
  Parse_sound raw kf w tok w' :
    jwt_Parse raw kf w = (Ok (tok, None), w') →
    ∃ key, kf tok w = (Ok (inr key), w') ∧ verified raw tok key;
  Parse_effects raw kf w : (∃ tok, (jwt_Parse raw kf w).2 = (kf tok w).2) ∨ (jwt_Parse raw kf w).2 = w;
}.

(** ** Access requests *)

(** [oauth2.JWTSession], as far as the handlers fill it; the headers and the
    expiry times are maps with the one key they are given. *)
Record JWTSession `{JWT} : Type := {
  js_JWTClaims : option JWTClaims;
  js_JWTHeader : gmap string any;
  js_ExpiresAt : option Z;
  js_Subject : string;
}.

(** The dynamic type of [requester.GetSession()]. *)
Inductive session `{JWT} : Type :=
  | NilSession
  | SessionOf (s : JWTSession)
  | OtherSession.

(** [fosite.AccessRequester], as far as the handlers use it. *)
Record AccessRequest `{JWT} : Type := {
  ar_Form : Values;
  ar_GrantTypes : list string;
  ar_Client : OAuthClient;
  ar_Session : session;
  ar_GrantedAudience : list string;
}.

(** [requester.GrantAudience(aud)], which the request records. *)
Definition GrantAudience `{JWT} (aud : string) (r : AccessRequest) : AccessRequest :=
  {| ar_Form := ar_Form r; ar_GrantTypes := ar_GrantTypes r; ar_Client := ar_Client r;
     ar_Session := ar_Session r; ar_GrantedAudience := ar_GrantedAudience r ++ [aud] |}.

Definition SetSession `{JWT} (s : session) (r : AccessRequest) : AccessRequest :=
  {| ar_Form := ar_Form r; ar_GrantTypes := ar_GrantTypes r; ar_Client := ar_Client r;
     ar_Session := s; ar_GrantedAudience := ar_GrantedAudience r |}.

(** [GetGrantTypes().ExactOne(name)]. *)
Definition ExactOne (args : list string) (name : string) : bool := bool_decide (args = [name]).

(** [fosite.AccessResponder]. *)
Record AccessResponse : Type := {
  resp_AccessToken : string;
  resp_TokenType : string;
  resp_ExpiresIn : Z;
  resp_Extra : gmap string any;
}.

(** ** The configuration *)

(** [storage.TransactionManager] and the methods of [fositex.UserInfoStrategy]
    that the handlers call; the strategy is a transaction manager when the type
    assertion succeeds. *)
Record TransactionManager : Type := {
  tm_BeginContext : Context → M Context;
  tm_CommitContext : Context → M ();
  tm_RollbackContext : Context → M ();
}.

Record UserInfoStrategy : Type := {
  us_LookupUserInfoByClaims : Context → string → string → M UserInfo;
  us_ParseUserInfoFromClaims : gmap string any → result UserInfo;
  us_StoreUserInfo : Context → UserInfo → M UserInfo;
  us_TransactionManager : option TransactionManager;
}.

(** [fositex.OAuth2Config] and the embedded [fosite.Config]: the strategies, the
    identifier of the signing key, the issuer and the lifespan of access tokens
    in the nanoseconds of a [time.Duration], the comparison of a client's audience with the requested one,
    and the lifespan of a client's own tokens. *)
Record OAuth2Config `{JWT} : Type := {
  cfg_IssuerJWKSURIProvider : option (Context → string → M string);
  cfg_ClaimMappingStrategy : Context → JWTClaims → M JWTClaims;
  cfg_ClaimConditionStrategy : Context → JWTClaims → M bool;
  cfg_UserInfoStrategy : UserInfoStrategy;
  cfg_SigningKeyID : string;
  cfg_AccessTokenIssuer : string;
  cfg_AccessTokenLifespan : Z;
  cfg_AudienceStrategy : list string → list string → option error;
  cfg_EffectiveLifespan : OAuthClient → Z → Z;
}.

(** The clock, [url.JoinPath], the strategy that signs access tokens, and
    fosite's [HandleHelper.IssueAccessToken], which signs one that lives for a
    duration and completes the response with it. Instants and durations are
    nanoseconds. *)
Class Platform `{JWT} : Type := {
  time_Now : nat → Z;
  JoinPath : string → string → result string;
  GenerateAccessToken : nat → AccessRequest → error + string;
  IssueAccessToken : nat → Z → AccessRequest → AccessResponse → error + AccessResponse;
}.

(** ** A concrete token library

    Claims are a subject, an issuer and a map; the tokens that exist are given
    by their text, and the signature of a token is the key it names. *)
Record plain_claims : Type := PlainClaims {
  pc_sub : string;
  pc_iss : string;
  pc_extra : gmap string any;
}.

Record plain_token : Type := PlainToken {
  pt_claims : gmap string any;
  pt_header : gmap string any;
  pt_key : string;
}.

Definition set_claim (k s : string) (m : gmap string any) : gmap string any :=
  if decide (s = "") then delete k m else <[k := AnyString s]> m.

Definition string_claim (m : gmap string any) (k : string) : string :=
  match m !! k with Some (AnyString s) => s | _ => "" end.

Definition plain_verify (tokens : gmap string plain_token) (raw : string)
    (kf : plain_token → M (ValidationError + string)) : M (plain_token * option parse_error) :=
  match tokens !! raw with
  | None => mret (PlainToken ∅ ∅ "", Some (ParseOtherError (ExtError "malformed token")))
  | Some tok =>
    r ← kf tok;
    match r with
    | inl ve => mret (tok, Some (ParseValidationError ve))
    | inr key =>
      if decide (key = pt_key tok) then mret (tok, None)
      else mret (tok, Some (ParseValidationError
             {| ve_Errors := ValidationErrorSignatureInvalid; ve_Inner := None |}))
    end
  end.

(** Every key is a signature key of the key set [{[uri]}], under its own name. *)
Definition plain_jwt (tokens : gmap string plain_token) : JWT := {|
  JWTClaims := plain_claims;
  zero_claims := PlainClaims "" "" ∅;
  claims_Issuer := pc_iss;
  claims_Subject := pc_sub;
  set_Issuer s c := PlainClaims (pc_sub c) s (pc_extra c);
  set_Subject s c := PlainClaims s (pc_iss c) (pc_extra c);
  claims_Add k v c := PlainClaims (pc_sub c) (pc_iss c) (<[k := v]> (pc_extra c));
  FromMapClaims m := PlainClaims (string_claim m "sub") (string_claim m "iss") m;
  ToMapClaims c := set_claim "sub" (pc_sub c) (set_claim "iss" (pc_iss c) (pc_extra c));
  Token := plain_token;
  Token_Claims := pt_claims;
  Token_Header := pt_header;
  JSONWebKey := string;
  key_Use _ := "sig";
  JSONWebKeySet := string;
  jwks_Key uri kid := [uri +:+ "#" +:+ kid];
  jwks_Resolve _ uri := inr uri;
  verified raw tok key := tokens !! raw = Some tok ∧ key = pt_key tok;
  jwt_Parse := plain_verify tokens;
  ValidationError_text _ := "token is invalid";
|}.

Lemma set_claim_ne k k' s m : k ≠ k' → set_claim k s m !! k' = m !! k'.
Proof. intros Hk. unfold set_claim. case_decide; by simplify_map_eq. Qed.
Lemma set_claim_eq k s m :
  set_claim k s m !! k = if decide (s = "") then None else Some (AnyString s).
Proof. unfold set_claim. case_decide; by simplify_map_eq. Qed.

Lemma plain_map_lookup tokens (c : @JWTClaims (plain_jwt tokens)) k :
  k ∉ registered_claims → ToMapClaims c !! k = pc_extra c !! k.
Proof.
  unfold registered_claims. rewrite !not_elem_of_cons. intros (_ & ? & ? & _). simpl.
  by rewrite !set_claim_ne by done.
Qed.

#[global] Instance plain_jwt_laws tokens : JWTLaws (plain_jwt tokens).
Proof.
  split; try done.
  - intros c. apply set_claim_eq.
  - intros c. simpl. rewrite set_claim_ne by done. apply set_claim_eq.
  - intros s c k Hk. by rewrite !plain_map_lookup.
  - intros s c k Hk. by rewrite !plain_map_lookup.
  - intros k v c Hk. rewrite plain_map_lookup by done. apply lookup_insert_eq.
  - intros k k' v c Hk. simpl.
    destruct (decide ("sub" = k')) as [<-|Hs]; [by rewrite !set_claim_eq|].
    rewrite !(set_claim_ne "sub") by done.
    destruct (decide ("iss" = k')) as [<-|Hi]; [by rewrite !set_claim_eq|].
    rewrite !(set_claim_ne "iss") by done. by rewrite lookup_insert_ne.
  - intros raw kf w tok w'. simpl. unfold plain_verify.
    destruct (tokens !! raw) as [tok'|] eqn:Hraw; [|done]. unfold mbind, M_bind.
    destruct (kf tok' w) as [[[ve|key]| |] w1] eqn:Hkf; try done.
    case_decide as Hkey; intros [= -> ->]; by exists key.
  - intros raw kf w. simpl. unfold plain_verify.
    destruct (tokens !! raw) as [tok'|] eqn:Hraw; [|by right]. left. exists tok'.
    unfold mbind, M_bind. destruct (kf tok' w) as [[[ve|key]| |] w1]; try done. by case_decide.
Qed.

Definition plain_platform `{JWT} : Platform :=
  {| time_Now := Z.of_nat; JoinPath base p := Ok (base +:+ "/" +:+ p);
     GenerateAccessToken _ _ := inr "signed";
     IssueAccessToken _ lifespan _ r := inr
       {| resp_AccessToken := "signed"; resp_TokenType := "bearer";
          resp_ExpiresIn := lifespan; resp_Extra := resp_Extra r |} |}.
