(* ===== verification/Exchange.v ===== *)
(** Token exchange per RFC 8693: [internal/rfc8693] (the handler, the mapping
    of claims and their conditions) and [internal/jwks/strategy.go]; and the
    exchange while other requests run between its statements. *)
From S2P Require Import Prelude GoStrings Errors Base64 Query Sha256 Pagination V1 ListQuery.
From S2P Require Import World Frame Run Cel Types Storage GroupStore UserStore IssuerStore Jwt.

Definition GrantTypeTokenExchange : string := "urn:ietf:params:oauth:grant-type:token-exchange".
Definition TokenTypeJWT : string := "urn:ietf:params:oauth:token-type:jwt".
Definition ParamSubjectToken : string := "subject_token".
Definition ParamSubjectTokenType : string := "subject_token_type".
Definition ParamActorToken : string := "actor_token".
Definition ClaimClientID : string := "client_id".
Definition responseIssuedTokenType : string := "issued_token_type".
Definition BearerAccessToken : string := "bearer".

(** The claim with which a mapping overrides the identifier of a new user. *)
Definition ClaimSubOverride : string := "identity-api.infratographer.com/sub".

Definition invalid_request (hint : string) : error := RFC6749 ErrInvalidRequest hint.
Definition server_error (hint : string) : error := RFC6749 ErrServerError hint.

Section exchange.
Context `{Env, CEL, JWT, Platform}.

(** ** Strategies *)

(** [issuerJWKSURIProvider.GetIssuerJWKSURI]. *)
Definition GetIssuerJWKSURI (ctx : Context) (iss : string) : M string :=
  issuer ← GetIssuerByURI ctx iss; mret (i_JWKSURI issuer).

(** [ClaimMappingStrategy.MapClaims]. *)
Definition MapClaims (ctx : Context) (claims : JWTClaims) : M JWTClaims :=
  if decide (claims_Subject claims = "") then fail ErrMissingSub
  else if decide (claims_Issuer claims = "") then fail ErrMissingIss
  else
    issuer ← GetIssuerByURI ctx (claims_Issuer claims);
    let inputMap := ToMapClaims claims in
    let subSHA256 := hex_EncodeToString (Sum256 (to_bytes (claims_Subject claims))) in
    let inputEnv : gmap string cel_value :=
      {[CELVariableClaims := CelMap inputMap; CELVariableSubSHA256 := CelString subSHA256]} in
    outputMap ← lift (map_result (λ ast, Cel.Eval ast inputEnv) (default ∅ (i_ClaimMappings issuer)));
    mret (FromMapClaims outputMap).

(** [ClaimConditionStrategy.Eval]. *)
Definition Eval (ctx : Context) (claims : JWTClaims) : M bool :=
  if decide (claims_Issuer claims = "") then fail ErrMissingIss
  else
    issuer ← GetIssuerByURI ctx (claims_Issuer claims);
    match i_ClaimConditions issuer ≫= cc_ast with
    | None => mret true
    | Some ast =>
      res ← lift (Cel.Eval ast {[CELVariableClaims := CelMap (ToMapClaims claims)]});
      match res with
      | AnyBool result => mret result
      | v => fail (wrapf ErrInvalidClaimCondition
               ("unexpected type for claim condition result: " +:+ any_type v))
      end
    end.

(** ** The subject token *)

Definition validation_error (errors : validation_errors) (inner : option error) : ValidationError :=
  {| ve_Errors := errors; ve_Inner := inner |}.

(** [Resolve(ctx, jwksURI, false)] of the key set fetcher. *)
Definition Resolve (uri : string) : M (error + JSONWebKeySet) := λ w,
  (Ok (jwks_Resolve (tick w) uri), next_tick w).

Definition findMatchingKey (cfg : OAuth2Config) (ctx : Context) (token : Token)
    : M (ValidationError + JSONWebKey) :=
  let issuer := claims_Issuer (FromMapClaims (Token_Claims token)) in
  if decide (issuer = "") then mret (inl (validation_error ValidationErrorIssuer None))
  else
    match cfg_IssuerJWKSURIProvider cfg with
    | None => mret (inl (validation_error ValidationErrorUnverifiable
                       (Some (Sentinel ErrJWKSURIProviderNotDefined))))
    | Some provider =>
      r ← attempt (provider ctx issuer);
      match r with
      | inl err => mret (inl (validation_error ValidationErrorIssuer (Some err)))
      | inr jwksURI =>
        r ← Resolve jwksURI;
        match r with
        | inl err => mret (inl (validation_error ValidationErrorUnverifiable (Some err)))
        | inr jwks =>
          match Token_Header token !! "kid" with
          | Some (AnyString kid) =>
            match filter (λ key, key_Use key = "sig") (jwks_Key jwks kid) with
            | key :: _ => mret (inr key)
            | [] => mret (inl (validation_error ValidationErrorSignatureInvalid None))
            end
          | _ => mret (inl (validation_error ValidationErrorMalformed None))
          end
        end
      end
    end.

Definition validateJWT (cfg : OAuth2Config) (ctx : Context) (token : string) : M Token :=
  r ← jwt_Parse token (findMatchingKey cfg ctx);
  let '(parsed, err) := r in
  match err with
  | None => mret parsed
  | Some (ParseOtherError _) => fail (server_error "")
  | Some (ParseValidationError ve) =>
    let claims := FromMapClaims (Token_Claims parsed) in
    match ve_Errors ve with
    | ValidationErrorUnverifiable =>
      fail (server_error ("Server error: " +:+ ValidationError_text ve))
    | _ =>
      fail (RFC6749Wrap ErrInvalidRequest ("Invalid subject token: " +:+ ValidationError_text ve)
        (ErrorInvalidTokenRequest (claims_Issuer claims) (claims_Subject claims)))
    end
  end.

Definition getSubjectClaims (cfg : OAuth2Config) (ctx : Context) (token : string) : M JWTClaims :=
  validated ← validateJWT cfg ctx token;
  mret (FromMapClaims (Token_Claims validated)).

Definition getMappedSubjectClaims (cfg : OAuth2Config) (ctx : Context) (claims : JWTClaims)
    : M JWTClaims := cfg_ClaimMappingStrategy cfg ctx claims.

(** ** The handler *)

Definition populateUserInfo (us : UserInfoStrategy) (ctx : Context) (claims : JWTClaims)
    : M UserInfo :=
  on_error (us_LookupUserInfoByClaims us ctx (claims_Issuer claims) (claims_Subject claims))
    (λ err,
      if Is err ErrUserInfoNotFound then lift (us_ParseUserInfoFromClaims us (ToMapClaims claims))
      else fail err).

(** The claims of the subject token, with the mapped subject if there is one. *)
Definition mapped_subject (claims mappedClaims : JWTClaims) : JWTClaims :=
  match ToMapClaims mappedClaims !! "sub" with
  | Some (AnyString substr) => set_Subject substr claims
  | _ => claims
  end.

(** The identifier that a mapping chooses for the user. *)
Definition override_text (iss subOverride : string) : string :=
  IdentityUserIDPrefix +:+ "-" +:+
  RawURLEncoding_EncodeToString (Sum256 (to_bytes iss)) +:+ "-" +:+ subOverride.

(** [if subOverride, ok := ...; ok && subOverride != nil && subOverride.(string) != ""];
    the type assertion panics when the value is not a string. *)
Definition override_subject (mappedClaims : JWTClaims) (userInfo : UserInfo) : M UserInfo :=
  match ToMapClaims mappedClaims !! ClaimSubOverride with
  | None | Some AnyNil => mret userInfo
  | Some (AnyString subOverride) =>
    if decide (subOverride = "") then mret userInfo
    else
      customPrefixedID ← on_error (lift (gidx_Parse (override_text (u_Issuer userInfo) subOverride)))
        (λ err, fail (server_error
          ("could not parse overridden subject to prefixed id: " +:+ Error err)));
      mret (with_ID userInfo customPrefixedID)
  | Some v => panic ("interface conversion: interface {} is " +:+ any_type v +:+ ", not string")
  end.

(** [if k != "identity-api.infratographer.com/sub" { newClaims.Add(k, v) }]. *)
Definition add_claim (c : JWTClaims) (kv : string * any) : JWTClaims :=
  if decide (kv.1 ≠ ClaimSubOverride) then claims_Add kv.1 kv.2 c else c.

(** The claims of the issued token, before the client's identifier. *)
Definition issued_claims (cfg : OAuth2Config) (subject : string) (mappedClaims : JWTClaims)
    : JWTClaims :=
  foldl add_claim (set_Issuer (cfg_AccessTokenIssuer cfg) (set_Subject subject zero_claims))
    (map_to_list (ToMapClaims mappedClaims)).

(** The error when the user is not stored; the rollback's error is printed also
    when there is none. *)
Definition store_failure (err : error) (rb : error + ()) : error :=
  invalid_request ("unable to store user info: " +:+ Error err +:+ " / rollback error: " +:+
    match rb with inl rbErr => Error rbErr | inr _ => "%!s(<nil>)" end).

(** The part of the handler from the transaction on: the identifier of the
    user, stored if it is new. *)
Definition store_subject (cfg : OAuth2Config) (ctx : Context) (claims mappedClaims : JWTClaims)
    : M UserInfo :=
  let us := cfg_UserInfoStrategy cfg in
  match us_TransactionManager us with
  | None => fail (server_error "unable to find transaction manager")
  | Some tm =>
    dbCtx ← on_error (tm_BeginContext tm ctx) (λ _,
      fail (server_error "could not start transaction"));
    userInfo ← on_error (populateUserInfo us dbCtx (mapped_subject claims mappedClaims)) (λ err,
      fail (invalid_request ("unable to populate user info: " +:+ Error err)));
    userInfo ← override_subject mappedClaims userInfo;
    userInfo ← on_error (us_StoreUserInfo us dbCtx userInfo) (λ err,
      rb ← attempt (tm_RollbackContext tm dbCtx); fail (store_failure err rb));
    _ ← on_error (tm_CommitContext tm dbCtx) (λ err,
      fail (server_error ("could not commit user info: " +:+ Error err)));
    mret userInfo
  end.

Definition Now : M Z := λ w, (Ok (time_Now (tick w)), next_tick w).

(** The session of the request, filled for the issued token. *)
Definition fill_session (cfg : OAuth2Config) (claims newClaims : JWTClaims) (expiry : Z)
    : JWTSession :=
  {| js_JWTClaims := Some newClaims;
     js_JWTHeader := {["kid" := AnyString (cfg_SigningKeyID cfg)]};
     js_ExpiresAt := Some expiry;
     js_Subject := claims_Subject claims |}.

(** The part of the handler after the commit. *)
Definition complete_request (cfg : OAuth2Config) (requester : AccessRequest)
    (claims mappedClaims : JWTClaims) (userInfo : UserInfo) : M AccessRequest :=
  now ← Now;
  let maybeClientID := GetID (ar_Client requester) in
  let clientID := if decide (maybeClientID = "") then None else Some maybeClientID in
  let newClaims := claims_Add ClaimClientID (AnyStringPtr clientID)
                     (issued_claims cfg (u_ID userInfo) mappedClaims) in
  match ar_Session requester with
  | OtherSession => fail (server_error "requester session is not a jwt session")
  | NilSession | SessionOf _ =>
    userInfoAud ← on_error (lift (JoinPath (claims_Issuer newClaims) "userinfo")) (λ err,
      fail (server_error ("failed to build userinfo audience: " +:+ Error err)));
    mret (SetSession (SessionOf (fill_session cfg claims newClaims
                                   (now + cfg_AccessTokenLifespan cfg)%Z))
            (GrantAudience userInfoAud requester))
  end.

(** [TokenExchangeHandler.HandleTokenEndpointRequest]. *)
Definition HandleTokenEndpointRequest (cfg : OAuth2Config) (ctx : Context) (requester : AccessRequest)
    : M AccessRequest :=
  let form := ar_Form requester in
  let subjectToken := Values_Get form ParamSubjectToken in
  let subjectTokenType := Values_Get form ParamSubjectTokenType in
  if decide (subjectToken = "") then
    fail (invalid_request "Missing required parameter 'subject_token'.")
  else if decide (subjectTokenType = "") then
    fail (invalid_request "Missing required parameter 'subject_token_type'.")
  else if decide (Values_Get form ParamActorToken ≠ "") then
    fail (invalid_request "Delegation is not supported by this handler.")
  else if decide (subjectTokenType ≠ TokenTypeJWT) then
    fail (invalid_request ("Unsupported subject token type '" +:+ subjectTokenType +:+ "'."))
  else
    claims ← getSubjectClaims cfg ctx subjectToken;
    ok ← on_error (cfg_ClaimConditionStrategy cfg ctx claims) (λ err,
      fail (invalid_request ("error evaluating claim conditions: " +:+ Error err)));
    if negb ok then fail (invalid_request "claim conditions not satisfied")
    else
      mappedClaims ← on_error (getMappedSubjectClaims cfg ctx claims) (λ err,
        fail (invalid_request ("error mapping claims: " +:+ Error err)));
      userInfo ← store_subject cfg ctx claims mappedClaims;
      complete_request cfg requester claims mappedClaims userInfo.

Definition CanSkipClientAuth (ctx : Context) (requester : AccessRequest) : bool := true.

Definition CanHandleTokenEndpointRequest (ctx : Context) (requester : AccessRequest) : bool :=
  ExactOne (ar_GrantTypes requester) GrantTypeTokenExchange.

(** [accessTokenStrategy.GenerateAccessToken]. *)
Definition generate_token (requester : AccessRequest) : M string := λ w,
  (match GenerateAccessToken (tick w) requester with inl e => Err e | inr t => Ok t end, next_tick w).

Definition PopulateTokenEndpointResponse (cfg : OAuth2Config) (ctx : Context)
    (requester : AccessRequest) (responder : AccessResponse) : M AccessResponse :=
  if negb (CanHandleTokenEndpointRequest ctx requester) then fail (RFC6749 ErrUnknownRequest "")
  else
    token ← generate_token requester;
    mret {| resp_AccessToken := token;
            resp_TokenType := BearerAccessToken;
            resp_ExpiresIn := cfg_AccessTokenLifespan cfg;
            resp_Extra := <[responseIssuedTokenType := AnyString TokenTypeJWT]>
                            (resp_Extra responder) |}.

(** ** The wiring *)

(** The engine as the handler's user info strategy, and the configuration that
    [serve] of [cmd/serve.go] builds around it. *)
Definition engine_transactions : TransactionManager :=
  {| tm_BeginContext := BeginContext; tm_CommitContext := CommitContext;
     tm_RollbackContext := RollbackContext |}.

Definition engine_users : UserInfoStrategy :=
  {| us_LookupUserInfoByClaims := LookupUserInfoByClaims;
     us_ParseUserInfoFromClaims := ParseUserInfoFromClaims;
     us_StoreUserInfo := StoreUserInfo;
     us_TransactionManager := Some engine_transactions |}.

Definition engine_config (kid issuer : string) (lifespan : Z)
    (audience : list string → list string → option error) (effective : OAuthClient → Z → Z)
    : OAuth2Config :=
  {| cfg_IssuerJWKSURIProvider := Some GetIssuerJWKSURI;
     cfg_ClaimMappingStrategy := MapClaims;
     cfg_ClaimConditionStrategy := Eval;
     cfg_UserInfoStrategy := engine_users;
     cfg_SigningKeyID := kid;
     cfg_AccessTokenIssuer := issuer;
     cfg_AccessTokenLifespan := lifespan;
     cfg_AudienceStrategy := audience;
     cfg_EffectiveLifespan := effective |}.

(** ** Other requests

    What other requests do to the world between two statements of an exchange:
    [others n] happens just before the [n]-th call that the handler makes of its
    strategies, and may be anything, such as any sequence of calls of the
    engine. *)
Definition meanwhile (others : World → World) : M () := λ w, (Ok (), others w).

Definition interrupted_transactions (others : nat → World → World) (tm : TransactionManager)
    : TransactionManager :=
  {| tm_BeginContext ctx := meanwhile (others 3);; tm_BeginContext tm ctx;
     tm_CommitContext ctx := meanwhile (others 6);; tm_CommitContext tm ctx;
     tm_RollbackContext ctx := meanwhile (others 7);; tm_RollbackContext tm ctx |}.

Definition interrupted_users (others : nat → World → World) (us : UserInfoStrategy)
    : UserInfoStrategy :=
  {| us_LookupUserInfoByClaims ctx iss sub :=
       meanwhile (others 4);; us_LookupUserInfoByClaims us ctx iss sub;
     us_ParseUserInfoFromClaims := us_ParseUserInfoFromClaims us;
     us_StoreUserInfo ctx u := meanwhile (others 5);; us_StoreUserInfo us ctx u;
     us_TransactionManager := interrupted_transactions others <$> us_TransactionManager us |}.

Definition interrupted (others : nat → World → World) (cfg : OAuth2Config) : OAuth2Config :=
  {| cfg_IssuerJWKSURIProvider :=
       (λ provider ctx iss, meanwhile (others 0);; provider ctx iss) <$> cfg_IssuerJWKSURIProvider cfg;
     cfg_ClaimConditionStrategy ctx c := meanwhile (others 1);; cfg_ClaimConditionStrategy cfg ctx c;
     cfg_ClaimMappingStrategy ctx c := meanwhile (others 2);; cfg_ClaimMappingStrategy cfg ctx c;
     cfg_UserInfoStrategy := interrupted_users others (cfg_UserInfoStrategy cfg);
     cfg_SigningKeyID := cfg_SigningKeyID cfg;
     cfg_AccessTokenIssuer := cfg_AccessTokenIssuer cfg;
     cfg_AccessTokenLifespan := cfg_AccessTokenLifespan cfg;
     cfg_AudienceStrategy := cfg_AudienceStrategy cfg;
     cfg_EffectiveLifespan := cfg_EffectiveLifespan cfg |}.
End exchange.

(** ** Lemmas *)

Lemma override_unregistered : ClaimSubOverride ∉ registered_claims.
Proof. by apply (bool_decide_unpack _). Qed.
Lemma client_id_unregistered : ClaimClientID ∉ registered_claims.
Proof. by apply (bool_decide_unpack _). Qed.

Section claims.
Context {J : JWT} `{!JWTLaws J}.

Lemma add_claims_fields l c :
  claims_Subject (foldl add_claim c l) = claims_Subject c ∧
  claims_Issuer (foldl add_claim c l) = claims_Issuer c.
Proof.
  revert c. induction l as [|kv l IH]; intros c; [done|]. simpl.
  destruct (IH (add_claim c kv)) as [-> ->]. unfold add_claim. case_decide; [|done].
  by rewrite Subject_Add, Issuer_Add.
Qed.

Lemma add_claims_other l c k :
  k ∉ l.*1 → ToMapClaims (foldl add_claim c l) !! k = ToMapClaims c !! k.
Proof.
  revert c. induction l as [|[k' v] l IH]; intros c; [done|]. simpl.
  rewrite not_elem_of_cons. intros [Hne Hl]. rewrite IH by done. unfold add_claim. simpl.
  case_decide; [|done]. by rewrite map_Add_ne.
Qed.

Lemma add_claims_lookup l c k v :
  NoDup l.*1 → (k, v) ∈ l → k ∉ registered_claims → k ≠ ClaimSubOverride →
  ToMapClaims (foldl add_claim c l) !! k = Some v.
Proof.
  intros Hnd Hin Hk Hov. revert c Hnd. induction l as [|[k' v'] l IH]; intros c Hnd.
  { by apply elem_of_nil in Hin. }
  simpl in *. apply NoDup_cons in Hnd as [Hni Hnd].
  apply elem_of_cons in Hin as [[= <- <-]|Hin]; [|by apply IH].
  rewrite add_claims_other by done. unfold add_claim. simpl. rewrite decide_True by done.
  by apply map_Add.
Qed.

Lemma add_claims_override l c :
  ToMapClaims (foldl add_claim c l) !! ClaimSubOverride = ToMapClaims c !! ClaimSubOverride.
Proof.
  revert c. induction l as [|[k v] l IH]; intros c; [done|]. simpl. rewrite IH.
  unfold add_claim. simpl. case_decide; [|done]. by apply map_Add_ne.
Qed.

(** The claims of the issued token. *)
Lemma issued_claims_spec cfg subject mapped :
  let c := issued_claims cfg subject mapped in
  claims_Subject c = subject ∧ claims_Issuer c = cfg_AccessTokenIssuer cfg ∧
  ToMapClaims c !! ClaimSubOverride = None ∧
  (∀ k, k ∉ registered_claims → k ≠ ClaimSubOverride →
     ToMapClaims c !! k = ToMapClaims mapped !! k).
Proof.
  unfold issued_claims. cbv zeta.
  set (c0 := set_Issuer _ _). set (l := map_to_list (ToMapClaims mapped)).
  assert (∀ k, k ∉ registered_claims → ToMapClaims c0 !! k = None) as H0.
  { intros k Hk. subst c0. by rewrite map_set_Issuer, map_set_Subject, map_zero. }
  destruct (add_claims_fields l c0) as [-> ->].
  subst c0. rewrite Subject_set_Issuer, Subject_set_Subject, Issuer_set_Issuer.
  split_and!; [done..| |].
  - etrans; [apply add_claims_override|]. apply H0, override_unregistered.
  - intros k Hk Hov. destruct (ToMapClaims mapped !! k) as [v|] eqn:Hm.
    + apply add_claims_lookup; [apply NoDup_fst_map_to_list|by apply elem_of_map_to_list|done..].
    + etrans; [apply add_claims_other|by apply H0].
      intros ([k' v] & -> & Hin%elem_of_map_to_list)%list_elem_of_fmap. simpl in Hm. congruence.
Qed.
End claims.

Section runs.
Context {E : Env} {C : CEL} {J : JWT} `{!JWTLaws J} {P : Platform}.

(** The strategies keep what the storage methods keep. *)
Section frames.
Context (ctx : Context) (R : relation World) `{HR : !StoreRel ctx R}.

Lemma MapClaims_frame c : keeps R (MapClaims ctx c).
Proof using HR. unfold MapClaims. frame. Qed.
Lemma Eval_frame c : keeps R (Eval ctx c).
Proof using HR. unfold Eval. frame. Qed.
Lemma GetIssuerJWKSURI_frame iss : keeps R (GetIssuerJWKSURI ctx iss).
Proof using HR. unfold GetIssuerJWKSURI. frame. Qed.
Lemma Resolve_frame uri : keeps R (Resolve uri).
Proof using HR. intros w. apply store_tick. Qed.
Hint Resolve GetIssuerJWKSURI_frame Resolve_frame : frame.
Lemma findMatchingKey_frame kid issuer l a e tok :
  keeps R (findMatchingKey (engine_config kid issuer l a e) ctx tok).
Proof using HR. unfold findMatchingKey. simpl. frame. Qed.
Lemma validateJWT_frame kid issuer l a e raw :
  keeps R (validateJWT (engine_config kid issuer l a e) ctx raw).
Proof using Type*.
  unfold validateJWT. apply keeps_bind; [apply _| |intros [parsed [[ve|]|]]; frame].
  intros w. destruct (Parse_effects raw (findMatchingKey (engine_config kid issuer l a e) ctx) w)
    as [[tok ->]| ->]; [apply findMatchingKey_frame|reflexivity].
Qed.
End frames.

(** The issuer that a lookup outside any transaction finds. *)
Definition issuer_at (d : DB) (uri : string) (id : PrefixedID) (row : issuer_row) (iss : Issuer)
    : Prop :=
  find_issuer d uri = Some id ∧ issuers d !! id = Some row ∧ ir_uri row = uri ∧
  decode_issuer (id, row) = Ok iss.

Lemma GetIssuerByURI_Ok ctx uri w iss w' :
  ctx_tx ctx = None → GetIssuerByURI ctx uri w = (Ok iss, w') →
  ∃ id row, issuer_at (committed w) uri id row iss.
Proof.
  intros Hc ([id row] & w1 & Hx & Hdec)%bind_inv. injection Hdec as Hdec _.
  apply on_error_fail_inv in Hx; [|intros e ?; by destruct (Is e ErrNoRows)].
  apply bind_inv in Hx as (o & w2 & Hread & Hscan).
  unfold ctx_read, getContextTx in Hread. rewrite Hc in Hread. simpl in Hread.
  unfold db_read in Hread. destruct (sql_fault _); [done|]. injection Hread as <- <-.
  destruct (find_issuer (committed w) uri) as [id'|] eqn:Hf; [|done]. simpl in Hscan.
  destruct (find_issuer_Some _ _ _ Hf) as (row' & Hrow & Huri). rewrite Hrow in Hscan.
  injection Hscan as -> -> _. exists id, row. by split_and!.
Qed.

Lemma findMatchingKey_Ok kid issuer l a e ctx tok w key w' :
  ctx_tx ctx = None →
  findMatchingKey (engine_config kid issuer l a e) ctx tok w = (Ok (inr key), w') →
  ∃ id row iss n jwks k, issuer_at (committed w) (claims_Issuer (FromMapClaims (Token_Claims tok))) id row iss ∧
    jwks_Resolve n (ir_jwksuri row) = inr jwks ∧
    Token_Header tok !! "kid" = Some (AnyString k) ∧ key ∈ jwks_Key jwks k ∧ key_Use key = "sig".
Proof using.
  intros Hc. unfold findMatchingKey. case_decide; [done|]. simpl.
  intros (r & w1 & Hr & Hrest)%bind_inv. destruct r as [err|uri]; [done|].
  unfold attempt in Hr. destruct (GetIssuerJWKSURI _ _ w) as [[uri'| |] w1'] eqn:Huri; [|done..].
  injection Hr as -> ->. apply bind_inv in Huri as (iss & w2 & Hiss & Hj). injection Hj as <- _.
  destruct (GetIssuerByURI_Ok _ _ _ _ _ Hc Hiss) as (id & row & Hat).
  apply bind_inv in Hrest as (r & w3 & Hres & Hrest). injection Hres as <- _.
  destruct (jwks_Resolve (tick w1) (i_JWKSURI iss)) as [|jwks] eqn:Hjwks; [done|].
  destruct (Token_Header tok !! "kid") as [[]|] eqn:Hkid; try done.
  destruct (filter _ _) as [|key' rest] eqn:Hfilter; [done|]. injection Hrest as -> _.
  assert (i_JWKSURI iss = ir_jwksuri row) as Heq.
  { destruct Hat as (_ & _ & _ & Hdec). unfold decode_issuer in Hdec.
    apply result_bind_Ok in Hdec as (? & _ & Hdec). apply result_bind_Ok in Hdec as (? & _ & [= <-]).
    done. }
  rewrite Heq in Hjwks.
  assert (key ∈ filter (λ key, key_Use key = "sig") (jwks_Key jwks s)) as Hin by (rewrite Hfilter; left).
  apply list_elem_of_filter in Hin as [Huse Hin].
  by exists id, row, iss, (tick w1), jwks, s.
Qed.

Lemma validateJWT_Ok cfg ctx raw w tok w' :
  validateJWT cfg ctx raw w = (Ok tok, w') →
  ∃ key, findMatchingKey cfg ctx tok w = (Ok (inr key), w') ∧ verified raw tok key.
Proof using Type*.
  unfold validateJWT. intros ([parsed [err|]] & w1 & Hp & Hrest)%bind_inv.
  - by destruct err as [[[] ?]|].
  - injection Hrest as -> ->. by apply Parse_sound.
Qed.

(** A request that succeeds passed every check of the handler. *)
Lemma handler_Ok cfg ctx req w req' w' :
  HandleTokenEndpointRequest cfg ctx req w = (Ok req', w') →
  let raw := Values_Get (ar_Form req) ParamSubjectToken in
  raw ≠ "" ∧ Values_Get (ar_Form req) ParamSubjectTokenType = TokenTypeJWT ∧
  Values_Get (ar_Form req) ParamActorToken = "" ∧
  ∃ tok w1 w2 mapped w3 u w4, let claims := FromMapClaims (Token_Claims tok) in
    validateJWT cfg ctx raw w = (Ok tok, w1) ∧
    cfg_ClaimConditionStrategy cfg ctx claims w1 = (Ok true, w2) ∧
    cfg_ClaimMappingStrategy cfg ctx claims w2 = (Ok mapped, w3) ∧
    store_subject cfg ctx claims mapped w3 = (Ok u, w4) ∧
    complete_request cfg req claims mapped u w4 = (Ok req', w').
Proof using.
  unfold HandleTokenEndpointRequest. cbv zeta. case_decide as H1; [done|].
  case_decide as H2; [done|]. case_decide as H3; [done|]. case_decide as H4; [done|].
  intros (claims & w1 & Hclaims & Hrest)%bind_inv.
  apply bind_inv in Hclaims as (tok & w1' & Htok & Hc). injection Hc as <- ->.
  apply bind_inv in Hrest as (ok & w2 & Hok & Hrest). apply on_error_fail_inv in Hok; [|done].
  destruct ok; [|done]. simpl in Hrest.
  apply bind_inv in Hrest as (mapped & w3 & Hmap & Hrest). apply on_error_fail_inv in Hmap; [|done].
  apply bind_inv in Hrest as (u & w4 & Hu & Hrest).
  split_and!; [done..|].
  by exists tok, w1, w2, mapped, w3, u, w4.
Qed.

(** The steps of an exchange that succeeds, up to the stored user [u]: the
    subject token of the form is validated, its issuer's conditions hold of its
    claims, and the user is stored for them and for what they are mapped to. *)
Definition exchange_run (cfg : OAuth2Config) (ctx : Context) (form : Values) (w : World)
    (mapped : JWTClaims) (u : UserInfo) (w' : World) : Prop :=
  ∃ tok w1 w2 w3, let claims := FromMapClaims (Token_Claims tok) in
    validateJWT cfg ctx (Values_Get form ParamSubjectToken) w = (Ok tok, w1) ∧
    cfg_ClaimConditionStrategy cfg ctx claims w1 = (Ok true, w2) ∧
    cfg_ClaimMappingStrategy cfg ctx claims w2 = (Ok mapped, w3) ∧
    store_subject cfg ctx claims mapped w3 = (Ok u, w').

Lemma Eval_Ok ctx c w w' :
  ctx_tx ctx = None → Eval ctx c w = (Ok true, w') →
  ∃ id row iss, issuer_at (committed w) (claims_Issuer c) id row iss ∧
    ∀ ast, i_ClaimConditions iss ≫= cc_ast = Some ast →
      Cel.Eval ast {[CELVariableClaims := CelMap (ToMapClaims c)]} = Ok (AnyBool true).
Proof using.
  intros Hc. unfold Eval. case_decide; [done|]. intros (iss & w1 & Hiss & Hrest)%bind_inv.
  destruct (GetIssuerByURI_Ok _ _ _ _ _ Hc Hiss) as (id & row & Hat).
  exists id, row, iss. split; [done|]. intros ast Hast. rewrite Hast in Hrest.
  apply bind_inv in Hrest as (res & w2 & Hres & Hrest). injection Hres as Hres _. rewrite Hres.
  destruct res; try done. by injection Hrest as -> _.
Qed.

(** The claims of the token that an exchange issues, with the client's identifier. *)
Definition exchanged_claims (cfg : OAuth2Config) (client : OAuthClient) (mapped : JWTClaims)
    (u : UserInfo) : JWTClaims :=
  claims_Add ClaimClientID
    (AnyStringPtr (if decide (c_ID client = "") then None else Some (c_ID client)))
    (issued_claims cfg (u_ID u) mapped).

Lemma exchanged_claims_fields cfg client mapped u :
  claims_Subject (exchanged_claims cfg client mapped u) = u_ID u ∧
  claims_Issuer (exchanged_claims cfg client mapped u) = cfg_AccessTokenIssuer cfg.
Proof using Type*.
  destruct (issued_claims_spec cfg (u_ID u) mapped) as (Hs & Hi & _).
  unfold exchanged_claims. by rewrite Subject_Add, Issuer_Add.
Qed.

(** The end of the handler fills the session of the request. *)
Lemma complete_request_Ok cfg req claims mapped u w req' w' :
  complete_request cfg req claims mapped u w = (Ok req', w') →
  ∃ aud, JoinPath (cfg_AccessTokenIssuer cfg) "userinfo" = Ok aud ∧
    req' = SetSession (SessionOf (fill_session cfg claims
             (exchanged_claims cfg (ar_Client req) mapped u)
             (time_Now (tick w) + cfg_AccessTokenLifespan cfg)))
           (GrantAudience aud req).
Proof using Type*.
  intros (now & w1 & Hnow & Hrest)%bind_inv. injection Hnow as <- <-. cbv zeta in Hrest.
  change (claims_Add ClaimClientID _ (issued_claims cfg (u_ID u) mapped))
    with (exchanged_claims cfg (ar_Client req) mapped u) in Hrest.
  destruct (exchanged_claims_fields cfg (ar_Client req) mapped u) as [_ Hi].
  destruct (ar_Session req); try done; apply bind_inv in Hrest as (aud & w6 & Haud & Hret);
    apply on_error_fail_inv in Haud; try done; injection Haud as Haud _; injection Hret as <- _;
    rewrite Hi in Haud; by exists aud.
Qed.

(** A request that an exchange grants, by the steps of the exchange. *)
Lemma handler_run cfg ctx req w req' w' :
  HandleTokenEndpointRequest cfg ctx req w = (Ok req', w') →
  ∃ claims mapped u w4 aud, exchange_run cfg ctx (ar_Form req) w mapped u w4 ∧
    JoinPath (cfg_AccessTokenIssuer cfg) "userinfo" = Ok aud ∧
    req' = SetSession (SessionOf (fill_session cfg claims
             (exchanged_claims cfg (ar_Client req) mapped u)
             (time_Now (tick w4) + cfg_AccessTokenLifespan cfg)))
           (GrantAudience aud req).
Proof using Type*.
  intros (_ & _ & _ & tok & w1 & w2 & mapped & w3 & u & w4 & Hval & Hcond & Hmap & Hu &
    (aud & Haud & ->)%complete_request_Ok)%handler_Ok.
  eexists _, mapped, u, w4, aud. split_and!; [|done..]. by exists tok, w1, w2, w3.
Qed.

(** The subject token of a form is a JWT that its issuer signed: what
    [exchange_authenticated] states, of the tables [d]. *)
Definition authentic (d : DB) (form : Values) : Prop :=
  let raw := Values_Get form "subject_token" in
  Values_Get form "subject_token_type" = "urn:ietf:params:oauth:token-type:jwt" ∧
  Values_Get form "actor_token" = "" ∧
  ∃ tok key id row iss, let claims := FromMapClaims (Token_Claims tok) in
    verified raw tok key ∧
    (issuers d !! id = Some row ∧ ir_uri row = claims_Issuer claims ∧
     decode_issuer (id, row) = Ok iss) ∧
    (∃ n jwks k, jwks_Resolve n (ir_jwksuri row) = inr jwks ∧
       Token_Header tok !! "kid" = Some (AnyString k) ∧ key ∈ jwks_Key jwks k ∧ key_Use key = "sig") ∧
    (∀ ast, i_ClaimConditions iss ≫= cc_ast = Some ast →
       Cel.Eval ast {["claims" := CelMap (ToMapClaims claims)]} = Ok (AnyBool true)).

Lemma handler_authentic kid issuer l a e ctx req w req' w' :
  ctx_tx ctx = None →
  HandleTokenEndpointRequest (engine_config kid issuer l a e) ctx req w = (Ok req', w') →
  authentic (committed w) (ar_Form req).
Proof using Type*.
  intros Hc Hrun. unfold authentic. cbv zeta.
  destruct (handler_Ok _ _ _ _ _ _ Hrun) as (_ & Htype & Hactor & tok & w1 & w2 & mapped & w3 & u & w4 &
    Hval & Hcond & _).
  split_and!; [done..|].
  pose proof (validateJWT_frame ctx same_committed kid issuer l a e
    (Values_Get (ar_Form req) ParamSubjectToken) w) as Hframe. rewrite Hval in Hframe.
  destruct Hframe as [Hsame _]. simpl in Hsame.
  destruct (validateJWT_Ok _ _ _ _ _ _ Hval) as (key & Hkey & Hver).
  destruct (findMatchingKey_Ok _ _ _ _ _ _ _ _ _ _ Hc Hkey)
    as (id & row & iss & n & jwks & k & (Hf & Hrow & Huri & Hdec) & Hjwks & Hkid & Hin & Huse).
  destruct (Eval_Ok _ _ _ _ Hc Hcond) as (id' & row' & iss' & (Hf' & Hrow' & _ & Hdec') & Hast).
  rewrite Hsame in Hf', Hrow'.
  assert (id' = id) as -> by congruence. assert (row' = row) as -> by congruence.
  assert (iss' = iss) as -> by congruence.
  exists tok, key, id, row, iss. split_and!; [done..|by exists n, jwks, k|done].
Qed.

(** The handler's view of the key lookup is that of the tables that the other
    requests leave. *)
Lemma interrupted_key others kid issuer l a e ctx tok w key w' :
  findMatchingKey (interrupted others (engine_config kid issuer l a e)) ctx tok w = (Ok (inr key), w') →
  findMatchingKey (engine_config kid issuer l a e) ctx tok (others 0 w) = (Ok (inr key), w').
Proof using. unfold findMatchingKey. by case_decide. Qed.

Lemma issuer_at_unique d d' uri id row iss id' row' iss' :
  issuers d' = issuers d → issuer_at d uri id row iss → issuer_at d' uri id' row' iss' →
  id' = id ∧ row' = row ∧ iss' = iss.
Proof using.
  intros Heq (Hf & Hrow & _ & Hdec) (Hf' & Hrow' & _ & Hdec').
  unfold find_issuer in *. rewrite Heq in Hf', Hrow'.
  assert (id' = id) as -> by congruence. assert (row' = row) as -> by congruence.
  split_and!; congruence.
Qed.

(** ** Properties *)

(** C6: a token is only issued for a subject token that is a JWT, comes without
    an actor token, and is signed with a key for signatures that the JWKS of
    its issuer lists under the token's key identifier. The issuer is registered
    under the token's [iss] when the key is looked up; and the conditions of the
    issuer that is registered under [iss] when they are evaluated, if it has any,
    are true of the token's claims: the same issuer, unless its tables were
    changed in between. This holds whatever any outside call answers, and
    whatever [others], the other requests, do to the tables and to each other's
    transactions between the statements of the exchange: also when they do
    nothing, for then it is the exchange as it runs alone. *)
Theorem exchange_authenticated others kid issuer l a e ctx req w req' w' :
  ctx_tx ctx = None →
  let cfg := engine_config kid issuer l a e in
  HandleTokenEndpointRequest (interrupted others cfg) ctx req w = (Ok req', w') →
  let raw := Values_Get (ar_Form req) "subject_token" in
  Values_Get (ar_Form req) "subject_token_type" = "urn:ietf:params:oauth:token-type:jwt" ∧
  Values_Get (ar_Form req) "actor_token" = "" ∧
  (∃ tok key id row iss w1 id' row' iss', let claims := FromMapClaims (Token_Claims tok) in
    let key_tables := committed (others 0 w) in
    let condition_tables := committed (others 1 w1) in
    verified raw tok key ∧
    issuer_at key_tables (claims_Issuer claims) id row iss ∧
    (∃ n jwks k, jwks_Resolve n (ir_jwksuri row) = inr jwks ∧
       Token_Header tok !! "kid" = Some (AnyString k) ∧ key ∈ jwks_Key jwks k ∧ key_Use key = "sig") ∧
    committed w1 = key_tables ∧
    issuer_at condition_tables (claims_Issuer claims) id' row' iss' ∧
    (∀ ast, i_ClaimConditions iss' ≫= cc_ast = Some ast →
       Cel.Eval ast {["claims" := CelMap (ToMapClaims claims)]} = Ok (AnyBool true)) ∧
    (issuers condition_tables = issuers key_tables → id' = id ∧ row' = row ∧ iss' = iss)) ∧
  interrupted (λ _ w, w) cfg = cfg.
Proof using Type*.
  cbv zeta. intros Hc Hrun.
  destruct (handler_Ok _ _ _ _ _ _ Hrun) as (_ & Htype & Hactor & tok & w1 & w2 & mapped & w3 & u & w4 &
    Hval & Hcond & _).
  split_and!; [done..| |reflexivity].
  destruct (validateJWT_Ok _ _ _ _ _ _ Hval) as (key & Hkey & Hver).
  apply interrupted_key in Hkey.
  pose proof (findMatchingKey_frame ctx same_committed kid issuer l a e tok (others 0 w)) as [Hsame _].
  rewrite Hkey in Hsame. simpl in Hsame.
  destruct (findMatchingKey_Ok _ _ _ _ _ _ _ _ _ _ Hc Hkey)
    as (id & row & iss & n & jwks & k & Hat & Hjwks & Hkid & Hin & Huse).
  destruct (Eval_Ok _ _ (others 1 w1) _ Hc Hcond) as (id' & row' & iss' & Hat' & Hast).
  exists tok, key, id, row, iss, w1, id', row', iss'.
  split_and!; [done..|by exists n, jwks, k|by symmetry|done|done|].
  intros Hiss. by eapply issuer_at_unique.
Qed.

(** C13: the mapping of claims does not decide who the issued token speaks for.
    Its issuer is the configured one, which is not empty; its subject is the
    identifier of the user that the exchange stored for the subject token, unless
    that identifier is empty; its [client_id] is the client of the request, its
    key the signing key; it expires after the configured lifespan and is meant
    for the userinfo endpoint. The claim that overrides an identifier is left
    out. Any other claim is the mapped one, except those that the token library
    keeps in fields of its own ([registered_claims]: [jti], [sub], [iss], [aud],
    [iat], [nbf], [exp], [scope], [scp]): of these, only [iss] and [sub] are
    stated here. *)
Theorem issued_token_claims cfg ctx req w req' w' :
  cfg_AccessTokenIssuer cfg ≠ "" →
  HandleTokenEndpointRequest cfg ctx req w = (Ok req', w') →
  ∃ mapped u w4 s c aud, exchange_run cfg ctx (ar_Form req) w mapped u w4 ∧
    ar_Session req' = SessionOf s ∧ js_JWTClaims s = Some c ∧
    ToMapClaims c !! "iss" = Some (AnyString (cfg_AccessTokenIssuer cfg)) ∧
    (u_ID u ≠ "" → ToMapClaims c !! "sub" = Some (AnyString (u_ID u))) ∧
    ToMapClaims c !! "client_id" = Some (AnyStringPtr
      (if decide (c_ID (ar_Client req) = "") then None else Some (c_ID (ar_Client req)))) ∧
    ToMapClaims c !! "identity-api.infratographer.com/sub" = None ∧
    (∀ k, k ∉ registered_claims → k ≠ "client_id" → k ≠ "identity-api.infratographer.com/sub" →
       ToMapClaims c !! k = ToMapClaims mapped !! k) ∧
    js_JWTHeader s = {["kid" := AnyString (cfg_SigningKeyID cfg)]} ∧
    js_ExpiresAt s = Some (time_Now (tick w4) + cfg_AccessTokenLifespan cfg)%Z ∧
    JoinPath (cfg_AccessTokenIssuer cfg) "userinfo" = Ok aud ∧
    ar_GrantedAudience req' = ar_GrantedAudience req ++ [aud].
Proof using Type*.
  intros Hiss (claims & mapped & u & w4 & aud & Hu & Haud & ->)%handler_run.
  destruct (issued_claims_spec cfg (u_ID u) mapped) as (_ & _ & Ho & Hk).
  set (c := exchanged_claims cfg (ar_Client req) mapped u).
  destruct (exchanged_claims_fields cfg (ar_Client req) mapped u) as [Hcs Hci].
  fold c in Hcs, Hci.
  eexists mapped, u, w4, _, c, aud. split_and!; try done.
  - rewrite map_iss, decide_False; congruence.
  - intros Hne. rewrite map_sub, decide_False; congruence.
  - apply map_Add, client_id_unregistered.
  - subst c. unfold exchanged_claims. by rewrite map_Add_ne.
  - intros k Hr Hcl Hov. subst c. unfold exchanged_claims. by rewrite map_Add_ne by done; apply Hk.
Qed.
End runs.
