(* ===== verification/ExchangeSubject.v ===== *)
(** The user that a token exchange is about, [store_subject] of Exchange.v: what
    the part of the handler between the transaction's begin and its commit does
    to the tables, as a function of them, and what follows for the subjects of
    issued tokens. *)
From S2P Require Import Prelude GoStrings Errors Base64 Sha256 JsonBytes Pagination V1 ListQuery World.
From S2P Require Import Frame Run Cel Types Storage GroupStore UserStore IssuerStore Jwt.
From S2P Require Import Exchange.

(** ** The specification *)

Section spec.
Context `{Env, JWT}.

(** The stored user of an issuer's URI with a subject. *)
Definition lookup_user (d : DB) (iss sub : string) : option (PrefixedID * user_row) :=
  i ← find_issuer d iss; id ← find_user d i sub; r ← user_info d !! id; Some (id, r).

Definition populate_spec (d : DB) (c : JWTClaims) : result UserInfo :=
  match lookup_user d (claims_Issuer c) (claims_Subject c) with
  | Some (_, r) => Ok {| u_ID := ""; u_Name := ur_name r; u_Email := ur_email r;
                         u_Issuer := claims_Issuer c; u_Subject := claims_Subject c |}
  | None => ParseUserInfoFromClaims (ToMapClaims c)
  end.

Definition override_spec (mappedClaims : JWTClaims) (u : UserInfo) : result UserInfo :=
  match ToMapClaims mappedClaims !! ClaimSubOverride with
  | None | Some AnyNil => Ok u
  | Some (AnyString s) =>
    if decide (s = "") then Ok u
    else
      match gidx_Parse (override_text (u_Issuer u) s) with
      | Ok id => Ok (with_ID u id)
      | Err err => Err (server_error
          ("could not parse overridden subject to prefixed id: " +:+ Error err))
      | Panic s => Panic s
      end
  | Some v => Panic ("interface conversion: interface {} is " +:+ any_type v +:+ ", not string")
  end.

(** The user before it is stored. *)
Definition candidate (d : DB) (claims mappedClaims : JWTClaims) : result UserInfo :=
  match populate_spec d (mapped_subject claims mappedClaims) with
  | Ok u => override_spec mappedClaims u
  | Err e => Err (invalid_request ("unable to populate user info: " +:+ Error e))
  | Panic s => Panic s
  end.

(** The identifier that a new user of the issuer and the subject would get. *)
Definition proposed_ID (mappedClaims : JWTClaims) (iss sub : string) : result PrefixedID :=
  let generated := gidx_Parse (subject_text "idntusr" iss sub) in
  match ToMapClaims mappedClaims !! "identity-api.infratographer.com/sub" with
  | None | Some AnyNil => generated
  | Some (AnyString s) =>
    if decide (s = "") then generated
    else
      match gidx_Parse (override_text iss s) with
      | Ok id => if decide (id = "") then generated else Ok id
      | r => r
      end
  | Some v => Panic (any_type v)
  end.

(** The result, the tables and the state of the transaction: a user that is
    found or made from the claims is stored, and the tables are committed; when
    it cannot be stored the transaction is rolled back; when there is no user
    to store the transaction is left open. *)
Definition store_subject_spec (d : DB) (claims mappedClaims : JWTClaims)
    : result UserInfo * DB * tx_state :=
  match candidate d claims mappedClaims with
  | Err e => (Err e, d, TxOpen d)
  | Panic s => (Panic s, d, TxOpen d)
  | Ok u =>
    match StoreUserInfo_spec u d d with
    | (Ok u', TxOpen d') => (Ok u', d', TxDone)
    | (Err e, _) => (Err (store_failure e (inr tt)), d, TxDone)
    | (Panic s, _) => (Panic s, d, TxOpen d)
    | (Ok u', _) => (Ok u', d, TxDone)
    end
  end.
End spec.

(** ** Lemmas *)

Section runs.
Context {E : Env} `{!Reliable E} {C : CEL} {J : JWT} `{!JWTLaws J}.

(** In tables that satisfy the schema the query by claims selects the rows of
    the user that the two searches find. *)
Lemma joined_by_claims d iss sub x :
  db_wf d →
  x ∈ scan (filter (λ x, ir_uri x.2 = iss ∧ ur_sub x.1.2 = sub) (joined_users d)) →
  lookup_user d iss sub = Some x.1 ∧ ir_uri x.2 = iss ∧ ur_sub x.1.2 = sub.
Proof using.
  intros Hd. rewrite scan_perm, list_elem_of_filter. destruct x as [[id r] i]. simpl.
  intros [[<- <-] [Hr Hi]%joined_users_lookup]. split_and!; [|done..].
  unfold lookup_user. rewrite (find_issuer_wf _ _ _ Hd Hi); simpl.
  rewrite (find_user_wf _ _ _ Hd Hr); simpl. by rewrite Hr.
Qed.

Lemma joined_by_claims_some d iss sub id r :
  lookup_user d iss sub = Some (id, r) →
  user_info d !! id = Some r ∧ find_issuer d iss = Some (ur_iss_id r) ∧ ur_sub r = sub ∧
  ∃ x, x ∈ scan (filter (λ x, ir_uri x.2 = iss ∧ ur_sub x.1.2 = sub) (joined_users d)).
Proof using.
  unfold lookup_user. destruct (find_issuer d iss) as [i|] eqn:Hi; [|done]. simpl.
  destruct (find_user d i sub) as [id'|] eqn:Hu; [|done]. simpl.
  apply find_user_Some in Hu as (r' & Hr & <- & <-). rewrite Hr. simpl. intros [= <- <-].
  split_and!; [done..|]. apply find_issuer_Some in Hi as (ri & Hri & <-).
  exists (id', r', ri). rewrite scan_perm, list_elem_of_filter, joined_users_lookup. done.
Qed.

Lemma wp_LookupUserInfoByClaims ctx t d iss sub w (Φ : result UserInfo → World → Prop) :
  in_tx ctx t w d → db_wf d →
  (∀ f, Φ (match lookup_user d iss sub with
           | Some (_, r) => Ok {| u_ID := ""; u_Name := ur_name r; u_Email := ur_email r;
                                  u_Issuer := iss; u_Subject := sub |}
           | None => Err ErrUserInfoNotFound
           end) (next_tick (rerun t f w))) →
  wp (LookupUserInfoByClaims ctx iss sub) w Φ.
Proof using Type*.
  intros Hw Hd HΦ. unfold LookupUserInfoByClaims, no_rows, query_row. wp.
  destruct (scan _) as [|x l] eqn:Hscan.
  - destruct (lookup_user d iss sub) as [[id r]|] eqn:Hl; [|apply HΦ].
    destruct (joined_by_claims_some _ _ _ _ _ Hl) as (_ & _ & _ & x & Hx).
    rewrite Hscan in Hx. by apply elem_of_nil in Hx.
  - destruct (joined_by_claims d iss sub x Hd) as (Hl & Hi & Hs); [rewrite Hscan; left|].
    rewrite Hl in HΦ. destruct x as [[id r] i]. simpl in *. subst. apply HΦ.
Qed.

Lemma wp_populateUserInfo ctx t d c w (Φ : result UserInfo → World → Prop) :
  in_tx ctx t w d → db_wf d → (∀ f, Φ (populate_spec d c) (next_tick (rerun t f w))) →
  wp (populateUserInfo engine_users ctx c) w Φ.
Proof using Type*.
  intros Hw Hd HΦ. unfold populateUserInfo. apply wp_on_error.
  eapply wp_LookupUserInfoByClaims; [done..|]. intros f. unfold populate_spec in HΦ.
  destruct (lookup_user _ _ _) as [[id r]|]; [apply HΦ|]. by apply wp_lift.
Qed.

Lemma wp_override mapped u w (Φ : result UserInfo → World → Prop) :
  Φ (override_spec mapped u) w → wp (override_subject mapped u) w Φ.
Proof using.
  intros HΦ. unfold override_subject, override_spec in *.
  destruct (ToMapClaims mapped !! ClaimSubOverride) as [[|s|b|p|ty repr]|]; wp; try done.
  case_decide; wp; [done|]. by destruct (gidx_Parse _); wp.
Qed.

(** A begun transaction sees the committed tables. *)
Lemma wp_BeginContext ctx w (Φ : result Context → World → Prop) :
  (let ctx' := {| ctx_tx := Some (next_tx w); ctx_asOf := ctx_asOf ctx |} in
   let w' := next_tick (add_tx (TxOpen (committed w)) w) in
   in_tx ctx' (next_tx w) w' (committed w) → in_step (next_tx w) w' → Φ (Ok ctx') w') →
  wp (BeginContext ctx) w Φ.
Proof using Type*.
  intros HΦ. unfold wp, BeginContext, beginTxContext. rewrite no_sql_fault. apply HΦ.
  - split; [done|]. apply lookup_insert_eq.
  - apply in_step_begun.
Qed.

Lemma wp_RollbackContext ctx t s w (Φ : result () → World → Prop) :
  ctx_tx ctx = Some t → txs w !! t = Some s → s ≠ TxDone →
  Φ (Ok tt) (next_tick (set_tx t TxDone w)) → wp (RollbackContext ctx) w Φ.
Proof using Type*.
  intros Hc Ht Hs HΦ. unfold RollbackContext, rollbackContextTx. apply wp_bind.
  eapply wp_getContextTx; [done|]. unfold wp, tx_rollback. rewrite Ht, no_sql_fault. by destruct s.
Qed.
End runs.

Section subjects.
Context {E : Env} `{!Reliable E} {C : CEL} {J : JWT} `{!JWTLaws J}.
Context (kid issuer : string) (lifespan : Z) (aud : list string → list string → option error).
Context (effective : OAuthClient → Z → Z).
Abbreviation cfg := (engine_config kid issuer lifespan aud effective).

Lemma StoreUserInfo_spec_states u d c :
  match StoreUserInfo_spec u c d with
  | (Ok _, s) => ∃ d', s = TxOpen d'
  | (Err _, s) => s ≠ TxDone
  | (Panic _, s) => s = TxOpen d
  end.
Proof using.
  unfold StoreUserInfo_spec, store_user_spec. repeat case_match; simplify_eq; eauto.
Qed.

(** Nothing happened since the transaction was begun. *)
Local Ltac kept := split_and!; first [done|apply lookup_insert_eq].

Lemma store_subject_run ctx claims mapped w :
  db_wf (committed w) →
  let '(r, w') := store_subject cfg ctx claims mapped w in
  let '(rs, ds, s) := store_subject_spec (committed w) claims mapped in
  r = rs ∧ committed w' = ds ∧ txs w' !! next_tx w = Some s ∧ only_tx (next_tx w) w w'.
Proof using Type*.
  intros Hd. destruct (store_subject_spec _ _ _) as [[rs ds] s] eqn:Hspec.
  apply (wp_elim (store_subject cfg ctx claims mapped) w
    (λ r w', r = rs ∧ committed w' = ds ∧ txs w' !! next_tx w = Some s ∧ only_tx (next_tx w) w w')).
  unfold store_subject, store_subject_spec in *. simpl. apply wp_bind, wp_on_error, wp_BeginContext.
  cbv zeta. set (ctx' := Build_Context _ _). set (w1 := next_tick _). intros Hw1 Hs1.
  assert (only_tx (next_tx w) w w1) as Ho1 by (intros t' Ht'; simpl; by rewrite lookup_insert_ne).
  apply wp_bind, wp_on_error. eapply wp_in_step; [|exact Hs1|].
  { unfold populateUserInfo. simpl. frame. }
  eapply wp_populateUserInfo; [done..|]. intros f Hs2.
  set (w2 := next_tick (rerun _ f w1)) in *. assert (in_tx ctx' (next_tx w) w2 (committed w)) as Hw2 by done.
  unfold candidate in Hspec. destruct (populate_spec _ _) as [u|err|p]; cbn beta iota; [|wp; simplify_eq; kept..].
  apply wp_bind, wp_override. destruct (override_spec mapped u) as [u'|err|p]; cbn beta iota; [|simplify_eq; kept..].
  apply wp_bind, wp_on_error. eapply wp_in_step; [simpl; frame|exact Hs2|].
  eapply wp_implements; [apply StoreUserInfo_run|exact Hw2|].
  intros w3 [Hc3 _] Ho3 Ht3 Hs3. change (committed w2) with (committed w) in *.
  assert (only_tx (next_tx w) w w3) as Ho by (by etrans).
  pose proof (StoreUserInfo_spec_states u' (committed w) (committed w)) as Hstates.
  destruct (StoreUserInfo_spec u' _ _) as [[u2|err|p] s']; cbn [fst snd] in *.
  - destruct Hstates as [d' ->]. simplify_eq. apply wp_bind, wp_on_error.
    eapply wp_commit; [by split|done|]. apply wp_ret. split_and!; [done..| |].
    + apply lookup_insert_eq.
    + intros t' Ht'. simpl. rewrite lookup_insert_ne by done. by apply Ho.
  - apply wp_bind, wp_attempt. eapply wp_RollbackContext; [done..|]. apply wp_fail.
    simplify_eq. split_and!; [done..| |].
    + apply lookup_insert_eq.
    + intros t' Ht'. simpl. rewrite lookup_insert_ne by done. by apply Ho.
  - subst s'. simplify_eq. by split_and!.
Qed.

(** C12: in tables that satisfy the schema, and when nothing outside fails, the
    part of the handler that runs in its transaction does what the
    specification says: the user stored for the token's issuer and mapped
    subject is taken, or one is made from the claims, with the identifier the
    mapping overrides; it is stored and committed, or everything is rolled
    back. When the claims make no user, or the override is not an identifier,
    the handler returns with its transaction still open. *)
Theorem store_subject_refines ctx claims mapped w :
  db_wf (committed w) →
  let '(r, w') := store_subject cfg ctx claims mapped w in
  let '(rs, ds, s) := store_subject_spec (committed w) claims mapped in
  r = rs ∧ committed w' = ds ∧ txs w' !! next_tx w = Some s ∧ only_tx (next_tx w) w w'.
Proof using Type*. apply store_subject_run. Qed.

Lemma mapped_subject_issuer claims mapped :
  claims_Issuer (mapped_subject claims mapped) = claims_Issuer claims.
Proof using JWTLaws0.
  unfold mapped_subject. destruct (_ !! _) as [[]|]; try done. apply Issuer_set_Subject.
Qed.

(** The user that is stored is the one of the token. *)
Lemma candidate_Ok d claims mapped u :
  candidate d claims mapped = Ok u →
  u_Issuer u = claims_Issuer claims ∧
  u_Subject u = claims_Subject (mapped_subject claims mapped).
Proof using Type*.
  unfold candidate. set (c := mapped_subject claims mapped).
  assert (claims_Issuer c = claims_Issuer claims) as <-.
  { apply mapped_subject_issuer. }
  destruct (populate_spec d c) as [u'|err|p] eqn:Hp; [|done..]. intros Ho.
  assert (u_Issuer u = u_Issuer u' ∧ u_Subject u = u_Subject u') as [-> ->].
  { unfold override_spec in Ho. repeat case_match; simplify_eq; done. }
  unfold populate_spec in Hp. destruct (lookup_user d _ _) as [[id r]|]; [by injection Hp as <-|].
  unfold ParseUserInfoFromClaims in Hp. apply result_bind_Ok in Hp as (iss & Hiss & Hp).
  apply result_bind_Ok in Hp as (sub & Hsub & Hp). apply result_bind_Ok in Hp as (n & _ & Hp).
  apply result_bind_Ok in Hp as (em & _ & Hp). injection Hp as <-. simpl.
  unfold parseClaim in Hiss, Hsub. unfold jwtClaimIssuer, jwtClaimSubject in *.
  rewrite map_iss in Hiss. rewrite map_sub in Hsub.
  repeat case_decide; simplify_eq/=; repeat case_match; simplify_eq/=; done.
Qed.

Lemma lookup_user_Some d iss i sub id r :
  find_issuer d iss = Some i → find_user d i sub = Some id → user_info d !! id = Some r →
  lookup_user d iss sub = Some (id, r).
Proof using. intros Hi Hu Hr. unfold lookup_user. by rewrite Hi; simpl; rewrite Hu; simpl; rewrite Hr. Qed.

Lemma store_subject_spec_Ok d claims mapped u d' s :
  store_subject_spec d claims mapped = (Ok u, d', s) →
  let iss := claims_Issuer claims in
  let sub := claims_Subject (mapped_subject claims mapped) in
  iss ≠ "" ∧ sub ≠ "" ∧
  ∃ r, lookup_user d' iss sub = Some (u_ID u, r) ∧
    (lookup_user d iss sub = Some (u_ID u, r) ∧ d' = d ∨
     lookup_user d iss sub = None ∧ user_info d !! u_ID u = None ∧
     d' = with_users <[u_ID u := r]> d).
Proof using Type*.
  cbv zeta. unfold store_subject_spec. destruct (candidate d claims mapped) as [u0|err|p] eqn:Hcand; [|done..].
  destruct (candidate_Ok _ _ _ _ Hcand) as [<- <-].
  destruct (StoreUserInfo_spec u0 d d) as [r0 s0] eqn:Hspec. unfold StoreUserInfo_spec in Hspec.
  case_decide as Hni; [by simplify_eq/=|]. case_decide as Hns; [by simplify_eq/=|].
  intros Hres. split_and!; [done..|]. revert Hres.
  destruct (find_issuer d (u_Issuer u0)) as [i|] eqn:Hi; [|by simplify_eq/=].
  destruct (fresh_user_ID u0) as [newID|err|p]; [|by simplify_eq/=..].
  unfold store_user_spec in Hspec. destruct (find_user d i (u_Subject u0)) as [id|] eqn:Hu.
  - simplify_eq/=. intros [= <- <- <-]. apply find_user_Some in Hu as Hrow.
    destruct Hrow as (r & Hr & _). exists r. pose proof (lookup_user_Some _ _ _ _ _ _ Hi Hu Hr). eauto.
  - case_decide as Hid; simplify_eq/=; [done|]. intros [= <- <- <-]. simpl. eexists. split.
    + eapply lookup_user_Some; [exact Hi|by apply find_user_stored|simpl; apply lookup_insert_eq].
    + right. split_and!; [|by apply eq_None_not_Some|done].
      unfold lookup_user. rewrite Hi. simpl. by rewrite Hu.
Qed.

(** C27: the subject of an issued token is the identifier of one user. In tables
    that satisfy the schema, and when nothing outside fails, the user that
    [store_subject] returns, the part of an exchange whose result is the token's
    subject, is the one that the tables hold afterwards for the token's issuer
    and mapped subject: it was
    stored already, and no table changes, or it is new, its identifier was not
    taken, and its row is the only change. An overridden identifier therefore
    cannot stand for a user that another token stored. *)
Theorem exchange_identity ctx claims mapped w u w' :
  db_wf (committed w) →
  store_subject cfg ctx claims mapped w = (Ok u, w') →
  let iss := claims_Issuer claims in
  let sub := claims_Subject (mapped_subject claims mapped) in
  ∃ r, lookup_user (committed w') iss sub = Some (u_ID u, r) ∧
    (lookup_user (committed w) iss sub = Some (u_ID u, r) ∧ committed w' = committed w ∨
     lookup_user (committed w) iss sub = None ∧ user_info (committed w) !! u_ID u = None ∧
     committed w' = with_users <[u_ID u := r]> (committed w)).
Proof using Type*.
  intros Hd Hrun. pose proof (store_subject_run ctx claims mapped w Hd) as Hs. rewrite Hrun in Hs.
  destruct (store_subject_spec (committed w) claims mapped) as [[rs ds] s] eqn:Hspec.
  destruct Hs as (<- & -> & _). by apply store_subject_spec_Ok in Hspec as (_ & _ & ?).
Qed.

Lemma store_subject_spec_wf d claims mapped u d' s :
  db_wf d → store_subject_spec d claims mapped = (Ok u, d', s) → db_wf d'.
Proof using Type*.
  intros Hd (_ & _ & r & Hl & [[_ ->]|(Hnone & Hid & ->)])%store_subject_spec_Ok; [done|].
  destruct (joined_by_claims_some _ _ _ _ _ Hl) as (_ & Hi & Hs & _).
  change (find_issuer _ _) with (find_issuer d (claims_Issuer claims)) in Hi.
  apply (sql_store_user_wf (u_ID u) r d (u_ID u)); [done|]. unfold sql_store_user.
  destruct (find_user d _ _) as [id|] eqn:Hf.
  - exfalso. rewrite Hs in Hf. apply find_user_Some in Hf as Hrow. destruct Hrow as (r' & Hr' & _).
    by rewrite (lookup_user_Some _ _ _ _ _ _ Hi Hf Hr') in Hnone.
  - apply find_issuer_Some in Hi as (ri & Hri & _).
    by rewrite decide_False, decide_True by (rewrite ?Hid; eauto; by intros []).
Qed.

Lemma store_subject_spec_fail d claims mapped r d' s :
  store_subject_spec d claims mapped = (r, d', s) → (∀ u, r ≠ Ok u) → d' = d.
Proof using.
  unfold store_subject_spec. destruct (candidate _ _ _) as [u|e|p]; [|congruence..].
  destruct (StoreUserInfo_spec u d d) as [[u'|e|p] []]; intros Heq Hno; simplify_eq; try done;
    by destruct (Hno _ eq_refl).
Qed.

(** An exchange whose user is stored already stores it again, if the identifier
    that would be made for a new user is one. *)
Lemma store_subject_spec_stored d claims mapped id r :
  db_wf d →
  let iss := claims_Issuer claims in
  let sub := claims_Subject (mapped_subject claims mapped) in
  iss ≠ "" → sub ≠ "" → lookup_user d iss sub = Some (id, r) →
  (∃ newID, proposed_ID mapped iss sub = Ok newID) →
  ∃ u, (store_subject_spec d claims mapped).1.1 = Ok u.
Proof using Type*.
  cbv zeta. intros Hd Hni Hns Hl [newID Hp]. destruct (joined_by_claims_some _ _ _ _ _ Hl) as (Hr & Hi & Hrs & _).
  unfold store_subject_spec, candidate, populate_spec. rewrite mapped_subject_issuer, Hl.
  set (u0 := Build_UserInfo _ _ _ _ _).
  assert (∃ uid, override_spec mapped u0 = Ok (with_ID u0 uid) ∧ fresh_user_ID (with_ID u0 uid) = Ok newID)
    as (uid & -> & Hfresh).
  { unfold proposed_ID, override_spec, ClaimSubOverride in *. unfold fresh_user_ID, generateSubjectID.
    revert Hp. destruct (ToMapClaims mapped !! _) as [[|s|b|p|ty repr]|]; intros Hp; try done;
      [by exists ""| |by exists ""].
    case_decide; [by exists ""|]. subst u0. cbn [u_Issuer] in *.
    destruct (gidx_Parse (override_text _ s)) as [oid| |]; try done. exists oid. split; [done|].
    revert Hp. cbn [u_ID u_Issuer u_Subject with_ID]. by destruct (decide (oid = "")). }
  unfold StoreUserInfo_spec. rewrite Hfresh. cbn [u_Issuer u_Subject with_ID u0].
  rewrite !decide_False, Hi by done. unfold store_user_spec. cbn [u_Subject with_ID u0].
  rewrite <-Hrs, (find_user_wf _ _ _ Hd Hr). by eexists.
Qed.

(** C28: a user keeps its identifier. Say that [store_subject], the part of an
    exchange that finds or stores the user of the token, succeeded. Run again on
    the tables it left, whatever was done to other transactions, for any claims
    with the same issuer and the same mapped subject, it never changes a table,
    and if it succeeds it returns the same identifier. It does succeed when the
    identifier that it would give to a new user is well formed: the one the
    mapping overrides, if it does, or else the one made from the issuer and the
    subject. The tables satisfy the schema before, and nothing outside fails. *)
Theorem exchange_stable ctx1 claims1 mapped1 w1 u1 w1' ctx2 claims2 mapped2 w2 :
  db_wf (committed w1) →
  store_subject cfg ctx1 claims1 mapped1 w1 = (Ok u1, w1') →
  committed w2 = committed w1' →
  claims_Issuer claims2 = claims_Issuer claims1 →
  claims_Subject (mapped_subject claims2 mapped2) = claims_Subject (mapped_subject claims1 mapped1) →
  let '(r2, w2') := store_subject cfg ctx2 claims2 mapped2 w2 in
  committed w2' = committed w2 ∧
  (∀ u2, r2 = Ok u2 → u_ID u2 = u_ID u1) ∧
  ((∃ newID, proposed_ID mapped2 (claims_Issuer claims2)
     (claims_Subject (mapped_subject claims2 mapped2)) = Ok newID) → ∃ u2, r2 = Ok u2).
Proof using Type*.
  intros Hd1 Hrun1 Hc Hiss Hsub.
  pose proof (store_subject_run ctx1 claims1 mapped1 w1 Hd1) as H1. rewrite Hrun1 in H1.
  destruct (store_subject_spec (committed w1) claims1 mapped1) as [[rs ds] s] eqn:Hspec.
  destruct H1 as (<- & Hds & _). rewrite <-Hds in Hspec.
  destruct (store_subject_spec_Ok _ _ _ _ _ _ Hspec) as (Hni & Hns & r & Hl & Hcases).
  assert (db_wf (committed w2)) as Hd2.
  { rewrite Hc. by eapply store_subject_spec_wf. }
  rewrite <-Hiss in Hni. rewrite <-Hsub in Hns. rewrite <-Hc, <-Hiss, <-Hsub in Hl.
  pose proof (store_subject_run ctx2 claims2 mapped2 w2 Hd2) as H2.
  destruct (store_subject cfg ctx2 claims2 mapped2 w2) as [r2 w2'].
  pose proof (store_subject_spec_stored _ claims2 mapped2 _ _ Hd2 Hni Hns Hl) as Hok.
  destruct (store_subject_spec (committed w2) claims2 mapped2) as [[rs2 ds2] s2] eqn:Hspec2.
  destruct H2 as (-> & -> & _). cbn [fst] in Hok. split_and!; [| |exact Hok].
  - destruct rs2 as [u2|e|p]; [|by eapply store_subject_spec_fail..].
    apply store_subject_spec_Ok in Hspec2 as (_ & _ & r' & _ & [[_ ?]|[Hnone _]]); congruence.
  - intros u2 ->. apply store_subject_spec_Ok in Hspec2 as (_ & _ & r' & _ & [[? _]|[? _]]); congruence.
Qed.
End subjects.

(** ** Failed exchanges *)

(** A run that does not succeed keeps the committed tables. *)
Definition atomic {A} (m : M A) : Prop :=
  ∀ w, (∀ a, (m w).1 ≠ Ok a) → same_committed w (m w).2.

Lemma atomic_keeps {A} (m : M A) : keeps same_committed m → atomic m.
Proof. intros Hm w _. apply Hm. Qed.

Lemma atomic_bind {A B} (m : M A) (f : A → M B) :
  keeps same_committed m → (∀ a, atomic (f a)) → atomic (m ≫= f).
Proof.
  intros Hm Hf w. specialize (Hm w). unfold mbind, M_bind.
  destruct (m w) as [[a|e|s] w1]; simpl in *; [|done..].
  intros Hfail. etrans; [done|]. by apply Hf.
Qed.

(** After a step that may commit, nothing fails. *)
Lemma atomic_last {A B} (m : M A) (f : A → M B) :
  atomic m → (∀ a w, ∃ b, (f a w).1 = Ok b) → atomic (m ≫= f).
Proof.
  intros Hm Hf w. specialize (Hm w). unfold mbind, M_bind.
  destruct (m w) as [[a|e|s] w1]; simpl in *; [|by intros; apply Hm..].
  intros Hfail. destruct (Hf a w1) as [b Hb]. by destruct (Hfail b).
Qed.

Lemma atomic_on_error {A} (m : M A) f :
  atomic m → (∀ e, keeps same_committed (f e)) → atomic (on_error m f).
Proof.
  intros Hm Hf w. specialize (Hm w). unfold on_error, attempt, mbind, M_bind.
  destruct (m w) as [[a|e|s] w1]; simpl in *; [|intros _|by intros; apply Hm].
  - intros Hfail. by destruct (Hfail a).
  - etrans; [by apply Hm|apply Hf].
Qed.

Section atomic.
Context {E : Env} {C : CEL} {J : JWT} `{!JWTLaws J} {P : Platform}.
Context (kid issuer : string) (lifespan : Z) (aud : list string → list string → option error).
Context (effective : OAuthClient → Z → Z).
Context (definite : ∀ n, ambiguous_commit n = false).
Abbreviation cfg := (engine_config kid issuer lifespan aud effective).

Lemma BeginContext_committed ctx : keeps same_committed (BeginContext ctx).
Proof. intros w. unfold BeginContext, beginTxContext. by destruct (sql_fault _). Qed.

Lemma RollbackContext_committed ctx : keeps same_committed (RollbackContext ctx).
Proof. apply rollbackContextTx_committed. Qed.

Lemma CommitContext_atomic ctx : atomic (CommitContext ctx).
Proof using definite.
  intros w. unfold CommitContext, commitContextTx, lift, mbind, M_bind.
  destruct (getContextTx ctx) as [t|e|s]; [|done..]. intros Hfail. by apply tx_commit_failed.
Qed.

Lemma populateUserInfo_committed ctx c : keeps same_committed (populateUserInfo engine_users ctx c).
Proof using. unfold populateUserInfo. simpl. frame. Qed.

Lemma override_committed mapped u : keeps same_committed (override_subject mapped u).
Proof using. unfold override_subject. frame. Qed.

Lemma store_subject_atomic ctx claims mapped : atomic (store_subject cfg ctx claims mapped).
Proof using definite.
  unfold store_subject. simpl.
  apply atomic_bind; [apply keeps_on_error; [apply _|apply BeginContext_committed|frame]|intros dbCtx].
  apply atomic_bind; [apply keeps_on_error; [apply _|apply populateUserInfo_committed|frame]|intros u].
  apply atomic_bind; [apply override_committed|intros u'].
  apply atomic_bind.
  { apply keeps_on_error; [apply _|frame|]. intros e. apply keeps_bind; [apply _| |frame].
    apply keeps_attempt, RollbackContext_committed. }
  intros u2. apply atomic_last; [|by intros; eexists].
  apply atomic_on_error; [apply CommitContext_atomic|frame].
Qed.

(** C30: an exchange that fails leaves no trace in the tables, at whatever point
    it fails, with an error or a panic, and whatever fails outside: provided
    that the request has a JWT session, the audience can be built from the
    configured issuer, and a commit that is reported as failed did not take
    effect. *)
Theorem exchange_atomic ctx req w a :
  ar_Session req ≠ OtherSession → JoinPath issuer "userinfo" = Ok a →
  (∀ req', (HandleTokenEndpointRequest cfg ctx req w).1 ≠ Ok req') →
  committed (HandleTokenEndpointRequest cfg ctx req w).2 = committed w.
Proof using Type*.
  intros Hsess Haud Hfail. revert w Hfail. enough (atomic (HandleTokenEndpointRequest cfg ctx req)) as H.
  { intros w Hfail. by apply H. }
  unfold HandleTokenEndpointRequest. cbv zeta.
  case_decide; [apply atomic_keeps; frame|]. case_decide; [apply atomic_keeps; frame|].
  case_decide; [apply atomic_keeps; frame|]. case_decide; [apply atomic_keeps; frame|].
  apply atomic_bind.
  { unfold getSubjectClaims. apply keeps_bind; [apply _|apply (validateJWT_frame ctx same_committed)|frame]. }
  intros claims. apply atomic_bind.
  { apply keeps_on_error; [apply _|apply (Eval_frame ctx same_committed)|frame]. }
  intros []; simpl; [|apply atomic_keeps; frame]. apply atomic_bind.
  { apply keeps_on_error; [apply _|apply (MapClaims_frame ctx same_committed)|frame]. }
  intros mapped. apply atomic_last; [apply store_subject_atomic|].
  intros u w1. unfold complete_request. unfold mbind at 1, M_bind, Now.
  destruct (issued_claims_spec cfg (u_ID u) mapped) as (_ & Hi & _).
  rewrite Issuer_Add, Hi. simpl. unfold on_error, attempt, lift. rewrite Haud.
  destruct (ar_Session req); [by eexists..|done].
Qed.
End atomic.

(** ** At concrete inputs *)

(** A registered issuer that maps the subject and a role, and asks for verified
    accounts; and a token of it. *)
Definition idp_mappings : gmap string string := {["sub" := "eupn"; "role" := "erole"]}.
Definition idp_DB : DB :=
  with_issuers <["idntiss-6" := IssuerRow "tnntten-1" "idp" "https://idp.example"
      "https://idp.example/jwks" (Some (json_Marshal idp_mappings))
      (Some "everified")]> sample_DB.

Definition alice_claims (sub : string) : gmap string any :=
  {["iss" := AnyString "https://idp.example"; "sub" := AnyString sub; "upn" := AnyString "alice@corp";
    "role" := AnyString "admin"; "verified" := AnyBool true; "name" := AnyString "Alice"]}.
Definition tokens : gmap string plain_token :=
  {["jwt-1" := PlainToken (alice_claims "a-1") {["kid" := AnyString "k1"]} "https://idp.example/jwks#k1"]}.

Definition sample_jwt : JWT := plain_jwt tokens.
Definition sample_platform : Platform (H:=sample_jwt) := plain_platform.
Definition sample_client : OAuthClient :=
  {| c_ID := ""; c_OwnerID := ""; c_Name := ""; c_Secret := ""; c_Audience := [] |}.
Definition exchange_request : AccessRequest (H:=sample_jwt) := Build_AccessRequest sample_jwt
  {["subject_token" := ["jwt-1"]; "subject_token_type" := [TokenTypeJWT]]}
  [GrantTypeTokenExchange] sample_client NilSession [].
Definition sample_config : OAuth2Config (H:=sample_jwt) :=
  engine_config (H:=quiet_env) (H0:=claim_cel) (H2:=sample_jwt)
    "key-1" "https://iam.example" 3600000000000 (λ _ _, None) (λ _ l, l).

Definition exchanged : result AccessRequest * World :=
  HandleTokenEndpointRequest (H:=quiet_env) (H2:=sample_jwt) (H3:=sample_platform)
    sample_config ctx_none exchange_request (world_of idp_DB).

Lemma exchanged_Ok : ∃ req', exchanged = (Ok req', exchanged.2).
Proof.
  assert (is_Ok exchanged.1 = true) as [req' Hreq]%is_Ok_true by (vm_compute; reflexivity).
  exists req'. rewrite <-Hreq. apply surjective_pairing.
Qed.

(** While the exchange runs, another request renames the issuer, in a transaction
    of its own that it commits just before the conditions are evaluated. *)
Definition rename_issuer (w : World) : World :=
  let u := {| iu_Name := Some "renamed"; iu_URI := None; iu_JWKSURI := None;
              iu_ClaimMappings := None; iu_ClaimConditions := None |} in
  let ctx := {| ctx_tx := Some (next_tx w); ctx_asOf := None |} in
  (CommitContext (H:=quiet_env) ctx
    (UpdateIssuer (H:=quiet_env) (H0:=claim_cel) ctx "idntiss-6" u
      (BeginContext (H:=quiet_env) ctx_none w).2).2).2.
Definition renaming (n : nat) : World → World := if decide (n = 1) then rename_issuer else λ w, w.

Definition exchanged_meanwhile : result AccessRequest * World :=
  HandleTokenEndpointRequest (H:=quiet_env) (H2:=sample_jwt) (H3:=sample_platform)
    (interrupted (H2:=sample_jwt) renaming sample_config) ctx_none exchange_request (world_of idp_DB).

Lemma exchange_authenticated_witness :
  ∃ tok key id row iss, verified (JWT:=sample_jwt) "jwt-1" tok key ∧
    issuer_at (C:=claim_cel) idp_DB "https://idp.example" id row iss ∧ ir_name row = "idp" ∧
    ∃ row', issuers (committed exchanged_meanwhile.2) !! "idntiss-6" = Some row' ∧ ir_name row' = "renamed".
Proof.
  assert (∃ req', exchanged_meanwhile = (Ok req', exchanged_meanwhile.2)) as [req' Hok].
  { assert (is_Ok exchanged_meanwhile.1 = true) as [req' Hreq]%is_Ok_true by (vm_compute; reflexivity).
    exists req'. rewrite <-Hreq. apply surjective_pairing. }
  destruct (exchange_authenticated (E:=quiet_env) (C:=claim_cel) (J:=sample_jwt) (P:=sample_platform)
    renaming "key-1" "https://iam.example" 3600000000000 (λ _ _, None) (λ _ l, l) ctx_none exchange_request
    (world_of idp_DB) req' _ eq_refl Hok)
    as (_ & _ & (tok & key & id & row & iss & w1 & id' & row' & iss' & Hver & Hat & _) & _).
  change (committed (renaming 0 (world_of idp_DB))) with idp_DB in Hat.
  assert (claims_Issuer (JWT:=sample_jwt) (FromMapClaims (Token_Claims tok)) = "https://idp.example") as Hi.
  { destruct Hver as [Htok _]. vm_compute in Htok. injection Htok as <-. vm_compute. reflexivity. }
  rewrite Hi in Hat. exists tok, key, id, row, iss. split_and!; [exact Hver|exact Hat| |].
  - destruct Hat as (Hf & Hrow & _). vm_compute in Hf. injection Hf as <-. vm_compute in Hrow.
    by injection Hrow as <-.
  - eexists. split; vm_compute; reflexivity.
Defined.

Lemma issued_token_claims_witness :
  ∃ req' s c, exchanged.1 = Ok req' ∧ ar_Session req' = SessionOf s ∧ js_JWTClaims s = Some c ∧
    ToMapClaims c !! "iss" = Some (AnyString "https://iam.example") ∧
    ToMapClaims c !! "client_id" = Some (AnyStringPtr None).
Proof.
  destruct exchanged_Ok as [req' Hok].
  destruct (issued_token_claims (E:=quiet_env) (J:=sample_jwt) (P:=sample_platform)
    sample_config ctx_none exchange_request (world_of idp_DB) req' _ ltac:(discriminate) Hok)
    as (mapped & u & w4 & s & c & a & _ & Hs & Hc & Hiss & _ & Hcl & _).
  exists req', s, c. split; [by rewrite Hok|]. exact (conj Hs (conj Hc (conj Hiss Hcl))).
Defined.

(** A token's claims and what its issuer maps them to. *)
Definition token_claims (sub : string) : JWTClaims (JWT:=sample_jwt) :=
  FromMapClaims (alice_claims sub).
Definition token_mapped : JWTClaims (JWT:=sample_jwt) :=
  FromMapClaims {["sub" := AnyString "alice@corp"; "role" := AnyString "admin"]}.

Lemma idp_DB_wf : db_wf idp_DB.
Proof. apply insert_issuer_wf; [apply sample_DB_wf|]. vm_compute. reflexivity. Qed.

Definition stored : result UserInfo * World :=
  store_subject (H:=quiet_env) (H2:=sample_jwt) sample_config ctx_none (token_claims "a-1") token_mapped
    (world_of idp_DB).

Lemma stored_Ok : ∃ u, stored = (Ok u, stored.2) ∧ u_Subject u = "alice@corp".
Proof. eexists. split; vm_compute; reflexivity. Qed.

Definition alice_id : PrefixedID := subject_text "idntusr" "https://idp.example" "alice@corp".

Lemma store_subject_refines_witness :
  db_wf idp_DB ∧ stored.1 = (store_subject_spec (H:=quiet_env) idp_DB (token_claims "a-1") token_mapped).1.1.
Proof.
  split; [apply idp_DB_wf|].
  pose proof (store_subject_refines (E:=quiet_env) (C:=claim_cel) (J:=sample_jwt)
    "key-1" "https://iam.example" 3600000000000 (λ _ _, None) (λ _ l, l) ctx_none (token_claims "a-1") token_mapped
    (world_of idp_DB) idp_DB_wf) as H.
  change (store_subject _ _ _ _ _) with stored in H. destruct stored as [r w'].
  change (committed (world_of idp_DB)) with idp_DB in H.
  destruct (store_subject_spec idp_DB _ _) as [[rs ds] s]. exact (proj1 H).
Defined.

Lemma exchange_identity_witness :
  ∃ u r, stored.1 = Ok u ∧
    lookup_user (committed stored.2) "https://idp.example" "alice@corp" = Some (u_ID u, r).
Proof.
  destruct stored_Ok as (u & Hu & _).
  destruct (exchange_identity (E:=quiet_env) (C:=claim_cel) (J:=sample_jwt)
    "key-1" "https://iam.example" 3600000000000 (λ _ _, None) (λ _ l, l) ctx_none (token_claims "a-1") token_mapped
    (world_of idp_DB) u stored.2 idp_DB_wf Hu) as (r & Hl & _).
  exists u, r. split; [by rewrite Hu|exact Hl].
Defined.

Lemma exchange_stable_witness :
  ∃ u1 u2 w2', stored.1 = Ok u1 ∧
    store_subject (H:=quiet_env) (H2:=sample_jwt) sample_config ctx_none (token_claims "a-2") token_mapped
      stored.2 = (Ok u2, w2') ∧ u_ID u2 = u_ID u1 ∧ committed w2' = committed stored.2.
Proof.
  destruct stored_Ok as (u & Hu & _).
  pose proof (exchange_stable (E:=quiet_env) (C:=claim_cel) (J:=sample_jwt)
    "key-1" "https://iam.example" 3600000000000 (λ _ _, None) (λ _ l, l) ctx_none (token_claims "a-1") token_mapped
    (world_of idp_DB) u stored.2 ctx_none (token_claims "a-2") token_mapped stored.2
    idp_DB_wf Hu eq_refl ltac:(vm_compute; reflexivity) ltac:(vm_compute; reflexivity)) as Hs.
  change (engine_config _ _ _ _ _) with sample_config in Hs.
  destruct (store_subject sample_config _ _ _ _) as [r2 w2']. destruct Hs as (Hc & Hsame & Hok).
  destruct Hok as [u2 ->].
  { eexists. vm_compute. reflexivity. }
  exists u, u2, w2'. split_and!; [by rewrite Hu|done|by apply Hsame|exact Hc].
Defined.

(** A token that nobody signed. *)
Definition forged_request : AccessRequest (H:=sample_jwt) := Build_AccessRequest sample_jwt
  {["subject_token" := ["jwt-2"]; "subject_token_type" := [TokenTypeJWT]]}
  [GrantTypeTokenExchange] sample_client NilSession [].

Lemma forged_refused :
  is_Ok (HandleTokenEndpointRequest (H:=quiet_env) (H2:=sample_jwt) (H3:=sample_platform)
    sample_config ctx_none forged_request (world_of idp_DB)).1 = false.
Proof. vm_compute. reflexivity. Qed.

Lemma exchange_atomic_witness :
  committed (HandleTokenEndpointRequest (H:=quiet_env) (H2:=sample_jwt) (H3:=sample_platform)
    sample_config ctx_none forged_request (world_of idp_DB)).2 = idp_DB.
Proof.
  refine (exchange_atomic (E:=quiet_env) (C:=claim_cel) (J:=sample_jwt) (P:=sample_platform)
    "key-1" "https://iam.example" 3600000000000 (λ _ _, None) (λ _ l, l) (λ _, eq_refl) ctx_none forged_request
    (world_of idp_DB) "https://iam.example/userinfo" _ eq_refl _); [discriminate|].
  intros req' Hreq.
  exact (Bool.diff_true_false (eq_trans (eq_sym (f_equal is_Ok Hreq)) forged_refused)).
Defined.
