(* ===== verification/ClientCredentials.v ===== *)
(** The client credentials grant of RFC 6749,
    [internal/oauth2/flow_client_credentials.go]. *)
From S2P Require Import Prelude GoStrings Errors Query Pagination V1 World Frame Run Cel Types.
From S2P Require Import Jwt Exchange.

Definition GrantTypeClientCredentials : string := "client_credentials".

Definition public_client : error := RFC6749 ErrInvalidGrant
  "The OAuth 2.0 Client is marked as public and is not allowed to use authorization grant 'client_credentials'.".

Section client_credentials.
Context `{Env, JWT, Platform}.

(** The claims of the session: the client is its own subject. *)
Definition client_claims (clientID : PrefixedID) : JWTClaims :=
  set_Subject clientID (claims_Add "client_id" (AnyString clientID) zero_claims).

(** The type assertion of the session to [oauth2.JWTSession], which panics. *)
Definition jwt_session (s : session) : M JWTSession :=
  match s with
  | SessionOf s => mret s
  | NilSession => panic "interface conversion: interface is nil, not *oauth2.JWTSession"
  | OtherSession => panic "interface conversion: fosite.Session is not *oauth2.JWTSession"
  end.

(** [ClientCredentialsGrantHandler.HandleTokenEndpointRequest]. The session is
    the request's own, which the handler fills in place. *)
Definition HandleTokenEndpointRequest (cfg : OAuth2Config) (ctx : Context) (request : AccessRequest)
    : M AccessRequest :=
  let client := ar_Client request in
  if IsPublic client then fail public_client
  else
    let resources := default [] (ar_Form request !! "resource") in
    match cfg_AudienceStrategy cfg (GetAudience client) resources with
    | Some err => fail err
    | None =>
      let request := foldl (λ r aud, GrantAudience aud r) request resources in
      let atLifespan := cfg_EffectiveLifespan cfg client (cfg_AccessTokenLifespan cfg) in
      s ← jwt_session (ar_Session request);
      clientID ← lift (gidx_Parse (GetID client));
      now ← Now;
      mret (SetSession (SessionOf
        {| js_JWTClaims := Some (client_claims clientID);
           js_JWTHeader := {["kid" := AnyString (cfg_SigningKeyID cfg)]};
           js_ExpiresAt := Some (now + atLifespan)%Z;
           js_Subject := js_Subject s |}) request)
    end.

Definition CanSkipClientAuth (ctx : Context) (requester : AccessRequest) : bool := false.

Definition CanHandleTokenEndpointRequest (ctx : Context) (requester : AccessRequest) : bool :=
  ExactOne (ar_GrantTypes requester) GrantTypeClientCredentials.

Definition PopulateTokenEndpointResponse (cfg : OAuth2Config) (ctx : Context)
    (request : AccessRequest) (response : AccessResponse) : M AccessResponse :=
  if negb (CanHandleTokenEndpointRequest ctx request) then fail (RFC6749 ErrUnknownRequest "")
  else
    let atLifespan := cfg_EffectiveLifespan cfg (ar_Client request) (cfg_AccessTokenLifespan cfg) in
    λ w, (match IssueAccessToken (tick w) atLifespan request response with
          | inl e => Err e
          | inr r => Ok r
          end, next_tick w).
End client_credentials.

(** ** Lemmas *)

Lemma granted_all `{JWT} auds r :
  foldl (λ r aud, GrantAudience aud r) r auds =
  {| ar_Form := ar_Form r; ar_GrantTypes := ar_GrantTypes r; ar_Client := ar_Client r;
     ar_Session := ar_Session r; ar_GrantedAudience := ar_GrantedAudience r ++ auds |}.
Proof.
  revert r. induction auds as [|aud auds IH]; intros r; simpl.
  - destruct r. by rewrite app_nil_r.
  - rewrite IH. simpl. by rewrite <-app_assoc.
Qed.

(** ** Properties *)

Section properties.
Context {E : Env} {J : JWT} `{!JWTLaws J} {P : Platform}.

(** C37: the client credentials grant gives a client a token that speaks for
    itself, and nothing else. It succeeds exactly when the audience strategy
    accepts the requested resources and the client's identifier is a prefixed
    one; the token's [sub] and [client_id] are then that identifier, its
    audience the requested resources, its key the signing key, its life the
    client's own. The grant reads and writes no table. *)
Theorem client_credentials_grant cfg ctx req s w :
  ar_Session req = SessionOf s →
  let resources := default [] (ar_Form req !! "resource") in
  let '(r, w') := HandleTokenEndpointRequest cfg ctx req w in
  (committed w' = committed w ∧ txs w' = txs w ∧ trace w' = trace w) ∧
  match cfg_AudienceStrategy cfg (c_Audience (ar_Client req)) resources, gidx_Parse (c_ID (ar_Client req)) with
  | Some err, _ => r = Err err
  | None, Err err => r = Err err
  | None, Panic p => r = Panic p
  | None, Ok clientID => ∃ req' s' c,
      r = Ok req' ∧ ar_GrantedAudience req' = ar_GrantedAudience req ++ resources ∧
      ar_Session req' = SessionOf s' ∧ js_JWTClaims s' = Some c ∧
      (clientID ≠ "" → ToMapClaims c !! "sub" = Some (AnyString clientID)) ∧
      ToMapClaims c !! "client_id" = Some (AnyString clientID) ∧
      js_JWTHeader s' = {["kid" := AnyString (cfg_SigningKeyID cfg)]} ∧
      js_ExpiresAt s' = Some (time_Now (tick w) +
        cfg_EffectiveLifespan cfg (ar_Client req) (cfg_AccessTokenLifespan cfg))%Z
  end.
Proof using Type*.
  intros Hs. cbv zeta. unfold HandleTokenEndpointRequest, GetAudience, GetID. simpl.
  destruct (cfg_AudienceStrategy _ _ _) as [err|]; [done|]. rewrite granted_all. simpl. rewrite Hs.
  unfold jwt_session, lift, mbind, M_bind. simpl.
  destruct (gidx_Parse _) as [clientID|err|p]; simpl; [|done..].
  split; [done|]. eexists _, _, _. split_and!; [done..| | |done|done].
  - intros Hne. unfold client_claims. by rewrite map_sub, Subject_set_Subject, decide_False.
  - unfold client_claims. rewrite map_set_Subject by apply client_id_unregistered.
    by apply map_Add, client_id_unregistered.
Qed.
End properties.

(** ** At a concrete input *)

Definition sample_jwt : JWT := plain_jwt ∅.
Definition sample_request : AccessRequest (H:=sample_jwt) := Build_AccessRequest sample_jwt
  {["resource" := ["https://api.example"]]} [GrantTypeClientCredentials]
  {| c_ID := "idntcli-1"; c_OwnerID := "tnntten-1"; c_Name := "ci"; c_Secret := "";
     c_Audience := ["https://api.example"] |}
  (SessionOf (Build_JWTSession sample_jwt None ∅ None "")) [].
Definition sample_config : OAuth2Config (H:=sample_jwt) :=
  engine_config (H:=quiet_env) (H0:=claim_cel) (H2:=sample_jwt) "key-1" "https://iam.example" 3600000000000
    (λ have want, if decide (want ⊆ have) then None else Some (ExtError "invalid audience"))
    (λ _ l, l).

Lemma client_credentials_grant_witness :
  let '(r, w') := HandleTokenEndpointRequest (H:=quiet_env) (H1:=sample_jwt) (H2:=plain_platform)
    sample_config ctx_none sample_request (world_of empty_DB) in
  ∃ req' s' c, r = Ok req' ∧ ar_GrantedAudience req' = ["https://api.example"] ∧
    ar_Session req' = SessionOf s' ∧ js_JWTClaims s' = Some c ∧
    ToMapClaims c !! "sub" = Some (AnyString "idntcli-1").
Proof.
  pose proof (client_credentials_grant (E:=quiet_env) (J:=sample_jwt) (P:=plain_platform)
    sample_config ctx_none sample_request (Build_JWTSession sample_jwt None ∅ None "")
    (world_of empty_DB) eq_refl) as H. cbv zeta in H.
  destruct (HandleTokenEndpointRequest _ _ _ _) as [r w'].
  destruct H as (_ & req' & s' & c & H1 & H2 & H3 & H4 & H5 & _).
  exists req', s', c. exact (conj H1 (conj H2 (conj H3 (conj H4 (H5 ltac:(discriminate)))))).
Defined.
