(* ===== verification/Keys.v ===== *)
(** The signing keys of the service: how they are read
    ([internal/fositex/fosite.go]) and published ([internal/routes/jwks.go]). *)
From S2P Require Import Prelude GoStrings Errors World Frame Run.

(** ** The key libraries *)

(** go-jose's key material, the files the keys are read from, PEM and PKCS 8.
    [Public] is the public part of a key and [Valid] says that a key holds
    material; a PEM block is its type and its bytes. *)
Class KeyLibrary : Type := {
  Material : Type;
  symmetric : bytes → Material;
  public_part : Material → option Material;
  ReadFile : nat → string → error + bytes;
  pem_Decode : bytes → option (string * bytes) * bytes;
  Signer : Type;
  ParsePKCS8PrivateKey : bytes → error + Signer;
  as_rsa : Signer → option Material;
}.

(** What the code relies on: a symmetric key has no public part, and a private
    RSA key has one. *)
Class KeyLibraryLaws (K : KeyLibrary) : Prop := {
  symmetric_public b : public_part (symmetric b) = None;
  rsa_public s m : as_rsa s = Some m → is_Some (public_part m);
}.

(** [jose.JSONWebKey]; the zero key has no material. *)
Record JSONWebKey `{KeyLibrary} : Type := {
  jwk_Key : option Material;
  jwk_KeyID : string;
  jwk_Algorithm : string;
}.

(** [key.Public()] and [key.Valid()]. *)
Definition Public `{KeyLibrary} (k : JSONWebKey) : JSONWebKey :=
  match jwk_Key k ≫= public_part with
  | Some m => {| jwk_Key := Some m; jwk_KeyID := jwk_KeyID k; jwk_Algorithm := jwk_Algorithm k |}
  | None => {| jwk_Key := None; jwk_KeyID := ""; jwk_Algorithm := "" |}
  end.
Definition Valid `{KeyLibrary} (k : JSONWebKey) : bool := bool_decide (is_Some (jwk_Key k)).

(** ** Reading *)

(** [fositex.PrivateKey]. *)
Record PrivateKey : Type := {
  pk_KeyID : string;
  pk_Algorithm : string;
  pk_Path : string;
}.

Section keys.
Context `{KeyLibrary}.

Definition read_file (path : string) : M bytes := λ w,
  (match ReadFile (tick w) path with inl e => Err e | inr b => Ok b end, next_tick w).

Definition readSymmetricKey (path : string) : M bytes := read_file path.

Definition invalid_key (text : string) : error := wrapf ErrInvalidKey text.

(** [readAsymmetricKey[*rsa.PrivateKey]]. *)
Definition readAsymmetricKey (path : string) : M Material :=
  bytes ← read_file path;
  let '(block, rest) := pem_Decode bytes in
  match block with
  | None => fail (invalid_key "invalid private key")
  | Some (Type_, Bytes) =>
    if decide (Type_ ≠ "PRIVATE KEY") then fail (invalid_key "invalid private key")
    else if decide (rest ≠ []) then fail (invalid_key "extra data in private key")
    else
      match ParsePKCS8PrivateKey Bytes with
      | inl err => fail err
      | inr key =>
        match as_rsa key with
        | None => fail (invalid_key "key is not a valid signing key")
        | Some signer => mret signer
        end
      end
  end.

Definition rsa_algorithms : list string := ["RS256"; "RS384"; "RS512"].
Definition hmac_algorithms : list string := ["HS256"; "HS384"; "HS512"].

Definition readPrivateKey (key : PrivateKey) : M JSONWebKey :=
  rawKey ←
    (if decide (pk_Algorithm key ∈ rsa_algorithms) then readAsymmetricKey (pk_Path key)
     else if decide (pk_Algorithm key ∈ hmac_algorithms) then
       b ← readSymmetricKey (pk_Path key); mret (symmetric b)
     else fail (invalid_key ("unsupported private key type " +:+ pk_Algorithm key)));
  mret {| jwk_Key := Some rawKey; jwk_KeyID := pk_KeyID key; jwk_Algorithm := pk_Algorithm key |}.

(** The loop over the keys after the first. *)
Fixpoint read_keys (keys : list PrivateKey) : M (list JSONWebKey) :=
  match keys with
  | [] => mret []
  | key :: keys =>
    jwk ← readPrivateKey key;
    jwks ← read_keys keys;
    mret (jwk :: jwks)
  end.

(** [parsePrivateKeys]: the signing key and the key set. *)
Definition parsePrivateKeys (keys : list PrivateKey) : M (JSONWebKey * list JSONWebKey) :=
  match keys with
  | [] => fail (invalid_key "no private keys provided")
  | first :: rest =>
    signingKey ← readPrivateKey first;
    jwks ← read_keys rest;
    mret (signingKey, signingKey :: jwks)
  end.

(** ** Publishing *)

(** [jwksHandler.Handle]. *)
Definition Handle (jwks : list JSONWebKey) : list JSONWebKey :=
  filter (λ k, Valid k = true) (Public <$> jwks).
End keys.

(** ** Lemmas *)

Section lemmas.
Context {K : KeyLibrary}.

Lemma readPrivateKey_Ok key w jwk w' :
  readPrivateKey key w = (Ok jwk, w') →
  jwk_KeyID jwk = pk_KeyID key ∧ jwk_Algorithm jwk = pk_Algorithm key ∧
  (pk_Algorithm key ∈ rsa_algorithms ∨
   pk_Algorithm key ∈ hmac_algorithms ∧ ∃ b, jwk_Key jwk = Some (symmetric b)).
Proof.
  intros (raw & w1 & Hraw & Hret)%bind_inv. injection Hret as <- _. simpl.
  split_and!; [done..|]. case_decide; [by left|]. case_decide; [|done]. right. split; [done|].
  apply bind_inv in Hraw as (b & w2 & _ & Hb). injection Hb as <- _. by exists b.
Qed.

Lemma read_keys_Ok keys w jwks w' :
  read_keys keys w = (Ok jwks, w') →
  Forall2 (λ key jwk, ∃ w1 w2, readPrivateKey key w1 = (Ok jwk, w2)) keys jwks.
Proof.
  revert w jwks. induction keys as [|key keys IH]; intros w jwks.
  { intros [= <- _]. constructor. }
  intros (jwk & w1 & Hjwk & (rest & w2 & Hrest & Hret)%bind_inv)%bind_inv. injection Hret as <- ->.
  constructor; [by exists w, w1|by eapply IH].
Qed.

Lemma readAsymmetricKey_Ok path w m w' :
  readAsymmetricKey path w = (Ok m, w') → ∃ s, as_rsa s = Some m.
Proof.
  intros (b & w1 & _ & Hrest)%bind_inv. destruct (pem_Decode b) as [[[ty bs]|] rest]; [|done].
  do 2 (case_decide; [done|]). destruct (ParsePKCS8PrivateKey bs) as [e|s]; [done|].
  destruct (as_rsa s) as [m'|] eqn:Hs; [|done]. injection Hrest as -> _. by exists s.
Qed.

(** An RSA key that is read has a public part. *)
Lemma readPrivateKey_rsa `{!KeyLibraryLaws K} key w jwk w' :
  readPrivateKey key w = (Ok jwk, w') → pk_Algorithm key ∈ rsa_algorithms →
  ∃ m pub, jwk_Key jwk = Some m ∧ public_part m = Some pub.
Proof.
  intros (raw & w1 & Hraw & Hret)%bind_inv Halg. injection Hret as <- _. simpl.
  rewrite decide_True in Hraw by done. apply readAsymmetricKey_Ok in Hraw as [s Hs].
  destruct (rsa_public s raw Hs) as [pub Hpub]. by exists raw, pub.
Qed.

(** The first key signs, and heads the key set. *)
Lemma parsePrivateKeys_Ok keys w signing jwks w' :
  parsePrivateKeys keys w = (Ok (signing, jwks), w') →
  ∃ first rest js w1, keys = first :: rest ∧ jwks = signing :: js ∧
    readPrivateKey first w = (Ok signing, w1) ∧ read_keys rest w1 = (Ok js, w').
Proof.
  destruct keys as [|first rest]; [done|].
  intros (s & w1 & Hs & (js & w2 & Hjs & Hret)%bind_inv)%bind_inv. injection Hret as <- <- <-.
  by exists first, rest, js, w1.
Qed.

(** A key with a public part is published first when it heads the set. *)
Lemma Handle_head signing js m pub :
  jwk_Key signing = Some m → public_part m = Some pub →
  head (Handle (signing :: js)) = Some
    {| jwk_Key := Some pub; jwk_KeyID := jwk_KeyID signing; jwk_Algorithm := jwk_Algorithm signing |}.
Proof.
  intros Hm Hpub. unfold Handle. simpl. unfold Public at 1. rewrite Hm. simpl. rewrite Hpub.
  rewrite filter_cons_True by done. done.
Qed.
End lemmas.

(** ** Properties *)

Section properties.
Context {K : KeyLibrary} `{!KeyLibraryLaws K}.

(** The RSA key in the file of a configured key, as the file was at [t]. *)
Definition rsa_material (key : PrivateKey) (t : nat) (m : Material) : Prop :=
  ∃ content Bytes signer, ReadFile t (pk_Path key) = inr content ∧
    pem_Decode content = (Some ("PRIVATE KEY", Bytes), []) ∧
    ParsePKCS8PrivateKey Bytes = inr signer ∧ as_rsa signer = Some m.

(** The material of a configured key: its RSA key, or the bytes of its file. *)
Definition configured_material (key : PrivateKey) (m : Material) : Prop :=
  ∃ t, (pk_Algorithm key ∈ rsa_algorithms ∧ rsa_material key t m) ∨
    (pk_Algorithm key ∈ hmac_algorithms ∧ ∃ content, ReadFile t (pk_Path key) = inr content ∧
       m = symmetric content).

(** [k] is what is published of the configured key, whose material is [m]. *)
Definition published_as (key : PrivateKey) (m : Material) (k : JSONWebKey) : Prop :=
  jwk_KeyID k = pk_KeyID key ∧ jwk_Algorithm k = pk_Algorithm key ∧
  is_Some (jwk_Key k) ∧ jwk_Key k = public_part m.

Lemma readAsymmetricKey_material key w m w' :
  readAsymmetricKey (pk_Path key) w = (Ok m, w') → rsa_material key (tick w) m.
Proof.
  intros (content & w1 & Hread & Hrest)%bind_inv. unfold read_file in Hread.
  destruct (ReadFile _ _) as [|content'] eqn:Hfile; [done|]. injection Hread as -> <-.
  destruct (pem_Decode content) as [[[ty Bytes]|] rest] eqn:Hpem; [|done].
  case_decide as Hty; [done|]. case_decide as Hre; [done|].
  destruct (ParsePKCS8PrivateKey Bytes) as [|signer] eqn:Hparse; [done|].
  destruct (as_rsa signer) as [m'|] eqn:Hrsa; [|done]. injection Hrest as -> _.
  subst ty rest.
  exists content, Bytes, signer. by split_and!.
Qed.

Lemma readPrivateKey_material key w jwk w' :
  readPrivateKey key w = (Ok jwk, w') → ∃ m, jwk_Key jwk = Some m ∧ configured_material key m.
Proof.
  intros (raw & w1 & Hraw & Hret)%bind_inv. injection Hret as <- _. exists raw. split; [done|].
  exists (tick w). case_decide as Hrsa; [left; split; [done|by eapply readAsymmetricKey_material]|].
  case_decide as Hmac; [|done]. right. split; [done|].
  apply bind_inv in Hraw as (content & w2 & Hread & Hret). injection Hret as <- _. exists content.
  unfold readSymmetricKey, read_file in Hread. destruct (ReadFile _ _); [done|]. by injection Hread as -> _.
Qed.

(** What is published of one key: nothing of a symmetric one. *)
Lemma Handle_key key w jwk w' m :
  readPrivateKey key w = (Ok jwk, w') → jwk_Key jwk = Some m →
  (pk_Algorithm key ∈ rsa_algorithms ∧ Valid (Public jwk) = true ∧ published_as key m (Public jwk)) ∨
  ((pk_Algorithm key ∉ rsa_algorithms) ∧ Valid (Public jwk) ≠ true).
Proof using Type*.
  intros Hread Hm. destruct (readPrivateKey_Ok _ _ _ _ Hread) as (Hid & Halg & Hor).
  destruct (decide (pk_Algorithm key ∈ rsa_algorithms)) as [Hrsa|Hrsa]; [left|right].
  - destruct (readPrivateKey_rsa _ _ _ _ Hread Hrsa) as (m' & pub & Hm' & Hpub).
    assert (m' = m) as -> by congruence. unfold published_as, Public. rewrite Hm. simpl. rewrite Hpub.
    by split_and!; eauto.
  - destruct Hor as [?|(_ & b & Hb)]; [done|]. split; [done|]. unfold Public. rewrite Hb. simpl.
    by rewrite symmetric_public.
Qed.

Lemma Handle_keys keys jwks :
  Forall2 (λ key jwk, ∃ w1 w2, readPrivateKey key w1 = (Ok jwk, w2)) keys jwks →
  Forall2 (λ key k, ∃ m, configured_material key m ∧ published_as key m k)
    (filter (λ key, pk_Algorithm key ∈ rsa_algorithms) keys) (Handle jwks).
Proof using Type*.
  unfold Handle. induction 1 as [|key jwk keys jwks (w1 & w2 & Hread) _ IH]; [constructor|].
  destruct (readPrivateKey_material _ _ _ _ Hread) as (m & Hm & Hmat). cbn [fmap list_fmap].
  destruct (Handle_key _ _ _ _ _ Hread Hm) as [(Hrsa & Hv & Hpub)|[Hrsa Hv]].
  - rewrite !filter_cons_True by done. constructor; [by exists m|done].
  - by rewrite !filter_cons_False by done.
Qed.

(** C38: tokens can be checked against the published keys, and no secret is
    published. Without a configured key the service does not start. Otherwise
    the signing key is the first configured one, with the material that its
    file holds: an RSA key in PEM and PKCS 8, or the bytes of a symmetric key.
    What is published is, in their order and nothing else, the configured RSA
    keys, each under its identifier and algorithm, with the public part of the
    material of its own file. If the signing key is an RSA key, the first
    published key is it, with the public part of the very material that signs. *)
Theorem published_keys keys w :
  (keys = [] → ∃ e, (parsePrivateKeys keys w).1 = Err e) ∧
  ∀ signing jwks w', parsePrivateKeys keys w = (Ok (signing, jwks), w') →
    Forall2 (λ key k, ∃ m, configured_material key m ∧ published_as key m k)
      (filter (λ key, pk_Algorithm key ∈ ["RS256"; "RS384"; "RS512"]) keys) (Handle jwks) ∧
    ∃ first rest m, keys = first :: rest ∧
      jwk_KeyID signing = pk_KeyID first ∧ jwk_Algorithm signing = pk_Algorithm first ∧
      jwk_Key signing = Some m ∧ configured_material first m ∧
      (pk_Algorithm first ∈ ["RS256"; "RS384"; "RS512"] →
        ∃ k, head (Handle jwks) = Some k ∧ published_as first m k).
Proof using Type*.
  split; [intros ->; by eexists|]. intros signing jwks w'.
  intros (first & rest & js & w1 & -> & -> & Hs & Hjs)%parsePrivateKeys_Ok. split.
  { apply Handle_keys. constructor; [by exists w, w1|by eapply read_keys_Ok]. }
  destruct (readPrivateKey_material _ _ _ _ Hs) as (m & Hm & Hmat).
  destruct (readPrivateKey_Ok _ _ _ _ Hs) as (Hid & Halg & _).
  exists first, rest, m. split_and!; [done..|]. intros Hrsa.
  destruct (Handle_key _ _ _ _ _ Hs Hm) as [(_ & Hv & Hpub)|[? _]]; [|done].
  exists (Public signing). split; [|done]. unfold Handle. cbn [fmap list_fmap].
  by rewrite filter_cons_True.
Qed.
End properties.

(** ** At a concrete input *)

(** Material is a text; a file holds its name; an RSA key is behind the word. *)
Definition sample_keys : KeyLibrary := {|
  Material := string + bytes;
  symmetric := inr;
  public_part m := match m with inl s => Some (inl ("public " +:+ s)) | inr _ => None end;
  ReadFile _ path := inr (to_bytes path);
  pem_Decode b := (Some ("PRIVATE KEY", b), []);
  Signer := bytes;
  ParsePKCS8PrivateKey := inr;
  as_rsa b := Some (inl (of_bytes b));
|}.
#[global] Instance sample_keys_laws : KeyLibraryLaws sample_keys.
Proof. split; [done|]. intros s m [= <-]. by eexists. Qed.

Lemma published_keys_witness :
  let keys := [{| pk_KeyID := "k1"; pk_Algorithm := "RS256"; pk_Path := "a.pem" |};
               {| pk_KeyID := "k2"; pk_Algorithm := "HS256"; pk_Path := "b.key" |}] in
  ∃ signing jwks w', parsePrivateKeys (H:=sample_keys) keys (world_of empty_DB) = (Ok (signing, jwks), w') ∧
    length jwks = 2 ∧ length (Handle jwks) = 1 ∧
    ∃ k, head (Handle jwks) = Some k ∧ jwk_KeyID k = "k1" ∧ jwk_Key k = Some (inl "public a.pem").
Proof.
  cbv zeta. eexists _, _, _. split; [vm_compute; reflexivity|]. split_and!; [done..|].
  destruct (published_keys (K:=sample_keys)
    [{| pk_KeyID := "k1"; pk_Algorithm := "RS256"; pk_Path := "a.pem" |};
     {| pk_KeyID := "k2"; pk_Algorithm := "HS256"; pk_Path := "b.key" |}] (world_of empty_DB)) as [_ H].
  destruct (H _ _ _ eq_refl) as (_ & first & rest & m & [= <- <-] & _ & _ & Hm & _ & Hhead).
  destruct Hhead as (k & Hk & Hid & _ & _ & Hpub); [left|]. exists k.
  split_and!; [exact Hk|exact Hid|]. by injection Hm as <-.
Defined.
