(* ===== verification/UserInfoHandler.v ===== *)
(** The userinfo endpoints, [internal/userinfo/handler.go]: they are served
    outside any transaction, to the subject of an access token of the service
    itself. *)
From S2P Require Import Prelude GoStrings Errors Cursor Pagination V1 ListQuery World Frame.
From S2P Require Import Run Cel Types Storage GroupStore UserStore Events Http JsonText Json.

(** [types.UserInfo] as JSON: the identifier is left out, and so are a name and
    an email that are empty. *)
Definition json_UserInfo (u : UserInfo) : json := json_struct
  [omitempty "name" (if decide (u_Name u = "") then None else Some (JString (u_Name u)));
   omitempty "email" (if decide (u_Email u = "") then None else Some (JString (u_Email u)));
   field "iss" (JString (u_Issuer u)); field "sub" (JString (u_Subject u))].

Section handlers.
Context `{Env, Echo}.

Definition invalid_subject (err : error) : error := SetInternal (HTTPError 500 "invalid subject") err.

(** The handler for [/userinfo], with the body of its response; [fullSubject] is
    the actor of the request's token. Every error of the lookup is answered 400. *)
Definition handle (fullSubject : string) (ctx : Context) : M json :=
  resourceID ← on_error (lift (gidx_Parse fullSubject)) (λ err, fail (invalid_subject err));
  info ← on_error (LookupUserInfoByID ctx resourceID) (λ err, fail (HTTPErrorOf 400 err));
  mret (json_UserInfo info).

(** The query parameters of [/userinfo/groups]. The limit is capped here. *)
Definition userinfo_params (cursor limit : string) : result PageParams :=
  let Cursor := if decide (cursor ≠ "") then Some cursor else None in
  if decide (limit ≠ "") then
    match Atoi limit with
    | None => Err (HTTPError 400 ("invalid limit: " +:+ limit))
    | Some limitInt => Ok {| pp_Cursor := Cursor; pp_Limit := Some (Pagination.Limit limitInt) |}
    end
  else Ok {| pp_Cursor := Cursor; pp_Limit := None |}.

(** The handler for [/userinfo/groups], up to its response, and with it. *)
Definition user_groups (fullSubject cursor limit : string) (ctx : Context) : M v1_GroupIDCollection :=
  resourceID ← on_error (lift (gidx_Parse fullSubject)) (λ err, fail (invalid_subject err));
  pagination ← lift (userinfo_params cursor limit);
  groups ← on_error (ListGroupsBySubject ctx resourceID
      (params_Paginator v1_GroupIDCollection pagination)) (λ err, fail (HTTPErrorOf 400 err));
  let collection := {| gic_GroupIDs := ToPrefixedIDs groups; gic_Pagination := zero_Pagination |} in
  on_error (lift (SetPagination pagination collection)) (λ err, fail (HTTPErrorOf 500 err)).

Definition listUserGroups (fullSubject cursor limit : string) (ctx : Context) : M json :=
  collection ← user_groups fullSubject cursor limit ctx; mret (json_GroupIDCollection collection).

(** A request to one of them: [ctx.JSON] writes the status and the body, and
    the framework answers an error. *)
Definition serve_json {A} (handler : Context → M A) (ctx : Context) : M () := λ w,
  on_error (_ ← handler ctx; visit_response) write_error (set_responded None w).
End handlers.
