(* ===== verification/ReadBack.v ===== *)
(** What the API answers is what it then serves: the requests that create,
    change or delete a group, an issuer or a client, and the request that reads
    it afterwards; a token exchange, and userinfo for the subject of its token. *)
From S2P Require Import Prelude GoStrings Errors Utf8 Pagination V1 ListQuery World Frame Run.
From S2P Require Import Cel Types Storage GroupStore UserStore IssuerStore ClientStore.
From S2P Require Import Jwt Exchange ExchangeSubject UserInfoHandler.
From S2P Require Import Events Http GroupHandler ResourceHandler Server Consistency JsonText Json.

(** ** Definitions *)

(** The request that reads what [req] was answered [resp] about, and its answer:
    the same one for a group or an issuer; for a client, the one without the
    secret, and with the words of the audience; and not found for what was
    deleted. *)
Definition reads_back (req : request) (resp : response) : option (request * result response) :=
  match req, resp with
  | (ReqCreateGroup _ _ | ReqUpdateGroup _ _), RespGroup g =>
    Some (ReqGetGroupByID (v1g_ID g), Ok resp)
  | (ReqCreateIssuer _ _ | ReqUpdateIssuer _ _), RespIssuer i =>
    Some (ReqGetIssuerByID (v1i_ID i), Ok resp)
  | ReqCreateOAuthClient _ _, RespClient c =>
    Some (ReqGetOAuthClient (v1c_ID c),
          Ok (RespClient {| v1c_ID := v1c_ID c; v1c_Name := v1c_Name c;
                            v1c_Audience := v1c_Audience c ≫= Fields; v1c_Secret := None |}))
  | ReqDeleteGroup id, RespSuccess _ => Some (ReqGetGroupByID id, Err (group_not_found id))
  | ReqDeleteIssuer id, RespSuccess _ => Some (ReqGetIssuerByID id, Err errorNotFound)
  | ReqDeleteOAuthClient id, RespSuccess _ => Some (ReqGetOAuthClient id, Err client_404)
  | _, _ => None
  end.

(** Names of claims in UTF-8, as they are in every JSON text. *)
Definition utf8_names (req : request) : Prop :=
  match req with
  | ReqCreateIssuer _ b => ∀ k, is_Some (default ∅ (v1ci_ClaimMappings b) !! k) → ValidString k = true
  | _ => True
  end.

Section readback.
Context {E : Env} `{!Reliable E} {C : CEL} `{!CELRoundTrip C} {H : Hasher} {Ec : Echo}.
Context {Ev : EventService} {HS : EventServiceLaws Ev}.
Context (Haccess : ∀ n r a, CheckAccess_err n r a = None).
Context (Hnew : ∀ n p id, gidx_NewID n p = Ok id → id ≠ "" ∧ ∃ x, gidx_Parse id = Ok x).

(** What a request answers when it begins on the tables [d]. *)
Definition answers (d : DB) (req : request) (r : result response) : Prop :=
  ∀ ctx w, committed w = d → (handle req (begun ctx w).1 (begun ctx w).2).1 = r.

Lemma answers_wp d req r :
  (∀ ctx t w, in_tx ctx t w d → wp (handle req ctx) w (λ r' _, r' = r)) → answers d req r.
Proof using.
  intros Hwp ctx w <-. apply (Hwp (begun ctx w).1 (next_tx w) (begun ctx w).2), begun_in_tx.
Qed.

Lemma wp_granted ctx r a w (Φ : result () → World → Prop) :
  (∀ w', txs w' = txs w → committed w' = committed w → Φ (Ok tt) w') → wp (check_access ctx r a) w Φ.
Proof using Haccess. intros HΦ. eapply wp_run; [by apply granted_run|]. by apply HΦ. Qed.

Lemma wp_parse_ok id text x w (Φ : result () → World → Prop) :
  gidx_Parse id = Ok x → Φ (Ok tt) w → wp (parse_or_400 id text) w Φ.
Proof using. intros Hx HΦ. eapply wp_run; [by eapply parse_ok_run|done]. Qed.

Lemma answers_group d id x :
  gidx_Parse id = Ok x →
  answers d (ReqGetGroupByID id)
    match groups d !! id with
    | Some row => g ← ToV1Group (row_Group id row); Ok (RespGroup g)
    | None => Err (group_not_found id)
    end.
Proof using Haccess Reliable0.
  intros Hx. apply answers_wp. intros ctx t w [Hc Hw]. apply wp_bind. unfold GroupHandler.GetGroupByID.
  apply wp_bind. eapply wp_parse_ok; [done|]. apply wp_bind, wp_granted. intros w' Ht _.
  apply wp_bind, wp_on_error. eapply wp_fetchGroupByID; [split; [done|by rewrite Ht]|]. intros f.
  destruct (groups d !! id); [|done]. apply wp_lift. by destruct (ToV1Group _).
Qed.

Lemma answers_issuer d id r :
  match issuers d !! id with
  | Some row => ∃ iss i, decode_issuer (id, row) = Ok iss ∧ ToV1Issuer iss = Ok i ∧ r = Ok (RespIssuer i)
  | None => r = Err errorNotFound
  end → answers d (ReqGetIssuerByID id) r.
Proof using Haccess Reliable0.
  intros Hr. apply answers_wp. intros ctx t w Hw. apply wp_bind. unfold ResourceHandler.GetIssuerByID.
  apply wp_bind, wp_on_error. eapply wp_GetIssuerByID; [done|]. intros f.
  destruct (issuers d !! id) as [row|]; [|by subst]. destruct Hr as (iss & i & -> & Hi & ->).
  apply wp_bind, wp_granted. intros w' _ _. apply wp_lift. by rewrite Hi.
Qed.

Lemma wp_LookupOAuthClientByID ctx id w t d Φ :
  id ≠ "" → in_tx ctx t w d →
  (∀ f, Φ (match oauth_clients d !! id with
           | Some row => Ok (row_OAuthClient (id, row))
           | None => Err ErrOAuthClientNotFound
           end) (next_tick (rerun t f w))) →
  wp (LookupOAuthClientByID ctx id) w Φ.
Proof using Reliable0.
  intros Hid Hw HΦ. unfold LookupOAuthClientByID, no_rows_eq, query_row.
  rewrite decide_False by done. wp. destruct (oauth_clients d !! id); apply HΦ.
Qed.

Lemma answers_client d id :
  id ≠ "" →
  answers d (ReqGetOAuthClient id)
    match oauth_clients d !! id with
    | Some row => Ok (RespClient (ToV1OAuthClient (row_OAuthClient (id, row))))
    | None => Err client_404
    end.
Proof using Haccess Reliable0.
  intros Hid. apply answers_wp. intros ctx t w Hw. apply wp_bind. unfold ResourceHandler.GetOAuthClient.
  apply wp_bind, wp_on_error. eapply wp_LookupOAuthClientByID; [done..|]. intros f.
  destruct (oauth_clients d !! id); [|done]. apply wp_bind, wp_granted. intros w' _ _. by apply wp_ret.
Qed.

(** *** What holds when a method succeeds *)

Definition wp_ok {A} (m : M A) (w : World) (Φ : A → World → Prop) : Prop :=
  wp m w (λ r w', ∀ a, r = Ok a → Φ a w').

Lemma wp_ok_ret {A} (a : A) w (Φ : A → World → Prop) : Φ a w → wp_ok (mret a) w Φ.
Proof using. intros HΦ a' [= <-]. exact HΦ. Qed.

Lemma wp_ok_lift {A} (r : result A) w (Φ : A → World → Prop) :
  (∀ a, r = Ok a → Φ a w) → wp_ok (lift r) w Φ.
Proof using. done. Qed.

Lemma wp_ok_bind {A B} (m : M A) (f : A → M B) w (Φ : B → World → Prop) :
  wp_ok m w (λ a w', wp_ok (f a) w' Φ) → wp_ok (m ≫= f) w Φ.
Proof using.
  intros Hm. apply wp_bind. eapply wp_mono, Hm. intros [a|e|s] w' Ha; [by apply (Ha a)|done..].
Qed.

Lemma wp_ok_on_error {A} (m : M A) f w (Φ : A → World → Prop) :
  (∀ e w1 a, (f e w1).1 ≠ Ok a) → wp_ok m w Φ → wp_ok (on_error m f) w Φ.
Proof using.
  intros Hf Hm. apply wp_on_error. eapply wp_mono, Hm. intros [a|e|s] w' Ha; [done| |done].
  intros a Hr. by destruct (Hf e w' a).
Qed.

Lemma wp_ok_on_sentinel {A} (m : M A) t e w (Φ : A → World → Prop) :
  wp_ok m w Φ → wp_ok (on_sentinel m t e) w Φ.
Proof using. apply wp_ok_on_error. intros err w1 a. by case_match. Qed.

Lemma wp_ok_implements {A} ctx (m : M A) spec w t d (Φ : A → World → Prop) :
  implements ctx m spec → in_tx ctx t w d →
  (∀ a s w', spec (committed w) d = (Ok a, s) → txs w' !! t = Some s → Φ a w') →
  wp_ok m w Φ.
Proof using.
  intros Hm Hw HΦ. eapply wp_implements; [done..|]. intros w' _ _ Ht a Ha.
  eapply HΦ; [|done]. destruct (spec (committed w) d). simpl in *. congruence.
Qed.

Lemma in_tx_same ctx t w w' d : txs w' = txs w → in_tx ctx t w d → in_tx ctx t w' d.
Proof using. intros Ht [? ?]. split; [done|]. by rewrite Ht. Qed.

Lemma wp_ok_access ctx t d r a w (Φ : () → World → Prop) :
  in_tx ctx t w d → (∀ w', in_tx ctx t w' d → Φ tt w') → wp_ok (check_access ctx r a) w Φ.
Proof using Haccess.
  intros Hw HΦ. apply wp_granted. intros w' Ht _ [] _. by eapply HΦ, in_tx_same.
Qed.

Lemma wp_ok_parse id text w (Φ : () → World → Prop) :
  (∀ x, gidx_Parse id = Ok x → Φ tt w) → wp_ok (parse_or_400 id text) w Φ.
Proof using.
  intros HΦ. apply wp_ok_on_error; [done|]. apply wp_ok_bind, wp_ok_lift. intros x Hx.
  by eapply wp_ok_ret, HΦ.
Qed.

Lemma wp_ok_or_rollback ctx t d msg m w (Φ : () → World → Prop) :
  keeps same_txs m → in_tx ctx t w d → (∀ w', in_tx ctx t w' d → Φ tt w') →
  wp_ok (or_rollback ctx msg m) w Φ.
Proof using.
  intros Hm Hw HΦ. apply wp_ok_on_error.
  - intros e w1 a. unfold mbind, M_bind. by destruct (rollbackAndReturnError _ _ _ _) as [[] ?].
  - intros [] _. eapply HΦ, in_tx_same; [apply Hm|done].
Qed.

Ltac wp_fails := intros ? ? ?; repeat case_match; try discriminate.

(** *** Groups *)

Definition reads (ctx : Context) (t : nat) (get : request) (r : result response) (w : World) : Prop :=
  ∃ d, in_tx ctx t w d ∧ answers d get r.

Lemma reads_stored_group ctx t w d g v x :
  in_tx ctx t w (insert_Group g d) → gidx_Parse (g_ID g) = Ok x → ToV1Group g = Ok v →
  reads ctx t (ReqGetGroupByID (v1g_ID v)) (Ok (RespGroup v)) w.
Proof using Haccess Reliable0.
  intros Hw Hx [= <-]. exists (insert_Group g d). split; [done|].
  pose proof (answers_group (insert_Group g d) (g_ID g) x Hx) as Ha. simpl in Ha.
  rewrite lookup_insert_eq in Ha. by destruct g.
Qed.

Lemma CreateGroup_reads ctx o b w t d :
  in_tx ctx t w d →
  wp_ok (GroupHandler.CreateGroup ctx o b) w
    (λ g, reads ctx t (ReqGetGroupByID (v1g_ID g)) (Ok (RespGroup g))).
Proof using Haccess Hnew Reliable0 HS.
  intros Hw. unfold GroupHandler.CreateGroup.
  apply wp_ok_bind, wp_ok_parse. intros _ _. eapply wp_ok_bind, wp_ok_access; [exact Hw|]. intros w1 Hw1.
  apply wp_ok_bind, wp_ok_on_error; [wp_fails|]. intros id Hid.
  destruct (Hnew _ _ _ Hid) as [_ [x Hx]]. apply wp_ok_bind, wp_ok_on_error; [wp_fails|].
  eapply (wp_ok_implements ctx); [apply CreateGroup_implements|exact Hw1|].
  unfold CreateGroup_spec. intros g d' w2. repeat case_decide; try discriminate.
  intros [= <- <-] Hw2. eapply wp_ok_bind, wp_ok_or_rollback; [apply CreateGroup_keeps, _|by split; [apply Hw|]|].
  intros w3 Hw3. apply wp_ok_lift. intros v Hv. by eapply reads_stored_group.
Qed.

Lemma UpdateGroup_reads ctx id b w t d :
  in_tx ctx t w d →
  wp_ok (GroupHandler.UpdateGroup ctx id b) w
    (λ g, reads ctx t (ReqGetGroupByID (v1g_ID g)) (Ok (RespGroup g))).
Proof using Haccess Reliable0.
  intros Hw. unfold GroupHandler.UpdateGroup.
  apply wp_ok_bind, wp_ok_parse. intros x Hx. eapply wp_ok_bind, wp_ok_access; [exact Hw|]. intros w1 Hw1.
  apply wp_ok_bind, wp_ok_on_error; [wp_fails|].
  eapply (wp_ok_implements ctx); [apply UpdateGroup_run|exact Hw1|].
  unfold UpdateGroup_spec. intros g d' w2. destruct (groups d !! id) as [row|]; [|discriminate].
  case_decide; [discriminate|]. intros [= <- <-] Hw2. apply wp_ok_lift. intros v Hv.
  eapply reads_stored_group; [by split; [apply Hw|]| |done]. done.
Qed.

Lemma DeleteGroup_reads ctx id w t d :
  in_tx ctx t w d →
  wp_ok (GroupHandler.DeleteGroup ctx id) w
    (λ _, reads ctx t (ReqGetGroupByID id) (Err (group_not_found id))).
Proof using Haccess Reliable0 HS.
  intros Hw. unfold GroupHandler.DeleteGroup.
  apply wp_ok_bind, wp_ok_parse. intros x Hx. eapply wp_ok_bind, wp_ok_access; [exact Hw|]. intros w1 Hw1.
  apply wp_ok_bind, wp_ok_on_error; [wp_fails|]. eapply wp_fetchGroupByID; [exact Hw1|]. intros f g Hg.
  destruct (groups d !! id) as [row|]; [injection Hg as <-|discriminate].
  apply wp_ok_bind, wp_db_read. intros n _. case_decide; [by intros ? [=]|].
  apply wp_ok_bind, wp_ok_on_error; [wp_fails|].
  eapply (wp_ok_implements ctx); [apply DeleteGroup_implements|exact Hw1|].
  unfold DeleteGroup_spec. intros [] d' w2. repeat case_decide; try discriminate. intros [= <-] Hw2.
  eapply wp_ok_bind, wp_ok_or_rollback; [apply DeleteGroup_keeps, _|by split; [apply Hw|]|].
  intros w3 Hw3. apply wp_ok_ret. eexists. split; [done|].
  pose proof (answers_group (with_groups (delete id) d) id x Hx) as Ha. simpl in Ha.
  by rewrite lookup_delete_eq in Ha.
Qed.

(** *** Issuers *)

Lemma decode_issuer_ID id row iss : decode_issuer (id, row) = Ok iss → i_ID iss = id.
Proof using. by intros (m & _ & (c & _ & [= <-])%result_bind_Ok)%result_bind_Ok. Qed.

Lemma ToV1Issuer_ID iss v : ToV1Issuer iss = Ok v → v1i_ID v = i_ID iss.
Proof using. by intros (m & _ & (c & _ & [= <-])%result_bind_Ok)%result_bind_Ok. Qed.

(** The stored form of an issuer is shown as the issuer is. *)
Lemma ToV1Issuer_stored iss : ToV1Issuer (stored_form iss) = ToV1Issuer iss.
Proof using. by destruct iss as [? ? ? ? ? ? [[]|]]. Qed.

Lemma reads_stored_issuer ctx t w d row iss v :
  in_tx ctx t w (insert_Issuer (i_ID iss) row d) →
  decode_issuer (i_ID iss, row) = Ok iss → ToV1Issuer iss = Ok v →
  reads ctx t (ReqGetIssuerByID (v1i_ID v)) (Ok (RespIssuer v)) w.
Proof using Haccess Reliable0.
  intros Hw Hdec Hv. eexists. split; [done|]. rewrite (ToV1Issuer_ID _ _ Hv).
  apply answers_issuer. simpl. rewrite lookup_insert_eq. by exists iss, v.
Qed.

Lemma parse_mappings_ok m w (Φ : option (gmap string Ast) → World → Prop) :
  (∀ m', (∀ k, is_Some (default ∅ m' !! k) → is_Some (default ∅ m !! k)) → Φ m' w) →
  wp_ok (parse_mappings m) w Φ.
Proof using.
  intros HΦ. unfold parse_mappings. destruct m as [m|].
  2:{ apply wp_ok_ret, HΦ. intros k. simpl. rewrite lookup_empty. by intros []. }
  apply wp_ok_on_error; [wp_fails|]. apply wp_ok_lift. intros m' Hm'.
  destruct (NewClaimsMapping m) as [m2|e|s] eqn:Hm; cbn in Hm'; [injection Hm' as <-|done..].
  apply HΦ. intros k [y Hy]. simpl in *.
  destruct (map_result_Ok _ _ _ Hm k) as [(x & _ & -> & _)|[_ Hn]]; [by eexists|congruence].
Qed.

Lemma parse_conditions_ok e f w (Φ : option ClaimConditions → World → Prop) :
  (∀ c, Φ c w) → wp_ok (parse_conditions e f) w Φ.
Proof using.
  intros HΦ. unfold parse_conditions. destruct e as [e|]; [|by apply wp_ok_ret, HΦ].
  apply wp_ok_on_error; [wp_fails|]. by apply wp_ok_lift.
Qed.

Lemma CreateIssuer_reads ctx o b w t d :
  utf8_names (ReqCreateIssuer o b) → in_tx ctx t w d →
  wp_ok (ResourceHandler.CreateIssuer ctx o b) w
    (λ i, reads ctx t (ReqGetIssuerByID (v1i_ID i)) (Ok (RespIssuer i))).
Proof using All.
  intros Hutf Hw. unfold ResourceHandler.CreateIssuer.
  eapply wp_ok_bind, wp_ok_access; [exact Hw|]. intros w1 Hw1.
  apply wp_ok_bind, parse_mappings_ok. intros m Hm. apply wp_ok_bind, parse_conditions_ok. intros c.
  apply wp_ok_bind, wp_ok_on_error; [wp_fails|]. intros id Hid. set (iss := Build_Issuer _ _ _ _ _ _ _).
  apply wp_ok_bind. eapply (wp_ok_implements ctx); [apply CreateIssuer_run|exact Hw1|].
  unfold CreateIssuer_spec, insertIssuer_spec. intros i d' w2.
  destruct (encode_issuer iss) as [row|e|s] eqn:Henc; [|discriminate..].
  destruct (_ || _); [discriminate|]. intros [= <- <-] Hw2. apply wp_ok_lift. intros v Hv.
  eexists. split; [by split; [apply Hw|]|]. rewrite (ToV1Issuer_ID _ _ Hv). apply answers_issuer.
  cbn [issuers insert_Issuer with_issuers]. rewrite lookup_insert_eq. exists (stored_form iss), v.
  rewrite ToV1Issuer_stored. split_and!; [|done..]. apply (decode_encode_issuer iss); [|done].
  intros k Hk. apply Hutf, Hm, Hk.
Qed.
Lemma UpdateIssuer_reads ctx id b w t d :
  in_tx ctx t w d →
  wp_ok (ResourceHandler.UpdateIssuer ctx id b) w
    (λ i, reads ctx t (ReqGetIssuerByID (v1i_ID i)) (Ok (RespIssuer i))).
Proof using Haccess Reliable0.
  intros Hw. unfold ResourceHandler.UpdateIssuer.
  eapply wp_ok_bind, wp_ok_on_sentinel, wp_GetIssuerByID; [exact Hw|]. intros f iss _.
  eapply wp_ok_bind, wp_ok_access; [exact Hw|]. intros w1 Hw1.
  apply wp_ok_bind, parse_mappings_ok. intros m _. apply wp_ok_bind, parse_conditions_ok. intros c.
  eapply wp_ok_bind, wp_ok_on_sentinel, wp_ok_implements; [apply UpdateIssuer_run|exact Hw1|].
  unfold UpdateIssuer_spec. intros i s w2.
  destruct (issuerUpdateToColBindings _) as [bs|e|p]; [|discriminate..].
  case_decide; [discriminate|]. destruct (issuers d !! id) as [row|]; [|discriminate].
  cbv zeta. set (row' := foldl _ _ _). destruct (uri_taken _ _ _); [discriminate|].
  intros [= Hdec <-] Hw2. apply wp_ok_lift. intros v Hv.
  pose proof (decode_issuer_ID _ _ _ Hdec) as <-. eapply reads_stored_issuer; [|done..].
  by split; [apply Hw|].
Qed.

Lemma DeleteIssuer_reads ctx id w t d :
  in_tx ctx t w d →
  wp_ok (ResourceHandler.DeleteIssuer ctx id) w
    (λ _, reads ctx t (ReqGetIssuerByID id) (Err errorNotFound)).
Proof using Haccess Reliable0.
  intros Hw. unfold ResourceHandler.DeleteIssuer.
  eapply wp_ok_bind, wp_ok_on_sentinel, wp_GetIssuerByID; [exact Hw|]. intros f iss Hiss.
  eapply wp_ok_bind, wp_ok_access; [exact Hw|]. intros w1 Hw1.
  apply wp_ok_bind, wp_on_error. eapply wp_implements; [apply DeleteIssuer_implements|exact Hw1|].
  unfold DeleteIssuer_spec. intros w2 _ _. destruct (issuers d !! id) as [row|]; [|discriminate].
  rewrite decide_False by done. intros Ht [] _. apply wp_ok_ret. eexists. split; [by split; [apply Hw|]|].
  apply answers_issuer. simpl. by rewrite lookup_delete_eq.
Qed.

(** *** Clients *)

Lemma CreateOAuthClient_reads ctx o b w t d :
  in_tx ctx t w d →
  wp_ok (ResourceHandler.CreateOAuthClient ctx o b) w
    (λ c, reads ctx t (ReqGetOAuthClient (v1c_ID c))
      (Ok (RespClient {| v1c_ID := v1c_ID c; v1c_Name := v1c_Name c;
                         v1c_Audience := v1c_Audience c ≫= Fields; v1c_Secret := None |}))).
Proof using Haccess Hnew Reliable0.
  intros Hw. unfold ResourceHandler.CreateOAuthClient, ClientStore.CreateOAuthClient.
  eapply wp_ok_bind, wp_ok_access; [exact Hw|]. intros w1 Hw1. apply wp_ok_bind.
  intros secret _. apply wp_ok_bind. eapply wp_ok_bind, wp_getContextTx; [apply Hw|]. intros ? [= <-].
  apply wp_ok_bind, wp_hash_secret. intros h _. apply wp_ok_bind. intros id Hid.
  destruct (Hnew _ _ _ Hid) as [Hne _]. apply wp_ok_bind. eapply wp_tx_write; [apply Hw1|].
  unfold sql_insert_client. case_decide; [discriminate|]. intros ? [= <-]. apply wp_ok_ret, wp_ok_ret.
  eexists. split; [eapply in_tx_written; exact Hw1|].
  set (d' := with_clients _ d). pose proof (answers_client d' id Hne) as Ha.
  subst d'. simpl in Ha. rewrite lookup_insert_eq in Ha.
  unfold row_OAuthClient, ToV1OAuthClient in Ha. simpl in Ha. by rewrite Fields_Join in Ha.
Qed.

Lemma DeleteOAuthClient_reads ctx id w t d :
  in_tx ctx t w d →
  wp_ok (ResourceHandler.DeleteOAuthClient ctx id) w
    (λ _, reads ctx t (ReqGetOAuthClient id) (Err client_404)).
Proof using Haccess Reliable0.
  intros Hw. unfold ResourceHandler.DeleteOAuthClient.
  destruct (decide (id = "")) as [->|Hid]; [by apply wp_ok_bind, wp_ok_on_sentinel|].
  eapply wp_ok_bind, wp_ok_on_sentinel, wp_LookupOAuthClientByID; [done|exact Hw|]. intros f c _.
  eapply wp_ok_bind, wp_ok_access; [exact Hw|]. intros w1 Hw1. apply wp_ok_bind, wp_on_error.
  unfold ClientStore.DeleteOAuthClient. wp. intros [] _. apply wp_ok_ret.
  eexists. split; [eapply in_tx_written; exact Hw1|].
  set (d' := with_clients _ d). pose proof (answers_client d' id Hid) as Ha.
  subst d'. simpl in Ha. by rewrite lookup_delete_eq in Ha.
Qed.

(** *** Requests *)

Lemma wp_ok_respond {A} (f : A → response) m w (Φ : response → World → Prop) :
  wp_ok m w (λ a, Φ (f a)) → wp_ok (respond f m) w Φ.
Proof using. intros Hm. apply wp_ok_bind. eapply wp_mono, Hm. intros r w' Ha a Hr. by apply wp_ok_ret, Ha. Qed.

Lemma handle_reads req ctx w t d :
  utf8_names req → in_tx ctx t w d →
  wp_ok (handle req ctx) w
    (λ resp w', ∀ get ans, reads_back req resp = Some (get, ans) → reads ctx t get ans w').
Proof using All.
  intros Hutf Hw. destruct req; try (intros [] _ ? ?; discriminate); apply wp_ok_respond;
    (eapply wp_mono; [|
      first [ by eapply CreateGroup_reads | by eapply UpdateGroup_reads | by eapply DeleteGroup_reads
            | by eapply CreateIssuer_reads | by eapply UpdateIssuer_reads | by eapply DeleteIssuer_reads
            | by eapply CreateOAuthClient_reads | by eapply DeleteOAuthClient_reads ] ]);
    intros r w' Hr a Ha get ans [= <- <-]; exact (Hr a Ha).
Qed.

(** C4: what the API answers is what it then serves. When nothing outside
    fails and access is granted, a request that creates or updates a group or
    an issuer, or creates a client, and is answered, leaves tables on which
    reading that resource answers the same: the same group or issuer, field by
    field (the expressions of claims went through their stored encoding, and the
    names of the created issuer's claims are in UTF-8), and the client without its
    secret and with the words of its audience. What was deleted is afterwards not found.
    Creating, storing, committing and reading in a new transaction are all in it. *)
Theorem api_reads_back req ctx w resp w2 get ans :
  utf8_names req → encode_fault (tick w2) = None →
  handle req (begun ctx w).1 (begun ctx w).2 = (Ok resp, w2) →
  reads_back req resp = Some (get, ans) →
  responded (serve req ctx w).2 = Some 200%Z ∧
  ∀ ctx' w', committed w' = committed (serve req ctx w).2 →
    (handle get (begun ctx' w').1 (begun ctx' w').2).1 = ans.
Proof using All.
  intros Hutf Henc Hh Hget.
  pose proof (handle_reads req _ _ _ _ Hutf (begun_in_tx ctx w)) as Hreads.
  unfold wp_ok, wp in Hreads. rewrite Hh in Hreads.
  destruct (Hreads resp eq_refl get ans Hget) as (d & Hin & Ha).
  destruct (serve_Ok req ctx w resp w2 d (no_sql_fault _) Hh Hin Henc) as [Hr Hc].
  rewrite no_sql_fault in Hc. split; [done|]. intros ctx' w' Hw'. apply Ha. congruence.
Qed.
End readback.

(** ** What a token exchange stores, as userinfo serves it *)

Section userinfo.
Context {E : Env} `{!Reliable E} {C : CEL} {Ec : Echo} {J : JWT} `{!JWTLaws J}.
Context (kid issuer : string) (lifespan : Z) (aud : list string → list string → option error).
Context (effective : OAuthClient → Z → Z).
Abbreviation cfg := (engine_config kid issuer lifespan aud effective).

Lemma StoreUserInfo_spec_Ok u0 d u s :
  StoreUserInfo_spec u0 d d = (Ok u, s) →
  u = with_ID u0 (u_ID u) ∧
  (s = TxOpen d ∨ ∃ iss, s = TxOpen (with_users
     <[u_ID u := UserRow (u_Name u0) (u_Email u0) (u_Subject u0) iss]> d)).
Proof using.
  unfold StoreUserInfo_spec, store_user_spec. repeat case_match; intros [= <- <-]; simpl; eauto.
Qed.

(** The name and the email of a user that is stored already are the stored ones. *)
Lemma candidate_stored d claims mapped u id r :
  candidate d claims mapped = Ok u →
  lookup_user d (claims_Issuer claims) (claims_Subject (mapped_subject claims mapped)) = Some (id, r) →
  u_Name u = ur_name r ∧ u_Email u = ur_email r.
Proof using JWTLaws0.
  unfold candidate, populate_spec. rewrite mapped_subject_issuer. intros Ho Hl. rewrite Hl in Ho. revert Ho.
  unfold override_spec. repeat case_match; intros; by simplify_eq.
Qed.

(** The row of the user of a token says what the exchange returned. *)
Lemma store_subject_user d claims mapped u d' s :
  store_subject_spec d claims mapped = (Ok u, d', s) →
  u_Issuer u = claims_Issuer claims ∧ u_Subject u = claims_Subject (mapped_subject claims mapped) ∧
  ∃ r, lookup_user d' (u_Issuer u) (u_Subject u) = Some (u_ID u, r) ∧
       u_Name u = ur_name r ∧ u_Email u = ur_email r.
Proof using JWTLaws0 Reliable0.
  intros Hspec. destruct (store_subject_spec_Ok _ _ _ _ _ _ Hspec) as (_ & _ & r & Hl & Hcase).
  unfold store_subject_spec in Hspec.
  destruct (candidate d claims mapped) as [u0|err|p] eqn:Hcand; [|done..].
  destruct (candidate_Ok _ _ _ _ Hcand) as [Hi Hs].
  destruct (StoreUserInfo_spec u0 d d) as [[u1|err|p] s1] eqn:Hstore; [|by simplify_eq..].
  destruct (StoreUserInfo_spec_Ok _ _ _ _ Hstore) as [Hu Hs1].
  assert (u1 = u ∧ s1 = TxOpen d') as [-> ->].
  { destruct Hs1 as [->|[iss ->]]; by simplify_eq. }
  rewrite Hu. cbn [u_Issuer u_Subject u_Name u_Email u_ID with_ID]. rewrite Hi, Hs.
  split_and!; [done..|]. exists r. split; [exact Hl|].
  destruct Hcase as [[Hold ->]|(_ & Hnone & ->)]; [by eapply candidate_stored|].
  pose (row st := match st with TxOpen d => user_info d !! u_ID u | _ => None end).
  destruct Hs1 as [Heq|[iss Heq]]; apply (f_equal row) in Heq; simpl in Heq;
    rewrite !lookup_insert_eq in Heq; [congruence|by injection Heq as ->].
Qed.

Lemma head_joined d id r i :
  user_info d !! id = Some r → issuers d !! ur_iss_id r = Some i →
  head (scan (filter (λ x, x.1.1 = id) (joined_users d))) = Some (id, r, i).
Proof using.
  intros Hr Hi. assert ((id, r, i) ∈ scan (filter (λ x, x.1.1 = id) (joined_users d))) as Hin.
  { by rewrite scan_perm, list_elem_of_filter, joined_users_lookup. }
  destruct (scan _) as [|[[id' r'] i'] l] eqn:Hscan; [by apply elem_of_nil in Hin|].
  assert ((id', r', i') ∈ filter (λ x, x.1.1 = id) (joined_users d)) as Hx
    by (rewrite <-scan_perm, Hscan; left).
  apply list_elem_of_filter in Hx as [Hid [Hr' Hi']%joined_users_lookup]. simpl in *. congruence.
Qed.

(** C29: what [/userinfo] sends to the subject of an exchanged token, when nothing
    outside fails, the schema holds and the identifier is one that gidx parses to
    itself: the issuer of the subject token, its subject (as it was mapped), and
    the name and the email of the user that the exchange returned, each left out
    when it is empty, and nothing else; the identifier is not sent. This holds on
    whatever later tables in which the users and the issuers are unchanged, and
    from outside any transaction, as the endpoint runs. *)
Theorem userinfo_after_exchange ctx claims mapped w u w1 ctx2 w2 :
  db_wf (committed w) →
  store_subject cfg ctx claims mapped w = (Ok u, w1) →
  gidx_Parse (u_ID u) = Ok (u_ID u) →
  ctx_tx ctx2 = None → user_info (committed w2) = user_info (committed w1) →
  issuers (committed w2) = issuers (committed w1) →
  (UserInfoHandler.handle (u_ID u) ctx2 w2).1 = Ok (JObject
    ((if decide (u_Name u = "") then [] else [("name", JString (u_Name u))]) ++
     (if decide (u_Email u = "") then [] else [("email", JString (u_Email u))]) ++
     [("iss", JString (claims_Issuer claims));
      ("sub", JString (claims_Subject (mapped_subject claims mapped)))])).
Proof using Type*.
  intros Hd Hrun Hparse Hc Husers Hissuers.
  pose proof (store_subject_run kid issuer lifespan aud effective ctx claims mapped w Hd) as Hs. rewrite Hrun in Hs.
  destruct (store_subject_spec (committed w) claims mapped) as [[rs ds] s] eqn:Hspec.
  destruct Hs as (<- & Hds & _). rewrite <-Hds in Hspec.
  apply store_subject_user in Hspec as (Hi & Hsub & r & Hl & Hn & He). rewrite <-Hi, <-Hsub.
  destruct (joined_by_claims_some _ _ _ _ _ Hl) as (Hr & Hfind & Hsubr & _).
  apply find_issuer_Some in Hfind as (ri & Hri & Huri).
  match goal with |- _ = ?r => change (wp (UserInfoHandler.handle (u_ID u) ctx2) w2 (λ r' _, r' = r)) end.
  unfold UserInfoHandler.handle, LookupUserInfoByID, no_rows, query_row. rewrite Hparse. wp.
  apply wp_ctx_read_db; [done|]. rewrite (head_joined _ _ r ri) by congruence. cbn.
  rewrite Huri, Hsubr, <-Hn, <-He. unfold json_UserInfo, wp. simpl. by repeat case_decide.
Qed.
End userinfo.

(** ** At a concrete input *)

Definition new_issuer : request :=
  ReqCreateIssuer "tnntten-1"
    {| v1ci_ClaimConditions := Some "true"; v1ci_ClaimMappings := Some {["email" := "claims.email"]};
       v1ci_JWKSURI := "https://new.example/keys"; v1ci_Name := "new"; v1ci_URI := "https://new.example" |}.

Definition new_issuer_stored : v1_Issuer :=
  {| v1i_ID := "idntiss-2"; v1i_Name := "new"; v1i_URI := "https://new.example";
     v1i_JWKSURI := "https://new.example/keys";
     v1i_ClaimMappings := {["email" := "claims.email"]}; v1i_ClaimConditions := "true" |}.

Lemma quiet_NewID n p id :
  gidx_NewID (Env:=quiet_env) n p = Ok id → id ≠ "" ∧ ∃ x, gidx_Parse (Env:=quiet_env) id = Ok x.
Proof.
  intros [= <-]. assert (p +:+ "-" +:+ pretty n ≠ "") as Hne.
  { apply app_nonempty. by right. }
  split; [done|]. eexists. cbn. by rewrite decide_False.
Qed.

Lemma new_issuer_utf8 : utf8_names new_issuer.
Proof.
  intros k [x Hx]. cbv [id default new_issuer v1ci_ClaimMappings] in Hx.
  apply lookup_singleton_Some in Hx as [<- _]. reflexivity.
Qed.

Section sample.
#[local] Existing Instance quiet_env.
#[local] Existing Instance claim_cel.
#[local] Existing Instance plain_hasher.
#[local] Existing Instance quiet_echo.
#[local] Existing Instance quiet_events.
#[local] Existing Instance quiet_events_laws.

Definition new_issuer_handled : result response * World :=
  handle new_issuer (begun ctx_none (world_of sample_DB)).1 (begun ctx_none (world_of sample_DB)).2.
Definition new_issuer_served : World := (serve new_issuer ctx_none (world_of sample_DB)).2.

Lemma api_reads_back_witness :
  responded new_issuer_served = Some 200%Z ∧
  (handle (ReqGetIssuerByID "idntiss-2") (begun ctx_none new_issuer_served).1
    (begun ctx_none new_issuer_served).2).1 = Ok (RespIssuer new_issuer_stored).
Proof.
  assert (new_issuer_handled = (Ok (RespIssuer new_issuer_stored), new_issuer_handled.2)) as Hh
    by (vm_compute; reflexivity).
  destruct (api_reads_back (E:=quiet_env) (C:=claim_cel) (H:=plain_hasher) (Ec:=quiet_echo) (Ev:=quiet_events)
    (λ _ _ _, eq_refl) quiet_NewID new_issuer ctx_none (world_of sample_DB) (RespIssuer new_issuer_stored) new_issuer_handled.2 (ReqGetIssuerByID "idntiss-2")
    (Ok (RespIssuer new_issuer_stored)) new_issuer_utf8 eq_refl Hh eq_refl) as [Hr Hget].
  split; [exact Hr|]. apply (Hget ctx_none new_issuer_served eq_refl).
Defined.
End sample.

Lemma userinfo_after_exchange_witness :
  ∃ u, stored.1 = Ok u ∧
    (UserInfoHandler.handle (H:=quiet_env) (u_ID u) ctx_none stored.2).1 = Ok (JObject
      ((if decide (u_Name u = "") then [] else [("name", JString (u_Name u))]) ++
       (if decide (u_Email u = "") then [] else [("email", JString (u_Email u))]) ++
       [("iss", JString (claims_Issuer (token_claims "a-1")));
        ("sub", JString (claims_Subject (mapped_subject (token_claims "a-1") token_mapped)))])).
Proof.
  destruct stored_Ok as (u & Hu & _). exists u.
  assert (gidx_Parse (Env:=quiet_env) (u_ID u) = Ok (u_ID u)) as Hparse.
  { apply (f_equal fst) in Hu. vm_compute in Hu. injection Hu as <-. vm_compute. reflexivity. }
  split; [by rewrite Hu|].
  exact (userinfo_after_exchange (E:=quiet_env) (C:=claim_cel) (J:=sample_jwt)
    "key-1" "https://iam.example" 3600000000000 (λ _ _, None) (λ _ l, l) ctx_none (token_claims "a-1") token_mapped
    (world_of idp_DB) u stored.2 ctx_none stored.2 idp_DB_wf Hu Hparse eq_refl eq_refl eq_refl).
Defined.
