(* ===== verification/Walks.v ===== *)
(** The lists of the API, page by page: clients that follow the [next] cursors
    of the seven operations that page through a table, each page asked for in a
    request of its own. *)
From S2P Require Import Prelude GoStrings Errors Pagination V1 ListQuery World Frame Run.
From S2P Require Import Cel Types Storage GroupStore UserStore IssuerStore ClientStore.
From S2P Require Import UserInfoHandler Events Http GroupHandler ResourceHandler Consistency ReadBack.

(** ** Definitions *)




Abbreviation minute_ago := (Some (AsOfString "-1m")).

(** ** Lemmas *)

Section pages.
Context {E : Env} `{!Reliable E} {C : CEL} {Ec : Echo}.
Context (Haccess : ∀ n r a, CheckAccess_err n r a = None).
Context (lim : option Z).




(** *** The seven operations *)











End pages.

(** *** The rows of the tables *)









(** ** Properties *)

Section listings.
Context {E : Env} `{!Reliable E} {C : CEL}.

End listings.

Section sample.
#[local] Existing Instance quiet_env.
#[local] Existing Instance claim_cel.


End sample.
