(* ===== verification/Strict.v ===== *)
(** The strict handlers of [internal/api/httpsrv/server.gen.go]: each decodes
    the body of its operation, calls the handler of the API and writes its
    response. They have no middleware of their own ([handler.go] passes none). *)
From S2P Require Import Prelude GoStrings Errors Query Utf8 JsonText Pagination V1 Json Bodies.
From S2P Require Import ListQuery World Frame Run Cel Types Storage ClientStore Events Http Server.

(** ** Binding *)

(** An HTTP request as the handlers see it, and the parameters of its route. *)
Record HttpRequest : Type := {
  hr_Method : string;
  hr_Path : string;
  hr_Query : Values;
  hr_ContentType : string;
  hr_Body : string;
}.
Record EchoContext : Type := {
  ec_Params : list (string * string);
  ec_Request : HttpRequest;
}.

(** [ctx.Param(name)]: empty when the route has no such parameter. *)
Definition Param (e : EchoContext) (name : string) : string :=
  match filter (λ kv, kv.1 = name) (ec_Params e) with
  | kv :: _ => kv.2
  | [] => ""
  end.

(** The binding of oapi-codegen's runtime, from the text of a path parameter
    and from the query; and [ctx.Bind(&body)], of echo: the value that is there
    at first, and the decoder of JSON into it. *)
Class Binding : Type := {
  BindStyledParameter : string → string → error + PrefixedID;
  BindQueryParameter_cursor : Values → error + option string;
  BindQueryParameter_limit : Values → error + option Z;
  Bind {T : Type} : T → (string → T → result T) → HttpRequest → error + T;
}.

(** The documented behaviour of [Bind]: without a body nothing is bound; a body
    of type JSON is decoded, and what does not decode is refused. *)
Class BindingLaws (B : Binding) : Prop := {
  Bind_empty {T} (zero : T) dec r : hr_Body r = "" → Bind zero dec r = inr zero;
  Bind_json {T} (zero : T) dec r : hr_Body r ≠ "" → hr_ContentType r = "application/json" →
    match dec (hr_Body r) zero with
    | Ok t => Bind zero dec r = inr t
    | Err _ => ∃ e, Bind zero dec r = inl e
    | Panic _ => True
    end;
}.

Section bodies.
Context `{Binding}.

Definition Bind_AddGroupMembers : HttpRequest → error + v1_AddGroupMembers :=
  Bind zero_AddGroupMembers (Decode AddGroupMembers_fields).
Definition Bind_CreateGroup : HttpRequest → error + v1_CreateGroup :=
  Bind zero_CreateGroup (Decode CreateGroup_fields).
Definition Bind_UpdateGroup : HttpRequest → error + v1_UpdateGroup :=
  Bind zero_UpdateGroup (Decode UpdateGroup_fields).
Definition Bind_CreateIssuer : HttpRequest → error + v1_CreateIssuer :=
  Bind zero_CreateIssuer (Decode CreateIssuer_fields).
Definition Bind_IssuerUpdate : HttpRequest → error + v1_IssuerUpdate :=
  Bind zero_IssuerUpdate (Decode IssuerUpdate_fields).
Definition Bind_CreateOAuthClient : HttpRequest → error + v1_CreateOAuthClient :=
  Bind zero_CreateOAuthClient (Decode CreateOAuthClient_fields).
End bodies.

(** [if err := ...; err != nil { return err }]. *)
Definition bound {A} (r : error + A) : M A :=
  match r with inl err => fail err | inr a => mret a end.

(** ** The handlers *)

Section strict.
Context `{Env, CEL, Hasher, Echo, EventService, Binding}.

Definition DeleteOAuthClient (e : EchoContext) (clientID : PrefixedID) (ctx : Context)
    : M () :=
  strict_handler (handle (ReqDeleteOAuthClient clientID)) ctx.

Definition GetOAuthClient (e : EchoContext) (clientID : PrefixedID) (ctx : Context)
    : M () :=
  strict_handler (handle (ReqGetOAuthClient clientID)) ctx.

Definition DeleteGroup (e : EchoContext) (groupID : PrefixedID) (ctx : Context)
    : M () :=
  strict_handler (handle (ReqDeleteGroup groupID)) ctx.

Definition GetGroupByID (e : EchoContext) (groupID : PrefixedID) (ctx : Context)
    : M () :=
  strict_handler (handle (ReqGetGroupByID groupID)) ctx.

Definition UpdateGroup (e : EchoContext) (groupID : PrefixedID) (ctx : Context)
    : M () :=
  body ← bound (Bind_UpdateGroup (ec_Request e));
  strict_handler (handle (ReqUpdateGroup groupID body)) ctx.

Definition ListGroupMembers (e : EchoContext) (groupID : PrefixedID) (params : PageParams) (ctx : Context)
    : M () :=
  strict_handler (handle (ReqListGroupMembers groupID params)) ctx.

Definition AddGroupMembers (e : EchoContext) (groupID : PrefixedID) (ctx : Context)
    : M () :=
  body ← bound (Bind_AddGroupMembers (ec_Request e));
  strict_handler (handle (ReqAddGroupMembers groupID body)) ctx.

Definition ReplaceGroupMembers (e : EchoContext) (groupID : PrefixedID) (ctx : Context)
    : M () :=
  body ← bound (Bind_AddGroupMembers (ec_Request e));
  strict_handler (handle (ReqReplaceGroupMembers groupID body)) ctx.

Definition RemoveGroupMember (e : EchoContext) (groupID subjectID : PrefixedID) (ctx : Context)
    : M () :=
  strict_handler (handle (ReqRemoveGroupMember groupID subjectID)) ctx.

Definition DeleteIssuer (e : EchoContext) (id : PrefixedID) (ctx : Context)
    : M () :=
  strict_handler (handle (ReqDeleteIssuer id)) ctx.

Definition GetIssuerByID (e : EchoContext) (id : PrefixedID) (ctx : Context)
    : M () :=
  strict_handler (handle (ReqGetIssuerByID id)) ctx.

Definition UpdateIssuer (e : EchoContext) (id : PrefixedID) (ctx : Context)
    : M () :=
  body ← bound (Bind_IssuerUpdate (ec_Request e));
  strict_handler (handle (ReqUpdateIssuer id body)) ctx.

Definition GetIssuerUsers (e : EchoContext) (issuerID : PrefixedID) (params : PageParams) (ctx : Context)
    : M () :=
  strict_handler (handle (ReqGetIssuerUsers issuerID params)) ctx.

Definition GetOwnerOAuthClients (e : EchoContext) (ownerID : PrefixedID) (params : PageParams) (ctx : Context)
    : M () :=
  strict_handler (handle (ReqGetOwnerOAuthClients ownerID params)) ctx.

Definition CreateOAuthClient (e : EchoContext) (ownerID : PrefixedID) (ctx : Context)
    : M () :=
  body ← bound (Bind_CreateOAuthClient (ec_Request e));
  strict_handler (handle (ReqCreateOAuthClient ownerID body)) ctx.

Definition ListGroups (e : EchoContext) (ownerID : PrefixedID) (params : PageParams) (ctx : Context)
    : M () :=
  strict_handler (handle (ReqListGroups ownerID params)) ctx.

Definition CreateGroup (e : EchoContext) (ownerID : PrefixedID) (ctx : Context)
    : M () :=
  body ← bound (Bind_CreateGroup (ec_Request e));
  strict_handler (handle (ReqCreateGroup ownerID body)) ctx.

Definition ListOwnerIssuers (e : EchoContext) (ownerID : PrefixedID) (params : PageParams) (ctx : Context)
    : M () :=
  strict_handler (handle (ReqListOwnerIssuers ownerID params)) ctx.

Definition CreateIssuer (e : EchoContext) (ownerID : PrefixedID) (ctx : Context)
    : M () :=
  body ← bound (Bind_CreateIssuer (ec_Request e));
  strict_handler (handle (ReqCreateIssuer ownerID body)) ctx.

Definition GetUserByID (e : EchoContext) (userID : PrefixedID) (ctx : Context)
    : M () :=
  strict_handler (handle (ReqGetUserByID userID)) ctx.

Definition ListUserGroups (e : EchoContext) (userID : PrefixedID) (params : PageParams) (ctx : Context)
    : M () :=
  strict_handler (handle (ReqListUserGroups userID params)) ctx.

End strict.
