(* ===== verification/Wrapper.v ===== *)
(** The generated server of [internal/api/httpsrv/server.gen.go]: the table of
    routes, the binding of path, query and body to the parameters of an
    operation, the strict handlers that run it, and the middleware around it
    ([handler.go]). Theorem [serve_http_refines] says that what [Server] proves
    of a decoded request holds of the HTTP request it was decoded from. *)
From S2P Require Import Prelude GoStrings Errors Query Utf8 JsonText Pagination V1 Json Bodies.
From S2P Require Import ListQuery World Frame Run Cel Types Storage ClientStore Events Http Server.
From S2P Require Import Consistency Strict.

(** ** Paths and routes *)

(** A path, or a pattern, by its segments. *)
Definition slash : ascii := "/"%char.
Fixpoint split_on (c : ascii) (s : string) : list string :=
  match s with
  | EmptyString => [""]
  | String x s' =>
    if decide (x = c) then "" :: split_on c s'
    else match split_on c s' with
         | [] => [String x ""]
         | seg :: segs => String x seg :: segs
         end
  end.

(** A segment [:name] of a pattern matches any segment, which is the value of
    the parameter [name]; any other only itself. *)
Definition param_name (s : string) : option string :=
  match s with
  | String x name => if decide (x = ":"%char) then Some name else None
  | EmptyString => None
  end.
Fixpoint match_segs (pat path : list string) : option (list (string * string)) :=
  match pat, path with
  | [], [] => Some []
  | p :: pat, s :: path =>
    match param_name p with
    | Some name => cons (name, s) <$> match_segs pat path
    | None => if decide (p = s) then match_segs pat path else None
    end
  | _, _ => None
  end.
Definition match_path (pat path : string) : option (list (string * string)) :=
  match_segs (split_on slash pat) (split_on slash path).

Record Route (H : Type) : Type := MkRoute {
  rt_method : string;
  rt_path : string;
  rt_handler : H;
}.
Arguments MkRoute {_} _ _ _.
Arguments rt_method {_} _.
Arguments rt_path {_} _.
Arguments rt_handler {_} _.

(** echo's router: the handler that a table has for a method and a path, with
    the parameters of the path. *)
Class EchoRouter : Type := {
  Find : ∀ {H : Type}, list (Route H) → string → string → option (H * list (string * string));
}.

(** What is found is in the table and matches. When one route of the table
    matches, and no parameter is empty, it is found. *)
Class EchoRouterLaws (R : EchoRouter) : Prop := {
  Find_sound {H} (rs : list (Route H)) m p h ps :
    Find rs m p = Some (h, ps) →
    ∃ r, r ∈ rs ∧ rt_method r = m ∧ match_path (rt_path r) p = Some ps ∧ rt_handler r = h;
  Find_complete {H} (rs : list (Route H)) r p ps :
    r ∈ rs → match_path (rt_path r) p = Some ps → Forall (λ kv, kv.2 ≠ "") ps →
    (∀ r', r' ∈ rs → rt_method r' = rt_method r → is_Some (match_path (rt_path r') p) → r' = r) →
    Find rs (rt_method r) p = Some (rt_handler r, ps);
}.

(** The operations of the wrapper, by the names of their methods. *)
Inductive operation : Type :=
  | OpDeleteOAuthClient | OpGetOAuthClient | OpDeleteGroup | OpGetGroupByID | OpUpdateGroup
  | OpListGroupMembers | OpAddGroupMembers | OpReplaceGroupMembers | OpRemoveGroupMember
  | OpDeleteIssuer | OpGetIssuerByID | OpUpdateIssuer | OpGetIssuerUsers
  | OpGetOwnerOAuthClients | OpCreateOAuthClient | OpListGroups | OpCreateGroup
  | OpListOwnerIssuers | OpCreateIssuer | OpGetUserByID | OpListUserGroups.

#[global] Instance operation_eq_dec : EqDecision operation.
Proof. solve_decision. Defined.

Definition RegisterHandlersWithBaseURL (baseURL : string) : list (Route operation) :=
  [MkRoute "DELETE" (baseURL +:+ "/api/v1/clients/:clientID") OpDeleteOAuthClient;
   MkRoute "GET" (baseURL +:+ "/api/v1/clients/:clientID") OpGetOAuthClient;
   MkRoute "DELETE" (baseURL +:+ "/api/v1/groups/:groupID") OpDeleteGroup;
   MkRoute "GET" (baseURL +:+ "/api/v1/groups/:groupID") OpGetGroupByID;
   MkRoute "PATCH" (baseURL +:+ "/api/v1/groups/:groupID") OpUpdateGroup;
   MkRoute "GET" (baseURL +:+ "/api/v1/groups/:groupID/members") OpListGroupMembers;
   MkRoute "POST" (baseURL +:+ "/api/v1/groups/:groupID/members") OpAddGroupMembers;
   MkRoute "PUT" (baseURL +:+ "/api/v1/groups/:groupID/members") OpReplaceGroupMembers;
   MkRoute "DELETE" (baseURL +:+ "/api/v1/groups/:groupID/members/:subjectID") OpRemoveGroupMember;
   MkRoute "DELETE" (baseURL +:+ "/api/v1/issuers/:id") OpDeleteIssuer;
   MkRoute "GET" (baseURL +:+ "/api/v1/issuers/:id") OpGetIssuerByID;
   MkRoute "PATCH" (baseURL +:+ "/api/v1/issuers/:id") OpUpdateIssuer;
   MkRoute "GET" (baseURL +:+ "/api/v1/issuers/:id/users") OpGetIssuerUsers;
   MkRoute "GET" (baseURL +:+ "/api/v1/owners/:ownerID/clients") OpGetOwnerOAuthClients;
   MkRoute "POST" (baseURL +:+ "/api/v1/owners/:ownerID/clients") OpCreateOAuthClient;
   MkRoute "GET" (baseURL +:+ "/api/v1/owners/:ownerID/groups") OpListGroups;
   MkRoute "POST" (baseURL +:+ "/api/v1/owners/:ownerID/groups") OpCreateGroup;
   MkRoute "GET" (baseURL +:+ "/api/v1/owners/:ownerID/issuers") OpListOwnerIssuers;
   MkRoute "POST" (baseURL +:+ "/api/v1/owners/:ownerID/issuers") OpCreateIssuer;
   MkRoute "GET" (baseURL +:+ "/api/v1/users/:userID") OpGetUserByID;
   MkRoute "GET" (baseURL +:+ "/api/v1/users/:userID/groups") OpListUserGroups].

Definition RegisterHandlers : list (Route operation) := RegisterHandlersWithBaseURL "".

(** ** Binding the parameters *)

Section wrapper.
Context `{Env, CEL, Hasher, Echo, EventService, Binding}.

Definition invalid_format (name : string) (err : error) : error :=
  HTTPError 400 ("Invalid format for parameter " +:+ name +:+ ": " +:+ Error err).

Definition bind_path (e : EchoContext) (name : string) : M PrefixedID :=
  on_error (bound (BindStyledParameter name (Param e name))) (λ err, fail (invalid_format name err)).

Definition bind_query (e : EchoContext) : M PageParams :=
  let query := hr_Query (ec_Request e) in
  cursor ← on_error (bound (BindQueryParameter_cursor query)) (λ err,
    fail (invalid_format "cursor" err));
  limit ← on_error (bound (BindQueryParameter_limit query)) (λ err,
    fail (invalid_format "limit" err));
  mret {| pp_Cursor := cursor; pp_Limit := limit |}.

Definition DeleteOAuthClient (e : EchoContext) (ctx : Context) : M () :=
  clientID ← bind_path e "clientID";
  Strict.DeleteOAuthClient e clientID ctx.

Definition GetOAuthClient (e : EchoContext) (ctx : Context) : M () :=
  clientID ← bind_path e "clientID";
  Strict.GetOAuthClient e clientID ctx.

Definition DeleteGroup (e : EchoContext) (ctx : Context) : M () :=
  groupID ← bind_path e "groupID";
  Strict.DeleteGroup e groupID ctx.

Definition GetGroupByID (e : EchoContext) (ctx : Context) : M () :=
  groupID ← bind_path e "groupID";
  Strict.GetGroupByID e groupID ctx.

Definition UpdateGroup (e : EchoContext) (ctx : Context) : M () :=
  groupID ← bind_path e "groupID";
  Strict.UpdateGroup e groupID ctx.

Definition ListGroupMembers (e : EchoContext) (ctx : Context) : M () :=
  groupID ← bind_path e "groupID";
  params ← bind_query e;
  Strict.ListGroupMembers e groupID params ctx.

Definition AddGroupMembers (e : EchoContext) (ctx : Context) : M () :=
  groupID ← bind_path e "groupID";
  Strict.AddGroupMembers e groupID ctx.

Definition ReplaceGroupMembers (e : EchoContext) (ctx : Context) : M () :=
  groupID ← bind_path e "groupID";
  Strict.ReplaceGroupMembers e groupID ctx.

Definition RemoveGroupMember (e : EchoContext) (ctx : Context) : M () :=
  groupID ← bind_path e "groupID";
  subjectID ← bind_path e "subjectID";
  Strict.RemoveGroupMember e groupID subjectID ctx.

Definition DeleteIssuer (e : EchoContext) (ctx : Context) : M () :=
  id ← bind_path e "id";
  Strict.DeleteIssuer e id ctx.

Definition GetIssuerByID (e : EchoContext) (ctx : Context) : M () :=
  id ← bind_path e "id";
  Strict.GetIssuerByID e id ctx.

Definition UpdateIssuer (e : EchoContext) (ctx : Context) : M () :=
  id ← bind_path e "id";
  Strict.UpdateIssuer e id ctx.

Definition GetIssuerUsers (e : EchoContext) (ctx : Context) : M () :=
  issuerID ← bind_path e "id";
  params ← bind_query e;
  Strict.GetIssuerUsers e issuerID params ctx.

Definition GetOwnerOAuthClients (e : EchoContext) (ctx : Context) : M () :=
  ownerID ← bind_path e "ownerID";
  params ← bind_query e;
  Strict.GetOwnerOAuthClients e ownerID params ctx.

Definition CreateOAuthClient (e : EchoContext) (ctx : Context) : M () :=
  ownerID ← bind_path e "ownerID";
  Strict.CreateOAuthClient e ownerID ctx.

Definition ListGroups (e : EchoContext) (ctx : Context) : M () :=
  ownerID ← bind_path e "ownerID";
  params ← bind_query e;
  Strict.ListGroups e ownerID params ctx.

Definition CreateGroup (e : EchoContext) (ctx : Context) : M () :=
  ownerID ← bind_path e "ownerID";
  Strict.CreateGroup e ownerID ctx.

Definition ListOwnerIssuers (e : EchoContext) (ctx : Context) : M () :=
  ownerID ← bind_path e "ownerID";
  params ← bind_query e;
  Strict.ListOwnerIssuers e ownerID params ctx.

Definition CreateIssuer (e : EchoContext) (ctx : Context) : M () :=
  ownerID ← bind_path e "ownerID";
  Strict.CreateIssuer e ownerID ctx.

Definition GetUserByID (e : EchoContext) (ctx : Context) : M () :=
  userID ← bind_path e "userID";
  Strict.GetUserByID e userID ctx.

Definition ListUserGroups (e : EchoContext) (ctx : Context) : M () :=
  userID ← bind_path e "userID";
  params ← bind_query e;
  Strict.ListUserGroups e userID params ctx.

(** The method of the wrapper that a route is registered with. *)
Definition wrapper (op : operation) : EchoContext → Context → M () :=
  match op with
  | OpDeleteOAuthClient => DeleteOAuthClient
  | OpGetOAuthClient => GetOAuthClient
  | OpDeleteGroup => DeleteGroup
  | OpGetGroupByID => GetGroupByID
  | OpUpdateGroup => UpdateGroup
  | OpListGroupMembers => ListGroupMembers
  | OpAddGroupMembers => AddGroupMembers
  | OpReplaceGroupMembers => ReplaceGroupMembers
  | OpRemoveGroupMember => RemoveGroupMember
  | OpDeleteIssuer => DeleteIssuer
  | OpGetIssuerByID => GetIssuerByID
  | OpUpdateIssuer => UpdateIssuer
  | OpGetIssuerUsers => GetIssuerUsers
  | OpGetOwnerOAuthClients => GetOwnerOAuthClients
  | OpCreateOAuthClient => CreateOAuthClient
  | OpListGroups => ListGroups
  | OpCreateGroup => CreateGroup
  | OpListOwnerIssuers => ListOwnerIssuers
  | OpCreateIssuer => CreateIssuer
  | OpGetUserByID => GetUserByID
  | OpListUserGroups => ListUserGroups
  end.

(** ** The middleware *)

Definition Middleware : Type := (Context → M ()) → Context → M ().

(** echo applies a list of middleware from the outside in. *)
Definition apply_middleware (ms : list Middleware) (h : Context → M ()) : Context → M () :=
  foldr (λ m h, m h) h ms.

(** [APIHandler], for a request: the validation against the OpenAPI document,
    the audit, and the further middleware that [serve] passes. *)
Record APIHandler : Type := {
  ah_validationMiddleware : HttpRequest → Middleware;
  ah_auditMiddleware : option (HttpRequest → Middleware);
  ah_middleware : list (HttpRequest → Middleware);
}.

Definition Routes (h : APIHandler) (r : HttpRequest) : list Middleware :=
  [ah_validationMiddleware h r; storageMiddleware] ++
  match ah_auditMiddleware h with Some audit => [audit r] | None => [] end ++
  ((λ m, m r) <$> ah_middleware h).

(** A request whose route was found, from its arrival. *)
Definition serve_http (h : APIHandler) (r : HttpRequest) (op : operation)
    (params : list (string * string)) (ctx : Context) : M () := λ w,
  on_error (apply_middleware (Routes h r)
              (wrapper op {| ec_Params := params; ec_Request := r |}) ctx)
    write_error (set_responded None w).

(** A middleware that refuses a request with an error, or lets it pass. *)
Definition gate (refused : option error) : Middleware := λ next ctx,
  match refused with Some e => fail e | None => next ctx end.

(** What the middleware outside the repository does to the state: the
    validation and the further middleware refuse a request or let it pass, and
    the audit, which records the outcome, neither. *)
Class GatedHandler (h : APIHandler) (validate allow : HttpRequest → option error) : Prop := {
  validation_gates r next ctx w :
    ah_validationMiddleware h r next ctx w = gate (validate r) next ctx w;
  audit_transparent a r next ctx w :
    ah_auditMiddleware h = Some a → a r next ctx w = next ctx w;
  middleware_gates r next ctx w :
    apply_middleware ((λ m, m r) <$> ah_middleware h) next ctx w = gate (allow r) next ctx w;
}.

(** ** What an HTTP request asks for *)

Definition with_path {A} (e : EchoContext) (name : string) (k : PrefixedID → error + A)
    : error + A :=
  match BindStyledParameter name (Param e name) with
  | inl err => inl (invalid_format name err)
  | inr id => k id
  end.

Definition with_query {A} (e : EchoContext) (k : PageParams → error + A) : error + A :=
  let query := hr_Query (ec_Request e) in
  match BindQueryParameter_cursor query with
  | inl err => inl (invalid_format "cursor" err)
  | inr cursor =>
    match BindQueryParameter_limit query with
    | inl err => inl (invalid_format "limit" err)
    | inr limit => k {| pp_Cursor := cursor; pp_Limit := limit |}
    end
  end.

Definition with_body {A B} (r : error + B) (k : B → A) : error + A :=
  match r with inl err => inl err | inr body => inr (k body) end.

(** The request of the API that an HTTP request stands for, or the error that
    it is answered with. *)
Definition decode (op : operation) (e : EchoContext) : error + request :=
  let r := ec_Request e in
  match op with
  | OpDeleteOAuthClient => with_path e "clientID" (λ c, inr (ReqDeleteOAuthClient c))
  | OpGetOAuthClient => with_path e "clientID" (λ c, inr (ReqGetOAuthClient c))
  | OpDeleteGroup => with_path e "groupID" (λ g, inr (ReqDeleteGroup g))
  | OpGetGroupByID => with_path e "groupID" (λ g, inr (ReqGetGroupByID g))
  | OpUpdateGroup => with_path e "groupID" (λ g, with_body (Bind_UpdateGroup r) (ReqUpdateGroup g))
  | OpListGroupMembers =>
    with_path e "groupID" (λ g, with_query e (λ p, inr (ReqListGroupMembers g p)))
  | OpAddGroupMembers =>
    with_path e "groupID" (λ g, with_body (Bind_AddGroupMembers r) (ReqAddGroupMembers g))
  | OpReplaceGroupMembers =>
    with_path e "groupID" (λ g, with_body (Bind_AddGroupMembers r) (ReqReplaceGroupMembers g))
  | OpRemoveGroupMember =>
    with_path e "groupID" (λ g, with_path e "subjectID" (λ s, inr (ReqRemoveGroupMember g s)))
  | OpDeleteIssuer => with_path e "id" (λ i, inr (ReqDeleteIssuer i))
  | OpGetIssuerByID => with_path e "id" (λ i, inr (ReqGetIssuerByID i))
  | OpUpdateIssuer => with_path e "id" (λ i, with_body (Bind_IssuerUpdate r) (ReqUpdateIssuer i))
  | OpGetIssuerUsers => with_path e "id" (λ i, with_query e (λ p, inr (ReqGetIssuerUsers i p)))
  | OpGetOwnerOAuthClients =>
    with_path e "ownerID" (λ o, with_query e (λ p, inr (ReqGetOwnerOAuthClients o p)))
  | OpCreateOAuthClient =>
    with_path e "ownerID" (λ o, with_body (Bind_CreateOAuthClient r) (ReqCreateOAuthClient o))
  | OpListGroups => with_path e "ownerID" (λ o, with_query e (λ p, inr (ReqListGroups o p)))
  | OpCreateGroup => with_path e "ownerID" (λ o, with_body (Bind_CreateGroup r) (ReqCreateGroup o))
  | OpListOwnerIssuers =>
    with_path e "ownerID" (λ o, with_query e (λ p, inr (ReqListOwnerIssuers o p)))
  | OpCreateIssuer => with_path e "ownerID" (λ o, with_body (Bind_CreateIssuer r) (ReqCreateIssuer o))
  | OpGetUserByID => with_path e "userID" (λ u, inr (ReqGetUserByID u))
  | OpListUserGroups => with_path e "userID" (λ u, with_query e (λ p, inr (ReqListUserGroups u p)))
  end.
End wrapper.

(** The operation of a request of the API, and the identifiers in its path. *)
Definition op_of (req : request) : operation :=
  match req with
  | ReqDeleteOAuthClient _ => OpDeleteOAuthClient
  | ReqGetOAuthClient _ => OpGetOAuthClient
  | ReqDeleteGroup _ => OpDeleteGroup
  | ReqGetGroupByID _ => OpGetGroupByID
  | ReqUpdateGroup _ _ => OpUpdateGroup
  | ReqListGroupMembers _ _ => OpListGroupMembers
  | ReqAddGroupMembers _ _ => OpAddGroupMembers
  | ReqReplaceGroupMembers _ _ => OpReplaceGroupMembers
  | ReqRemoveGroupMember _ _ => OpRemoveGroupMember
  | ReqDeleteIssuer _ => OpDeleteIssuer
  | ReqGetIssuerByID _ => OpGetIssuerByID
  | ReqUpdateIssuer _ _ => OpUpdateIssuer
  | ReqGetIssuerUsers _ _ => OpGetIssuerUsers
  | ReqGetOwnerOAuthClients _ _ => OpGetOwnerOAuthClients
  | ReqCreateOAuthClient _ _ => OpCreateOAuthClient
  | ReqListGroups _ _ => OpListGroups
  | ReqCreateGroup _ _ => OpCreateGroup
  | ReqListOwnerIssuers _ _ => OpListOwnerIssuers
  | ReqCreateIssuer _ _ => OpCreateIssuer
  | ReqGetUserByID _ => OpGetUserByID
  | ReqListUserGroups _ _ => OpListUserGroups
  end.
Definition path_ids (req : request) : list PrefixedID :=
  match req with
  | ReqRemoveGroupMember g s => [g; s]
  | ReqDeleteOAuthClient i | ReqGetOAuthClient i | ReqDeleteGroup i | ReqGetGroupByID i
  | ReqUpdateGroup i _ | ReqListGroupMembers i _ | ReqAddGroupMembers i _
  | ReqReplaceGroupMembers i _ | ReqDeleteIssuer i | ReqGetIssuerByID i | ReqUpdateIssuer i _
  | ReqGetIssuerUsers i _ | ReqGetOwnerOAuthClients i _ | ReqCreateOAuthClient i _
  | ReqListGroups i _ | ReqCreateGroup i _ | ReqListOwnerIssuers i _ | ReqCreateIssuer i _
  | ReqGetUserByID i | ReqListUserGroups i _ => [i]
  end.

(** The names of an operation's path parameters, and its method and the segments
    of its path behind [/api/v1], with these parameters' texts, as its OpenAPI
    document gives them. *)
Definition path_names (op : operation) : list string :=
  match op with
  | OpDeleteOAuthClient | OpGetOAuthClient => ["clientID"]
  | OpDeleteGroup | OpGetGroupByID | OpUpdateGroup | OpListGroupMembers | OpAddGroupMembers
  | OpReplaceGroupMembers => ["groupID"]
  | OpRemoveGroupMember => ["groupID"; "subjectID"]
  | OpDeleteIssuer | OpGetIssuerByID | OpUpdateIssuer | OpGetIssuerUsers => ["id"]
  | OpGetOwnerOAuthClients | OpCreateOAuthClient | OpListGroups | OpCreateGroup
  | OpListOwnerIssuers | OpCreateIssuer => ["ownerID"]
  | OpGetUserByID | OpListUserGroups => ["userID"]
  end.
Definition op_line (op : operation) (texts : list string) : string * list string :=
  let id := nth 0 texts "" in
  match op with
  | OpDeleteOAuthClient => ("DELETE", ["clients"; id])
  | OpGetOAuthClient => ("GET", ["clients"; id])
  | OpDeleteGroup => ("DELETE", ["groups"; id])
  | OpGetGroupByID => ("GET", ["groups"; id])
  | OpUpdateGroup => ("PATCH", ["groups"; id])
  | OpListGroupMembers => ("GET", ["groups"; id; "members"])
  | OpAddGroupMembers => ("POST", ["groups"; id; "members"])
  | OpReplaceGroupMembers => ("PUT", ["groups"; id; "members"])
  | OpRemoveGroupMember => ("DELETE", ["groups"; id; "members"; nth 1 texts ""])
  | OpDeleteIssuer => ("DELETE", ["issuers"; id])
  | OpGetIssuerByID => ("GET", ["issuers"; id])
  | OpUpdateIssuer => ("PATCH", ["issuers"; id])
  | OpGetIssuerUsers => ("GET", ["issuers"; id; "users"])
  | OpGetOwnerOAuthClients => ("GET", ["owners"; id; "clients"])
  | OpCreateOAuthClient => ("POST", ["owners"; id; "clients"])
  | OpListGroups => ("GET", ["owners"; id; "groups"])
  | OpCreateGroup => ("POST", ["owners"; id; "groups"])
  | OpListOwnerIssuers => ("GET", ["owners"; id; "issuers"])
  | OpCreateIssuer => ("POST", ["owners"; id; "issuers"])
  | OpGetUserByID => ("GET", ["users"; id])
  | OpListUserGroups => ("GET", ["users"; id; "groups"])
  end.
Definition op_path (op : operation) (texts : list string) : string :=
  Join ("" :: "api" :: "v1" :: (op_line op texts).2) "/".

(** The body of a request, as its OpenAPI document gives it. *)
Definition request_body (req : request) : option json :=
  match req with
  | ReqUpdateGroup _ b => Some (json_UpdateGroup b)
  | ReqAddGroupMembers _ b | ReqReplaceGroupMembers _ b => Some (json_AddGroupMembers b)
  | ReqUpdateIssuer _ b => Some (json_IssuerUpdate b)
  | ReqCreateOAuthClient _ b => Some (json_CreateOAuthClient b)
  | ReqCreateGroup _ b => Some (json_CreateGroup b)
  | ReqCreateIssuer _ b => Some (json_CreateIssuer b)
  | _ => None
  end.

(** An HTTP request whose query holds the parameters of [req], and whose body
    is the JSON text of its body, in UTF-8. *)
Definition carries `{Binding} (r : HttpRequest) (req : request) : Prop :=
  let page p := BindQueryParameter_cursor (hr_Query r) = inr (pp_Cursor p) ∧
                BindQueryParameter_limit (hr_Query r) = inr (pp_Limit p) in
  match req with
  | ReqListGroupMembers _ p | ReqGetIssuerUsers _ p | ReqGetOwnerOAuthClients _ p
  | ReqListGroups _ p | ReqListOwnerIssuers _ p | ReqListUserGroups _ p => page p
  | _ =>
    match request_body req with
    | Some v => hr_ContentType r = "application/json" ∧ hr_Body r = Marshal v ∧ utf8 v
    | None => True
    end
  end.

(** ** Lemmas *)

Lemma split_on_seg c a : c ∉ to_bytes a → split_on c a = [a].
Proof.
  induction a as [|x a IH]; [done|]. cbn [split_on to_bytes String.list_ascii_of_string].
  rewrite not_elem_of_cons. intros [Hx Ha]. rewrite decide_False by done. by rewrite IH.
Qed.

Lemma split_on_app c a b : c ∉ to_bytes a → split_on c (a +:+ String c b) = a :: split_on c b.
Proof.
  induction a as [|x a IH]; simpl; [by rewrite decide_True|].
  rewrite not_elem_of_cons. intros [Hx Ha]. rewrite decide_False by done. by rewrite IH.
Qed.

(** A path is split at its slashes. *)
Lemma split_on_Join segs :
  segs ≠ [] → Forall (λ s, slash ∉ to_bytes s) segs → split_on slash (Join segs "/") = segs.
Proof.
  intros Hne. induction 1 as [|s segs Hs Hsegs IH]; [done|]. destruct segs as [|s' segs].
  - by apply split_on_seg.
  - change (Join (s :: s' :: segs) "/") with (s +:+ String slash (Join (s' :: segs) "/")).
    rewrite split_on_app by done. by rewrite IH.
Qed.

(** Splitting a path loses nothing. *)
Lemma Join_split_on s : Join (split_on slash s) "/" = s.
Proof.
  induction s as [|x s IH]; [done|]. cbn [split_on]. destruct (split_on slash s) as [|seg segs] eqn:Hs.
  - destruct s; simpl in Hs; repeat case_match; simplify_eq.
  - case_decide as Hx; [subst x|]; destruct segs; simpl in *; by rewrite <-IH.
Qed.

(** Two patterns that no path matches: of different lengths, or with different
    literal segments at the same place. *)
Definition is_param (s : string) : bool := bool_decide (is_Some (param_name s)).
Fixpoint overlap (p q : list string) : bool :=
  match p, q with
  | [], [] => true
  | a :: p, b :: q => (is_param a || is_param b || bool_decide (a = b)) && overlap p q
  | _, _ => false
  end.

Lemma match_segs_cons a pat s path ps :
  match_segs (a :: pat) (s :: path) = Some ps →
  (is_param a = false → a = s) ∧ ∃ ps', match_segs pat path = Some ps'.
Proof.
  simpl. unfold is_param. destruct (param_name a) as [name|].
  - intros (ps' & -> & _)%fmap_Some. rewrite bool_decide_true by eauto. split; [done|eauto].
  - case_decide; [|done]. eauto.
Qed.

Lemma match_overlap p q path ps qs :
  match_segs p path = Some ps → match_segs q path = Some qs → overlap p q = true.
Proof.
  revert q path ps qs. induction p as [|a p IH]; intros [|b q] [|s path] ps qs Hp Hq; try done.
  apply match_segs_cons in Hp as [Ha [ps' Hp]]. apply match_segs_cons in Hq as [Hb [qs' Hq]].
  simpl. rewrite (IH q path ps' qs') by done. rewrite andb_true_r.
  destruct (is_param a); [done|]. destruct (is_param b); [done|]. simpl.
  apply bool_decide_eq_true. by rewrite Ha, Hb.
Qed.

(** No two routes of the table match the same request. *)
Definition apart {H} (rs : list (Route H)) : bool :=
  forallb (λ ir, forallb (λ jr,
      bool_decide (ir.1 = jr.1) || negb (bool_decide (rt_method ir.2 = rt_method jr.2)) ||
      negb (overlap (split_on slash (rt_path ir.2)) (split_on slash (rt_path jr.2))))
    (imap pair rs)) (imap pair rs).

Lemma apart_unambiguous {H} (rs : list (Route H)) r1 r2 path :
  apart rs = true → r1 ∈ rs → r2 ∈ rs → rt_method r1 = rt_method r2 →
  is_Some (match_path (rt_path r1) path) → is_Some (match_path (rt_path r2) path) → r1 = r2.
Proof.
  intros Hapart [i Hi]%list_elem_of_lookup [j Hj]%list_elem_of_lookup Hm [ps1 H1] [ps2 H2].
  unfold apart in Hapart. rewrite forallb_forall in Hapart.
  assert ((i, r1) ∈ imap pair rs) as Hin1.
  { apply list_elem_of_lookup. exists i. by rewrite list_lookup_imap, Hi. }
  assert ((j, r2) ∈ imap pair rs) as Hin2.
  { apply list_elem_of_lookup. exists j. by rewrite list_lookup_imap, Hj. }
  specialize (Hapart (i, r1)). rewrite <-list_elem_of_In in Hapart. specialize (Hapart Hin1).
  rewrite forallb_forall in Hapart. specialize (Hapart (j, r2)).
  rewrite <-list_elem_of_In in Hapart. specialize (Hapart Hin2). simpl in Hapart.
  rewrite (match_overlap _ _ _ _ _ H1 H2), orb_false_r, orb_true_iff in Hapart.
  destruct Hapart as [Hij%bool_decide_eq_true|Hne].
  - subst j. congruence.
  - by rewrite bool_decide_true in Hne.
Qed.

Lemma RegisterHandlers_apart : apart RegisterHandlers = true.
Proof. by vm_compute. Qed.

(** ** The wrapper and the middleware *)

Section served.
Context {E : Env} {C : CEL} {H : Hasher} {Ec : Echo} {Ev : EventService} {B : Binding}.

Lemma bound_run {A} (r : error + A) w :
  bound r w = (match r with inl e => Err e | inr a => Ok a end, w).
Proof. by destruct r. Qed.

Lemma bind_path_run {A} e name (k : PrefixedID → M A) w :
  (id ← bind_path e name; k id) w =
  match BindStyledParameter name (Param e name) with
  | inl err => (Err (invalid_format name err), w)
  | inr id => k id w
  end.
Proof.
  unfold bind_path, on_error, attempt, mbind, M_bind, fail. rewrite bound_run.
  by destruct (BindStyledParameter _ _).
Qed.

Lemma bind_query_run {A} e (k : PageParams → M A) w :
  (p ← bind_query e; k p) w =
  match BindQueryParameter_cursor (hr_Query (ec_Request e)) with
  | inl err => (Err (invalid_format "cursor" err), w)
  | inr cursor =>
    match BindQueryParameter_limit (hr_Query (ec_Request e)) with
    | inl err => (Err (invalid_format "limit" err), w)
    | inr limit => k {| pp_Cursor := cursor; pp_Limit := limit |} w
    end
  end.
Proof.
  unfold bind_query, on_error, attempt, mbind, M_bind, mret, M_ret, fail. rewrite bound_run.
  destruct (BindQueryParameter_cursor _); [done|]. rewrite bound_run.
  by destruct (BindQueryParameter_limit _).
Qed.

Lemma bound_bind_run {A D} (r : error + A) (k : A → M D) w :
  (a ← bound r; k a) w = match r with inl err => (Err err, w) | inr a => k a w end.
Proof. by destruct r. Qed.

(** The wrapper answers what does not decode with an error, and hands what
    does to the handler of the API. *)
Lemma wrapper_decode op e ctx w :
  wrapper op e ctx w =
  match decode op e with
  | inl err => (Err err, w)
  | inr req => strict_handler (handle req) ctx w
  end.
Proof.
  destruct op; cbn [wrapper decode];
    unfold DeleteOAuthClient, GetOAuthClient, DeleteGroup, GetGroupByID, UpdateGroup,
      ListGroupMembers, AddGroupMembers, ReplaceGroupMembers, RemoveGroupMember, DeleteIssuer,
      GetIssuerByID, UpdateIssuer, GetIssuerUsers, GetOwnerOAuthClients, CreateOAuthClient,
      ListGroups, CreateGroup, ListOwnerIssuers, CreateIssuer, GetUserByID, ListUserGroups;
    unfold Strict.DeleteOAuthClient, Strict.GetOAuthClient, Strict.DeleteGroup,
      Strict.GetGroupByID, Strict.UpdateGroup, Strict.ListGroupMembers, Strict.AddGroupMembers,
      Strict.ReplaceGroupMembers, Strict.RemoveGroupMember, Strict.DeleteIssuer,
      Strict.GetIssuerByID, Strict.UpdateIssuer, Strict.GetIssuerUsers,
      Strict.GetOwnerOAuthClients, Strict.CreateOAuthClient, Strict.ListGroups,
      Strict.CreateGroup, Strict.ListOwnerIssuers, Strict.CreateIssuer, Strict.GetUserByID,
      Strict.ListUserGroups;
    unfold with_path, with_query, with_body;
    repeat first [rewrite bind_path_run|rewrite bind_query_run|rewrite bound_bind_run|case_match];
    congruence.
Qed.

(** The middleware depends only on what the handler it wraps does. *)
Lemma storageMiddleware_ext (m1 m2 : Context → M ()) ctx w :
  (∀ ctx w, m1 ctx w = m2 ctx w) → storageMiddleware m1 ctx w = storageMiddleware m2 ctx w.
Proof.
  intros Hm. unfold storageMiddleware, mbind, M_bind.
  destruct (on_error _ _ w) as [[newCtx| |] w1]; [|done..].
  unfold attempt. by rewrite Hm.
Qed.

Lemma gate_ext c (m1 m2 : Context → M ()) ctx w :
  (∀ ctx w, m1 ctx w = m2 ctx w) → gate c m1 ctx w = gate c m2 ctx w.
Proof. intros Hm. destruct c; simpl; [done|apply Hm]. Qed.

(** A request that is refused inside the transaction, before its handler. *)
Lemma refused_run (next : Context → M ()) ctx w err :
  (∀ ctx w, next ctx w = (Err err, w)) →
  let w' := (on_error (storageMiddleware next ctx) write_error (set_responded None w)).2 in
  responded w' = Some (match sql_fault (tick w) with
                       | Some f => echo_status (HTTPErrorOf 502 f)
                       | None => echo_status err
                       end) ∧
  committed w' = committed w ∧ trace w' = trace w.
Proof.
  intros Hnext. cbv zeta. destruct (sql_fault (tick w)) as [f|] eqn:Hf.
  - assert (storageMiddleware next ctx (set_responded None w) =
      (Err (HTTPErrorOf 502 f), next_tick (set_responded None w))) as Hm.
    { unfold storageMiddleware. erewrite bind_Err; [done|]. erewrite on_error_Err; [done|].
      unfold BeginContext, beginTxContext. simpl. by rewrite Hf. }
    by rewrite (on_error_Err _ _ _ _ _ Hm).
  - pose proof (begin_run ctx w Hf) as Hb. set (newCtx := (begun ctx w).1) in *.
    set (w1 := (begun ctx w).2) in *.
    destruct (middleware_error newCtx err w1 _ (write_status_run _ _)) as (e' & Hm & _).
    erewrite handler_after; [| |].
    2:{ unfold storageMiddleware. rewrite (bind_Ok _ _ _ _ _ (on_error_Ok _ _ _ _ _ Hb)).
        rewrite (bind_Ok _ _ _ _ _ (attempt_Err _ _ _ _ (Hnext _ _))). exact Hm. }
    + rewrite (rollback_response _ _), rollback_committed, rollback_trace.
      by rewrite wrote_status_fresh.
    + rewrite (rollback_response newCtx). apply wrote_responded.
Qed.

Section chain.
Context (h : APIHandler) (validate allow : HttpRequest → option error).
Context `{!GatedHandler h validate allow}.

(** The chain of middleware around a handler. *)
Lemma chain_run r (next : Context → M ()) ctx w :
  apply_middleware (Routes h r) next ctx w =
  gate (validate r) (storageMiddleware (gate (allow r) next)) ctx w.
Proof using Type*.
  unfold Routes. simpl. rewrite validation_gates. apply gate_ext. intros ctx' w'.
  apply storageMiddleware_ext. intros ctx'' w''. unfold apply_middleware.
  rewrite foldr_app. change (foldr (λ (m : Middleware) (h0 : Context → M ()), m h0) next
    ((λ m : HttpRequest → Middleware, m r) <$> ah_middleware h))
    with (apply_middleware ((λ m, m r) <$> ah_middleware h) next).
  destruct (ah_auditMiddleware h) as [audit|] eqn:Ha; simpl;
    rewrite ?(audit_transparent audit) by done; apply middleware_gates.
Qed.

(** C8: an HTTP request of the API means what its path, query and body say. A
    request that the validation refuses is answered with its error before a
    transaction is begun; one that is refused later, by the permissions
    middleware or because a parameter or the body does not bind, is answered
    with that error, and writes, publishes and asks nothing; any other does
    exactly what the decoded request does. *)
Theorem serve_http_refines r op params ctx w :
  let w' := (serve_http h r op params ctx w).2 in
  let refused err :=
    responded w' = Some (match sql_fault (tick w) with
                         | Some f => echo_status (HTTPErrorOf 502 f)
                         | None => echo_status err
                         end) ∧
    committed w' = committed w ∧ trace w' = trace w in
  match validate r, allow r, decode op {| ec_Params := params; ec_Request := r |} with
  | Some err, _, _ => w' = set_responded (Some (echo_status err)) w
  | None, Some err, _ => refused err
  | None, None, inl err => refused err
  | None, None, inr req => w' = (serve req ctx w).2
  end.
Proof using Type*.
  cbv zeta. set (e := {| ec_Params := params; ec_Request := r |}).
  assert (∀ m1 m2 : M (), (∀ w, m1 w = m2 w) →
    ∀ w, on_error m1 write_error w = on_error m2 write_error w) as Hext.
  { intros m1 m2 Hm w0. unfold on_error, attempt, mbind, M_bind. by rewrite Hm. }
  unfold serve_http. fold e. rewrite (Hext _ _ (chain_run r (wrapper op e) ctx)).
  destruct (validate r) as [err|]; [done|]. simpl.
  destruct (allow r) as [err|]; [by apply refused_run|].
  destruct (decode op e) as [err|req] eqn:Hd.
  - apply refused_run. intros ctx' w'. simpl. by rewrite wrapper_decode, Hd.
  - unfold serve, ServeHTTP. erewrite Hext; [done|]. intros w'. apply storageMiddleware_ext.
    intros ctx' w''. simpl. by rewrite wrapper_decode, Hd.
Qed.
End chain.
End served.

(** ** Reaching an operation *)

Section reach.
Context {R : EchoRouter} `{!EchoRouterLaws R} {E : Env} {C : CEL} {H : Hasher} {Ec : Echo}.
Context {Ev : EventService} {B : Binding} `{!BindingLaws B}.

(** A body is bound from its text. *)
Lemma bind_body {T} (fields : list (string * decoder T)) zero v b r :
  hr_ContentType r = "application/json" ∧ hr_Body r = Marshal v ∧ utf8 v →
  printable max_depth v = true → dec_struct fields v zero = Some b →
  Bind zero (Decode fields) r = inr b.
Proof using Type*.
  intros (Hct & Hb & Hv) Hp Hd. pose proof (Bind_json zero (Decode fields) r) as Hbind.
  pose proof (Decode_Marshal fields v zero b "" Hp Hv I Hd) as Hdec.
  assert (Marshal v +:+ "" = Marshal v) as Hnil.
  { apply to_bytes_inj. by rewrite to_bytes_app, app_nil_r. }
  rewrite Hnil in Hdec. rewrite Hb, Hdec in Hbind. apply Hbind; [|done].
  intros Hm%(f_equal to_bytes). unfold Marshal in Hm. rewrite to_of_bytes in Hm.
  destruct (print_first _ v [] Hp) as (c & rest & Hc & _). rewrite app_nil_r in Hc. by rewrite Hc in Hm.
Qed.

Lemma bodies_bound r req : carries r req →
  match req with
  | ReqUpdateGroup _ b => Bind_UpdateGroup r = inr b
  | ReqAddGroupMembers _ b | ReqReplaceGroupMembers _ b => Bind_AddGroupMembers r = inr b
  | ReqUpdateIssuer _ b => Bind_IssuerUpdate r = inr b
  | ReqCreateOAuthClient _ b => Bind_CreateOAuthClient r = inr b
  | ReqCreateGroup _ b => Bind_CreateGroup r = inr b
  | ReqCreateIssuer _ b => Bind_CreateIssuer r = inr b
  | _ => True
  end.
Proof using Type*.
  destruct printable_bodies_of_requests as (Hp1 & Hp2 & Hp3 & Hp4 & Hp5 & Hp6).
  destruct req; try done; intros Hc; (eapply bind_body; [exact Hc|done|]);
    first [apply dec_AddGroupMembers|apply dec_CreateGroup|apply dec_UpdateGroup
          |apply dec_CreateIssuer|apply dec_IssuerUpdate|apply dec_CreateOAuthClient].
Qed.

(** The texts of the path parameters of a request, from which the runtime binds
    its identifiers. *)
Definition texts_bind (req : request) (texts : list string) : Prop :=
  Forall2 (λ nt id, BindStyledParameter nt.1 nt.2 = inr id)
    (zip (path_names (op_of req)) texts) (path_ids req).

(** The route of an operation matches its path, with the parameters' texts. *)
Lemma route_of op texts :
  length texts = length (path_names op) → Forall (λ t, slash ∉ to_bytes t) texts →
  ∃ r, r ∈ RegisterHandlers ∧ rt_method r = (op_line op texts).1 ∧ rt_handler r = op ∧
    match_path (rt_path r) (op_path op texts) = Some (zip (path_names op) texts).
Proof using.
  intros Hlen Htexts. unfold match_path, op_path. rewrite split_on_Join; [|done|].
  2:{ destruct op, texts as [|t [|t' [|]]]; try done; rewrite ?Forall_cons in *; simpl;
      rewrite ?Forall_cons; split_and!; first [tauto|by apply (bool_decide_unpack _)|apply Forall_nil_2]. }
  destruct op, texts as [|t [|t' [|]]]; try done; clear; simpl.
  all: match goal with |- context [rt_handler _ = ?op] =>
    let r := eval vm_compute in (head (filter (λ r, rt_handler r = op) RegisterHandlers)) in
    match r with Some ?r => exists r end end.
  all: split; [unfold RegisterHandlers, RegisterHandlersWithBaseURL; solve [repeat constructor]|].
  all: split_and!; [done..|reflexivity].
Qed.

Lemma decode_bound http req texts :
  texts_bind req texts → carries http req → length texts = length (path_names (op_of req)) →
  decode (op_of req) {| ec_Params := zip (path_names (op_of req)) texts; ec_Request := http |} = inr req.
Proof using Type*.
  intros Hbind Hcarries Hlen. pose proof (bodies_bound http req Hcarries) as Hbody.
  unfold texts_bind in Hbind. destruct req, texts as [|t [|t' [|]]]; try done; simpl in Hbind;
    rewrite ?Forall2_cons in Hbind.
  all: cbn -[request_body] in *; unfold with_path, with_query, with_body; cbn -[request_body] in *.
  all: repeat match goal with |- context [Param ?e ?n] =>
    let v := eval vm_compute in (Param e n) in change (Param e n) with v end.
  all: first [destruct Hbind as (-> & -> & _)|destruct Hbind as [-> _]].
  all: lazymatch type of Hbody with
    | True => lazymatch goal with
      | p : PageParams |- _ => destruct Hcarries as [-> ->]; by destruct p
      | _ => done
      end
    | _ => by rewrite Hbody
    end.
Qed.

(** What a pattern matches is the pattern with the values of its parameters. *)
Fixpoint fill (pat vals : list string) : list string :=
  match pat with
  | [] => []
  | a :: pat =>
    if is_param a then nth 0 vals "" :: fill pat (tail vals) else a :: fill pat vals
  end.
Lemma match_segs_fill pat path ps : match_segs pat path = Some ps → path = fill pat ps.*2.
Proof using.
  revert path ps. induction pat as [|a pat IH]; intros [|s path] ps; simpl; try done.
  unfold is_param. destruct (param_name a) as [name|].
  - intros (ps' & Hps & ->)%fmap_Some. rewrite bool_decide_true by eauto. simpl. by rewrite <-(IH path).
  - case_decide as Hs; [|done]. subst s. intros Hps. rewrite bool_decide_false by (by intros []).
    by rewrite <-(IH path).
Qed.

Lemma route_line r vals : r ∈ RegisterHandlers →
  rt_method r = (op_line (rt_handler r) vals).1 ∧
  fill (split_on slash (rt_path r)) vals = "" :: "api" :: "v1" :: (op_line (rt_handler r) vals).2.
Proof using.
  assert (Forall (λ r, rt_method r = (op_line (rt_handler r) vals).1 ∧
    fill (split_on slash (rt_path r)) vals = "" :: "api" :: "v1" :: (op_line (rt_handler r) vals).2)
    RegisterHandlers) as Hall.
  { destruct vals as [|v [|v' vals]]; repeat (apply Forall_cons; split; [by vm_compute|]); apply Forall_nil_2. }
  intros Hr. by rewrite Forall_forall in Hall; apply Hall.
Qed.

(** C17: every operation of the API is reached at its documented address, and
    only there. No two of the routes that the server registers match the same
    method and path, so the router's answer depends on no order of them. What
    the router finds for any method and path is an operation with this method
    and this path, the parameters' texts in their places. And an HTTP request
    with the method and the path of an operation is decoded to exactly the
    request [req], when the texts in its path are not empty and hold no slash,
    when the runtime binds them, under the names of the operation's parameters,
    to the identifiers of [req], unescaping them as it does, and its query to
    the page of [req] if that is a list; and when its body is the JSON text of
    the body of [req], whose strings are UTF-8. *)
Theorem http_roundtrip :
  (∀ r1 r2 path, r1 ∈ RegisterHandlers → r2 ∈ RegisterHandlers → rt_method r1 = rt_method r2 →
     is_Some (match_path (rt_path r1) path) → is_Some (match_path (rt_path r2) path) → r1 = r2) ∧
  (∀ method path op ps, Find RegisterHandlers method path = Some (op, ps) →
     method = (op_line op ps.*2).1 ∧ path = op_path op ps.*2) ∧
  ∀ http req texts,
    hr_Method http = (op_line (op_of req) texts).1 → hr_Path http = op_path (op_of req) texts →
    length texts = length (path_names (op_of req)) →
    Forall (λ t, t ≠ "" ∧ slash ∉ to_bytes t) texts → texts_bind req texts → carries http req →
    ∃ ps, Find RegisterHandlers (hr_Method http) (hr_Path http) = Some (op_of req, ps) ∧
      decode (op_of req) {| ec_Params := ps; ec_Request := http |} = inr req.
Proof using Type*.
  assert (∀ r1 r2 path, r1 ∈ RegisterHandlers → r2 ∈ RegisterHandlers → rt_method r1 = rt_method r2 →
    is_Some (match_path (rt_path r1) path) → is_Some (match_path (rt_path r2) path) → r1 = r2) as Hone.
  { intros r1 r2 path. by apply apart_unambiguous, RegisterHandlers_apart. }
  split_and!; [exact Hone| |].
  - intros method path op ps (r & Hr & <- & Hm%match_segs_fill & <-)%Find_sound.
    destruct (route_line r ps.*2 Hr) as [Hmeth Hfill]. split; [done|]. unfold op_path.
    by rewrite <-Hfill, <-Hm, Join_split_on.
  - intros http req texts -> -> Hlen Htexts Hbind Hcarries.
    destruct (route_of (op_of req) texts) as (r & Hr & <- & Hop & Hm); [done| |].
    { eapply Forall_impl; [exact Htexts|]. by intros t [_ ?]. }
    exists (zip (path_names (op_of req)) texts). split; [|by apply decode_bound].
    rewrite <-Hop at 2. apply Find_complete; [done..| |by eauto].
    assert (Forall (λ t, t ≠ "") (zip (path_names (op_of req)) texts).*2) as Hne; [|by rewrite Forall_fmap in Hne].
    rewrite snd_zip by lia. eapply Forall_impl; [exact Htexts|]. by intros t [? _].
Qed.
End reach.

(** ** Samples *)

(** A router that tries the routes in their order. *)
Fixpoint first_match {H : Type} (rs : list (Route H)) (m p : string)
    : option (H * list (string * string)) :=
  match rs with
  | [] => None
  | r :: rs =>
    match (if decide (rt_method r = m) then match_path (rt_path r) p else None) with
    | Some ps => Some (rt_handler r, ps)
    | None => first_match rs m p
    end
  end.
Definition first_router : EchoRouter := {| Find := @first_match |}.

#[global] Instance first_router_laws : EchoRouterLaws first_router.
Proof.
  split; intros H rs.
  - induction rs as [|r rs IH]; intros m p h ps; [done|]. cbn [Find first_router first_match].
    case_decide as Hm; [destruct (match_path _ p) eqn:Hp|].
    + intros [= <- <-]. exists r. split_and!; [left|done..].
    + intros (r' & ? & ?)%IH. exists r'. split; [by right|done].
    + intros (r' & ? & ?)%IH. exists r'. split; [by right|done].
  - intros r p ps Hr Hm _ Hone. cbn [Find first_router].
    induction rs as [|r' rs IH]; [by apply elem_of_nil in Hr|]. cbn [first_match].
    case_decide as Hmeth; [destruct (match_path (rt_path r') p) eqn:Hp|].
    + assert (r' = r) as -> by (apply Hone; [left|done|by eexists]). congruence.
    + apply IH; [|intros ? ?; apply Hone; by right].
      apply elem_of_cons in Hr as [->|Hr]; [congruence|done].
    + apply IH; [|intros ? ?; apply Hone; by right].
      apply elem_of_cons in Hr as [->|Hr]; [congruence|done].
Qed.

(** Identifiers are bound as they are, and a body when it is JSON. *)
Definition plain_binding : Binding := {|
  BindStyledParameter name s :=
    if decide (s = "") then inl (ExtError "parameter is required") else inr s;
  BindQueryParameter_cursor q :=
    match q !! "cursor" with Some (c :: _) => inr (Some c) | _ => inr None end;
  BindQueryParameter_limit q :=
    match q !! "limit" with
    | None => inr None
    | Some _ => inl (ExtError "not an integer")
    end;
  Bind T zero dec r :=
    if decide (hr_Body r = "") then inr zero
    else if decide (hr_ContentType r = "application/json") then
      match dec (hr_Body r) zero with
      | Ok t => inr t
      | Err e => inl (HTTPErrorOf 400 e)
      | Panic s => inl (ExtError s)
      end
    else inl (HTTPError 415 "Unsupported Media Type");
|}.

#[global] Instance plain_binding_laws : BindingLaws plain_binding.
Proof.
  split; intros T zero dec r Hb; cbn [Bind plain_binding].
  - by rewrite decide_True.
  - intros Hct. rewrite decide_False, decide_True by done. destruct (dec _ _); [done|by eexists|done].
Qed.

(** A handler whose validation asks for a path and whose further middleware
    refuses a method. *)
Definition sample_validate (r : HttpRequest) : option error :=
  if decide (hr_Path r = "") then Some (HTTPError 404 "no matching operation") else None.
Definition sample_allow (r : HttpRequest) : option error :=
  if decide (hr_Query r !! "token" = None) then None else Some (HTTPError 401 "unauthorized").
Definition sample_handler : APIHandler := {|
  ah_validationMiddleware r := gate (sample_validate r);
  ah_auditMiddleware := Some (λ _ next, next);
  ah_middleware := [λ r, gate (sample_allow r)];
|}.

#[global] Instance sample_handler_gated : GatedHandler sample_handler sample_validate sample_allow.
Proof. split; [done| |done]. by intros a r next ctx w [= <-]. Qed.

(** A request to rename the group that [rename_users] is about. *)
Definition rename_http : HttpRequest :=
  {| hr_Method := "PATCH"; hr_Path := "/api/v1/groups/idntgrp-2"; hr_Query := ∅;
     hr_ContentType := "application/json";
     hr_Body := Marshal (JObject [("name", JString "everyone")]) |}.

Lemma http_roundtrip_witness :
  EchoRouterLaws first_router ∧
  (∃ ps, Find (EchoRouter:=first_router) RegisterHandlers "PATCH" "/api/v1/groups/idntgrp-2" =
       Some (OpUpdateGroup, ps) ∧
     decode (H4:=plain_binding) OpUpdateGroup {| ec_Params := ps; ec_Request := rename_http |} =
       inr rename_users) ∧
  op_path OpUpdateGroup ["idntgrp-2"] = "/api/v1/groups/idntgrp-2".
Proof.
  destruct (http_roundtrip (R:=first_router) (B:=plain_binding)) as (_ & Honly & Hthere).
  split_and!; [apply first_router_laws|..].
  - apply (Hthere rename_http rename_users ["idntgrp-2"]); [reflexivity..| | |].
    + apply Forall_cons; split; [split; by apply (bool_decide_unpack _)|apply Forall_nil_2].
    + apply Forall2_cons. split; [reflexivity|apply Forall2_nil_2].
    + split_and!; by vm_compute.
  - symmetry. exact (proj2 (Honly "PATCH" "/api/v1/groups/idntgrp-2" OpUpdateGroup
      [("groupID", "idntgrp-2")] eq_refl)).
Defined.

(** The HTTP request does what the decoded one does; with a body that
    is not JSON it is answered 400. *)
Lemma serve_http_refines_witness :
  let serve_it r := serve_http (H:=quiet_env) (H0:=claim_cel) (H1:=plain_hasher) (H2:=quiet_echo)
    (H3:=quiet_events) (H4:=plain_binding) sample_handler r OpUpdateGroup
    [("groupID", "idntgrp-2")] ctx_none (world_of sample_DB) in
  (serve_it rename_http).2 = (serve (H:=quiet_env) (H0:=claim_cel) (H1:=plain_hasher)
    (H2:=quiet_echo) (H3:=quiet_events) rename_users ctx_none (world_of sample_DB)).2 ∧
  responded (serve_it {| hr_Method := "PATCH"; hr_Path := "/api/v1/groups/idntgrp-2";
                         hr_Query := ∅;
        hr_ContentType := "application/json"; hr_Body := "{" |}).2 = Some 400%Z.
Proof.
  split.
  - exact (serve_http_refines (E:=quiet_env) (C:=claim_cel) (H:=plain_hasher) (Ec:=quiet_echo)
      (Ev:=quiet_events) (B:=plain_binding) sample_handler sample_validate sample_allow
      rename_http OpUpdateGroup [("groupID", "idntgrp-2")] ctx_none (world_of sample_DB)).
  - pose proof (serve_http_refines (E:=quiet_env) (C:=claim_cel) (H:=plain_hasher) (Ec:=quiet_echo)
      (Ev:=quiet_events) (B:=plain_binding) sample_handler sample_validate sample_allow
      {| hr_Method := "PATCH"; hr_Path := "/api/v1/groups/idntgrp-2"; hr_Query := ∅;
        hr_ContentType := "application/json"; hr_Body := "{" |}
      OpUpdateGroup [("groupID", "idntgrp-2")] ctx_none (world_of sample_DB)) as Hr.
    exact (proj1 Hr).
Defined.
