(* ===== verification/Responses.v ===== *)
(** The responses of the strict server, [internal/api/httpsrv/server.gen.go]: the
    body that each operation writes, and the schema that [openapi-v1.yaml] gives
    for it. *)
From S2P Require Import Prelude GoStrings Errors Query Utf8 JsonText Pagination V1 ListQuery World.
From S2P Require Import Frame Run Cel Types Storage ClientStore Events Http Server Consistency Json.

(** ** Writing responses *)

(** What a response object writes: the header, the status and the body. *)
Record written_response : Type := {
  wr_ContentType : string;
  wr_Status : Z;
  wr_Body : string;
}.
Definition write_json (body : json) : written_response :=
  {| wr_ContentType := "application/json"; wr_Status := 200; wr_Body := Encode body |}.

(** The response objects, one per operation. *)
Definition VisitDeleteOAuthClientResponse (response : bool) : written_response :=
  write_json (json_DeleteResponse response).
Definition VisitGetOAuthClientResponse (response : v1_OAuthClient) : written_response :=
  write_json (json_OAuthClient response).
Definition VisitDeleteGroupResponse (response : bool) : written_response :=
  write_json (json_DeleteResponse response).
Definition VisitGetGroupByIDResponse (response : v1_Group) : written_response :=
  write_json (json_Group response).
Definition VisitUpdateGroupResponse (response : v1_Group) : written_response :=
  write_json (json_Group response).
Definition VisitListGroupMembersResponse (response : v1_GroupMemberCollection) : written_response :=
  write_json (json_GroupMemberCollection response).
Definition VisitAddGroupMembersResponse (response : bool) : written_response :=
  write_json (json_AddGroupMembersResponse response).
Definition VisitReplaceGroupMembersResponse (response : bool) : written_response :=
  write_json (json_AddGroupMembersResponse response).
Definition VisitRemoveGroupMemberResponse (response : bool) : written_response :=
  write_json (json_DeleteResponse response).
Definition VisitDeleteIssuerResponse (response : bool) : written_response :=
  write_json (json_DeleteResponse response).
Definition VisitGetIssuerByIDResponse (response : v1_Issuer) : written_response :=
  write_json (json_Issuer response).
Definition VisitUpdateIssuerResponse (response : v1_Issuer) : written_response :=
  write_json (json_Issuer response).
Definition VisitGetIssuerUsersResponse (response : v1_UserCollection) : written_response :=
  write_json (json_UserCollection response).
Definition VisitGetOwnerOAuthClientsResponse (response : v1_OAuthClientCollection) : written_response :=
  write_json (json_OAuthClientCollection response).
Definition VisitCreateOAuthClientResponse (response : v1_OAuthClient) : written_response :=
  write_json (json_OAuthClient response).
Definition VisitListGroupsResponse (response : v1_GroupCollection) : written_response :=
  write_json (json_GroupCollection response).
Definition VisitCreateGroupResponse (response : v1_Group) : written_response :=
  write_json (json_Group response).
Definition VisitListOwnerIssuersResponse (response : v1_IssuerCollection) : written_response :=
  write_json (json_IssuerCollection response).
Definition VisitCreateIssuerResponse (response : v1_Issuer) : written_response :=
  write_json (json_Issuer response).
Definition VisitGetUserByIDResponse (response : v1_User) : written_response :=
  write_json (json_User response).
Definition VisitListUserGroupsResponse (response : v1_GroupIDCollection) : written_response :=
  write_json (json_GroupIDCollection response).

(** The type assertion of the strict server: a response of another operation is
    refused. *)
Definition visit (req : request) (resp : response) : option written_response :=
  match req, resp with
  | ReqDeleteOAuthClient _, RespSuccess r => Some (VisitDeleteOAuthClientResponse r)
  | ReqGetOAuthClient _, RespClient r => Some (VisitGetOAuthClientResponse r)
  | ReqDeleteGroup _, RespSuccess r => Some (VisitDeleteGroupResponse r)
  | ReqGetGroupByID _, RespGroup r => Some (VisitGetGroupByIDResponse r)
  | ReqUpdateGroup _ _, RespGroup r => Some (VisitUpdateGroupResponse r)
  | ReqListGroupMembers _ _, RespMembers r => Some (VisitListGroupMembersResponse r)
  | ReqAddGroupMembers _ _, RespSuccess r => Some (VisitAddGroupMembersResponse r)
  | ReqReplaceGroupMembers _ _, RespSuccess r => Some (VisitReplaceGroupMembersResponse r)
  | ReqRemoveGroupMember _ _, RespSuccess r => Some (VisitRemoveGroupMemberResponse r)
  | ReqDeleteIssuer _, RespSuccess r => Some (VisitDeleteIssuerResponse r)
  | ReqGetIssuerByID _, RespIssuer r => Some (VisitGetIssuerByIDResponse r)
  | ReqUpdateIssuer _ _, RespIssuer r => Some (VisitUpdateIssuerResponse r)
  | ReqGetIssuerUsers _ _, RespUsers r => Some (VisitGetIssuerUsersResponse r)
  | ReqGetOwnerOAuthClients _ _, RespClients r => Some (VisitGetOwnerOAuthClientsResponse r)
  | ReqCreateOAuthClient _ _, RespClient r => Some (VisitCreateOAuthClientResponse r)
  | ReqListGroups _ _, RespGroups r => Some (VisitListGroupsResponse r)
  | ReqCreateGroup _ _, RespGroup r => Some (VisitCreateGroupResponse r)
  | ReqListOwnerIssuers _ _, RespIssuers r => Some (VisitListOwnerIssuersResponse r)
  | ReqCreateIssuer _ _, RespIssuer r => Some (VisitCreateIssuerResponse r)
  | ReqGetUserByID _, RespUser r => Some (VisitGetUserByIDResponse r)
  | ReqListUserGroups _ _, RespGroupIDs r => Some (VisitListUserGroupsResponse r)
  | _, _ => None
  end.

(** The schema of the 200 response of an operation in [openapi-v1.yaml]. *)
Definition schema_of (req : request) : schema :=
  match req with
  | ReqDeleteOAuthClient _ | ReqDeleteGroup _ | ReqRemoveGroupMember _ _ | ReqDeleteIssuer _ =>
    schema_DeleteResponse
  | ReqGetOAuthClient _ | ReqCreateOAuthClient _ _ =>
    schema_OAuthClient
  | ReqGetGroupByID _ | ReqUpdateGroup _ _ | ReqCreateGroup _ _ =>
    schema_Group
  | ReqListGroupMembers _ _ =>
    schema_GroupMemberCollection
  | ReqAddGroupMembers _ _ | ReqReplaceGroupMembers _ _ =>
    schema_AddGroupMembersResponse
  | ReqGetIssuerByID _ | ReqUpdateIssuer _ _ | ReqCreateIssuer _ _ =>
    schema_Issuer
  | ReqGetIssuerUsers _ _ =>
    schema_collection "users" schema_User
  | ReqGetOwnerOAuthClients _ _ =>
    schema_collection "clients" schema_OAuthClient
  | ReqListGroups _ _ =>
    schema_collection "groups" schema_Group
  | ReqListOwnerIssuers _ _ =>
    schema_collection "issuers" schema_Issuer
  | ReqGetUserByID _ =>
    schema_User
  | ReqListUserGroups _ _ =>
    schema_collection "group_ids" TString
  end.

(** What the document does not foresee: a group has no property [owner], the
    members of an empty group are null, and so is an empty cursor, which a page
    has whose last item has an empty identifier. *)
Definition next_ok (p : v1_Pagination) : bool := bool_decide (page_Next p ≠ Some "").
Definition foreseen (resp : response) : bool :=
  match resp with
  | RespGroup _ => false
  | RespGroups c => bool_decide (gc_Groups c = []) && next_ok (gc_Pagination c)
  | RespMembers c => bool_decide (gmc_MemberIDs c ≠ []) && next_ok (gmc_Pagination c)
  | RespGroupIDs c => next_ok (gic_Pagination c)
  | RespIssuers c => next_ok (ic_Pagination c)
  | RespClients c => next_ok (occ_Pagination c)
  | RespUsers c => next_ok (uc_Pagination c)
  | RespIssuer _ | RespClient _ | RespUser _ | RespSuccess _ => true
  end.

(** ** Properties *)

Section properties.
Context {E : Env} {C : CEL} {H : Hasher} {Ec : Echo} {Ev : EventService}.

Lemma respond_Ok {A} (f : A → response) (m : M A) w resp w' :
  respond f m w = (Ok resp, w') → ∃ a, resp = f a.
Proof. intros (a & w1 & _ & Hret)%bind_inv. injection Hret as <- _. by exists a. Qed.

(** An operation answers with its own kind of response. *)
Lemma handle_visit req ctx w resp w' :
  handle req ctx w = (Ok resp, w') →
  ∃ body, visit req resp = Some (write_json body) ∧ valid (schema_of req) body = foreseen resp ∧
    printable max_depth body = true.
Proof.
  destruct req; cbn [handle]; intros [a ->]%respond_Ok; eexists; (split; [reflexivity|]);
    cbn [foreseen schema_of]; (split; [|auto with printable]);
    lazymatch goal with
    | |- valid schema_Group _ = _ => apply valid_Group
    | |- valid schema_Issuer _ = _ => apply valid_Issuer
    | |- valid schema_OAuthClient _ = _ => apply valid_OAuthClient
    | |- valid schema_User _ = _ => apply valid_User
    | |- valid schema_DeleteResponse _ = _ => reflexivity
    | |- valid schema_AddGroupMembersResponse _ = _ => reflexivity
    | |- valid schema_GroupMemberCollection _ = _ => apply valid_GroupMemberCollection
    | |- valid (schema_collection _ schema_Group) _ = _ => apply valid_GroupCollection
    | |- valid (schema_collection _ TString) _ = _ => apply valid_GroupIDCollection
    | |- valid (schema_collection _ schema_Issuer) _ = _ => apply valid_IssuerCollection
    | |- valid (schema_collection _ schema_OAuthClient) _ = _ => apply valid_OAuthClientCollection
    | |- valid (schema_collection _ schema_User) _ = _ => apply valid_UserCollection
    end.
Qed.

(** C23: every successful response is the JSON text of its operation's body, with
    status 200, which a client reads back up to bytes that are not UTF-8; and the
    body is valid for the schema that the API's document gives for it, except
    that no group is, because the document requires a property [owner] that
    groups do not have ([owner_id] is described), that the members of a group
    without any are null instead of an empty array, and that a cursor for an
    empty identifier is null. *)
Theorem responses_conform req ctx w resp w' :
  handle req ctx w = (Ok resp, w') →
  ∃ out body, visit req resp = Some out ∧ wr_Status out = 200%Z ∧
    wr_ContentType out = "application/json" ∧
    parse_first (wr_Body out) = Some (coerce body) ∧ valid (schema_of req) body = foreseen resp.
Proof.
  intros (body & Hv & Hb & Hp)%handle_visit. exists (write_json body), body.
  split_and!; [done..| |done]. by apply parse_first_Encode.
Qed.
End properties.

(** ** At a concrete input *)

(** The members of a group without any. *)
Definition empty_group_DB : DB := with_members (λ _, ∅) sample_DB.
Definition list_members : request :=
  ReqListGroupMembers "idntgrp-1" {| pp_Cursor := None; pp_Limit := None |}.
Definition listed : result response * World :=
  handle (H:=quiet_env) (H0:=claim_cel) (H1:=plain_hasher) (H2:=quiet_echo) (H3:=quiet_events)
    list_members ctx_0 (world_in_tx empty_group_DB).

Lemma responses_conform_witness :
  ∃ resp w' out body, listed = (Ok resp, w') ∧ visit list_members resp = Some out ∧
    parse_first (wr_Body out) = Some (coerce body) ∧ valid (schema_of list_members) body = false.
Proof.
  assert (is_Ok listed.1 = true) as [resp Hresp]%is_Ok_true by (vm_compute; reflexivity).
  assert (listed = (Ok resp, listed.2)) as Hl by (rewrite <-Hresp; apply surjective_pairing).
  destruct (responses_conform (E:=quiet_env) (C:=claim_cel) (H:=plain_hasher) (Ec:=quiet_echo)
    (Ev:=quiet_events) list_members ctx_0 (world_in_tx empty_group_DB) resp listed.2 Hl)
    as (out & body & Hv & _ & _ & Hparse & Hvalid).
  exists resp, listed.2, out, body. split; [exact Hl|]. split; [exact Hv|]. split; [exact Hparse|].
  rewrite Hvalid.
  assert (match listed.1 with Ok resp => foreseen resp | _ => true end = false) as Hf
    by (vm_compute; reflexivity).
  rewrite Hresp in Hf. exact Hf.
Defined.
