(* ===== verification/Swagger.v ===== *)
(** The API document that is embedded in [pkg/api/v1/types.gen.go]: how it is
    unpacked and loaded, and that it describes the API as it is served. *)
From S2P Require Import Prelude GoStrings Errors Base64 Query Utf8 JsonText Inflate Gzip.
From S2P Require Import V1 World Json Bodies Server Responses Wrapper.

(** ** Unpacking *)

(** Base64 encoded, gzipped, JSON marshaled. *)
Definition swaggerSpec : list string := [
   "H4sIAAAAAAAC/+xb3XPbuBH/VzBsH9oZWrTvnuo3x77x6Jo0qRVPbpJ4MhC5kpCQAA8Abase/u8dfPAb";
   "pChZduXUT5ZJYLH72w/sLsAHL2RJyihQKbzTBy/FHCcggev/lpxl6fRC/YxAhJykkjDqnXokQmyBMNID";
   "PN8j6mGK5crzPYoT8E7Lub7H4c+McIi8U8kz8D0RriDBiqhcp2qokJzQped790dLdmQfLkl0P/nAYUHu";
   "IdJ0yrdHJEkZl4ZfuVKD2YTQBceSLTlOV8AnIUuC+0AR8fLczrWcXVrOct8jQmTABySkyAxxy0iiAxRv";
   "WsiU+x67o4PiIQ6CZTwEpEe6pSyIHJ6o7y1nue+leAnnGReMd4WVK0ChfockQ+o/DiKLpVD/cpAZp4Xk";
   "f2bA15XoZpY3VtKQR/P7yXkxaWsxSQRUErk+wikJCJXAKY4DTdXKznBKjkIWwRLoEdxLjo8kXmpnNayX";
   "POcWlLckIbKLSaweiwKMlFEBKGRxDKEaIHrw0LNccChml8C9sUwaQopHkc2/QyiHjNQOcVtnNf/w7HNW";
   "8qbeFDhrIHQQOi8BV49CRiVQvRhO05iEWL0JvgvzuhIm5SwFLglUQVr/IhIS/eOvHBbeqfeXoArugZku";
   "Ar2w0pOVHnOO19aDCMUFM0MkPlQjjVwF6l8KZhrUbsq1mNFjrmY1VY1rxqeUbunkfhGt9wfVNxI10Xqs";
   "bdAsjtt4OnccsV+YtSD7QRopUgXY7yCZA98r4L0wt7bkp3TMRIu1d+2PZ2DAQAzk+7SQmrR+pYY9WYsh";
   "rpk12cZejMVkWuMjmVn6yUJZwc6jMSsI5b73/iyTq/OYAJV7gSzUpMZDVlv/yXAreHo0bppZdG7J5b53";
   "LfZkabvJ6XuZ2MY+FbtdlFtoGZKPxsqQ0fmUWV0xdxZFtYAuujg0Q2JzhemFUIRVgmjdXWXLOIqKHLqs";
   "/XaJpKPDYX9Yu8n9toRXNsPqSiqyMAThEFMliog05bwDDkpSiJCdt8jiWDFpeZ4zFgPumn6ximLtnAOW";
   "YLKtDjsNHh46uq39jxaqaqnB3UQ5L/LgLhH1fNPsFv+aVMW8DbCOqINJ8i1kNCKmWOisfobOf3uL4D7l";
   "IIQaYiottWwoEc7kShU6xlu1WakcX4DU4dIUQQTEV3q3YqouUesJlGRCogTLcKVFqlGfoDdrFMECZ7FE";
   "OI4bNHT4jdB8rWeZYIyw0nAcszvQ9lzjCL5SF8pG5gSnKaGmlMGRER/HHxrodKY2oWkDY0kiyX4ALUSV";
   "DDG5Am7/9zoRwfe+3/0Q3zJOuuD//umfM3R9Ne2I0XQyNUyN6jWhM7TKEkyPOOAIz2NoWlTZF+nI62Tq";
   "+mramjpB75oK/aq23K+ekRnd4lh5JkWEhixRCP3+6aPYIJOWx2XUhqsaapWV1/fEjqnjLCJAQxc69o2q";
   "obFEckUEMlsfCjFFigMQsj8+OrbfXdRglhzv2RcQg4QdAuVZfIfXAql4OdkuEj5DDDQVRnsDK/Yv97RW";
   "1+xi8471mEhre3HfhjnVY7Zh+33ZmxvkvZ3aRkX/xLKl9fQa7g843A/bTU8w3t7EX3eVkbtK3YVaW0vH";
   "evyuC1X+dp1GWMKr170mWS/LHZrdjG0yp0uOqdSyFmPEVmmSKxSaXsEvk2PbL0A62D3Nhn9Ry0zYwi7o";
   "0pGAkIPsYbbG68yM25TD1UNOia4KJB8a7YzmWrU2QXnOU+s1+C2txe7TImU5+hXKBERV8tkl7vke3OMk";
   "jcE7PTn22+dD+niIRyrNOFEAw70cPK8rVlIDFd8N+h7+9O9/fP5jtZr/8UZ8np2sPtOrOCQnx/gy/s/b";
   "T/GPPhN4luO6lvYMsjeOIGN2gEPvFNj+W5dDSDCJu2R/U4+L/CQT7ig27Mpqvf04MnFVNNVCZiceZNZ1";
   "xt6P6b8UohtkF9l8iCd7dljqZQRXdoo7cCgIzKI3WpmELlh3/RmEGSdyjT7qnXIG/JaEgP42+zj7O3qH";
   "KV5CokLW2YcpIgJhqn8pHhP1Uu0gs48zFDK6IMuM6yAjdL1IpHbZngWapD3fuwUuDEvHk+PJiS6gUqA4";
   "Jd6p9+vkePKrbprKlVZsoDzw9iSwvefgwfyYXuRGRFXzql/KbjVP00gHcvW8vov5jQswX9zaCWs7jONA";
   "ulh6b+fReX7TOjz+5fh4q+73UJe61RBw9JpnZQ8U1YYpW0oSrE/zDQ1tDvWmvVK7Pvf/Uk8VTPK7NBtj";
   "UyGXIP/PtdE4oNlFFZcgBVK+zROT+OM5y2SlmSrtmPSrJ/dLjzIH8cGDvc7V8qd2YmTNwB4TztdoeqGW";
   "cbndpd1nWip2gVMNCYpbZS/HJVAhaIH1pbnaUHOCVnqsNLgBwkuQmsybtbbsA8TQXjPZpwkbJCduKFNV";
   "4TgqIp1btfD0EaPx2qQ9mEaNJCrEFM0BZXpe1EW+nqw9DnjdH37DovXeMK/z1so/VcTLD1PdlYp6PWUg";
   "HgVJdbjZ7071073q4mqfd70lQjYOTndWtL9xaO3e4sjR5kJfn/O6CJTjAvf9Hof7NcAaiGApEw7Mz6JI";
   "6dMQMa2nQcDbB9WH5lht/p7ZufpOuXdyN4duhvSbOdR7BWmMzcnXNm5lp71q+pk0XappnDOPCLLBQ3nb";
   "djARvIKE3ULNzBacJXXzkCsgvMdI1NQaCE8ZfKu7wwefT/ZBOkad9gJa8ECiEfXwtOg5DxZf5uzJNvol";
   "Q5bmU38mcUC1MN9YC1t07og0vfcluQVqrb7Q19ReDhyqic0Yd64/rJUlyBeukqLTtosqTCVV6qHcllzY";
   "l/WDK93fzSVMDfFc+O9/L2ycTz7zRvgYtZcFRaF5t857AmRQXvIcdsdrsUv+QqqPsw6sNGhdrnV4kgZG";
   "eZE1cW3Dg7jquyUieLBfkOVB7b5ybwNQjW30o7bFmJVfhR0YxO7b3w6kGa46mxpxcy+oAXino+ouxcwd";
   "t1pr1vZLy+MevSdp+t1krHtBblNLVvMpGUo5uyVCXzxYQXPljEbP9aXhk4XGLjDPHB8f3SfusYtxTeGO";
   "X1ffoDl7MG+JMFdGzDhtfLjX6sr2y0/k+u3P/ZrK2ITP6MZLqVVbamlfG+vnuzU1S8if1NVeWlOzUsSY";
   "Aq3jT7VPoZz7pDIYc/Wz9pHST+Eone/JXGcDRuiejbGR1VsvcZn7Nkk9K/a1UE8tMyD6U+xj9WT7ZaT4";
   "td1rZIqvk9fgQf2xzau+BFQlwmNq7ep2isMCzDovpMY2H6rt9ahOkazrxFRLAxoZk0KIYn+cr3Uxgkjk";
   "zh7Uan0ZxP9SiQeZlTS+re/mJQ7QXXrNy2edmqBQj0CMomrDalylElrcoYnNr0HL6Y0kdRONomYvLrKK";
   "MQuXhlT/Vl14+U3+3wAAAP//sWso8z1HAAA="].

(** [if err != nil { return nil, fmt.Errorf("...: %w", err) }]. *)
Definition wrap_error {A} (text : string) (r : result A) : result A :=
  match r with
  | Err err => Err (Errorf (text +:+ ": " +:+ Error err) err)
  | r => r
  end.
Definition from_base64 (decoded : option bytes) : result bytes :=
  match decoded with Some b => Ok b | None => Err (ExtError "illegal base64 data") end.

Definition decodeSpec : result string :=
  zipped ← wrap_error "error base64 decoding spec"
             (from_base64 (StdEncoding_DecodeString (Join swaggerSpec "")));
  zr ← wrap_error "error decompressing spec" (NewReader zipped);
  buf ← wrap_error "error decompressing spec" (ReadFrom zr);
  Ok (of_bytes buf).
#[global] Opaque decodeSpec.

(** [decodeSpecCached]: decoded once, when the package is initialised. *)
Definition rawSpec : result string := decodeSpec.

Definition PathToRawSpec (pathToFile : string) : gmap string (result string) :=
  if decide (0 < String.length pathToFile) then {[pathToFile := rawSpec]} else ∅.

(** [path.Clean]. *)
Definition clean_segment (rooted : bool) (acc : list string) (seg : string) : list string :=
  if decide (seg = "" ∨ seg = ".") then acc
  else if decide (seg = "..") then
    match acc with
    | [] => if rooted then [] else [".."]
    | prev :: rest => if decide (prev = "..") then ".." :: acc else rest
    end
  else seg :: acc.
Definition Clean (p : string) : string :=
  let rooted := match p with String c _ => bool_decide (c = slash) | EmptyString => false end in
  let s := Join (reverse (foldl (clean_segment rooted) [] (split_on slash p))) "/" in
  if rooted then "/" +:+ s else if decide (s = "") then "." else s.

(** ** Loading

    [openapi3.Loader], whose [LoadFromData] is a parameter. *)
Record Loader : Type := {
  IsExternalRefsAllowed : bool;
  ReadFromURIFunc : string → result string;
}.

Section loading.
Context {Swagger : Type} (LoadFromData : nat → Loader → string → error + Swagger).

Definition swagger_loader : Loader :=
  let resolvePath := PathToRawSpec "" in
  {| IsExternalRefsAllowed := true;
     ReadFromURIFunc url :=
       let pathToFile := Clean url in
       match resolvePath !! pathToFile with
       | None => Err (ExtError ("path not found: " +:+ pathToFile))
       | Some getSpec => getSpec
       end |}.

Definition GetSwagger (n : nat) : result Swagger :=
  specData ← rawSpec;
  match LoadFromData n swagger_loader specData with
  | inl err => Err err
  | inr swagger => Ok swagger
  end.
End loading.
#[global] Opaque rawSpec GetSwagger.

(** ** Reading the document

    What it says of operations, parameters, bodies and responses. *)

Definition get (k : string) (v : json) : option json :=
  match v with JObject fields => lookup_field k fields | _ => None end.
Definition get_string (k : string) (v : json) : option string :=
  match get k v with Some (JString s) => Some s | _ => None end.
Definition strings (v : json) : option (list string) :=
  match v with
  | JArray l => mapM (λ x, match x with JString s => Some s | _ => None end) l
  | _ => None
  end.

(** A reference into the document itself. *)
Definition at_ref (doc : json) (ref : string) : option json :=
  match split_on slash ref with
  | "#" :: keys => foldl (λ v k, v ≫= get k) (Some doc) keys
  | _ => None
  end.
Definition deref (doc v : json) : option json :=
  match get_string "$ref" v with
  | Some ref => at_ref doc ref
  | None => Some v
  end.

Fixpoint read_schema (depth : nat) (doc v : json) : option schema :=
  match depth with
  | O => None
  | S depth =>
    v ← deref doc v;
    match get "type" v with
    | Some (JString "string") => Some TString
    | Some (JString "boolean") => Some TBoolean
    | Some (JString "integer") => Some TInteger
    | Some (JString "array") => items ← get "items" v; TArray <$> read_schema depth doc items
    | Some (JString "object") | None =>
      match get "additionalProperties" v, get "properties" v with
      | Some values, None => TMap <$> read_schema depth doc values
      | None, Some (JObject properties) =>
        ps ← mapM (λ p : string * json, pair p.1 <$> read_schema depth doc p.2) properties;
        required ← match get "required" v with Some r => strings r | None => Some [] end;
        Some (TObject required ps)
      | _, _ => None
      end
    | _ => None
    end
  end.

(** An operation; the path as the router writes it. *)
Record described : Type := {
  d_method : string;
  d_path : string;
  d_operationId : string;
  d_parameters : list (string * string);
  d_body : option schema;
  d_response : schema;
}.

Definition upper_method (m : string) : option string :=
  match m with
  | "delete" => Some "DELETE" | "get" => Some "GET" | "patch" => Some "PATCH"
  | "post" => Some "POST" | "put" => Some "PUT" | _ => None
  end.

(** [{name}] in a path is [:name] for the router. *)
Definition router_segment (seg : string) : string :=
  match seg with
  | String "{" name => String ":" (of_bytes (reverse (drop 1 (reverse (to_bytes name)))))
  | _ => seg
  end.
Definition router_path (p : string) : string := Join (router_segment <$> split_on slash p) "/".

Definition json_content (doc v : json) : option schema :=
  content ← get "content" v; media ← get "application/json" content; s ← get "schema" media;
  read_schema 8 doc s.

Definition read_parameter (doc v : json) : option (string * string) :=
  v ← deref doc v; place ← get_string "in" v; name ← get_string "name" v; Some (place, name).

Definition read_operation (doc : json) (path : string) (m : string * json) : option described :=
  method ← upper_method m.1;
  operationId ← get_string "operationId" m.2;
  parameters ← match get "parameters" m.2 with
               | Some (JArray l) => mapM (read_parameter doc) l
               | Some _ => None
               | None => Some []
               end;
  body ← match get "requestBody" m.2 with
         | Some b => Some <$> json_content doc b
         | None => Some None
         end;
  responses ← get "responses" m.2; ok ← get "200" responses; ok ← deref doc ok;
  response ← json_content doc ok;
  Some {| d_method := method; d_path := router_path path; d_operationId := operationId;
          d_parameters := parameters; d_body := body; d_response := response |}.

Definition read_path (doc : json) (p : string * json) : option (list described) :=
  match p.2 with
  | JObject methods => mapM (read_operation doc p.1) methods
  | _ => None
  end.

Definition read_document (doc : json) : option (list described) :=
  match get "paths" doc with
  | Some (JObject paths) => (λ l, concat l) <$> mapM (read_path doc) paths
  | _ => None
  end.

(** The references of a document. *)
Fixpoint refs (v : json) : list string :=
  match v with
  | JObject fields =>
    concat ((λ kv, (if decide (kv.1 = "$ref") then match kv.2 with JString s => [s] | _ => [] end else [])
                     ++ refs kv.2) <$> fields)
  | JArray l => concat (refs <$> l)
  | _ => []
  end.

(** The document of a text, and what it describes. *)
Definition read_text (text : string) : option (json * list described) :=
  doc ← parse text; ops ← read_document doc; Some (doc, ops).

(** What the document of this version describes. *)
Definition described_by (spec : result string) : list described :=
  match spec with
  | Ok text => match read_text text with Some (_, ops) => ops | None => [] end
  | _ => []
  end.
Definition api_description : list described := Eval vm_compute in described_by decodeSpec.

(** *** What the server offers *)

(** The name of an operation in the document. *)
Definition operationId (op : operation) : string :=
  match op with
  | OpDeleteOAuthClient => "DeleteOAuthClient" | OpGetOAuthClient => "GetOAuthClient"
  | OpDeleteGroup => "DeleteGroup" | OpGetGroupByID => "GetGroupByID" | OpUpdateGroup => "UpdateGroup"
  | OpListGroupMembers => "ListGroupMembers" | OpAddGroupMembers => "AddGroupMembers"
  | OpReplaceGroupMembers => "ReplaceGroupMembers" | OpRemoveGroupMember => "RemoveGroupMember"
  | OpDeleteIssuer => "DeleteIssuer" | OpGetIssuerByID => "GetIssuerByID"
  | OpUpdateIssuer => "UpdateIssuer" | OpGetIssuerUsers => "GetIssuerUsers"
  | OpGetOwnerOAuthClients => "GetOwnerOAuthClients" | OpCreateOAuthClient => "CreateOAuthClient"
  | OpListGroups => "ListGroups" | OpCreateGroup => "CreateGroup"
  | OpListOwnerIssuers => "ListOwnerIssuers" | OpCreateIssuer => "CreateIssuer"
  | OpGetUserByID => "GetUserByID" | OpListUserGroups => "ListUserGroups"
  end.

(** The parameters of a request: those that the pattern of its route names, and
    for a list the two of a page. They are those that the wrapper binds:
    [decode_bound] of Wrapper.v decodes every request from them. *)
Definition paged (req : request) : bool :=
  match req with
  | ReqListGroups _ _ | ReqListGroupMembers _ _ | ReqListUserGroups _ _ | ReqListOwnerIssuers _ _
  | ReqGetOwnerOAuthClients _ _ | ReqGetIssuerUsers _ _ => true
  | _ => false
  end.
Definition bound_parameters (r : Route operation) (req : request) : list (string * string) :=
  (pair "path" <$> omap param_name (split_on slash (rt_path r))) ++
  (if paged req then [("query", "cursor"); ("query", "limit")] else []).

(** ** Lemmas *)

(** A schema with its properties by name, as the document has them. *)
Fixpoint insert_property {A} (p : string * A) (ps : list (string * A)) : list (string * A) :=
  match ps with
  | [] => [p]
  | q :: ps => if String.leb p.1 q.1 then p :: q :: ps else q :: insert_property p ps
  end.
Definition sort_properties {A} (ps : list (string * A)) : list (string * A) := foldr insert_property [] ps.
Fixpoint norm (s : schema) : schema :=
  match s with
  | TArray s => TArray (norm s)
  | TMap s => TMap (norm s)
  | TObject required ps => TObject required (sort_properties ((λ p, (p.1, norm p.2)) <$> ps))
  | s => s
  end.

Lemma forallb_insert_property {A} (f : string * A → bool) p ps :
  forallb f (insert_property p ps) = f p && forallb f ps.
Proof.
  induction ps as [|q ps IH]; [done|]. simpl. destruct (String.leb _ _); [done|].
  simpl. rewrite IH. by destruct (f p), (f q).
Qed.

Lemma forallb_sort_properties {A} (f : string * A → bool) ps :
  forallb f (sort_properties ps) = forallb f ps.
Proof. induction ps as [|p ps IH]; [done|]. simpl. by rewrite forallb_insert_property, IH. Qed.

(** The order of the properties does not matter. *)
Lemma valid_norm s v : valid (norm s) v = valid s v.
Proof.
  revert s v. fix IH 1. intros [| | |s|s|required ps] v; [reflexivity..| | |].
  - destruct v; try reflexivity. simpl. induction l as [|v l IHl]; [reflexivity|]. simpl. by rewrite IH, IHl.
  - destruct v as [| | | | |fields]; try reflexivity. simpl.
    induction fields as [|p l IHl]; [reflexivity|]. simpl. by rewrite IH, IHl.
  - destruct v as [| | | | |fields]; try reflexivity. simpl. f_equal. rewrite forallb_sort_properties, forallb_fmap.
    induction ps as [|[k s] ps IHps]; [reflexivity|]. cbn [forallb]. rewrite IHps. f_equal. simpl.
    destruct (lookup_field k fields); [|reflexivity]. apply IH.
Qed.

(** *** The document as it is unpacked *)

Definition is_local (doc : json) (ref : string) : bool := bool_decide (is_Some (at_ref doc ref)).

Lemma embedded_text :
  ∃ text doc, decodeSpec = Ok text ∧ read_text text = Some (doc, api_description) ∧
    forallb (is_local doc) (refs doc) = true.
Proof.
  pose (unpacked := match decodeSpec with
                    | Ok text => '(doc, ops) ← read_text text; Some (ops, forallb (is_local doc) (refs doc))
                    | _ => None
                    end).
  assert (unpacked = Some (api_description, true)) as Hun by (vm_compute; reflexivity).
  unfold unpacked in Hun. clear unpacked. destruct decodeSpec as [text|e|s]; [|discriminate..].
  exists text. destruct (read_text text) as [[doc ops]|]; [|discriminate].
  exists doc. cbn in Hun. injection Hun as Hops Hrefs. by rewrite Hops.
Qed.

(** ** The document and the server *)

(** The operation of a request in the description. *)
Definition describes (o : described) (req : request) : Prop :=
  ∃ r, r ∈ RegisterHandlers ∧ rt_handler r = op_of req ∧
    d_method o = rt_method r ∧ d_path o = rt_path r ∧ d_operationId o = operationId (rt_handler r) ∧
    d_parameters o = bound_parameters r req.

Lemma description_routes :
  (λ o, MkRoute (d_method o) (d_path o) (d_operationId o)) <$> api_description =
  (λ r, MkRoute (rt_method r) (rt_path r) (operationId (rt_handler r))) <$> RegisterHandlers.
Proof. reflexivity. Qed.

(** The body that a client writes is valid for the schema of the document. *)
Definition body_valid (body : option json) (s : option schema) : Prop :=
  match body, s with
  | Some b, Some s => valid s b = true
  | None, None => True
  | _, _ => False
  end.

Definition route_index (req : request) : nat :=
  default 0 (fst <$> list_find (λ r, rt_handler r = op_of req) RegisterHandlers).

Lemma description_route req :
  ∃ o, api_description !! route_index req = Some o ∧ describes o req ∧
    d_response o = norm (schema_of req).
Proof.
  assert (∃ o r, api_description !! route_index req = Some o ∧ RegisterHandlers !! route_index req = Some r ∧
    rt_handler r = op_of req ∧ d_method o = rt_method r ∧ d_path o = rt_path r ∧
    d_operationId o = operationId (rt_handler r) ∧ d_parameters o = bound_parameters r req ∧
    d_response o = norm (schema_of req)) as (o & r & Ho & Hr & ? & ? & ? & ? & ? & ?).
  { destruct req; eexists _, _; split_and!; reflexivity. }
  exists o. split_and!; [done| |done]. exists r. split_and!; [by eapply list_elem_of_lookup_2|done..].
Qed.

(** A slice of strings and a map of strings in a body are opaque values that
    their schemas allow. *)
Lemma valid_strings l : valid (TArray TString) (json_slice JString l) = true.
Proof. by apply valid_slice. Qed.

Ltac valid_part H part :=
  pose proof H as Hpart; cbn [fmap option_fmap option_map]; generalize dependent part;
  intros ? Hpart; simpl in *; by rewrite Hpart.

Lemma description_body req o :
  api_description !! route_index req = Some o → body_valid (request_body req) (d_body o).
Proof.
  destruct req as [? [d n]| | |? [d n]| |? [l]| | |? [l]| |? [cc cm j n u]| | |? [cc cm j n u]| |? [aud n]| | | | |];
    intros [= <-]; try exact I; cbn [body_valid request_body d_body].
  - by destruct d.
  - by destruct d, n.
  - unfold json_AddGroupMembers. cbn [v1_MemberIDs]. valid_part (valid_strings l) (json_slice JString l).
  - unfold json_AddGroupMembers. cbn [v1_MemberIDs]. valid_part (valid_strings l) (json_slice JString l).
  - unfold json_CreateIssuer. cbn [v1ci_ClaimMappings]. destruct cm as [cm|]; [|by destruct cc].
    destruct cc; valid_part (valid_map cm) (json_map cm).
  - unfold json_IssuerUpdate. cbn [v1iu_ClaimMappings]. destruct cm as [cm|]; [|by destruct cc, j, n, u].
    destruct cc, j, n, u; valid_part (valid_map cm) (json_map cm).
  - unfold json_CreateOAuthClient. cbn [v1cc_Audience]. destruct aud as [aud|]; [|done].
    valid_part (valid_strings aud) (json_slice JString aud).
Qed.

(** The loader can read no other file. *)
Lemma swagger_loader_reads url :
  ReadFromURIFunc swagger_loader url = Err (ExtError ("path not found: " +:+ Clean url)).
Proof. reflexivity. Qed.

(** ** Properties *)

(** C18: the API document that is embedded in the service can be unpacked (base64,
    gzip with its checksum, DEFLATE, JSON) and describes the API that is served:
    it lists exactly the routes that are registered, in their order, under the
    names of their operations; for every request, the parameters are those that
    its route's pattern names, and the cursor and the limit of a list; the schema of the 200 response allows exactly the values
    that [schema_of] allows, and the body that a client writes is valid, where
    there is one. Every reference in it is to a part of itself, so that loading
    it asks for no other file; none could be read. *)
Theorem embedded_document :
  ∃ text doc, decodeSpec = Ok text ∧ read_text text = Some (doc, api_description) ∧
    Forall (λ ref, is_Some (at_ref doc ref)) (refs doc) ∧
    (∀ url, ReadFromURIFunc swagger_loader url = Err (ExtError ("path not found: " +:+ Clean url))) ∧
    (λ o, MkRoute (d_method o) (d_path o) (d_operationId o)) <$> api_description =
      (λ r, MkRoute (rt_method r) (rt_path r) (operationId (rt_handler r))) <$> RegisterHandlers ∧
    ∀ req, ∃ o, o ∈ api_description ∧ describes o req ∧
      (∀ v, valid (d_response o) v = valid (schema_of req) v) ∧
      body_valid (request_body req) (d_body o).
Proof.
  destruct embedded_text as (text & doc & Htext & Hdoc & Hrefs). exists text, doc.
  split_and!; [done|done| |apply swagger_loader_reads|apply description_routes|].
  - apply Forall_forall. intros ref Href. rewrite forallb_forall in Hrefs.
    apply (bool_decide_unpack _), Is_true_true, Hrefs. by apply list_elem_of_In.
  - intros req. destruct (description_route req) as (o & Ho & Hd & Hr). exists o.
    split_and!; [by eapply list_elem_of_lookup_2|done| |by apply description_body].
    intros v. by rewrite Hr, valid_norm.
Qed.
