(* ===== verification/Token.v ===== *)
(** The token endpoint as a whole: the OAuth 2.0 provider that
    [internal/fositex/fosite.go] assembles from the two grant handlers, the
    route that asks it for a token and records the outcome for the audit
    ([internal/routes/exchange.go], [internal/auditx/middleware.go]).

    fosite itself is a parameter: it parses the request, authenticates the
    client and calls the handlers that are registered with it. *)
From S2P Require Import Prelude GoStrings Errors Query Pagination V1 ListQuery World Frame.
From S2P Require Import Run Cel Types Storage UserStore IssuerStore ClientStore Engine Jwt.
From S2P Require Import Exchange ExchangeSubject ClientCredentials Strict.

(** ** Handlers and their factories *)

(** [fosite.TokenEndpointHandler]. *)
Record TokenEndpointHandler `{JWT} : Type := {
  th_CanSkipClientAuth : Context → AccessRequest → bool;
  th_CanHandleTokenEndpointRequest : Context → AccessRequest → bool;
  th_HandleTokenEndpointRequest : Context → AccessRequest → M AccessRequest;
  th_PopulateTokenEndpointResponse : Context → AccessRequest → AccessResponse → M AccessResponse;
}.

(** What the route uses of the OAuth 2.0 library: the handler lists' [Append],
    the parts of a request that it reads, access requests and responses, and the HTTP
    status of an error. The other four kinds of handler are not used here. *)
Class Fosite `{JWT} : Type := {
  AuthorizeEndpointHandler : Type;
  TokenIntrospector : Type;
  RevocationHandler : Type;
  PushedAuthorizeEndpointHandler : Type;
  Append : ∀ {A : Type}, list A → A → list A;
  PostForm : HttpRequest → Values;
  presented_credentials : HttpRequest → option (string * string);
  fosite_NewAccessRequest : (Context → string → M OAuthClient) → list TokenEndpointHandler →
    Context → HttpRequest → JWTSession → M AccessRequest;
  fosite_NewAccessResponse : list TokenEndpointHandler → Context → AccessRequest → M AccessResponse;
  ErrorToRFC6749Error : error → option Z;
}.

(** The object that a factory returns, by the interfaces of fosite it has. *)
Record Endpoint `{Fosite} : Type := {
  as_AuthorizeEndpointHandler : option AuthorizeEndpointHandler;
  as_TokenEndpointHandler : option TokenEndpointHandler;
  as_TokenIntrospector : option TokenIntrospector;
  as_RevocationHandler : option RevocationHandler;
  as_PushedAuthorizeEndpointHandler : option PushedAuthorizeEndpointHandler;
}.

(** The handler lists of [fosite.Config]. *)
Record EndpointHandlers `{Fosite} : Type := {
  AuthorizeEndpointHandlers : list AuthorizeEndpointHandler;
  TokenEndpointHandlers : list TokenEndpointHandler;
  TokenIntrospectionHandlers : list TokenIntrospector;
  RevocationHandlers : list RevocationHandler;
  PushedAuthorizeEndpointHandlers : list PushedAuthorizeEndpointHandler;
}.

(** The fields of the audit event that the handlers set on the echo context. *)
Record AuditContext : Type := {
  ac_outcome : option string;
  ac_subject : option (gmap string string);
}.
Definition no_audit : AuditContext := {| ac_outcome := None; ac_subject := None |}.

(** The outcomes of [auditevent]. *)
Definition OutcomeSucceeded : string := "succeeded".
Definition OutcomeDenied : string := "denied".
Definition OutcomeFailed : string := "failed".

Section token.
Context `{Env, CEL, Hasher, JWT, !Platform, !Fosite}.

Definition append_if {A} (l : list A) (h : option A) : list A :=
  match h with Some h => Append l h | None => l end.

(** The body of the loop of [NewOAuth2Provider]. *)
Definition register (c : EndpointHandlers) (res : Endpoint) : EndpointHandlers :=
  {| AuthorizeEndpointHandlers :=
       append_if (AuthorizeEndpointHandlers c) (as_AuthorizeEndpointHandler res);
     TokenEndpointHandlers := append_if (TokenEndpointHandlers c) (as_TokenEndpointHandler res);
     TokenIntrospectionHandlers :=
       append_if (TokenIntrospectionHandlers c) (as_TokenIntrospector res);
     RevocationHandlers := append_if (RevocationHandlers c) (as_RevocationHandler res);
     PushedAuthorizeEndpointHandlers :=
       append_if (PushedAuthorizeEndpointHandlers c) (as_PushedAuthorizeEndpointHandler res) |}.

Definition Factory : Type := OAuth2Config → Endpoint.

(** [NewOAuth2Provider]: a provider over the handlers of the factories, and the
    client lookup of its storage. The provider it returns adds tracing only. *)
Record OAuth2Provider : Type := {
  p_GetClient : Context → string → M OAuthClient;
  p_handlers : EndpointHandlers;
}.
Definition no_handlers : EndpointHandlers :=
  {| AuthorizeEndpointHandlers := []; TokenEndpointHandlers := [];
     TokenIntrospectionHandlers := []; RevocationHandlers := [];
     PushedAuthorizeEndpointHandlers := [] |}.
Definition NewOAuth2Provider (configurator : OAuth2Config) (store : Context → string → M OAuthClient)
    (factories : list Factory) : OAuth2Provider :=
  {| p_GetClient := store;
     p_handlers := foldl (λ c factory, register c (factory configurator)) no_handlers factories |}.

Definition NewAccessRequest (p : OAuth2Provider) (ctx : Context) (r : HttpRequest) (s : JWTSession)
    : M AccessRequest :=
  fosite_NewAccessRequest (p_GetClient p) (TokenEndpointHandlers (p_handlers p)) ctx r s.
Definition NewAccessResponse (p : OAuth2Provider) (ctx : Context) (r : AccessRequest)
    : M AccessResponse :=
  fosite_NewAccessResponse (TokenEndpointHandlers (p_handlers p)) ctx r.

(** An object that is a token endpoint handler and nothing else. *)
Definition token_endpoint (h : TokenEndpointHandler) : Endpoint :=
  {| as_AuthorizeEndpointHandler := None; as_TokenEndpointHandler := Some h;
     as_TokenIntrospector := None; as_RevocationHandler := None;
     as_PushedAuthorizeEndpointHandler := None |}.

(** The two factories. *)
Definition TokenExchangeHandler (cfg : OAuth2Config) : TokenEndpointHandler :=
  {| th_CanSkipClientAuth := Exchange.CanSkipClientAuth;
     th_CanHandleTokenEndpointRequest := Exchange.CanHandleTokenEndpointRequest;
     th_HandleTokenEndpointRequest := Exchange.HandleTokenEndpointRequest cfg;
     th_PopulateTokenEndpointResponse := Exchange.PopulateTokenEndpointResponse cfg |}.
Definition NewTokenExchangeHandler : Factory := λ cfg, token_endpoint (TokenExchangeHandler cfg).

Definition ClientCredentialsGrantHandler (cfg : OAuth2Config) : TokenEndpointHandler :=
  {| th_CanSkipClientAuth := ClientCredentials.CanSkipClientAuth;
     th_CanHandleTokenEndpointRequest := ClientCredentials.CanHandleTokenEndpointRequest;
     th_HandleTokenEndpointRequest := ClientCredentials.HandleTokenEndpointRequest cfg;
     th_PopulateTokenEndpointResponse := ClientCredentials.PopulateTokenEndpointResponse cfg |}.
Definition NewClientCredentialsHandlerFactory : Factory := λ cfg,
  token_endpoint (ClientCredentialsGrantHandler cfg).

(** The provider of [serve]. *)
Definition provider (cfg : OAuth2Config) : OAuth2Provider :=
  NewOAuth2Provider cfg GetClient [NewTokenExchangeHandler; NewClientCredentialsHandlerFactory].

(** ** The audit *)

Definition SetSubject (c : AuditContext) (subject : gmap string string) : AuditContext :=
  {| ac_outcome := ac_outcome c; ac_subject := Some subject |}.
Definition SetOutcome (c : AuditContext) (outcome : string) : AuditContext :=
  {| ac_outcome := Some outcome; ac_subject := ac_subject c |}.
Definition getSubject (c : AuditContext) : gmap string string := default ∅ (ac_subject c).

(** [getOutcome], with the outcome that the library derives from the response. *)
Definition getOutcome (GetOutcomeDefault : string) (c : AuditContext) : string :=
  default GetOutcomeDefault (ac_outcome c).

Definition getOutcomeFromError (err : error) : string :=
  match ErrorToRFC6749Error err with
  | None => OutcomeFailed
  | Some status =>
    if decide (400 ≤ status < 500)%Z then OutcomeDenied
    else if decide (500 ≤ status)%Z then OutcomeFailed
    else OutcomeSucceeded
  end.

(** The [Subject] of an [ErrorInvalidTokenRequest]: the claims that the token made. *)
Definition setContextFromError (c : AuditContext) (err : error) : AuditContext :=
  let c := SetOutcome c (getOutcomeFromError err) in
  match AsInvalidTokenRequest err with
  | None => c
  | Some (issuer, subject) => SetSubject c {["issuer" := issuer; "subject" := subject]}
  end.

(** [echoaudit.Middleware], as far as it is configured: the component it names,
    the file it writes (none when events are discarded), and the handlers that
    read an event's subject and outcome. *)
Record AuditConfig : Type := { au_Enabled : bool; au_Path : string; au_Component : string }.
Record AuditMiddleware : Type := {
  amw_Component : string;
  amw_File : option string;
  amw_SubjectHandler : option (AuditContext → gmap string string);
  amw_OutcomeHandler : option (string → AuditContext → string);
}.
Definition newNopMiddleware : AuditMiddleware :=
  {| amw_Component := ""; amw_File := None; amw_SubjectHandler := None; amw_OutcomeHandler := None |}.

(** [NewMiddleware], given how the audit file opens. *)
Definition NewMiddleware (open : string → option error) (c : AuditConfig) : result AuditMiddleware :=
  if negb (au_Enabled c) then Ok newNopMiddleware
  else match open (au_Path c) with
       | Some err => Err err
       | None => Ok {| amw_Component := au_Component c; amw_File := Some (au_Path c);
                       amw_SubjectHandler := Some getSubject;
                       amw_OutcomeHandler := Some getOutcome |}
       end.

(** ** The route *)

(** What the route writes: an error or a token. *)
Inductive written : Type :=
  | WriteAccessError (err : error)
  | WriteAccessResponse (resp : AccessResponse).

Definition empty_session : JWTSession :=
  {| js_JWTClaims := None; js_JWTHeader := ∅; js_ExpiresAt := None; js_Subject := "" |}.

(** [tokenHandler.Handle]. The session variable is the one that the access
    request holds, which the grant handlers fill in place. *)
Definition Handle (p : OAuth2Provider) (ctx : Context) (r : HttpRequest)
    : M (AuditContext * written) :=
  accessRequest ← attempt (NewAccessRequest p ctx r empty_session);
  match accessRequest with
  | inl err => mret (setContextFromError no_audit err, WriteAccessError err)
  | inr accessRequest =>
    session ← jwt_session (ar_Session accessRequest);
    match js_JWTClaims session with
    | None => panic "invalid memory address or nil pointer dereference"
    | Some claims =>
      let c := SetSubject no_audit {["subject" := claims_Subject claims]} in
      response ← attempt (NewAccessResponse p ctx accessRequest);
      match response with
      | inl err => mret (c, WriteAccessError err)
      | inr response => mret (c, WriteAccessResponse response)
      end
    end
  end.
End token.

(** ** What the route relies on *)

(** The client that authenticated itself with the request: it was loaded under
    the identifier that the request presents, and its secret passes. *)
Definition authenticated `{Hasher, Fosite} (get : Context → string → M OAuthClient)
    (ctx : Context) (r : HttpRequest) (client : OAuthClient) (w w' : World) : Prop :=
  ∃ id secret, presented_credentials r = Some (id, secret) ∧
    get ctx id w = (Ok client, w') ∧ Compare (c_Secret client) secret = true.

(** [Append] adds its handler, or keeps the one of its kind that is there.

    A successful access request was made from the posted form, for the given
    session and either an authenticated client or none, in which case its
    client is the empty one; nothing but the lookup of a client touches the
    state before the handlers run. Some handler was responsible for it; when
    only one was, the request is what this handler made of it, and unless the
    handler can do without, its client authenticated.

    The response is the one that the responsible handler, when there is one,
    made of an empty one.

    Whatever the outcome, the library reaches the database only through the
    lookup of a client and the handlers: any relation that these keep is kept. *)
Class FositeLaws `{Hasher} {J : JWT} (F : Fosite) : Prop := {
  elem_of_Append {A} (l : list A) h x : x ∈ Append l h → x ∈ l ∨ x = h;
  NewAccessRequest_Ok get hs ctx r s w ar w' :
    fosite_NewAccessRequest get hs ctx r s w = (Ok ar, w') →
    ∃ ar0 w0, ar_Form ar0 = PostForm r ∧ ar_Session ar0 = SessionOf s ∧
      (authenticated get ctx r (ar_Client ar0) w w0 ∨
       c_ID (ar_Client ar0) = "" ∧ (w0 = w ∨ ∃ id, w0 = (get ctx id w).2)) ∧
      (∃ h, h ∈ hs ∧ th_CanHandleTokenEndpointRequest h ctx ar0 = true) ∧
      (∀ h, h ∈ hs → th_CanHandleTokenEndpointRequest h ctx ar0 = true →
        (∀ h', h' ∈ hs → th_CanHandleTokenEndpointRequest h' ctx ar0 = true → h' = h) →
        th_HandleTokenEndpointRequest h ctx ar0 w0 = (Ok ar, w') ∧
        (th_CanSkipClientAuth h ctx ar0 = false →
         authenticated get ctx r (ar_Client ar0) w w0));
  NewAccessResponse_Ok hs ctx ar w resp w' :
    fosite_NewAccessResponse hs ctx ar w = (Ok resp, w') →
    ∀ h, h ∈ hs → th_CanHandleTokenEndpointRequest h ctx ar = true →
    (∀ h', h' ∈ hs → th_CanHandleTokenEndpointRequest h' ctx ar = true → h' = h) →
    ∃ resp0 w1 w2, th_PopulateTokenEndpointResponse h ctx ar resp0 w1 = (Ok resp, w2);
  NewAccessRequest_keeps (R : relation World) get hs ctx r s :
    PreOrder R → (∀ w, R w (next_tick w)) → (∀ id, keeps R (get ctx id)) →
    (∀ h ar, h ∈ hs → keeps R (th_HandleTokenEndpointRequest h ctx ar)) →
    keeps R (fosite_NewAccessRequest get hs ctx r s);
  NewAccessResponse_keeps (R : relation World) hs ctx ar :
    PreOrder R → (∀ w, R w (next_tick w)) →
    (∀ h resp, h ∈ hs → keeps R (th_PopulateTokenEndpointResponse h ctx ar resp)) →
    keeps R (fosite_NewAccessResponse hs ctx ar);
}.

(** ** Lemmas *)

Section lemmas.
Context {E : Env} {C : CEL} {H : Hasher} {J : JWT} `{!JWTLaws J} {P : Platform} {F : Fosite}.
Context `{!FositeLaws F}.

(** The handlers of the provider are those of its factories. *)
Lemma provider_handlers cfg h :
  h ∈ TokenEndpointHandlers (p_handlers (provider cfg)) →
  h = TokenExchangeHandler cfg ∨ h = ClientCredentialsGrantHandler cfg.
Proof using Type*.
  simpl. intros [[Hh| ->]%elem_of_Append| ->]%elem_of_Append; [|by left|by right].
  by apply elem_of_nil in Hh.
Qed.

Lemma grants_exclusive cfg ctx ar h h' :
  h ∈ TokenEndpointHandlers (p_handlers (provider cfg)) →
  h' ∈ TokenEndpointHandlers (p_handlers (provider cfg)) →
  th_CanHandleTokenEndpointRequest h ctx ar = true →
  th_CanHandleTokenEndpointRequest h' ctx ar = true → h' = h.
Proof using Type*.
  intros [-> | ->]%provider_handlers [-> | ->]%provider_handlers; [done| | |done];
    unfold TokenExchangeHandler, ClientCredentialsGrantHandler; simpl;
    unfold Exchange.CanHandleTokenEndpointRequest, ClientCredentials.CanHandleTokenEndpointRequest,
      ExactOne, GrantTypeTokenExchange, GrantTypeClientCredentials; rewrite !bool_decide_eq_true;
    congruence.
Qed.

(** The client's lookup changes no table. *)
Lemma GetClient_committed ctx id w : committed (GetClient ctx id w).2 = committed w.
Proof using. exact (proj1 (GetClient_frame ctx same_committed id w)). Qed.

Lemma GetClient_Ok ctx id w c w' :
  ctx_tx ctx = None → GetClient ctx id w = (Ok c, w') →
  ∃ cid row, gidx_Parse id = Ok cid ∧ oauth_clients (committed w) !! cid = Some row ∧
    c = row_OAuthClient (cid, row).
Proof using.
  intros Hc (cid & w1 & Hp & Hl)%bind_inv. injection Hp as Hp <-. exists cid.
  unfold LookupOAuthClientByID in Hl. case_decide; [done|].
  apply bind_inv in Hl as (x & w2 & Hx & Hret). injection Hret as <- _.
  apply on_error_fail_inv in Hx; [|intros e ?; by destruct (is_sentinel e ErrNoRows)].
  apply bind_inv in Hx as (o & w3 & Hread & Hscan).
  unfold ctx_read, getContextTx in Hread. rewrite Hc in Hread. simpl in Hread.
  unfold db_read in Hread. destruct (sql_fault _); [done|]. injection Hread as <- <-.
  destruct (oauth_clients (committed w) !! cid) as [row|] eqn:Hrow; [|done].
  injection Hscan as <- _. by exists row.
Qed.
End lemmas.

(** *** What each grant gives *)

Section grants.
Context {E : Env} {C : CEL} {H : Hasher} {J : JWT} `{!JWTLaws J} {P : Platform} {F : Fosite}.
Context (kid issuer : string) (l : Z) (a : list string → list string → option error)
  (e : OAuthClient → Z → Z).
Abbreviation cfg := (engine_config kid issuer l a e).

(** A token that an exchange gives, from the world [w]: for an authentic subject
    token; its subject is the user that the exchange stored for this token, and
    its [client_id] is the client's. *)
Definition exchange_grant (ctx : Context) (w : World) (form : Values) (client : OAuthClient)
    (claims : JWTClaims) : Prop :=
  authentic (committed w) form ∧
  ∃ mapped u w', exchange_run cfg ctx form w mapped u w' ∧
    claims = exchanged_claims cfg client mapped u.

(** A token that a client gets for itself. *)
Definition client_grant (form : Values) (client : OAuthClient) (claims : JWTClaims) : Prop :=
  ∃ clientID, gidx_Parse (c_ID client) = Ok clientID ∧ claims = client_claims clientID ∧
    a (c_Audience client) (default [] (form !! "resource")) = None.

Lemma exchange_Ok ctx req w req' w' :
  ctx_tx ctx = None → Exchange.HandleTokenEndpointRequest cfg ctx req w = (Ok req', w') →
  ar_GrantTypes req' = ar_GrantTypes req ∧
  ∃ s c, ar_Session req' = SessionOf s ∧ js_JWTClaims s = Some c ∧
    js_JWTHeader s = {["kid" := AnyString kid]} ∧
    exchange_grant ctx w (ar_Form req) (ar_Client req) c.
Proof using Type*.
  intros Hc Hrun. pose proof (handler_authentic _ _ _ _ _ _ _ _ _ _ Hc Hrun) as Hauth.
  destruct (handler_run _ _ _ _ _ _ Hrun) as (claims & mapped & u & w4 & aud & Hu & _ & ->).
  split; [done|]. eexists _, _. split_and!; [done..|]. split; [done|]. by exists mapped, u, w4.
Qed.

Lemma client_credentials_Ok ctx req w req' w' :
  ClientCredentials.HandleTokenEndpointRequest cfg ctx req w = (Ok req', w') →
  ar_GrantTypes req' = ar_GrantTypes req ∧ committed w' = committed w ∧
  ∃ s c, ar_Session req' = SessionOf s ∧ js_JWTClaims s = Some c ∧
    js_JWTHeader s = {["kid" := AnyString kid]} ∧
    client_grant (ar_Form req) (ar_Client req) c.
Proof using.
  unfold ClientCredentials.HandleTokenEndpointRequest, GetAudience, GetID. simpl.
  destruct (a _ _) as [err|] eqn:Ha; [done|]. rewrite granted_all. simpl.
  intros (s & w1 & Hs & Hrest)%bind_inv. destruct (ar_Session req); try done. injection Hs as <- <-.
  apply bind_inv in Hrest as (cid & w2 & Hp & Hrest). injection Hp as Hp <-.
  apply bind_inv in Hrest as (now & w3 & Hn & Hrest). injection Hn as <- <-.
  injection Hrest as <- <-. simpl. split_and!; [done..|]. eexists _, _. split_and!; [done..|].
  by exists cid.
Qed.

(** The answer of an attempt that is a value. *)
Lemma attempt_inr {A} (m : M A) w x w' : attempt m w = (Ok (inr x), w') → m w = (Ok x, w').
Proof. unfold attempt. destruct (m w) as [[]]; congruence. Qed.

Context `{!FositeLaws F}.

(** A token is answered when both steps of the route succeed. *)
Lemma Handle_response p ctx r w c resp w' :
  Handle p ctx r w = (Ok (c, WriteAccessResponse resp), w') →
  ∃ ar s claims w1, NewAccessRequest p ctx r empty_session w = (Ok ar, w1) ∧
    ar_Session ar = SessionOf s ∧ js_JWTClaims s = Some claims ∧
    c = SetSubject no_audit {["subject" := claims_Subject claims]} ∧
    NewAccessResponse p ctx ar w1 = (Ok resp, w').
Proof using.
  intros (r1 & w1 & H1 & Hrest)%bind_inv. destruct r1 as [err|ar]; [done|].
  apply attempt_inr in H1. apply bind_inv in Hrest as (s & w2 & Hs & Hrest).
  destruct (ar_Session ar) as [|s'|] eqn:Hsess; try done. injection Hs as <- <-.
  destruct (js_JWTClaims s') as [claims|] eqn:Hclaims; [|done].
  apply bind_inv in Hrest as (r2 & w3 & H2 & Hrest). destruct r2 as [err|resp']; [done|].
  apply attempt_inr in H2. injection Hrest as <- <- <-. by exists ar, s', claims, w1.
Qed.

(** An access request that the provider makes is one grant's, for the client
    that authenticated or for none. *)
Lemma NewAccessRequest_grant ctx r s w ar w' :
  NewAccessRequest (provider cfg) ctx r s w = (Ok ar, w') →
  ∃ ar0 w0 h, ar_Form ar0 = PostForm r ∧ committed w0 = committed w ∧
    (authenticated GetClient ctx r (ar_Client ar0) w w0 ∨ c_ID (ar_Client ar0) = "") ∧
    h ∈ TokenEndpointHandlers (p_handlers (provider cfg)) ∧
    th_CanHandleTokenEndpointRequest h ctx ar0 = true ∧
    th_HandleTokenEndpointRequest h ctx ar0 w0 = (Ok ar, w') ∧
    (th_CanSkipClientAuth h ctx ar0 = false → authenticated GetClient ctx r (ar_Client ar0) w w0).
Proof using Type*.
  intros Hreq. destruct (NewAccessRequest_Ok _ _ _ _ _ _ _ _ Hreq)
    as (ar0 & w0 & Hform & _ & Hclient & (h & Hh & Hcan) & Hone).
  destruct (Hone h Hh Hcan) as [Hrun Hskip]; [intros; by eapply grants_exclusive|].
  exists ar0, w0, h. split_and!; [done| |destruct Hclient as [?|[? _]]; [by left|by right]|done..].
  destruct Hclient as [(id & secret & _ & Hget & _)|[_ [-> |[id ->]]]]; [|done|apply GetClient_committed].
  pose proof (GetClient_committed ctx id w) as Hk. simpl in Hget. by rewrite Hget in Hk.
Qed.

(** The response is made by the handler that is responsible for the request. *)
Lemma NewAccessResponse_grant ctx ar h w resp w' :
  NewAccessResponse (provider cfg) ctx ar w = (Ok resp, w') →
  h ∈ TokenEndpointHandlers (p_handlers (provider cfg)) →
  th_CanHandleTokenEndpointRequest h ctx ar = true →
  ∃ resp0 w1 w2, th_PopulateTokenEndpointResponse h ctx ar resp0 w1 = (Ok resp, w2).
Proof using Type*.
  intros Hresp Hh Hcan. refine (NewAccessResponse_Ok _ _ _ _ _ _ Hresp h Hh Hcan _).
  intros. by eapply grants_exclusive.
Qed.

(** C5: the token endpoint gives a token only to those who are entitled to it:
    in exchange for a subject token that a registered issuer signed, for the
    user stored for it, or to a client that authenticated with its secret, for
    itself. A token that names a client as its [client_id] was asked for by a
    client that authenticated, and the audit records the token's subject. *)
Theorem token_endpoint_grants ctx r w c resp w' :
  ctx_tx ctx = None →
  Handle (provider cfg) ctx r w = (Ok (c, WriteAccessResponse resp), w') →
  ∃ ar s claims client w0,
    ar_Session ar = SessionOf s ∧ js_JWTClaims s = Some claims ∧
    getSubject c = {["subject" := claims_Subject claims]} ∧ ac_outcome c = None ∧
    (authenticated GetClient ctx r client w w0 ∨ c_ID client = "") ∧ committed w0 = committed w ∧
    (exchange_grant ctx w0 (PostForm r) client claims ∧
       (∃ n, GenerateAccessToken n ar = inr (resp_AccessToken resp)) ∨
     authenticated GetClient ctx r client w w0 ∧ client_grant (PostForm r) client claims ∧
       (∃ n life resp0, IssueAccessToken n life ar resp0 = inr resp)).
Proof using Type*.
  intros Hc (ar & s & claims & w1 & Hreq & Hs & Hclaims & -> & Hresp)%Handle_response.
  destruct (NewAccessRequest_grant _ _ _ _ _ _ Hreq)
    as (ar0 & w0 & h & Hform & Hw0 & Hclient & Hh & Hcan & Hrun & Hskip).
  pose proof (λ Hcan, NewAccessResponse_grant _ _ _ _ _ _ Hresp Hh Hcan) as Hpop.
  exists ar, s, claims, (ar_Client ar0), w0. split_and!; [done..|]. rewrite <-Hform.
  destruct (provider_handlers _ _ Hh) as [-> | ->]; simpl in Hrun, Hcan, Hskip, Hpop.
  - left. destruct (exchange_Ok _ _ _ _ _ Hc Hrun) as (Hgrants & s' & c' & Hs' & Hc' & _ & Hgrant).
    assert (s' = s) as -> by congruence. assert (c' = claims) as -> by congruence.
    split; [done|]. destruct Hpop as (resp0 & w2 & w3 & Hp).
    { unfold Exchange.CanHandleTokenEndpointRequest in *. by rewrite Hgrants. }
    unfold Exchange.PopulateTokenEndpointResponse in Hp. destruct (negb _); [done|].
    apply bind_inv in Hp as (tok & w4 & Htok & Hret). injection Hret as <- _. simpl.
    unfold generate_token in Htok. destruct (GenerateAccessToken (tick w2) ar) eqn:Hgen; [done|].
    injection Htok as <- _. by exists (tick w2).
  - right. destruct (client_credentials_Ok _ _ _ _ _ Hrun) as (Hgrants & _ & s' & c' & Hs' & Hc' & _ & Hgrant).
    assert (s' = s) as -> by congruence. assert (c' = claims) as -> by congruence.
    split; [by apply Hskip|]. split; [done|]. destruct Hpop as (resp0 & w2 & w3 & Hp).
    { unfold ClientCredentials.CanHandleTokenEndpointRequest in *. by rewrite Hgrants. }
    unfold ClientCredentials.PopulateTokenEndpointResponse in Hp. destruct (negb _); [done|].
    destruct (IssueAccessToken _ _ _ _) eqn:Hissue; [done|]. injection Hp as <- _.
    by eexists _, _, _.
Qed.
End grants.

(** ** A concrete provider

    The form is the query of the request; a client presents its credentials in
    it. The first handler that is responsible handles the request. *)
Section plain.
Context `{Hasher, JWT}.

Definition empty_client : OAuthClient :=
  {| c_ID := ""; c_OwnerID := ""; c_Name := ""; c_Secret := ""; c_Audience := [] |}.

Definition form_credentials (r : HttpRequest) : option (string * string) :=
  let id := Values_Get (hr_Query r) "client_id" in
  if decide (id = "") then None else Some (id, Values_Get (hr_Query r) "client_secret").

Definition plain_authenticate (get : Context → string → M OAuthClient) (ctx : Context)
    (r : HttpRequest) : M (option OAuthClient) :=
  match form_credentials r with
  | None => mret None
  | Some (id, secret) =>
    x ← attempt (get ctx id);
    match x with
    | inl _ => mret None
    | inr c => mret (if Compare (c_Secret c) secret then Some c else None)
    end
  end.

Definition responsible (hs : list TokenEndpointHandler) (ctx : Context) (ar : AccessRequest)
    : option TokenEndpointHandler :=
  head (filter (λ h, th_CanHandleTokenEndpointRequest h ctx ar = true) hs).

Definition plain_request (r : HttpRequest) (s : JWTSession) (client : OAuthClient) : AccessRequest :=
  {| ar_Form := hr_Query r; ar_GrantTypes := Fields (Values_Get (hr_Query r) "grant_type");
     ar_Client := client; ar_Session := SessionOf s; ar_GrantedAudience := [] |}.

Definition plain_NewAccessRequest (get : Context → string → M OAuthClient)
    (hs : list TokenEndpointHandler) (ctx : Context) (r : HttpRequest) (s : JWTSession)
    : M AccessRequest :=
  client ← plain_authenticate get ctx r;
  let ar := plain_request r s (default empty_client client) in
  match responsible hs ctx ar with
  | None => fail (RFC6749 ErrInvalidRequest "")
  | Some h =>
    if decide (th_CanSkipClientAuth h ctx ar = false ∧ client = None)
    then fail (RFC6749 ErrInvalidGrant "invalid_client")
    else th_HandleTokenEndpointRequest h ctx ar
  end.

Definition plain_NewAccessResponse (hs : list TokenEndpointHandler) (ctx : Context)
    (ar : AccessRequest) : M AccessResponse :=
  match responsible hs ctx ar with
  | None => fail (RFC6749 ErrServerError "")
  | Some h => th_PopulateTokenEndpointResponse h ctx ar
      {| resp_AccessToken := ""; resp_TokenType := ""; resp_ExpiresIn := 0; resp_Extra := ∅ |}
  end.

Definition rfc6749_status (b : rfc6749) : Z :=
  match b with ErrServerError => 500 | _ => 400 end.

Definition plain_fosite : Fosite := {|
  AuthorizeEndpointHandler := Empty_set;
  TokenIntrospector := Empty_set;
  RevocationHandler := Empty_set;
  PushedAuthorizeEndpointHandler := Empty_set;
  Append A l h := l ++ [h];
  PostForm := hr_Query;
  presented_credentials := form_credentials;
  fosite_NewAccessRequest := plain_NewAccessRequest;
  fosite_NewAccessResponse := plain_NewAccessResponse;
  ErrorToRFC6749Error err := Some
    match err with RFC6749 b _ | RFC6749Wrap b _ _ => rfc6749_status b | _ => 500%Z end;
|}.

Lemma responsible_Some hs ctx ar h :
  responsible hs ctx ar = Some h →
  h ∈ hs ∧ th_CanHandleTokenEndpointRequest h ctx ar = true.
Proof.
  unfold responsible. intros Hh%head_Some_elem_of. by apply list_elem_of_filter in Hh as [? ?].
Qed.

Lemma plain_authenticate_Ok get ctx r w o w' :
  plain_authenticate get ctx r w = (Ok o, w') →
  match o with
  | Some client => authenticated (H1:=plain_fosite) get ctx r client w w'
  | None => w' = w ∨ ∃ id, w' = (get ctx id w).2
  end.
Proof.
  unfold plain_authenticate, authenticated. simpl.
  destruct (form_credentials r) as [[id secret]|]; [|intros [= <- <-]; by left].
  intros (x & w1 & Hx & Hrest)%bind_inv. unfold attempt in Hx.
  destruct (get ctx id w) as [[c|err|] w2] eqn:Hget; [|..|done].
  - injection Hx as <- <-. injection Hrest as <- <-.
    destruct (Compare _ _) eqn:Hcmp; [by exists id, secret|right].
    exists id. by rewrite Hget.
  - injection Hx as <- <-. injection Hrest as <- <-. right. exists id. by rewrite Hget.
Qed.

#[global] Instance plain_fosite_laws : FositeLaws plain_fosite.
Proof.
  split.
  - intros A l h x [?|Hx]%elem_of_app; [by left|right]. by apply list_elem_of_singleton in Hx.
  - intros get hs ctx r s w ar w' (client & w0 & Hauth%plain_authenticate_Ok & Hrest)%bind_inv.
    set (ar0 := plain_request r s (default empty_client client)) in *. cbv zeta in Hrest.
    destruct (responsible hs ctx ar0) as [h|] eqn:Hh; [|done].
    pose proof (responsible_Some _ _ _ _ Hh) as [Hin Hcan].
    case_decide as Hskip; [done|]. exists ar0, w0. split_and!; [done..| | |].
    + destruct client; [by left|by right].
    + by exists h.
    + intros h' Hin' Hcan' Hone. pose proof (Hone h Hin Hcan) as ->. split; [done|].
      intros Hno. destruct client as [c|]; [done|]. by destruct Hskip.
  - intros hs ctx ar w resp w' Hresp h Hin Hcan Hone. simpl in Hresp.
    unfold plain_NewAccessResponse in Hresp.
    destruct (responsible hs ctx ar) as [h'|] eqn:Hh; [|done].
    pose proof (responsible_Some _ _ _ _ Hh) as [Hin' Hcan'].
    pose proof (Hone h' Hin' Hcan') as ->. by eexists _, _, _.
  - intros R get hs ctx r s HR Htick Hget Hhs. simpl. unfold plain_NewAccessRequest, plain_authenticate.
    apply keeps_bind; [done| |].
    + destruct (form_credentials r) as [[id secret]|]; [|by apply keeps_ret].
      apply keeps_bind; [done|by apply keeps_attempt|]. intros []; by apply keeps_ret.
    + intros client. cbv zeta. destruct (responsible _ _ _) as [h|] eqn:Hh; [|by apply keeps_fail].
      case_decide; [by apply keeps_fail|]. apply Hhs. by apply responsible_Some in Hh as [? _].
  - intros R hs ctx ar HR Htick Hhs. simpl. unfold plain_NewAccessResponse.
    destruct (responsible _ _ _) as [h|] eqn:Hh; [|by apply keeps_fail].
    apply Hhs. by apply responsible_Some in Hh as [? _].
Qed.
End plain.

(** ** At concrete inputs *)

Definition sample_fosite : Fosite (H:=ExchangeSubject.sample_jwt) := plain_fosite (H:=plain_hasher) (H0:=ExchangeSubject.sample_jwt).

(** The request for an exchange of the token of ExchangeSubject.v. *)
Definition token_request : HttpRequest :=
  {| hr_Method := "POST"; hr_Path := "/token"; hr_ContentType := "application/x-www-form-urlencoded"; hr_Body := "";
     hr_Query := {["grant_type" := [GrantTypeTokenExchange]; "subject_token" := ["jwt-1"];
                   "subject_token_type" := [TokenTypeJWT]]} |}.
Definition client_DB : DB :=
  with_clients <["idntcli-1" := ClientRow "tnntten-1" "ci" "#s3cret" ""]> idp_DB.
Definition client_request (secret : string) : HttpRequest :=
  {| hr_Method := "POST"; hr_Path := "/token"; hr_ContentType := "application/x-www-form-urlencoded"; hr_Body := "";
     hr_Query := {["grant_type" := [GrantTypeClientCredentials]; "client_id" := ["idntcli-1"];
                   "client_secret" := [secret]]} |}.
Definition answered (r : HttpRequest) : result (AuditContext * written) * World :=
  Handle (H2:=ExchangeSubject.sample_jwt) (H4:=sample_fosite)
    (provider (H:=quiet_env) (H2:=ExchangeSubject.sample_jwt) (H3:=sample_platform) (H4:=sample_fosite) ExchangeSubject.sample_config)
    ctx_none r (world_of client_DB).

(** The subject of the token that a request was answered with. *)
Definition answer_subject (x : result (AuditContext * written) * World) : option string :=
  match x.1 with
  | Ok (c, WriteAccessResponse _) => getSubject c !! "subject"
  | _ => None
  end.

(** A token for the exchange, and one for the client when its secret is right. *)
Example tokens_answered :
  answer_subject (answered token_request) = Some alice_id ∧
  answer_subject (answered (client_request "s3cret")) = Some "idntcli-1" ∧
  answer_subject (answered (client_request "guess")) = None.
Proof. vm_compute. auto. Qed.

(** A request that is refused is audited as denied. *)
Example refused_audited :
  match (answered (client_request "guess")).1 with
  | Ok (c, WriteAccessError _) => getOutcome OutcomeSucceeded c = OutcomeDenied
  | _ => False
  end.
Proof. vm_compute. reflexivity. Qed.

Lemma token_endpoint_grants_witness :
  ∃ c resp w', answered (client_request "s3cret") = (Ok (c, WriteAccessResponse resp), w') ∧
  ∃ claims client, getSubject c = {["subject" := claims_Subject (JWT:=ExchangeSubject.sample_jwt) claims]} ∧
    ((∃ w0, authenticated (H:=plain_hasher) (H1:=sample_fosite) (GetClient (H:=quiet_env)) ctx_none
       (client_request "s3cret") client (world_of client_DB) w0) ∨ c_ID client = "").
Proof.
  assert (answer_subject (answered (client_request "s3cret")) = Some "idntcli-1") as Hs by (vm_compute; reflexivity).
  unfold answer_subject in Hs.
  destruct (answered (client_request "s3cret")) as [[[c [err|resp]]| |] w'] eqn:Hans; try discriminate Hs.
  exists c, resp, w'. split; [reflexivity|].
  destruct (token_endpoint_grants (E:=quiet_env) (C:=claim_cel) (H:=plain_hasher) (J:=ExchangeSubject.sample_jwt)
    (P:=sample_platform) (F:=sample_fosite) "key-1" "https://iam.example" 3600000000000 (λ _ _, None) (λ _ l, l)
    ctx_none (client_request "s3cret") (world_of client_DB) c resp w' eq_refl Hans)
    as (ar & s & claims & client & w0 & _ & _ & Hsub & _ & Hauth & _).
  exists claims, client. split; [exact Hsub|].
  destruct Hauth as [Hauth|Hid]; [left; exists w0; exact Hauth|right; exact Hid].
Defined.
