(* ===== verification/TokenEffects.v ===== *)
(** What a request of the token endpoint can do to the database, whatever is
    posted and whatever fails. *)
From S2P Require Import Prelude GoStrings Errors Query Pagination V1 ListQuery World Frame.
From S2P Require Import Run Cel Types Storage UserStore IssuerStore ClientStore Engine Events Http.
From S2P Require Import Server Jwt Exchange ExchangeSubject ClientCredentials Strict Token.

(** ** Definitions *)

(** Users may have been added; every other row is as it was. *)
Definition users_added (d d' : DB) : Prop :=
  groups d' = groups d ∧ group_members d' = group_members d ∧ issuers d' = issuers d ∧
  oauth_clients d' = oauth_clients d ∧ user_info d ⊆ user_info d'.

(** The same of the committed tables, between two worlds. *)
Definition adds_users (w w' : World) : Prop := users_added (committed w) (committed w').

(** Inside the transaction [t]: nothing is committed, and wherever its
    statements are run again, those that were added only add users. *)
Definition view_adds (t : nat) (w w' : World) : Prop :=
  committed w' = committed w ∧
  ∀ f', redo w' !! t = Some f' → ∃ f, redo w !! t = Some f ∧
    ∀ d d', f' d = Some d' → ∃ d0, f d = Some d0 ∧ users_added d0 d'.

#[global] Instance users_added_preorder : PreOrder users_added.
Proof.
  split; [by intros d|]. intros d1 d2 d3 (H1 & H2 & H3 & H4 & H5) (G1 & G2 & G3 & G4 & G5).
  unfold users_added. split_and!; [congruence..|by etrans].
Qed.

#[global] Instance adds_users_preorder : PreOrder adds_users.
Proof. unfold adds_users. split; [by intros w|]. intros w1 w2 w3. apply transitivity. Qed.

#[global] Instance view_adds_preorder t : PreOrder (view_adds t).
Proof.
  split; [intros w; split; [done|]; intros f Hf; exists f; split; [done|]; intros d d' Hd; by exists d'|].
  intros w1 w2 w3 [Hc1 H1] [Hc2 H2]. split; [congruence|]. intros f3 Hf3.
  destruct (H2 f3 Hf3) as (f2 & Hf2 & H23). destruct (H1 f2 Hf2) as (f1 & Hf1 & H12).
  exists f1. split; [done|]. intros d d3 (d2 & Hd2 & ?)%H23.
  destruct (H12 d d2 Hd2) as (d1 & Hd1 & ?). exists d1. split; [done|by etrans].
Qed.

(** ** Statements *)

Lemma sql_store_user_adds newID r d x d' : sql_store_user newID r d = inr (x, d') → users_added d d'.
Proof.
  unfold sql_store_user. destruct (find_user _ _ _); [by intros [= _ <-]|].
  case_decide as Hnew; [done|]. case_decide; [|done]. intros [= _ <-].
  unfold users_added. split_and!; [done..|]. apply insert_subseteq, eq_None_not_Some, Hnew.
Qed.

Section statements.
Context `{Env}.

Lemma view_adds_same t w w' : committed w' = committed w → redo w' = redo w → view_adds t w w'.
Proof. intros Hc Hr. split; [done|]. rewrite Hr. intros f Hf. exists f. split; [done|]. intros d d' Hd. by exists d'. Qed.

Lemma view_adds_rerun t t' g w w' :
  committed w' = committed w → redo w' = redo (rerun t' g w) →
  (∀ d d', g d = Some d' → users_added d d') → view_adds t w w'.
Proof.
  intros Hc Hr Hg. split; [done|]. rewrite Hr. intros f'. simpl. destruct (decide (t' = t)) as [->|Hne].
  - rewrite lookup_alter_eq. intros (f & Hf & ->)%fmap_Some. exists f. split; [done|].
    intros d d' (d0 & Hd0 & Hd')%bind_Some. eauto.
  - rewrite lookup_alter_ne by done. intros Hf. exists f'. split; [done|]. intros d d' Hd. by exists d'.
Qed.

Lemma tx_read_adds {A} `{EqDecision A} t t' (q : DB → A) : keeps (view_adds t) (tx_read t' q).
Proof.
  intros w. unfold tx_read. destruct (txs w !! t') as [[d| |]|]; try reflexivity;
    [|by apply view_adds_same]. destruct (sql_fault _); [by apply view_adds_same|].
  eapply view_adds_rerun; [done..|]. by intros d1 d2 ->%replay_read_same.
Qed.

Lemma ctx_read_adds {A} `{EqDecision A} ctx t (q : DB → A) : keeps (view_adds t) (ctx_read ctx q).
Proof.
  unfold ctx_read. destruct (getContextTx ctx) as [t'|e|s]; [apply tx_read_adds| |apply keeps_panic, _].
  destruct (is_sentinel _ _); [|apply keeps_fail, _]. intros w. unfold db_read.
  destruct (sql_fault _); by apply view_adds_same.
Qed.

Lemma tx_write_adds t t' newID r : keeps (view_adds t) (tx_write t' (sql_store_user newID r)).
Proof.
  intros w. unfold tx_write. destruct (txs w !! t') as [[d| |]|] eqn:Ht; try reflexivity;
    [|by apply view_adds_same].
  destruct (sql_fault _); [by apply view_adds_same|].
  destruct (sql_store_user newID r d) as [e|[x d']] eqn:Hs; [by apply view_adds_same|].
  eapply view_adds_rerun; [done..|]. intros d1 d2. unfold replay_write.
  destruct (sql_store_user newID r d1) as [|[x1 d1']] eqn:Hs1; [done|]. case_decide; [|done].
  intros [= <-]. by eapply sql_store_user_adds.
Qed.

(** *** The methods that an exchange calls in its transaction *)

Lemma LookupUserInfoByClaims_adds ctx t iss sub :
  keeps (view_adds t) (LookupUserInfoByClaims ctx iss sub).
Proof.
  unfold LookupUserInfoByClaims, no_rows, query_row.
  apply keeps_on_error; [apply _| |intros; case_match; apply keeps_fail, _].
  apply keeps_bind; [apply _|apply ctx_read_adds|intros; apply keeps_lift, _].
Qed.

Lemma StoreUserInfo_adds ctx t u : keeps (view_adds t) (StoreUserInfo ctx u).
Proof.
  unfold StoreUserInfo, no_rows_eq, tx_query_row. do 2 (case_decide; [apply keeps_fail, _|]).
  apply keeps_bind; [apply _|apply keeps_lift, _|intros tx].
  apply keeps_bind; [apply _| |intros issuerID].
  { apply keeps_on_error; [apply _| |intros; case_match; apply keeps_fail, _].
    apply keeps_bind; [apply _|apply tx_read_adds|intros; apply keeps_lift, _]. }
  apply keeps_bind; [apply _|case_decide; [apply keeps_lift, _|apply keeps_ret, _]|intros newID].
  apply keeps_bind; [apply _|apply tx_write_adds|intros; apply keeps_ret, _].
Qed.
End statements.

#[global] Instance adds_users_store ctx : StoreRel ctx adds_users.
Proof. split; [apply _|done..]. Qed.

(** ** The transaction of an exchange *)

(** The rest of a method, from the world [w1] in which its transaction [t] sees
    the committed tables: it may end with the commit. *)
Section tail.
Context {E : Env} (t : nat) (w1 : World).

Definition tail {A} (m : M A) : Prop := ∀ w, view_adds t w1 w → adds_users w1 (m w).2.

Lemma tail_keeps {A} (m : M A) : keeps (view_adds t) m → tail m.
Proof.
  intros Hm w Hw. destruct (transitivity Hw (Hm w)) as [Hc _]. unfold adds_users. by rewrite Hc.
Qed.

Lemma tail_bind {A B} (m : M A) (f : A → M B) :
  keeps (view_adds t) m → (∀ a, tail (f a)) → tail (m ≫= f).
Proof.
  intros Hm Hf w Hw. pose proof (tail_keeps m Hm w Hw) as Hend. specialize (Hm w).
  unfold mbind, M_bind. destruct (m w) as [[a|e|s] w2]; [|done..]. apply Hf. by etrans.
Qed.

Lemma tail_last {A B} (m : M A) (f : A → M B) :
  tail m → (∀ a, keeps adds_users (f a)) → tail (m ≫= f).
Proof.
  intros Hm Hf w Hw. specialize (Hm w Hw). unfold mbind, M_bind.
  destruct (m w) as [[a|e|s] w2]; [|done..]. etrans; [done|apply Hf].
Qed.

Lemma tail_on_error {A} (m : M A) f :
  tail m → (∀ e, keeps adds_users (f e)) → tail (on_error m f).
Proof.
  intros Hm Hf. unfold on_error. apply tail_last; [|by intros []; [apply Hf|apply keeps_ret, _]].
  intros w Hw. specialize (Hm w Hw). unfold attempt. by destruct (m w) as [[] ?].
Qed.

Lemma tail_commit ctx : ctx_tx ctx = Some t → redo w1 !! t = Some Some → tail (CommitContext ctx).
Proof.
  intros Hc Hw1 w [Hw Hv]. unfold adds_users.
  destruct (CommitContext_world ctx w) as [-> | (t' & Ht' & s & c & _ & _ & -> & Hcom)]; [by rewrite Hw|].
  simpl. destruct Hcom as [-> | [_ (f & Hf & Hfc)%bind_Some]]; [by rewrite Hw|].
  assert (t' = t) as -> by congruence. destruct (Hv f Hf) as (f0 & Hf0 & Hadd). simplify_eq.
  destruct (Hadd _ _ Hfc) as (d0 & [= <-] & Hd0). by rewrite <-Hw.
Qed.
End tail.

Section effects.
Context {E : Env} {C : CEL} {H : Hasher} {J : JWT} `{!JWTLaws J} {P : Platform} {F : Fosite}.
Context `{!FositeLaws F}.
Context (kid issuer : string) (l : Z) (a : list string → list string → option error)
  (e : OAuthClient → Z → Z).
Abbreviation cfg := (engine_config kid issuer l a e).

Lemma RollbackContext_adds ctx t : keeps (view_adds t) (RollbackContext ctx).
Proof.
  intros w. destruct (RollbackContext_world ctx w) as [-> |(t' & s & _ & _ & _ & ->)]; [done|].
  by apply view_adds_same.
Qed.

Lemma populateUserInfo_adds ctx t c : keeps (view_adds t) (populateUserInfo engine_users ctx c).
Proof.
  unfold populateUserInfo. apply keeps_on_error; [apply _|apply LookupUserInfoByClaims_adds|].
  intros err. case_match; [apply keeps_lift, _|apply keeps_fail, _].
Qed.

Lemma override_keeps R mapped u : PreOrder R → keeps R (override_subject mapped u).
Proof.
  intros HR. unfold override_subject. destruct (ToMapClaims mapped !! _) as [[]|]; try (by apply keeps_panic);
    try (by apply keeps_ret). case_decide; [by apply keeps_ret|].
  apply keeps_bind; [done| |intros; by apply keeps_ret].
  apply keeps_on_error; [done|by apply keeps_lift|intros; by apply keeps_fail].
Qed.

Lemma store_subject_adds ctx claims mapped : keeps adds_users (store_subject cfg ctx claims mapped).
Proof.
  intros w. unfold store_subject. simpl. unfold BeginContext, beginTxContext.
  unfold mbind at 1, M_bind, on_error at 1, attempt, mbind at 1, M_bind.
  destruct (sql_fault (tick w)) as [err|]; [done|]. simpl.
  set (dbCtx := {| ctx_tx := Some (next_tx w); ctx_asOf := ctx_asOf ctx |}).
  set (w1 := next_tick (add_tx (TxOpen (committed w)) w)).
  change (adds_users w) with (adds_users w1).
  match goal with |- adds_users _ (?m w1).2 => enough (tail (next_tx w) w1 m) as Ht by (by apply Ht) end.
  apply tail_bind; [apply keeps_on_error; [apply _|apply populateUserInfo_adds|intros; apply keeps_fail, _]|].
  intros u. apply tail_bind; [apply override_keeps, _|]. intros u'. apply tail_bind.
  { apply keeps_on_error; [apply _|apply StoreUserInfo_adds|]. intros err.
    apply keeps_bind; [apply _|apply keeps_attempt, RollbackContext_adds|intros; apply keeps_fail, _]. }
  intros u2. apply tail_last; [|intros; apply keeps_ret, _].
  apply tail_on_error; [|intros; apply keeps_fail, _]. apply tail_commit; [done|].
  apply lookup_insert_eq.
Qed.

Lemma store_subject_only_writes ctx claims mapped :
  keeps only_writes (store_subject cfg ctx claims mapped).
Proof.
  unfold store_subject. simpl. assert (∀ w w', trace w' = trace w → only_writes w w') as Hsame.
  { intros w w' Hw. exists 0. by rewrite Hw, app_nil_r. }
  apply keeps_bind; [apply _| |intros dbCtx].
  { apply keeps_on_error; [apply _| |intros; apply keeps_fail, _]. intros w. apply Hsame.
    by destruct (BeginContext_world ctx w) as [-> | ->]. }
  apply keeps_bind; [apply _|unfold populateUserInfo; simpl; frame|intros u].
  apply keeps_bind; [apply _|apply override_keeps, _|intros u'].
  apply keeps_bind; [apply _| |intros u2].
  { apply keeps_on_error; [apply _|frame|]. intros err.
    apply keeps_bind; [apply _| |intros; apply keeps_fail, _]. apply keeps_attempt.
    intros w. apply Hsame, rollback_trace. }
  apply keeps_bind; [apply _| |intros; apply keeps_ret, _].
  apply keeps_on_error; [apply _| |intros; apply keeps_fail, _].
  intros w. apply Hsame, commit_trace.
Qed.

(** *** The whole request

    A relation is kept by the token endpoint when the storage methods keep it
    and the storing of a subject does. *)
Section kept.
Context (R : relation World) `{HS : !∀ ctx, StoreRel ctx R}.
Context (HSub : ∀ ctx claims mapped, keeps R (store_subject cfg ctx claims mapped)).

Lemma kept_preorder : PreOrder R.
Proof using HS. apply (store_preorder (ctx:=ctx_none)). Qed.
Hint Resolve kept_preorder : core.
Lemma kept_tick w : R w (next_tick w).
Proof using HS. apply (store_tick (ctx:=ctx_none)). Qed.

Lemma exchange_keeps ctx ar : keeps R (Exchange.HandleTokenEndpointRequest cfg ctx ar).
Proof using Type*.
  unfold Exchange.HandleTokenEndpointRequest. cbv zeta. do 4 (case_decide; [by apply keeps_fail|]).
  apply keeps_bind; [done|by unfold getSubjectClaims; apply keeps_bind;
    [|apply (validateJWT_frame ctx)|intros; apply keeps_ret]|intros claims].
  apply keeps_bind; [done|apply keeps_on_error; [done|by apply (Eval_frame ctx)|intros; by apply keeps_fail]|].
  intros []; simpl; [|by apply keeps_fail]. apply keeps_bind; [done| |intros mapped].
  { apply keeps_on_error; [done|by apply (MapClaims_frame ctx)|intros; by apply keeps_fail]. }
  apply keeps_bind; [done|apply HSub|intros u]. unfold complete_request.
  apply keeps_bind; [done|intros w; apply kept_tick|intros now]. cbv zeta.
  destruct (ar_Session ar); try (by apply keeps_fail); apply keeps_bind; try done;
    try (intros; by apply keeps_ret); apply keeps_on_error; try done; try (by apply keeps_lift);
    intros; by apply keeps_fail.
Qed.

Lemma client_credentials_keeps ctx ar : keeps R (ClientCredentials.HandleTokenEndpointRequest cfg ctx ar).
Proof using Type*.
  unfold ClientCredentials.HandleTokenEndpointRequest. case_match; [by apply keeps_fail|].
  case_match; [by apply keeps_fail|]. apply keeps_bind; [done| |intros s].
  { destruct (ar_Session _); [by apply keeps_panic|by apply keeps_ret|by apply keeps_panic]. }
  apply keeps_bind; [done|by apply keeps_lift|intros clientID].
  apply keeps_bind; [done|intros w; apply kept_tick|intros; by apply keeps_ret].
Qed.

Lemma populate_keeps h ctx ar resp :
  h ∈ TokenEndpointHandlers (p_handlers (provider cfg)) →
  keeps R (th_PopulateTokenEndpointResponse h ctx ar resp).
Proof using Type*.
  intros [-> | ->]%provider_handlers; simpl.
  - unfold Exchange.PopulateTokenEndpointResponse. case_match; [by apply keeps_fail|].
    apply keeps_bind; [done|intros w; apply kept_tick|intros; by apply keeps_ret].
  - unfold ClientCredentials.PopulateTokenEndpointResponse. case_match; [by apply keeps_fail|].
    intros w. apply kept_tick.
Qed.

Lemma Handle_keeps ctx r : keeps R (Handle (provider cfg) ctx r).
Proof using Type*.
  unfold Handle. apply keeps_bind; [done| |intros [err|ar]; [by apply keeps_ret|]].
  - apply keeps_attempt. unfold NewAccessRequest. apply NewAccessRequest_keeps; [done|apply kept_tick| |].
    + intros id. apply (GetClient_frame ctx R).
    + intros h ar [-> | ->]%provider_handlers; [apply exchange_keeps|apply client_credentials_keeps].
  - apply keeps_bind; [done|destruct (ar_Session ar); [by apply keeps_panic|by apply keeps_ret|by apply keeps_panic]|].
    intros s. case_match; [|by apply keeps_panic]. cbv zeta. apply keeps_bind; [done| |].
    + apply keeps_attempt. unfold NewAccessResponse. apply NewAccessResponse_keeps; [done|apply kept_tick|].
      intros h resp Hh. by apply populate_keeps.
    + intros []; by apply keeps_ret.
Qed.
End kept.

(** ** Properties *)

(** The token endpoint can do no more than add users. Whatever is posted to
    it, by whomever, and whatever fails in it, with an error or a panic: no
    group, member, issuer or client changes, every user keeps its row, and
    permissions-api is neither asked nor told anything. *)
Theorem token_endpoint_adds_users ctx r w :
  let w' := (Handle (provider cfg) ctx r w).2 in
  users_added (committed w) (committed w') ∧ only_writes w w'.
Proof using Type*.
  split.
  - apply (Handle_keeps adds_users), store_subject_adds.
  - apply (Handle_keeps only_writes), store_subject_only_writes.
Qed.
End effects.

(** ** At a concrete input *)

Lemma token_endpoint_adds_users_witness :
  let w' := (answered token_request).2 in
  users_added client_DB (committed w') ∧ user_info (committed w') !! alice_id ≠ None.
Proof.
  destruct (token_endpoint_adds_users (E:=quiet_env) (C:=claim_cel) (H:=plain_hasher)
    (J:=ExchangeSubject.sample_jwt) (P:=sample_platform) (F:=sample_fosite) "key-1"
    "https://iam.example" 3600000000000 (λ _ _, None) (λ _ l, l) ctx_none token_request
    (world_of client_DB)) as [Hadd _].
  split; [exact Hadd|]. apply (bool_decide_unpack _). vm_compute. exact I.
Defined.
