(* ===== verification/Startup.v ===== *)
(** How [serve] configures the token service from the application's
    configuration ([internal/fositex/config.go], [NewOAuth2Config] of
    [internal/fositex/fosite.go], [cmd/serve.go]), and how the storage engine is
    opened and seeded ([internal/storage/engine.go], [crdb.go], [data.go],
    [cmd/seed.go]).

    The defaults of fosite's configuration, the YAML decoder, the opening of the
    connection pool and the migrations are parameters. *)
From S2P Require Import Prelude GoStrings Errors Query World Frame Run Cel Types Storage.
From S2P Require Import UserStore IssuerStore ClientStore Jwt Exchange ExchangeSubject.
From S2P Require Import Keys Strict Token.

(** ** The configuration *)

(** [fositex.Config]; the lifespan is an [int] of seconds. *)
Record Config : Type := {
  conf_Issuer : string;
  conf_AccessTokenLifespan : Z;
  conf_Secret : string;
  conf_PrivateKeys : list PrivateKey;
}.

(** The fields of [fosite.Config] that are set. *)
Record fosite_Config : Type := {
  fc_AccessTokenIssuer : string;
  fc_AccessTokenLifespan : Z;
  fc_GlobalSecret : bytes;
}.

(** fosite's accessors of its configuration: the audience strategy and the
    lifespan of a client's own tokens are its defaults. *)
Class FositeConfig : Type := {
  default_lifespan : Z;
  GetAccessTokenLifespan : fosite_Config → Z;
  GetAudienceStrategy : list string → list string → option error;
  GetEffectiveLifespan : OAuthClient → Z → Z;
}.

(** A lifespan that is not set is the default one, an hour. *)
Class FositeConfigLaws (F : FositeConfig) : Prop := {
  default_lifespan_hour : default_lifespan = (3600 * 1000000000)%Z;
  GetAccessTokenLifespan_eq c : GetAccessTokenLifespan c =
    if decide (fc_AccessTokenLifespan c = 0%Z) then default_lifespan else fc_AccessTokenLifespan c;
}.

(** The wrap-around of Go's [int64]. *)
Definition int64 (z : Z) : Z := ((z + 2 ^ 63) `mod` 2 ^ 64 - 2 ^ 63)%Z.

(** [time.Second], in the nanoseconds of a [time.Duration]. *)
Definition time_Second : Z := 1000000000.

(** [fositex.OAuth2Config], as it is built: the strategies are attached later. *)
Record KeyedConfig `{KeyLibrary} : Type := {
  kc_Config : fosite_Config;
  kc_SigningKey : Keys.JSONWebKey;
  kc_SigningJWKS : list Keys.JSONWebKey;
  kc_userInfoAudience : string;
}.

Section configuration.
Context `{Env, CEL, Hasher, JWT, !Platform, KeyLibrary, FositeConfig}.

Definition NewOAuth2Config (config : Config) : M KeyedConfig :=
  keys ← parsePrivateKeys (conf_PrivateKeys config);
  let '(signingKey, jwks) := keys in
  let tokenLifespan := int64 (time_Second * conf_AccessTokenLifespan config) in
  let fositeConfig := {| fc_AccessTokenIssuer := conf_Issuer config;
                         fc_AccessTokenLifespan := tokenLifespan;
                         fc_GlobalSecret := to_bytes (conf_Secret config) |} in
  userInfoAudience ← lift (JoinPath (conf_Issuer config) "userinfo");
  mret {| kc_Config := fositeConfig; kc_SigningKey := signingKey; kc_SigningJWKS := jwks;
          kc_userInfoAudience := userInfoAudience |}.

(** The configuration of [serve]: its strategies are the storage engine's. *)
Definition serve_config (c : KeyedConfig) : OAuth2Config :=
  engine_config (jwk_KeyID (kc_SigningKey c)) (fc_AccessTokenIssuer (kc_Config c))
    (GetAccessTokenLifespan (kc_Config c)) GetAudienceStrategy GetEffectiveLifespan.
End configuration.

(** ** The storage engine *)

(** [SeedData]. *)
Record SeedData : Type := { Issuers : list SeedIssuer }.

(** [crdbx.NewDB], goose's [Up] and the decoder of YAML. *)
Class Database : Type := {
  NewDB : nat → option error;
  goose_Up : nat → option error;
  yaml_Unmarshal : bytes → error + SeedData;
}.

Definition EngineOption : Type := M ().

Section engine.
Context `{Env, CEL, KeyLibrary, Database}.

Definition from_outside (answer : nat → option error) : M () := λ w,
  (match answer (tick w) with Some e => Err e | None => Ok () end, next_tick w).

(** [eng.seedDatabase] and the options that set up an engine. The schema is
    modelled as it is after the migrations. *)
Definition engine_seedDatabase (ctx : Context) (data : SeedData) : M () :=
  seedDatabase ctx (Issuers data).
Definition WithSeedData (data : SeedData) : EngineOption := engine_seedDatabase ctx_none data.
Definition runMigrations : M () := from_outside goose_Up.
Definition WithMigrations : EngineOption := runMigrations.

(** The loop over the options of [newCRDBEngine]. *)
Fixpoint apply_options (options : list EngineOption) : M () :=
  match options with
  | [] => mret ()
  | opt :: options => _ ← opt; apply_options options
  end.

(** [newCRDBEngine] and [NewEngine]. The constructors of the four services do
    not fail; an engine is its connection, which the world stands for. *)
Definition newCRDBEngine (options : list EngineOption) : M () :=
  _ ← from_outside NewDB; apply_options options.
Definition NewEngine (opts : list EngineOption) : M () := newCRDBEngine opts.

(** [RunMigrations]. *)
Definition RunMigrations : M () := _ ← from_outside NewDB; runMigrations.

(** [parseSeedData]: the file is read to its end, and decoded. *)
Definition parseSeedData (path : string) : M SeedData :=
  bytes ← read_file path;
  match yaml_Unmarshal bytes with
  | inl err => fail err
  | inr out => mret out
  end.

Definition SeedDatabase (path : string) : M () :=
  data ← parseSeedData path;
  newCRDBEngine [WithSeedData data].

(** The command [seed-database]; a fatal log line ends the process. *)
Definition fatal {A} (text : string) : M A := fail (ExtError text).
Definition seed_command (path : string) : M () :=
  if decide (path = "") then fatal "no data path provided"
  else on_error (SeedDatabase path) (λ err, fatal ("error seeding database: " +:+ Error err)).
End engine.

(** ** Lemmas *)

Lemma int64_id z : (- 2 ^ 63 ≤ z < 2 ^ 63)%Z → int64 z = z.
Proof. intros Hz. unfold int64. rewrite Z.mod_small by lia. lia. Qed.

Lemma int64_bounds z : (- 2 ^ 63 ≤ int64 z < 2 ^ 63)%Z.
Proof. unfold int64. pose proof (Z.mod_pos_bound (z + 2 ^ 63) (2 ^ 64)). lia. Qed.

Section lemmas.
Context {E : Env} {C : CEL} {H : Hasher} {J : JWT} {P : Platform} {K : KeyLibrary} {F : FositeConfig}.

Lemma NewOAuth2Config_Ok conf w kc w' :
  NewOAuth2Config conf w = (Ok kc, w') →
  parsePrivateKeys (conf_PrivateKeys conf) w = (Ok (kc_SigningKey kc, kc_SigningJWKS kc), w') ∧
  fc_AccessTokenIssuer (kc_Config kc) = conf_Issuer conf ∧
  fc_AccessTokenLifespan (kc_Config kc) = int64 (time_Second * conf_AccessTokenLifespan conf) ∧
  JoinPath (conf_Issuer conf) "userinfo" = Ok (kc_userInfoAudience kc).
Proof.
  intros ([signing jwks] & w1 & Hkeys & (aud & w2 & Haud & Hret)%bind_inv)%bind_inv.
  injection Haud as Haud <-. injection Hret as <- <-. done.
Qed.

(** The lifespan that is configured, and the one that tokens get. *)
Lemma lifespan_spec `{!FositeConfigLaws F} conf w kc w' :
  NewOAuth2Config conf w = (Ok kc, w') →
  let n := conf_AccessTokenLifespan conf in
  let d := GetAccessTokenLifespan (kc_Config kc) in
  ((0 < n ≤ 9223372036)%Z → d = (n * time_Second)%Z) ∧
  (n = 0%Z → d = (3600 * time_Second)%Z) ∧
  ((9223372036 < n)%Z → (d < n * time_Second)%Z).
Proof using Type*.
  intros (_ & _ & Hl & _)%NewOAuth2Config_Ok. cbv zeta.
  rewrite GetAccessTokenLifespan_eq, Hl, default_lifespan_hour.
  set (n := conf_AccessTokenLifespan conf). pose proof (int64_bounds (time_Second * n)) as Hb.
  unfold time_Second in *. split_and!.
  - intros Hn. rewrite int64_id by lia. case_decide; lia.
  - intros ->. done.
  - intros Hn. case_decide; lia.
Qed.

(** The signing key of the configuration, when it is an RSA key, is published. *)
Lemma signing_key_published `{!KeyLibraryLaws K} conf w kc w' first rest :
  NewOAuth2Config conf w = (Ok kc, w') → conf_PrivateKeys conf = first :: rest →
  pk_Algorithm first ∈ rsa_algorithms →
  jwk_KeyID (kc_SigningKey kc) = pk_KeyID first ∧
  ∃ m k, jwk_Key (kc_SigningKey kc) = Some m ∧ head (Keys.Handle (kc_SigningJWKS kc)) = Some k ∧
    jwk_KeyID k = pk_KeyID first ∧ jwk_Key k = public_part m.
Proof using Type*.
  intros (Hkeys & _)%NewOAuth2Config_Ok Hconf Halg.
  destruct (parsePrivateKeys_Ok _ _ _ _ _ Hkeys) as (first' & rest' & js & w1 & Hk & Hjs & Hread & _).
  rewrite Hconf in Hk. injection Hk as <- <-.
  destruct (readPrivateKey_Ok _ _ _ _ Hread) as [Hid _].
  destruct (readPrivateKey_rsa _ _ _ _ Hread Halg) as (m & pub & Hm & Hpub).
  split; [done|]. eexists m, _. split_and!; [done|rewrite Hjs; by eapply Handle_head|done|done].
Qed.
End lemmas.

(** ** Properties *)

Section properties.
Context {E : Env} {C : CEL} {H : Hasher} {J : JWT} `{!JWTLaws J} {P : Platform}.
Context {K : KeyLibrary} `{!KeyLibraryLaws K} {Fc : FositeConfig} `{!FositeConfigLaws Fc}.
Context {F : Fosite} `{!FositeLaws F}.

(** C16: whoever reads the published keys can verify the tokens of the service.
    When the first configured key is an RSA key, every access request that the
    provider of [serve] makes, whichever the grant, is signed under the
    identifier of that key, and the key set that is published starts with the
    public part of the signing key, under this identifier. *)
Theorem issued_tokens_verifiable conf w0 kc w0' first rest ctx r s w ar w' :
  NewOAuth2Config conf w0 = (Ok kc, w0') →
  conf_PrivateKeys conf = first :: rest → pk_Algorithm first ∈ ["RS256"; "RS384"; "RS512"] →
  ctx_tx ctx = None →
  NewAccessRequest (provider (serve_config kc)) ctx r s w = (Ok ar, w') →
  ∃ session m k, ar_Session ar = SessionOf session ∧
    js_JWTHeader session = {["kid" := AnyString (pk_KeyID first)]} ∧
    jwk_Key (kc_SigningKey kc) = Some m ∧
    head (Keys.Handle (kc_SigningJWKS kc)) = Some k ∧
    jwk_KeyID k = pk_KeyID first ∧ jwk_Key k = public_part m.
Proof using Type*.
  intros Hconf Hkeys Halg Hc Hreq.
  destruct (signing_key_published _ _ _ _ _ _ Hconf Hkeys Halg) as (Hid & m & k & Hm & Hk & Hkid & Hpub).
  destruct (NewAccessRequest_grant _ _ _ _ _ _ _ _ _ _ _ Hreq)
    as (ar0 & w1 & h & _ & _ & _ & Hh & _ & Hrun & _).
  assert (∃ session, ar_Session ar = SessionOf session ∧
    js_JWTHeader session = {["kid" := AnyString (pk_KeyID first)]}) as (session & Hs & Hhead).
  { rewrite <-Hid. destruct (provider_handlers _ _ Hh) as [-> | ->]; simpl in Hrun.
    - destruct (exchange_Ok _ _ _ _ _ _ _ _ _ _ Hc Hrun) as (_ & se & c & ? & _ & ? & _). by exists se.
    - destruct (client_credentials_Ok _ _ _ _ _ _ _ _ _ _ Hrun)
        as (_ & _ & se & c & ? & _ & ? & _). by exists se. }
  by exists session, m, k.
Qed.

(** C35: the life of exchanged tokens is the configured number of seconds, and an
    hour when none is configured, as long as it is at most 9223372036 seconds:
    beyond, the multiplication with [time.Second] wraps around in 64 bits, and
    tokens expire earlier than configured. *)
Theorem token_lifespan conf w0 kc w0' ctx req w req' w' :
  NewOAuth2Config conf w0 = (Ok kc, w0') →
  Exchange.HandleTokenEndpointRequest (serve_config kc) ctx req w = (Ok req', w') →
  let n := conf_AccessTokenLifespan conf in
  ∃ mapped u w4 session expiry,
    exchange_run (serve_config kc) ctx (ar_Form req) w mapped u w4 ∧
    ar_Session req' = SessionOf session ∧ js_ExpiresAt session = Some expiry ∧
    let now := time_Now (tick w4) in
    ((0 < n ≤ 9223372036)%Z → expiry = (now + n * 1000000000)%Z) ∧
    (n = 0%Z → expiry = (now + 3600 * 1000000000)%Z) ∧
    ((9223372036 < n)%Z → (expiry < now + n * 1000000000)%Z).
Proof using Type*.
  intros Hconf Hrun. cbv zeta.
  destruct (lifespan_spec _ _ _ _ Hconf) as (Hin & Hzero & Hout).
  destruct (handler_run _ _ _ _ _ _ Hrun) as (claims & mapped & u & w4 & aud & Hu & _ & ->).
  eexists mapped, u, w4, _, _. split_and!; [done..| | |]; simpl; unfold time_Second in *; intros Hn.
  - by rewrite (Hin Hn).
  - by rewrite (Hzero Hn).
  - specialize (Hout Hn). lia.
Qed.
End properties.

Section seeding.
Context {E : Env} `{!Reliable E} {C : CEL} {K : KeyLibrary} {D : Database}.

(** C24: the command [seed-database] installs all the issuers of its file or
    none: it succeeds exactly when every seed converts, and none repeats an
    identifier or a URI that is stored or seeded before it; the committed
    tables are then those with all the seeds, and otherwise as they were. *)
Theorem seed_command_refines path bytes data w :
  path ≠ "" → ReadFile (tick w) path = inr bytes → yaml_Unmarshal bytes = inr data →
  (∀ n, NewDB n = None) →
  let '(r, w') := seed_command path w in
  match seed_tables (Issuers data) (committed w) with
  | Ok d => r = Ok tt ∧ committed w' = d
  | Err e => r = Err (ExtError ("error seeding database: " +:+ Error e)) ∧ committed w' = committed w
  | Panic s => r = Panic s ∧ committed w' = committed w
  end.
Proof using Type*.
  intros Hpath Hfile Hyaml Hdb. apply wp_elim. unfold seed_command. rewrite decide_False by done.
  apply wp_on_error. unfold SeedDatabase, parseSeedData, newCRDBEngine. apply wp_bind, wp_bind.
  unfold read_file. unfold wp at 1. cbn [fst snd]. rewrite Hfile, Hyaml. apply wp_ret, wp_bind.
  unfold wp at 1, from_outside. rewrite Hdb. cbn [fst snd]. simpl. apply wp_bind.
  eapply wp_mono; [|apply seedDatabase_run]. cbn beta. intros r w' [-> Hc]. simpl in *.
  destruct (seed_tables (Issuers data) (committed w)); simpl; done.
Qed.
End seeding.

(** ** At concrete inputs *)

Definition plain_fosite_config : FositeConfig :=
  {| default_lifespan := (3600 * 1000000000)%Z;
     GetAccessTokenLifespan c :=
       if decide (fc_AccessTokenLifespan c = 0%Z) then (3600 * 1000000000)%Z
       else fc_AccessTokenLifespan c;
     GetAudienceStrategy _ _ := None;
     GetEffectiveLifespan _ l := l |}.
#[global] Instance plain_fosite_config_laws : FositeConfigLaws plain_fosite_config.
Proof. by split. Qed.

(** A file names the seeds that it holds. *)
Definition sample_database : Database :=
  {| NewDB _ := None; goose_Up _ := None;
     yaml_Unmarshal b :=
       if decide (of_bytes b = "one.yaml") then inr {| Issuers := [seed1] |}
       else if decide (of_bytes b = "two.yaml") then inr {| Issuers := [seed1; seed2] |}
       else inl (ExtError "yaml: unmarshal errors") |}.

Definition sample_conf (lifespan : Z) : Config :=
  {| conf_Issuer := "https://iam.example"; conf_AccessTokenLifespan := lifespan; conf_Secret := "s";
     conf_PrivateKeys := [{| pk_KeyID := "k1"; pk_Algorithm := "RS256"; pk_Path := "a.pem" |};
                          {| pk_KeyID := "k2"; pk_Algorithm := "HS256"; pk_Path := "b.key" |}] |}.

Definition sample_start (lifespan : Z) : result (KeyedConfig (H:=sample_keys)) * World :=
  NewOAuth2Config (H2:=ExchangeSubject.sample_jwt) (H3:=sample_platform) (H4:=sample_keys)
    (sample_conf lifespan) (world_of client_DB).

(** The configured service, with the engine and the libraries of the samples. *)
Definition sample_service (kc : KeyedConfig (H:=sample_keys)) : OAuth2Config (H:=ExchangeSubject.sample_jwt) :=
  serve_config (H:=quiet_env) (H0:=claim_cel) (H2:=ExchangeSubject.sample_jwt)
    (H4:=sample_keys) (H5:=plain_fosite_config) kc.

(** What the sample is configured as. *)
Definition sample_keyed (lifespan : Z) : KeyedConfig (H:=sample_keys) := Build_KeyedConfig sample_keys
  {| fc_AccessTokenIssuer := "https://iam.example";
     fc_AccessTokenLifespan := int64 (time_Second * lifespan); fc_GlobalSecret := to_bytes "s" |}
  (Build_JSONWebKey sample_keys (Some (inl "a.pem")) "k1" "RS256")
  [Build_JSONWebKey sample_keys (Some (inl "a.pem")) "k1" "RS256";
   Build_JSONWebKey sample_keys (Some (inr (to_bytes "b.key"))) "k2" "HS256"]
  "https://iam.example/userinfo".

Lemma sample_start_Ok lifespan :
  sample_start lifespan = (Ok (sample_keyed lifespan), (sample_start lifespan).2).
Proof. reflexivity. Qed.

Lemma issued_tokens_verifiable_witness :
  ∃ ar w' session k,
    NewAccessRequest (H2:=ExchangeSubject.sample_jwt) (H4:=sample_fosite)
      (provider (H:=quiet_env) (H3:=sample_platform) (sample_service (sample_keyed 60)))
      ctx_none token_request empty_session (world_of client_DB) = (Ok ar, w') ∧
    ar_Session ar = SessionOf session ∧ js_JWTHeader session = {["kid" := AnyString "k1"]} ∧
    head (Keys.Handle (kc_SigningJWKS (sample_keyed 60))) = Some k ∧ jwk_KeyID k = "k1".
Proof.
  set (x := NewAccessRequest (H2:=ExchangeSubject.sample_jwt) (H4:=sample_fosite)
      (provider (H:=quiet_env) (H3:=sample_platform) (sample_service (sample_keyed 60)))
      ctx_none token_request empty_session (world_of client_DB)).
  assert (is_Ok x.1 = true) as [ar Har]%is_Ok_true by (vm_compute; reflexivity).
  assert (x = (Ok ar, x.2)) as Hx by (rewrite <-Har; apply surjective_pairing).
  destruct (issued_tokens_verifiable (E:=quiet_env) (C:=claim_cel) (H:=plain_hasher)
    (J:=ExchangeSubject.sample_jwt) (P:=sample_platform) (K:=sample_keys) (Fc:=plain_fosite_config)
    (F:=sample_fosite) (sample_conf 60) (world_of client_DB) (sample_keyed 60) _ _ _
    ctx_none token_request empty_session (world_of client_DB) ar x.2
    (sample_start_Ok 60) eq_refl ltac:(left) eq_refl Hx)
    as (session & m & k & Hs & Hkid & _ & Hhead & Hid & _).
  exists ar, x.2, session, k. exact (conj Hx (conj Hs (conj Hkid (conj Hhead Hid)))).
Defined.

(** A token that should live for 292 years and a second. *)
Lemma token_lifespan_witness :
  ∃ req' w' w4 session expiry,
    Exchange.HandleTokenEndpointRequest (H:=quiet_env) (H2:=ExchangeSubject.sample_jwt)
      (H3:=sample_platform) (sample_service (sample_keyed 9223372037)) ctx_none exchange_request
      (world_of client_DB) = (Ok req', w') ∧
    ar_Session req' = SessionOf session ∧ js_ExpiresAt session = Some expiry ∧
    (expiry < time_Now (Platform:=sample_platform) (tick w4) + 9223372037 * 1000000000)%Z.
Proof.
  set (x := Exchange.HandleTokenEndpointRequest (H:=quiet_env) (H2:=ExchangeSubject.sample_jwt)
      (H3:=sample_platform) (sample_service (sample_keyed 9223372037)) ctx_none exchange_request
      (world_of client_DB)).
  assert (is_Ok x.1 = true) as [req' Hreq]%is_Ok_true by (vm_compute; reflexivity).
  assert (x = (Ok req', x.2)) as Hx by (rewrite <-Hreq; apply surjective_pairing).
  destruct (token_lifespan (E:=quiet_env) (C:=claim_cel) (H:=plain_hasher)
    (J:=ExchangeSubject.sample_jwt) (P:=sample_platform) (K:=sample_keys) (Fc:=plain_fosite_config)
    (F:=sample_fosite) (sample_conf 9223372037) (world_of client_DB) (sample_keyed 9223372037) _
    ctx_none exchange_request (world_of client_DB) req' x.2 (sample_start_Ok 9223372037) Hx)
    as (mapped & u & w4 & session & expiry & _ & Hs & He & _ & _ & Hlt).
  exists req', x.2, w4, session, expiry.
  exact (conj Hx (conj Hs (conj He (Hlt eq_refl)))).
Defined.

(** Its lifespan is negative: it has expired when it is issued. *)
Example lifespan_wraps : (int64 (time_Second * 9223372037) < 0)%Z.
Proof. reflexivity. Qed.

(** The seed of the first file is installed; the second file repeats a URI. *)
Lemma seed_command_refines_witness :
  (let '(r, w') := seed_command (H:=quiet_env) (H0:=claim_cel) (H1:=sample_keys)
     (H2:=sample_database) "one.yaml" (world_of sample_DB) in
   r = Ok tt ∧ issuers (committed w') !! "idntiss-3" ≠ None) ∧
  (let '(r, w') := seed_command (H:=quiet_env) (H0:=claim_cel) (H1:=sample_keys)
     (H2:=sample_database) "two.yaml" (world_of sample_DB) in
   r ≠ Ok tt ∧ committed w' = sample_DB).
Proof.
  pose proof (seed_command_refines (E:=quiet_env) (C:=claim_cel) (K:=sample_keys)
    (D:=sample_database) "one.yaml" (to_bytes "one.yaml") {| Issuers := [seed1] |}
    (world_of sample_DB) ltac:(discriminate) eq_refl eq_refl (λ _, eq_refl)) as H1.
  pose proof (seed_command_refines (E:=quiet_env) (C:=claim_cel) (K:=sample_keys)
    (D:=sample_database) "two.yaml" (to_bytes "two.yaml") {| Issuers := [seed1; seed2] |}
    (world_of sample_DB) ltac:(discriminate) eq_refl eq_refl (λ _, eq_refl)) as H2.
  split.
  - destruct (seed_command "one.yaml" (world_of sample_DB)) as [r w'].
    assert (is_Ok (seed_tables (C:=claim_cel) [seed1] sample_DB) = true) as [d Hd]%is_Ok_true
      by (vm_compute; reflexivity).
    change (seed_tables (Issuers {| Issuers := [seed1] |}) (committed (world_of sample_DB)))
      with (seed_tables (C:=claim_cel) [seed1] sample_DB) in H1.
    rewrite Hd in H1. destruct H1 as [Hr Hc]. split; [exact Hr|]. rewrite Hc. intros Hnone.
    assert (match seed_tables (C:=claim_cel) [seed1] sample_DB with
            | Ok d => bool_decide (issuers d !! "idntiss-3" = None) | _ => true end = false) as Hin
      by (vm_compute; reflexivity).
    rewrite Hd in Hin. apply bool_decide_eq_false in Hin. exact (Hin Hnone).
  - destruct (seed_command "two.yaml" (world_of sample_DB)) as [r w'].
    assert (seed_tables (C:=claim_cel) [seed1; seed2] sample_DB = Err unique_violation) as Hd
      by (vm_compute; reflexivity).
    change (seed_tables (Issuers {| Issuers := [seed1; seed2] |}) (committed (world_of sample_DB)))
      with (seed_tables (C:=claim_cel) [seed1; seed2] sample_DB) in H2.
    rewrite Hd in H2. destruct H2 as [Hr Hc]. split; [rewrite Hr; discriminate|exact Hc].
Defined.
