(* ===== verification/Service.v ===== *)
(** The service that [serve] of [cmd/serve.go] puts together: the routes that
    need no authentication ([internal/routes/routes.go]), the authentication in
    front of every other, and the discovery document
    ([internal/routes/oidc.go]). *)
From S2P Require Import Prelude GoStrings Errors Query Pagination V1 ListQuery World Frame.
From S2P Require Import Run Cel Types Storage ClientStore Events Http Server.
From S2P Require Import Consistency Jwt Exchange ExchangeSubject Strict Wrapper.

(** ** Who needs to authenticate *)

Definition Skipper : Type := HttpRequest → bool.

Definition SkipNoAuthRoutes : Skipper := λ r,
  bool_decide (hr_Path r ∈ ["/token"; "/jwks.json"; "/.well-known/openid-configuration"]).

(** [multiSkipper]: the loop over the skippers. *)
Fixpoint multiSkipper (skippers : list Skipper) (r : HttpRequest) : bool :=
  match skippers with
  | [] => false
  | skipper :: rest => if skipper r then true else multiSkipper rest r
  end.

Section service.
Context `{Env, CEL, Hasher, Echo, EventService, Binding}.

(** The middleware of [getAuthMiddleware]: a request is checked, by the JWT middleware of echo,
    unless a skipper exempts it. *)
Definition authenticate (verify : HttpRequest → option error) (skippers : list Skipper)
    (r : HttpRequest) : Middleware :=
  gate (if multiSkipper skippers r then None else verify r).

(** A request of the API from its arrival at the server. The first skipper is
    the library's, for the endpoints that every service has. *)
Definition serve_request (verify : HttpRequest → option error) (SkipDefaultEndpoints : Skipper)
    (h : APIHandler) (r : HttpRequest) (op : operation) (params : list (string * string))
    (ctx : Context) : M () := λ w,
  on_error (apply_middleware
      (authenticate verify [SkipDefaultEndpoints; SkipNoAuthRoutes] r :: Routes h r)
      (wrapper op {| ec_Params := params; ec_Request := r |}) ctx)
    write_error (set_responded None w).
End service.

(** ** The routes of the service *)

(** Whom a path is served by. *)
Inductive endpoint : Type :=
  | TokenEndpoint
  | JWKSEndpoint
  | DiscoveryEndpoint
  | ApiEndpoint (op : operation)
  | UserInfoEndpoint
  | UserInfoGroupsEndpoint.

(** echo's router adds the slash that a path lacks. *)
Definition rooted (path : string) : string :=
  match path with
  | String x _ => if decide (x = slash) then path else String slash path
  | EmptyString => "/"
  end.

(** [Router.Routes], [APIHandler.Routes] and the [Routes] of the userinfo
    handler, under the server's root. *)
Definition router_Routes : list (Route endpoint) :=
  [MkRoute "POST" (rooted "/token") TokenEndpoint;
   MkRoute "GET" (rooted "/jwks.json") JWKSEndpoint;
   MkRoute "GET" (rooted "/.well-known/openid-configuration") DiscoveryEndpoint].
Definition api_Routes : list (Route endpoint) :=
  (λ rt, MkRoute (rt_method rt) (rooted (rt_path rt)) (ApiEndpoint (rt_handler rt))) <$> RegisterHandlers.
Definition userinfo_Routes : list (Route endpoint) :=
  [MkRoute "GET" (rooted "userinfo") UserInfoEndpoint;
   MkRoute "GET" (rooted "userinfo/groups") UserInfoGroupsEndpoint].

(** The handlers that [serve] adds to the server, in its order. *)
Definition service_routes : list (Route endpoint) := router_Routes ++ api_Routes ++ userinfo_Routes.

(** The endpoints of the token service, which anyone may call. *)
Definition public (e : endpoint) : bool :=
  match e with TokenEndpoint | JWKSEndpoint | DiscoveryEndpoint => true | _ => false end.

(** ** Discovery *)

(** [net/url]: parsed URLs. *)
Class URLs : Type := {
  URL : Type;
  url_Parse : string → error + URL;
  URL_JoinPath : URL → string → URL;
  URL_String : URL → string;
}.

(** [url.JoinPath] parses, joins and prints; joining cleans the path, so a
    leading slash of the joined element makes no difference. *)
Class URLsLaws `{JWT, !Platform} (U : URLs) : Prop := {
  JoinPath_URL base p : JoinPath base p =
    match url_Parse base with
    | inl err => Err err
    | inr u => Ok (URL_String (URL_JoinPath u p))
    end;
  JoinPath_slash u p : p ≠ "" → URL_JoinPath u ("/" +:+ p) = URL_JoinPath u p;
}.

Record providerJSON : Type := {
  pj_Issuer : string;
  pj_AuthURL : string;
  pj_TokenURL : string;
  pj_JWKSURL : string;
  pj_UserInfoURL : string;
}.

(** [oidcHandler.Handle]: the document that is written. *)
Definition oidc_Handle `{URLs} (issuer : string) : M providerJSON :=
  match url_Parse issuer with
  | inl err => fail (SetInternal (HTTPError 500 "bad issuer") err)
  | inr u => mret
      {| pj_Issuer := issuer;
         pj_AuthURL := "";
         pj_TokenURL := URL_String (URL_JoinPath u "/token");
         pj_JWKSURL := URL_String (URL_JoinPath u "/jwks.json");
         pj_UserInfoURL := URL_String (URL_JoinPath u "/userinfo") |}
  end.

(** ** Properties *)

Section properties.
Context {E : Env} {C : CEL} {H : Hasher} {Ec : Echo} {Ev : EventService} {B : Binding}.
Context {R : EchoRouter} `{!EchoRouterLaws R}.

Lemma multiSkipper_spec skippers r : multiSkipper skippers r = true ↔ ∃ s, s ∈ skippers ∧ s r = true.
Proof.
  induction skippers as [|s skippers IH]; simpl.
  - split; [done|]. by intros (s & Hs%elem_of_nil & _).
  - destruct (s r) eqn:Hs; [split; [|done]; intros _; exists s; split; [left|done]|]. rewrite IH.
    split; intros (s' & Hin & Hs'); exists s'; (split; [|done]); [by right|].
    apply elem_of_cons in Hin as [->|?]; [congruence|done].
Qed.

(** No route of the API is exempted. *)
Lemma api_not_skipped r op ps :
  Find RegisterHandlers (hr_Method r) (hr_Path r) = Some (op, ps) → SkipNoAuthRoutes r = false.
Proof using Type*.
  intros (rt & Hrt & _ & Hm & _)%Find_sound. unfold SkipNoAuthRoutes.
  apply bool_decide_eq_false. intros Hin.
  assert (forallb (λ p, forallb (λ rt, bool_decide (match_path (rt_path rt) p = None)) RegisterHandlers)
    ["/token"; "/jwks.json"; "/.well-known/openid-configuration"] = true) as Hnone by (by vm_compute).
  rewrite forallb_forall in Hnone. specialize (Hnone (hr_Path r)).
  rewrite <-list_elem_of_In in Hnone. specialize (Hnone Hin).
  rewrite forallb_forall in Hnone. specialize (Hnone rt). rewrite <-list_elem_of_In in Hnone.
  specialize (Hnone Hrt). apply bool_decide_eq_true in Hnone. congruence.
Qed.

#[local] Instance split_on_inj : Inj (=) (=) (split_on slash).
Proof. intros s1 s2 Heq. by rewrite <-(Join_split_on s1), Heq, Join_split_on. Qed.

(** A path without a parameter matches itself alone. *)
Lemma match_segs_static pat path ps :
  Forall (λ s, param_name s = None) pat → match_segs pat path = Some ps → path = pat ∧ ps = [].
Proof.
  revert path ps. induction pat as [|p pat IH]; intros [|s path] ps Hpat; simpl; try done; [by intros [= <-]|].
  apply Forall_cons in Hpat as [-> Hpat]. case_decide as Hs; [|done]. intros Hm.
  destruct (IH _ _ Hpat Hm) as [-> ->]. by subst.
Qed.

(** Every route of the token service has an exempted path, which no other route
    matches. *)
Lemma routes_exempt rt p :
  rt ∈ service_routes → is_Some (match_path (rt_path rt) p) →
  bool_decide (p ∈ ["/token"; "/jwks.json"; "/.well-known/openid-configuration"]) = public (rt_handler rt).
Proof.
  intros Hrt [ps Hm]. destruct (public (rt_handler rt)) eqn:Hpub.
  - apply bool_decide_eq_true.
    assert (∀ path, Forall (λ s, param_name s = None) (split_on slash path) →
      match_path path p = Some ps → split_on slash p = split_on slash path) as Hstatic.
    { intros path Hs Hp. by apply match_segs_static in Hp as [? _]. }
    apply elem_of_app in Hrt as [Hrt|Hrt].
    + unfold router_Routes in Hrt. rewrite !elem_of_cons in Hrt.
      destruct Hrt as [-> |[-> |[-> |Hrt%elem_of_nil]]]; [..|done];
        apply Hstatic in Hm; try (apply (bool_decide_unpack _); by vm_compute);
        apply (inj (split_on slash)) in Hm; subst p; by apply (bool_decide_unpack _).
    + apply elem_of_app in Hrt as [(rt' & -> & _)%list_elem_of_fmap|Hrt]; [done|].
      unfold userinfo_Routes in Hrt. rewrite !elem_of_cons in Hrt.
      by destruct Hrt as [-> |[-> |Hrt%elem_of_nil]].
  - apply bool_decide_eq_false. intros Hin.
    assert (forallb (λ p, forallb (λ rt, public (rt_handler rt) ||
      bool_decide (match_path (rt_path rt) p = None)) service_routes)
      ["/token"; "/jwks.json"; "/.well-known/openid-configuration"] = true) as Hnone by (by vm_compute).
    rewrite forallb_forall in Hnone. specialize (Hnone p). rewrite <-list_elem_of_In in Hnone.
    specialize (Hnone Hin). rewrite forallb_forall in Hnone. specialize (Hnone rt).
    rewrite <-list_elem_of_In in Hnone. specialize (Hnone Hrt). rewrite Hpub in Hnone.
    apply bool_decide_eq_true in Hnone. congruence.
Qed.

(** C22: authentication is left out for the token service and for nothing else:
    a request that is routed to an endpoint of the service is exempted by
    [SkipNoAuthRoutes] exactly when this is the token endpoint, the key set or
    the discovery document; every operation of the API and the userinfo
    endpoints are behind it. *)
Theorem exempt_exactly_token_service r e ps :
  Find service_routes (hr_Method r) (hr_Path r) = Some (e, ps) →
  SkipNoAuthRoutes r = true ↔ e ∈ [TokenEndpoint; JWKSEndpoint; DiscoveryEndpoint].
Proof using Type*.
  intros (rt & Hrt & _ & Hm & <-)%Find_sound. unfold SkipNoAuthRoutes.
  rewrite (routes_exempt rt (hr_Path r) Hrt) by (by eexists). rewrite !elem_of_cons, elem_of_nil.
  destruct (rt_handler rt); simpl; naive_solver.
Qed.

(** C9: the whole API is behind authentication. A request that reaches an
    operation and does not carry a valid token is answered with the error of
    the authentication, before anything else happens: no validation, no
    transaction, no access check; only the three paths of the token service,
    none of which is a path of the API, and the library's own are exempt. With
    a valid token it is served as its operation. *)
Theorem api_authenticated verify skip h r op ps ctx w :
  Find RegisterHandlers (hr_Method r) (hr_Path r) = Some (op, ps) → skip r = false →
  let w' := (serve_request verify skip h r op ps ctx w).2 in
  match verify r with
  | Some err => w' = set_responded (Some (echo_status err)) w
  | None => w' = (serve_http h r op ps ctx w).2
  end.
Proof using Type*.
  intros Hfind Hskip. cbv zeta. unfold serve_request, authenticate.
  pose proof (multiSkipper_spec [skip; SkipNoAuthRoutes] r) as Hspec.
  destruct (multiSkipper _ r) eqn:Hm.
  - destruct (proj1 Hspec eq_refl) as (s & Hs & Hsr). apply api_not_skipped in Hfind.
    rewrite !elem_of_cons in Hs. destruct Hs as [->|[->|Hs%elem_of_nil]]; [congruence..|done].
  - destruct (verify r) as [err|]; done.
Qed.
End properties.

Section discovery.
Context {E : Env} {C : CEL} {J : JWT} `{!JWTLaws J} {P : Platform} {U : URLs} `{!URLsLaws U}.

(** C25: the discovery document announces what the tokens say: for the issuer of
    the configuration it names the issuer that exchanged tokens carry, and its
    userinfo endpoint is the audience that they are granted; when a token was
    exchanged, the document is served. *)
Theorem discovery_matches_tokens cfg ctx req w req' w' w1 :
  Exchange.HandleTokenEndpointRequest cfg ctx req w = (Ok req', w') →
  ∃ p s c, oidc_Handle (cfg_AccessTokenIssuer cfg) w1 = (Ok p, w1) ∧
    ar_Session req' = SessionOf s ∧ js_JWTClaims s = Some c ∧
    claims_Issuer c = pj_Issuer p ∧
    ar_GrantedAudience req' = ar_GrantedAudience req ++ [pj_UserInfoURL p].
Proof using Type*.
  intros (claims & mapped & u & w4 & aud & _ & Haud & ->)%handler_run.
  rewrite JoinPath_URL in Haud. unfold oidc_Handle.
  destruct (url_Parse (cfg_AccessTokenIssuer cfg)) as [err|url]; [done|]. injection Haud as <-.
  eexists _, _, _. split_and!; [done..| |].
  - simpl. by destruct (exchanged_claims_fields cfg (ar_Client req) mapped u) as [_ ->].
  - simpl. do 3 f_equal. symmetry. by apply (JoinPath_slash url "userinfo").
Qed.
End discovery.

(** ** At concrete inputs *)

(** A verifier that asks for a token in the query. *)
Definition sample_verify (r : HttpRequest) : option error :=
  if decide (is_Some (hr_Query r !! "access_token")) then None
  else Some (HTTPErrorOf 401 (ExtError "missing or malformed jwt")).

Lemma api_authenticated_witness :
  Find (EchoRouter:=first_router) RegisterHandlers "PATCH" "/api/v1/groups/idntgrp-2" =
    Some (OpUpdateGroup, [("groupID", "idntgrp-2")]) ∧
  (serve_request (H:=quiet_env) (H0:=claim_cel) (H1:=plain_hasher) (H2:=quiet_echo)
     (H3:=quiet_events) (H4:=plain_binding) sample_verify (λ _, false) sample_handler rename_http
     OpUpdateGroup [("groupID", "idntgrp-2")] ctx_none (world_of sample_DB)).2 =
  set_responded (Some 401%Z) (world_of sample_DB).
Proof.
  split; [vm_compute; reflexivity|].
  exact (api_authenticated (E:=quiet_env) (C:=claim_cel) (H:=plain_hasher) (Ec:=quiet_echo)
    (Ev:=quiet_events) (B:=plain_binding) (R:=first_router) sample_verify (λ _, false)
    sample_handler rename_http OpUpdateGroup [("groupID", "idntgrp-2")] ctx_none
    (world_of sample_DB) ltac:(vm_compute; reflexivity) eq_refl).
Defined.

Definition get (path : string) : HttpRequest :=
  {| hr_Method := "GET"; hr_Path := path; hr_Query := ∅; hr_ContentType := ""; hr_Body := "" |}.

Lemma exempt_exactly_token_service_witness :
  SkipNoAuthRoutes (get "/jwks.json") = true ∧ SkipNoAuthRoutes (get "/userinfo") ≠ true.
Proof.
  split.
  - apply (exempt_exactly_token_service (R:=first_router) (get "/jwks.json") JWKSEndpoint []).
    + vm_compute. reflexivity.
    + right. left.
  - intros Hs. apply (exempt_exactly_token_service (R:=first_router) (get "/userinfo")
      UserInfoEndpoint [] ltac:(vm_compute; reflexivity)) in Hs.
    rewrite !elem_of_cons, elem_of_nil in Hs. destruct Hs as [Hs|[Hs|[Hs|[]]]]; discriminate Hs.
Defined.

(** URLs as texts, which are parsed when they are not empty. *)
Fixpoint trim_slash (p : string) : string :=
  match p with
  | String x p' => if decide (x = slash) then trim_slash p' else p
  | EmptyString => p
  end.
Definition sample_urls_platform : Platform (H:=ExchangeSubject.sample_jwt) :=
  Build_Platform ExchangeSubject.sample_jwt Z.of_nat
    (λ base p, if decide (base = "") then Err (ExtError "empty url")
               else Ok (base +:+ "/" +:+ trim_slash p))
    (λ _ _, inr "signed") (λ _ _ _ r, inr r).
Definition sample_urls : URLs :=
  {| URL := string;
     url_Parse s := if decide (s = "") then inl (ExtError "empty url") else inr s;
     URL_JoinPath u p := u +:+ "/" +:+ trim_slash p;
     URL_String u := u |}.

#[global] Instance sample_urls_laws :
  URLsLaws (H:=ExchangeSubject.sample_jwt) (H0:=sample_urls_platform) sample_urls.
Proof. split; [|done]. intros base p. simpl. by case_decide. Qed.

Lemma discovery_matches_tokens_witness :
  ∃ req' p, ar_GrantedAudience (H:=ExchangeSubject.sample_jwt) req' = [pj_UserInfoURL p] ∧
    oidc_Handle (H:=sample_urls) "https://iam.example" (world_of idp_DB) = (Ok p, world_of idp_DB).
Proof.
  set (x := Exchange.HandleTokenEndpointRequest (H:=quiet_env) (H2:=ExchangeSubject.sample_jwt)
    (H3:=sample_urls_platform) ExchangeSubject.sample_config ctx_none exchange_request (world_of idp_DB)).
  assert (is_Ok x.1 = true) as [req' Hreq]%is_Ok_true by (vm_compute; reflexivity).
  assert (x = (Ok req', x.2)) as Hx by (rewrite <-Hreq; apply surjective_pairing).
  destruct (discovery_matches_tokens (E:=quiet_env) (J:=ExchangeSubject.sample_jwt)
    (P:=sample_urls_platform) (U:=sample_urls) ExchangeSubject.sample_config ctx_none exchange_request
    (world_of idp_DB) req' x.2 (world_of idp_DB) Hx) as (p & s & c & Hp & _ & _ & _ & Haud).
  exists req', p. exact (conj Haud Hp).
Defined.
