(* ===== verification/Program.v ===== *)
(** The program as a whole: what [serve] of [cmd/serve.go] builds from the
    configuration, with the router of [internal/routes/routes.go] and the
    constructors it calls, and how the server that runs then answers any HTTP
    request, whichever of its handlers it is for.

    The connections it opens, the JSON encoding of a key set, the JWT middleware
    and the middleware of the API are parameters. *)
From S2P Require Import Swagger.
From S2P Require Import Prelude GoStrings Errors Query Pagination V1 ListQuery World Frame.
From S2P Require Import Run Cel Types Storage GroupStore UserStore IssuerStore ClientStore Engine.
From S2P Require Import Events Http Server Jwt Exchange ExchangeSubject Keys UserInfoHandler.
From S2P Require Import Consistency Strict Wrapper Token TokenEffects Startup Service.

(** ** What [serve] uses of other modules *)

(** The tracer, the audit file, the connection to NATS, the client of
    permissions-api with its middleware, and echox's server. *)
Class Platforms : Type := {
  InitTracer : nat → option error;
  open_audit : nat → string → option error;
  NewNATSConnection : nat → option error;
  permissions_New : nat → error + (HttpRequest → Middleware);
  NewServer : nat → option error;
}.

(** The loader of OpenAPI documents, the validator that a document gives, and
    echoaudit's handlers. *)
Class ApiMiddleware : Type := {
  Swagger : Type;
  LoadFromData : nat → Loader → string → error + Swagger;
  OapiRequestValidator : Swagger → HttpRequest → Middleware;
  Audit : AuditMiddleware → HttpRequest → Middleware;
  AuditWithType : AuditMiddleware → string → HttpRequest → Middleware;
  written_status : written → Z;
}.

(** go-jose's JSON encoding of key sets, keyfunc's key functions, and echojwtx:
    the verification of a request, the actor of one that was let through, and
    echox's exemptions. [access_token] is the token that a request presents,
    [signed_with] says that it is signed with a key and valid in time. *)
Class Authentication `{KeyLibrary} : Type := {
  Encode_JWKS : list Keys.JSONWebKey → error + string;
  Keyfunc : Type;
  NewJWKSetJSON : string → error + Keyfunc;
  NewAuth : string → Keyfunc → error + (HttpRequest → option error);
  Actor : HttpRequest → string;
  SkipDefaultEndpoints : Skipper;
  access_token : HttpRequest → option string;
  token_issuer : string → string;
  signed_with : string → Keys.JSONWebKey → Prop;
}.

(** A request that the middleware lets through presents a token of the issuer
    it was made for, signed with a key of the set. *)
Class AuthenticationLaws `{KeyLibrary} (A : Authentication) : Prop := {
  auth_sound keys text kf issuer verify r :
    Encode_JWKS keys = inr text → NewJWKSetJSON text = inr kf → NewAuth issuer kf = inr verify →
    verify r = None →
    ∃ raw key, access_token r = Some raw ∧ key ∈ keys ∧ signed_with raw key ∧ token_issuer raw = issuer;
}.

(** Of the middleware of the API the validation and the permissions refuse a
    request or let it pass; auditing does neither. *)
Class ApiMiddlewareLaws (M : ApiMiddleware) (P : Platforms) : Prop := {
  validator_gates s : ∃ validate : HttpRequest → option error, ∀ r next ctx w,
    OapiRequestValidator s r next ctx w = gate (validate r) next ctx w;
  permissions_gates n perms : permissions_New n = inr perms →
    ∃ allow : HttpRequest → option error, ∀ r next ctx w, perms r next ctx w = gate (allow r) next ctx w;
  Audit_transparent a r next ctx w : Audit a r next ctx w = next ctx w;
  AuditWithType_transparent a t r next ctx w : AuditWithType a t r next ctx w = next ctx w;
}.

(** ** The router *)

Section program.
Context `{Env, CEL, Hasher, Echo, Binding, JWT, !Platform, !Fosite, KeyLibrary, !FositeConfig, URLs}.
Context `{Database, Platforms, ApiMiddleware, !Authentication}.

(** [routes.Router]; its logger is left out. *)
Record Router : Type := {
  rtr_provider : option OAuth2Provider;
  rtr_config : option KeyedConfig;
  rtr_issuer : string;
  rtr_auditMiddleware : option AuditMiddleware;
}.

Definition Option : Type := Router → Router.
Definition WithLogger : Option := λ r, r.
Definition WithProvider (p : OAuth2Provider) : Option := λ r,
  {| rtr_provider := Some p; rtr_config := rtr_config r; rtr_issuer := rtr_issuer r;
     rtr_auditMiddleware := rtr_auditMiddleware r |}.
Definition WithOauthConfig (c : KeyedConfig) : Option := λ r,
  {| rtr_provider := rtr_provider r; rtr_config := Some c; rtr_issuer := rtr_issuer r;
     rtr_auditMiddleware := rtr_auditMiddleware r |}.
Definition WithIssuer (issuer : string) : Option := λ r,
  {| rtr_provider := rtr_provider r; rtr_config := rtr_config r; rtr_issuer := issuer;
     rtr_auditMiddleware := rtr_auditMiddleware r |}.
Definition WithAuditMiddleware (mw : AuditMiddleware) : Option := λ r,
  {| rtr_provider := rtr_provider r; rtr_config := rtr_config r; rtr_issuer := rtr_issuer r;
     rtr_auditMiddleware := Some mw |}.

Definition NewRouter (opts : list Option) : Router :=
  foldl (λ router opt, opt router)
    {| rtr_provider := None; rtr_config := None; rtr_issuer := ""; rtr_auditMiddleware := None |} opts.

(** ** The server *)

(** What [srv.Run] runs: the authentication, and the handlers that were added. *)
Record Server : Type := {
  srv_middleware : HttpRequest → Middleware;
  srv_router : Router;
  srv_api : APIHandler;
}.

(** The two sections of the application's configuration that are read here. *)
Record AppConfig : Type := { app_OAuth : Config; app_Audit : AuditConfig }.

Definition from_library {A} (answer : nat → error + A) : M A := λ w,
  (match answer (tick w) with inl e => Err e | inr a => Ok a end, next_tick w).

(** A fatal log line ends the process. *)
Definition or_fatal {A} (text : string) (m : M A) : M A :=
  on_error m (λ err, fatal (text +:+ Error err)).

Definition newAuditMiddleware (c : AuditConfig) : M AuditMiddleware := λ w,
  (NewMiddleware (open_audit (tick w)) c, next_tick w).

Definition load_swagger : M Swagger := λ w, (GetSwagger LoadFromData (tick w), next_tick w).
#[global] Opaque load_swagger.

Definition oapiValidationMiddleware : M (HttpRequest → Middleware) :=
  swagger ← load_swagger; mret (OapiRequestValidator swagger).

Definition NewAPIHandler (amw : option AuditMiddleware) (middleware : list (HttpRequest → Middleware))
    : M APIHandler :=
  validationMiddleware ← oapiValidationMiddleware;
  mret {| ah_validationMiddleware := validationMiddleware;
          ah_auditMiddleware := Audit <$> amw;
          ah_middleware := middleware |}.

Definition getAuthMiddleware (config : KeyedConfig) (skippers : list Skipper)
    : M (HttpRequest → Middleware) :=
  let issuer := fc_AccessTokenIssuer (kc_Config config) in
  buff ← from_library (λ _, Encode_JWKS (kc_SigningJWKS config));
  jwks ← from_library (λ _, NewJWKSetJSON buff);
  auth ← from_library (λ _, NewAuth issuer jwks);
  mret (authenticate auth skippers).

(** [userinfo.NewHandler]: the handler is the engine it is given. *)
Definition NewHandler : M () := mret tt.

(** [serve], up to the call of [srv.Run]. *)
Definition serve (config : AppConfig) : M Server :=
  _ ← or_fatal "error initializing tracing: " (from_outside InitTracer);
  auditMiddleware ← or_fatal "Failed to initialize audit middleware" (newAuditMiddleware (app_Audit config));
  _ ← or_fatal "failed to initialize NATS connection" (from_outside NewNATSConnection);
  perms ← or_fatal "failed to initialize permissions" (from_library permissions_New);
  _ ← or_fatal "error initializing storage: " (NewEngine []);
  oauth2Config ← or_fatal "error loading config: " (NewOAuth2Config (app_OAuth config));
  let provider := provider (serve_config oauth2Config) in
  apiHandler ← or_fatal "error initializing API server: " (NewAPIHandler (Some auditMiddleware) [perms]);
  _ ← or_fatal "error initializing UserInfo handler: " NewHandler;
  let router := NewRouter
    [WithLogger; WithOauthConfig oauth2Config; WithProvider provider;
     WithIssuer (conf_Issuer (app_OAuth config)); WithAuditMiddleware auditMiddleware] in
  authMdw ← or_fatal "failed to initialize jwt authentication"
    (getAuthMiddleware oauth2Config [SkipDefaultEndpoints; SkipNoAuthRoutes]);
  _ ← or_fatal "failed to initialize new server" (from_outside NewServer);
  mret {| srv_middleware := authMdw; srv_router := router; srv_api := apiHandler |}.

(** ** Serving *)

Definition nil_pointer {A} : M A := panic "invalid memory address or nil pointer dereference".

(** The handler that a route was registered with, for a request of it. *)
Definition endpoint_handler (srv : Server) (e : endpoint) (params : list (string * string))
    (r : HttpRequest) (ctx : Context) : M () :=
  match e with
  | TokenEndpoint =>
    match rtr_auditMiddleware (srv_router srv), rtr_provider (srv_router srv) with
    | Some audit, Some p =>
      AuditWithType audit "TokenRequest" r (λ ctx,
        out ← Token.Handle p ctx r; write_status (written_status out.2)) ctx
    | _, _ => nil_pointer
    end
  | JWKSEndpoint =>
    match rtr_config (srv_router srv) with
    | Some c => _ ← mret (Keys.Handle (kc_SigningJWKS c)); visit_response
    | None => nil_pointer
    end
  | DiscoveryEndpoint => _ ← oidc_Handle (rtr_issuer (srv_router srv)); visit_response
  | ApiEndpoint op =>
    apply_middleware (Routes (srv_api srv) r)
      (wrapper op {| ec_Params := params; ec_Request := r |}) ctx
  | UserInfoEndpoint => _ ← UserInfoHandler.handle (Actor r) ctx; visit_response
  | UserInfoGroupsEndpoint =>
    let query name := Values_Get (hr_Query r) name in
    _ ← listUserGroups (Actor r) (query "cursor") (query "limit") ctx; visit_response
  end.

Definition ErrNotFound : error := HTTPError 404 "Not Found".

(** A request from its arrival to its answer. *)
Definition serve_any `{EchoRouter} (srv : Server) (r : HttpRequest) : M () := λ w,
  let handler := match Find service_routes (hr_Method r) (hr_Path r) with
                 | Some (e, params) => endpoint_handler srv e params r
                 | None => λ _, fail ErrNotFound
                 end in
  on_error (apply_middleware [srv_middleware srv r] handler ctx_none) write_error
    (set_responded None w).
End program.

(** ** Lemmas *)

(** Relations that the storage methods keep, and everything else that a
    request does to the world. *)
Class ServiceRel (R : relation World) : Prop := {
  service_handler ctx :: HandlerRel ctx R;
  service_respond r w : R w (set_responded r w);
  service_begin w : R w (next_tick (add_tx (TxOpen (committed w)) w));
  service_ended t w w' : ended t w w' → R w w';
}.

#[global] Instance keeps_wf_service : ServiceRel keeps_wf.
Proof.
  split; [apply _|..].
  - intros r w [Hc Hh Ht Hr]. by split.
  - intros w Hw. apply world_wf_next_tick, world_wf_add_tx; [apply Hw|done].
  - intros t w w' Hend Hw. by eapply ended_wf.
Qed.

Section kept.
Context {E : Env} (R : relation World) `{HR : !ServiceRel R}.

Lemma service_preorder : PreOrder R.
Proof using HR. apply (store_preorder (ctx:=ctx_none)). Qed.
Lemma service_tick w : R w (next_tick w).
Proof using HR. apply (store_tick (ctx:=ctx_none)). Qed.
#[local] Existing Instance service_preorder.

Lemma BeginContext_keeps ctx : keeps R (BeginContext ctx).
Proof using HR.
  intros w. destruct (BeginContext_world ctx w) as [-> | ->]; [apply service_tick|apply service_begin].
Qed.

Lemma CommitContext_keeps ctx : keeps R (CommitContext ctx).
Proof using HR.
  intros w. destruct (CommitContext_world ctx w) as [-> |(t & _ & Hend)]; [reflexivity|].
  by eapply service_ended.
Qed.

Lemma service_keeps_RollbackContext ctx : keeps R (RollbackContext ctx).
Proof using HR. eapply keeps_RollbackContext, _. Qed.

Context {Ec : Echo}.

Lemma write_status_keeps code : keeps R (write_status code).
Proof using HR. intros w. simpl. destruct (responded w); [reflexivity|apply service_respond]. Qed.

Lemma visit_response_keeps : keeps R visit_response.
Proof using HR.
  apply keeps_bind; [apply _|apply write_status_keeps|]. intros _ w. apply service_tick.
Qed.

Lemma storageMiddleware_keeps next ctx :
  (∀ ctx, keeps R (next ctx)) → keeps R (storageMiddleware next ctx).
Proof using HR.
  intros Hnext. unfold storageMiddleware. apply keeps_bind; [apply _| |intros newCtx].
  { apply keeps_on_error; [apply _|apply BeginContext_keeps|intros; apply keeps_fail, _]. }
  apply keeps_bind; [apply _|apply keeps_attempt, Hnext|]. intros [err|].
  - apply keeps_bind; [apply _|apply write_status_keeps|intros _].
    apply keeps_bind; [apply _| |intros; apply keeps_fail, _].
    apply keeps_on_error; [apply _|apply service_keeps_RollbackContext|intros; apply keeps_fail, _].
  - apply keeps_on_error; [apply _|apply CommitContext_keeps|intros; apply keeps_fail, _].
Qed.

Lemma gate_keeps refused next ctx : keeps R (next ctx) → keeps R (gate refused next ctx).
Proof using HR. intros Hn. destruct refused; [apply keeps_fail, _|done]. Qed.

Lemma keeps_eq {A} (m1 m2 : M A) : (∀ w, m1 w = m2 w) → keeps R m2 → keeps R m1.
Proof using. intros Heq Hm w. rewrite Heq. apply Hm. Qed.

Context {C : CEL} {H : Hasher} {Ev : EventService} {HS : EventServiceLaws Ev} {B : Binding}.

Lemma wrapper_keeps op e ctx : keeps R (wrapper op e ctx).
Proof using HR HS.
  intros w. rewrite wrapper_decode. destruct (decode op e) as [err|req]; [reflexivity|].
  revert w. change (keeps R (strict_handler (Server.handle req) ctx)).
  apply keeps_bind; [apply _|apply handle_frame, _|intros; apply visit_response_keeps].
Qed.

Lemma api_keeps h validate allow `{!GatedHandler h validate allow} r op e ctx :
  keeps R (apply_middleware (Routes h r) (wrapper op e) ctx).
Proof using HR HS.
  eapply keeps_eq; [intros w; by apply (chain_run h validate allow)|]. apply gate_keeps, storageMiddleware_keeps.
  intros ctx'. apply gate_keeps, wrapper_keeps.
Qed.

Lemma userinfo_keeps subject ctx : keeps R (_ ← UserInfoHandler.handle subject ctx; visit_response).
Proof using HR.
  apply keeps_bind; [apply _| |intros; apply visit_response_keeps]. unfold UserInfoHandler.handle. frame.
Qed.

Lemma userinfo_groups_keeps subject cursor limit ctx :
  keeps R (_ ← listUserGroups subject cursor limit ctx; visit_response).
Proof using HR.
  apply keeps_bind; [apply _| |intros; apply visit_response_keeps]. unfold listUserGroups, user_groups. frame.
Qed.

Context {J : JWT} `{!JWTLaws J} {P : Platform} {F : Fosite} `{!FositeLaws F}.
Context (kid issuer : string) (l : Z) (a : list string → list string → option error)
  (e : OAuthClient → Z → Z).
Abbreviation cfg := (engine_config kid issuer l a e).

Lemma store_subject_keeps ctx claims mapped : keeps R (store_subject cfg ctx claims mapped).
Proof using HR.
  unfold store_subject. simpl. apply keeps_bind; [apply _| |intros dbCtx].
  { apply keeps_on_error; [apply _|apply BeginContext_keeps|intros; apply keeps_fail, _]. }
  apply keeps_bind; [apply _|unfold populateUserInfo; simpl; frame|intros u].
  apply keeps_bind; [apply _|apply override_keeps, _|intros u'].
  apply keeps_bind; [apply _| |intros u2].
  { apply keeps_on_error; [apply _|frame|]. intros err.
    apply keeps_bind; [apply _|apply keeps_attempt, service_keeps_RollbackContext|].
    intros; apply keeps_fail, _. }
  apply keeps_bind; [apply _| |intros; apply keeps_ret, _].
  apply keeps_on_error; [apply _|apply CommitContext_keeps|intros; apply keeps_fail, _].
Qed.

Lemma token_keeps ctx r : keeps R (Token.Handle (provider cfg) ctx r).
Proof using Type*. apply Handle_keeps; [intros; apply _|apply store_subject_keeps]. Qed.
End kept.

Section served.
Context {E : Env} {C : CEL} {H : Hasher} {Ec : Echo} {B : Binding} {J : JWT} `{!JWTLaws J}.
Context {P : Platform} {F : Fosite} `{!FositeLaws F} {K : KeyLibrary} {Fc : FositeConfig} {U : URLs}.
Context {D : Database} {Pl : Platforms} {Am : ApiMiddleware} `{!ApiMiddlewareLaws Am Pl}.
Context {A : Authentication} `{!AuthenticationLaws A} {R : EchoRouter} `{!EchoRouterLaws R}.

Lemma or_fatal_inv {X} text (m : M X) w a w' : or_fatal text m w = (Ok a, w') → m w = (Ok a, w').
Proof using. by apply on_error_fail_inv. Qed.

Lemma from_library_inv {X} (answer : nat → error + X) w a w' :
  from_library answer w = (Ok a, w') → answer (tick w) = inr a.
Proof using. unfold from_library. destruct (answer (tick w)); [done|]. by intros [= <- _]. Qed.

(** What [serve] has built by the time it runs the server. *)
Record built (config : AppConfig) (srv : Server) (c : KeyedConfig) : Prop := {
  built_config : ∃ w w', NewOAuth2Config (app_OAuth config) w = (Ok c, w');
  built_auth : ∃ text kf auth, Encode_JWKS (kc_SigningJWKS c) = inr text ∧
    NewJWKSetJSON text = inr kf ∧ NewAuth (fc_AccessTokenIssuer (kc_Config c)) kf = inr auth ∧
    srv_middleware srv = authenticate auth [SkipDefaultEndpoints; SkipNoAuthRoutes];
  built_router : ∃ amw, srv_router srv =
    {| rtr_provider := Some (provider (serve_config c)); rtr_config := Some c;
       rtr_issuer := conf_Issuer (app_OAuth config); rtr_auditMiddleware := Some amw |};
  built_api : ∃ validate allow, GatedHandler (srv_api srv) validate allow;
}.

Lemma serve_built config w srv w' : serve config w = (Ok srv, w') → ∃ c, built config srv c.
Proof using ApiMiddlewareLaws0.
  intros (_ & w1 & _ & Hrun)%bind_inv.
  apply bind_inv in Hrun as (amw & w2 & _ & Hrun). apply bind_inv in Hrun as (_ & w3 & _ & Hrun).
  apply bind_inv in Hrun as (perms & w4 & Hperms%or_fatal_inv%from_library_inv & Hrun).
  apply bind_inv in Hrun as (_ & w5 & _ & Hrun).
  apply bind_inv in Hrun as (c & w6 & Hc%or_fatal_inv & Hrun).
  apply bind_inv in Hrun as (api & w7 & Hapi%or_fatal_inv & Hrun).
  apply bind_inv in Hrun as (_ & w7' & _ & Hrun).
  apply bind_inv in Hrun as (authMdw & w8 & Hauth%or_fatal_inv & Hrun).
  apply bind_inv in Hrun as (_ & w9 & _ & Hret). injection Hret as <- _.
  unfold NewAPIHandler in Hapi. apply bind_inv in Hapi as (validator & w10 & Hval & Hret). injection Hret as <- _.
  unfold oapiValidationMiddleware in Hval. apply bind_inv in Hval as (swagger & w11 & _ & Hret). injection Hret as <- _.
  apply bind_inv in Hauth as (text & w12 & Htext%from_library_inv & Hrun).
  apply bind_inv in Hrun as (kf & w13 & Hkf%from_library_inv & Hrun).
  apply bind_inv in Hrun as (auth & w14 & Ha%from_library_inv & Hret). injection Hret as <- _.
  exists c. split; simpl; [by eexists _, _|by exists text, kf, auth|by exists amw|].
  destruct (validator_gates swagger) as [validate Hv].
  destruct (permissions_gates _ _ Hperms) as [allow Hallow]. exists validate, allow. split; simpl.
  - apply Hv.
  - intros a r next ctx w0 [= <-]. apply Audit_transparent.
  - apply Hallow.
Qed.

(** The requests that are served, and what the engine does for others at the
    same time. *)
Inductive service_step (srv : Server) : relation World :=
  | step_request r w : service_step srv w (serve_any srv r w).2
  | step_engine w w' : engine_step w w' → service_step srv w w'.

Lemma endpoint_keeps config srv c (Rel : relation World) `{!ServiceRel Rel} e ps r ctx :
  built config srv c → keeps Rel (endpoint_handler srv e ps r ctx).
Proof using JWTLaws0 FositeLaws0 ApiMiddlewareLaws0.
  intros [_ _ [amw Hr] (validate & allow & Hgated)]. pose proof (service_preorder Rel) as HP.
  destruct e; simpl; rewrite ?Hr; simpl.
  - eapply keeps_eq; [intros w; apply AuditWithType_transparent|].
    apply keeps_bind; [done|by apply (token_keeps Rel (H:=H))|intros; by apply write_status_keeps].
  - apply keeps_bind; [done|by apply keeps_ret|intros; by apply visit_response_keeps].
  - apply keeps_bind; [done| |intros; by apply visit_response_keeps].
    unfold oidc_Handle. destruct (url_Parse _); [by apply keeps_fail|by apply keeps_ret].
  - exact (api_keeps Rel _ validate allow r op _ ctx).
  - exact (userinfo_keeps Rel (Actor r) ctx).
  - exact (userinfo_groups_keeps Rel (Actor r) _ _ ctx).
Qed.

Lemma serve_any_keeps config srv c (Rel : relation World) `{!ServiceRel Rel} r :
  built config srv c → keeps Rel (serve_any srv r).
Proof using JWTLaws0 FositeLaws0 ApiMiddlewareLaws0.
  intros Hb. pose proof (service_preorder Rel) as HP. pose proof (built_auth _ _ _ Hb) as (?&?&?&_&_&_&Ha).
  intros w. unfold serve_any. etrans; [apply (service_respond None)|].
  generalize (set_responded None w). apply keeps_on_error; [done| |intros; by apply write_status_keeps].
  simpl. rewrite Ha. apply gate_keeps; [done|].
  destruct (Find _ _ _) as [[e ps]|]; [by eapply endpoint_keeps|by apply keeps_fail].
Qed.

(** ** Properties *)

(** A key that was read from a configured file. *)
Definition configured_key (config : AppConfig) (k : Keys.JSONWebKey) : Prop :=
  ∃ key w w', key ∈ conf_PrivateKeys (app_OAuth config) ∧ readPrivateKey key w = (Ok k, w').

(** A request with a token of the service itself. *)
Definition presents_token (config : AppConfig) (r : HttpRequest) : Prop :=
  ∃ raw k, access_token r = Some raw ∧ configured_key config k ∧ signed_with raw k ∧
    token_issuer raw = conf_Issuer (app_OAuth config).

Lemma built_keys config srv c k :
  built config srv c → k ∈ kc_SigningJWKS c → configured_key config k.
Proof using.
  intros [(w & w' & (Hkeys & _)%NewOAuth2Config_Ok) _ _ _] Hk.
  apply parsePrivateKeys_Ok in Hkeys as (first & rest & js & w1 & Hf & Hjs & Hs & Hrest).
  unfold configured_key. rewrite Hf. rewrite Hjs in Hk. apply elem_of_cons in Hk as [->|Hk].
  - exists first, w, w1. by split; [left|].
  - apply list_elem_of_lookup in Hk as [i Hi].
    destruct (Forall2_lookup_r _ _ _ _ _ (read_keys_Ok _ _ _ _ Hrest) Hi) as (key & Hkey & w2 & w3 & Hread).
    exists key, w2, w3. split; [right; by eapply list_elem_of_lookup_2|done].
Qed.

(** The middleware of the server lets such requests through, and those that
    are exempted. *)
Lemma built_refuses config srv c r :
  built config srv c → ¬ presents_token config r →
  SkipDefaultEndpoints r = false → SkipNoAuthRoutes r = false →
  ∃ err, srv_middleware srv r = gate (Some err).
Proof using AuthenticationLaws0.
  intros Hb Hno Hskip Hroute. pose proof (built_auth _ _ _ Hb) as (text & kf & auth & Ht & Hk & Ha & ->).
  unfold authenticate. simpl. rewrite Hskip, Hroute. destruct (auth r) as [err|] eqn:Hr; [by exists err|].
  destruct Hno. destruct (auth_sound _ _ _ _ _ _ Ht Hk Ha Hr) as (raw & k & Hraw & Hin & Hsig & Hiss).
  exists raw, k. split_and!; [done|by eapply built_keys|done|].
  pose proof (built_config _ _ _ Hb) as (w & w' & (_ & <- & _)%NewOAuth2Config_Ok). done.
Qed.

Lemma SkipNoAuthRoutes_endpoint r e ps :
  Find service_routes (hr_Method r) (hr_Path r) = Some (e, ps) → SkipNoAuthRoutes r = public e.
Proof using EchoRouterLaws0.
  intros (rt & Hrt & _ & Hm & <-)%Find_sound. by apply routes_exempt; [|eexists].
Qed.

(** What the endpoints that anyone may call can do. *)
Definition adds_only (w w' : World) : Prop :=
  users_added (committed w) (committed w') ∧ only_writes w w'.
#[local] Instance adds_only_preorder : PreOrder adds_only.
Proof.
  split; [by split|]. intros w1 w2 w3 [] []. split; by etrans.
Qed.

(** Relations that answering a request keeps. *)
Class AnswerRel (Rel : relation World) : Prop := {
  answer_preorder :: PreOrder Rel;
  answer_same w w' : committed w' = committed w → history w' = history w → trace w' = trace w → Rel w w';
}.
#[local] Instance adds_only_answer : AnswerRel adds_only.
Proof.
  split; [apply _|]. intros w w' Hc _ Ht. split; [by rewrite Hc|]. exists 0. by rewrite Ht, app_nil_r.
Qed.
#[local] Instance same_committed_answer : AnswerRel same_committed.
Proof. split; [apply _|]. intros w w' Hc Hh _. by split. Qed.

Section answers.
Context (Rel : relation World) `{HR : !AnswerRel Rel}.

Lemma write_status_answers code : keeps Rel (write_status code).
Proof using HR. intros w. simpl. apply answer_same; by destruct (responded w). Qed.

Lemma visit_response_answers : keeps Rel visit_response.
Proof using HR.
  apply keeps_bind; [apply _|apply write_status_answers|]. intros _ w. by apply answer_same.
Qed.

Lemma public_answers config srv c e ps r ctx :
  built config srv c → public e = true → e ≠ TokenEndpoint →
  keeps Rel (endpoint_handler srv e ps r ctx).
Proof using HR.
  intros [_ _ [amw Hr] _] Hpub Htok. destruct e; try done; cbn [endpoint_handler]; rewrite Hr; simpl.
  - apply keeps_bind; [apply _|apply keeps_ret, _|intros; apply visit_response_answers].
  - apply keeps_bind; [apply _| |intros; apply visit_response_answers].
    unfold oidc_Handle. destruct (url_Parse _); [apply keeps_fail, _|apply keeps_ret, _].
Qed.

(** A request that does not get through, or is for no one else. *)
Lemma refused_or_public config srv c r :
  built config srv c → ¬ presents_token config r ∨ SkipNoAuthRoutes r = true →
  SkipDefaultEndpoints r = false →
  (∀ ps, Find service_routes (hr_Method r) (hr_Path r) = Some (TokenEndpoint, ps) →
     keeps Rel (endpoint_handler srv TokenEndpoint ps r ctx_none)) →
  keeps Rel (serve_any srv r).
Proof using HR AuthenticationLaws0 EchoRouterLaws0.
  intros Hb Hno Hskip Htok w. unfold serve_any. etrans; [by apply (answer_same w (set_responded None w))|].
  generalize (set_responded None w). apply keeps_on_error; [apply _| |intros; apply write_status_answers].
  simpl. destruct (SkipNoAuthRoutes r) eqn:Hroute.
  - assert (∀ next, keeps Rel (next ctx_none) → keeps Rel (srv_middleware srv r next ctx_none)) as Hgate.
    { intros next Hn. pose proof (built_auth _ _ _ Hb) as (?&?&?&_&_&_&->). unfold authenticate.
      by match goal with |- context [gate ?x] => destruct x end; [apply keeps_fail, _|]. }
    apply Hgate. destruct (Find _ _ _) as [[e ps]|] eqn:Hf; [|apply keeps_fail, _].
    rewrite (SkipNoAuthRoutes_endpoint _ _ _ Hf) in Hroute.
    destruct e; try done; [by apply Htok|by eapply public_answers..].
  - destruct Hno as [Hno|]; [|done].
    destruct (built_refuses _ _ _ _ Hb Hno Hskip Hroute) as [err ->]. apply keeps_fail, _.
Qed.
End answers.

(** The token endpoint. *)
Lemma token_adds config srv c ps r ctx :
  built config srv c → keeps adds_only (endpoint_handler srv TokenEndpoint ps r ctx).
Proof using JWTLaws0 FositeLaws0 ApiMiddlewareLaws0.
  intros [_ _ [amw Hr] _]. cbn [endpoint_handler]. rewrite Hr. simpl.
  eapply keeps_eq; [intros w; apply AuditWithType_transparent|].
  apply keeps_bind; [apply _| |intros; apply (write_status_answers adds_only)]. intros w. split.
  - apply (Handle_keeps _ _ _ _ _ adds_users), store_subject_adds.
  - apply (Handle_keeps _ _ _ _ _ only_writes), store_subject_only_writes.
Qed.

Lemma token_path r ps :
  Find service_routes (hr_Method r) (hr_Path r) = Some (TokenEndpoint, ps) → hr_Path r = "/token".
Proof using EchoRouterLaws0.
  intros (rt & Hrt & _ & Hm & Ht)%Find_sound.
  assert (rt_path rt = "/token") as Hp.
  { assert (forallb (λ rt, match rt_handler rt with
                           | TokenEndpoint => bool_decide (rt_path rt = "/token") | _ => true end)
      service_routes = true) as Hall by (by vm_compute).
    rewrite forallb_forall in Hall. specialize (Hall rt). rewrite <-list_elem_of_In in Hall.
    specialize (Hall Hrt). rewrite Ht in Hall. by apply bool_decide_eq_true in Hall. }
  rewrite Hp in Hm. apply match_segs_static in Hm as [Hm _]; [|by repeat constructor].
  rewrite <-(Join_split_on (hr_Path r)), Hm. reflexivity.
Qed.

(** C7: without a token of its own, the service cannot be made to do more than
    add users. Whatever HTTP request is sent to the server that [serve] runs,
    other than to the default endpoints of the HTTP library (health checks and
    metrics), which are not the repository's, and whatever fails, with an error
    or a panic: if it does not present a token
    of the configured issuer, signed with one of the configured keys, or is for
    one of the public endpoints, no group, member, issuer or client changes,
    every user keeps its row, and permissions-api is neither asked nor told
    anything; and users are added only by the token endpoint. *)
Theorem unauthenticated_adds_users config w0 srv w0' r w :
  serve config w0 = (Ok srv, w0') →
  ¬ presents_token config r ∨ SkipNoAuthRoutes r = true → SkipDefaultEndpoints r = false →
  let w' := (serve_any srv r w).2 in
  users_added (committed w) (committed w') ∧ only_writes w w' ∧
  (hr_Path r ≠ "/token" → committed w' = committed w).
Proof using Type*.
  intros [c Hb]%serve_built Hno Hskip. cbv zeta.
  pose proof (refused_or_public adds_only _ _ _ _ Hb Hno Hskip
    (λ ps _, token_adds _ _ _ ps r ctx_none Hb) w) as [Hadd Hwrites].
  split_and!; [done..|]. intros Hpath.
  apply (refused_or_public same_committed _ _ _ _ Hb Hno Hskip).
  by intros ps Hf%token_path.
Qed.

(** C10: the schema always holds. From the start of [serve] on, whatever HTTP
    requests are sent to it, with or without a token and to whichever endpoint,
    whatever calls of the storage engine other requests make meanwhile, and
    whatever fails, the committed tables and the view of every open transaction
    satisfy the schema: unique group names per owner, unique issuer URIs, one
    user per issuer and subject, members of existing groups, users of existing
    issuers. *)
Theorem service_wf config w0 srv w0' w w' :
  serve config w0 = (Ok srv, w0') → rtc (service_step srv) w w' → world_wf w → world_wf w'.
Proof using Type*.
  intros [c Hb]%serve_built. induction 1 as [|w1 w2 w3 Hstep _ IH]; [done|]. intros Hw. apply IH.
  destruct Hstep as [r w1|w1 w2 Hstep].
  - by apply (serve_any_keeps _ _ _ keeps_wf r Hb).
  - by eapply engine_steps_wf; [apply rtc_once|].
Qed.
End served.

(** ** At concrete inputs *)

Definition sample_platforms : Platforms :=
  {| InitTracer _ := None; open_audit _ _ := None; NewNATSConnection _ := None;
     permissions_New _ := inr (λ r, gate (sample_allow r)); NewServer _ := None |}.
Definition sample_middleware : ApiMiddleware :=
  {| Swagger := (); LoadFromData _ _ _ := inr ();
     OapiRequestValidator _ r := gate (sample_validate r);
     Audit _ _ next := next; AuditWithType _ _ _ next := next;
     written_status o := match o with WriteAccessResponse _ => 200 | WriteAccessError _ => 400 end%Z |}.
#[global] Instance sample_middleware_laws : ApiMiddlewareLaws sample_middleware sample_platforms.
Proof.
  split; [|intros n perms [= <-]|done..]; [by exists sample_validate|by exists sample_allow].
Qed.

(** Tokens are an issuer and the identifier of a key; the first key verifies. *)
Definition hash_sign : ascii := "#"%char.
Definition sample_authentication : Authentication (H:=sample_keys) :=
  Build_Authentication sample_keys
    (λ keys, match keys with
             | [] => inl (ExtError "no keys") | k :: _ => inr (jwk_KeyID (H:=sample_keys) k) end)
    string inr
    (λ issuer kid, if decide (hash_sign ∈ to_bytes issuer) then inl (ExtError "invalid issuer")
       else inr (λ r, if decide (Values_Get (hr_Query r) "access_token" = issuer +:+ String hash_sign kid)
                      then None else Some (HTTPErrorOf 401 (ExtError "invalid or expired jwt"))))
    (λ _, "idntusr-1") (λ _, false)
    (λ r, Some (Values_Get (hr_Query r) "access_token"))
    (λ raw, default "" (head (split_on hash_sign raw)))
    (λ raw k, ∃ issuer, raw = issuer +:+ String hash_sign (jwk_KeyID (H:=sample_keys) k)).
#[global] Instance sample_authentication_laws :
  AuthenticationLaws (H:=sample_keys) sample_authentication.
Proof.
  split. intros keys text kf issuer verify r Htext [= <-] Hauth Hr.
  destruct keys as [|k keys]; [discriminate|]. simpl in *. injection Htext as <-.
  case_decide as Hi; [discriminate|]. injection Hauth as <-. case_decide as Hraw; [|discriminate].
  eexists _, k. split_and!; [done|left|by eexists|]. rewrite Hraw, split_on_app by done. done.
Qed.

Definition sample_app : AppConfig :=
  {| app_OAuth := sample_conf 3600;
     app_Audit := {| au_Enabled := false; au_Path := ""; au_Component := "" |} |}.

Section samples.
#[local] Existing Instance quiet_env.
#[local] Existing Instance claim_cel.
#[local] Existing Instance plain_hasher.
#[local] Existing Instance quiet_echo.
#[local] Existing Instance plain_binding.
#[local] Existing Instance ExchangeSubject.sample_jwt.
#[local] Existing Instance sample_platform.
#[local] Existing Instance sample_fosite.
#[local] Existing Instance sample_keys.
#[local] Existing Instance plain_fosite_config.
#[local] Existing Instance sample_urls.
#[local] Existing Instance sample_database.
#[local] Existing Instance sample_platforms.
#[local] Existing Instance sample_middleware.
#[local] Existing Instance sample_authentication.
#[local] Existing Instance first_router.

Definition sample_started : result Server * World := serve sample_app (world_of client_DB).

(** A server that was started, and answers a token request with a new user. *)
Definition token_served (started : result Server) : bool :=
  match started with
  | Ok srv =>
    let w' := (serve_any srv token_request (world_of client_DB)).2 in
    bool_decide (responded w' = Some 200%Z) && bool_decide (user_info (committed w') !! alice_id ≠ None)
  | _ => false
  end.

Lemma sample_token_served : ∃ srv, sample_started = (Ok srv, sample_started.2) ∧
  token_served (Ok srv) = true.
Proof.
  assert (token_served sample_started.1 = true) as Hserved by (vm_compute; reflexivity).
  destruct sample_started as [[srv|e|s] w]; [|discriminate..]. by exists srv.
Qed.

Lemma unauthenticated_adds_users_witness :
  match sample_started.1 with
  | Ok srv =>
    let w' := (serve_any srv token_request (world_of client_DB)).2 in
    users_added client_DB (committed w') ∧ responded w' = Some 200%Z ∧
    user_info (committed w') !! alice_id ≠ None
  | _ => False
  end.
Proof.
  destruct sample_token_served as (srv & Hs & Hserved).
  assert (sample_started.1 = Ok srv) as Hsrv by (by rewrite Hs).
  destruct (unauthenticated_adds_users sample_app (world_of client_DB) srv sample_started.2
    token_request (world_of client_DB) Hs) as (Hadd & _).
  - by right.
  - reflexivity.
  - rewrite Hsrv. cbv zeta. split; [exact Hadd|].
    unfold token_served in Hserved. apply andb_true_iff in Hserved as [H1 H2].
    split; by eapply bool_decide_eq_true.
Defined.

Lemma service_wf_witness :
  match sample_started.1 with
  | Ok srv => world_wf (serve_any srv token_request (world_of sample_DB)).2
  | _ => False
  end.
Proof.
  destruct sample_token_served as (srv & Hs & Hserved).
  assert (sample_started.1 = Ok srv) as Hsrv by (by rewrite Hs).
  rewrite Hsrv. apply (service_wf sample_app (world_of client_DB) srv sample_started.2
    (world_of sample_DB) _ Hs); [|apply world_of_wf, sample_DB_wf].
  apply rtc_once, step_request.
Defined.
End samples.
