(* ===== verification/Commands.v ===== *)
(** The commands of the program: [main.go], [cmd/root.go], [cmd/serve.go],
    [cmd/migrate.go], [cmd/seed.go] and the flags they register
    ([internal/auditx/config.go], [internal/fositex/config.go]).

    cobra, which parses the command line, and viper, which collects the
    configuration, are parameters. *)
From S2P Require Import Prelude GoStrings Errors World Frame Run Cel Types Storage IssuerStore.
From S2P Require Import ClientStore Http Jwt Keys Strict Token Startup Service Program.

(** ** Flags *)

(** A call of [MustBindFlag]: a key of the configuration, and the flag that is
    looked up for it; a flag is registered by its name, with a default. *)
Inductive default_value : Type := DefaultString (s : string) | DefaultBool (b : bool).
Record registration : Type := {
  flags : list (string * default_value);
  bindings : list (string * string);
}.

(** The flags that a list of modules registers. *)
Definition both (r1 r2 : registration) : registration :=
  {| flags := flags r1 ++ flags r2; bindings := bindings r1 ++ bindings r2 |}.

(** [auditx.MustViperFlags] and [fositex.MustViperFlags]. *)
Definition auditx_MustViperFlags : registration :=
  {| flags := [("audit-enabled", DefaultBool false); ("audit-path", DefaultString "");
               ("audit-component", DefaultString "")];
     bindings := [("audit.enabled", "audit-enabled"); ("audit.path", "audit-path");
                  ("audit.component", "audit-component")] |}.
Definition fositex_MustViperFlags : registration :=
  {| flags := [("issuer", DefaultString ""); ("private-key", DefaultString "")];
     bindings := [("oauth.issuer", "issuer"); ("oauth.privatekeyfile", "issuer")] |}.

(** The persistent flags of [rootCmd], and those of [seedDatabaseCmd] itself. *)
Definition root_flags : registration :=
  {| flags := [("config", DefaultString ""); ("audit-log-path", DefaultString "/app-audit/audit.log")];
     bindings := [("audit.log.path", "audit-log-path")] |}.
Definition seed_flags : registration :=
  {| flags := [("data", DefaultString "")]; bindings := [("data", "data")] |}.

(** The keys that [viper.Unmarshal] reads into the audit and OAuth sections of
    [config.Config]: the names of their fields. *)
Definition config_keys : list string :=
  ["audit.enabled"; "audit.path"; "audit.component";
   "oauth.issuer"; "oauth.accesstokenlifespan"; "oauth.secret"; "oauth.privatekeys"].

(** ** Configuration *)

Inductive config_source : Type :=
  | ConfigFile (path : string)
  | ConfigName (path type name : string).

(** viper: reading the configuration, with the environment variables of a
    prefix, decoding it, and single keys; and the log of the program. *)
Class Viper : Type := {
  ReadInConfig : nat → config_source → string → option error;
  Unmarshal : nat → error + AppConfig;
  GetString : string → string;
}.

Section commands.
Context `{Env, CEL, Hasher, Echo, Binding, JWT, !Platform, !Fosite, KeyLibrary, !FositeConfig, URLs}.
Context `{Database, Platforms, ApiMiddleware, !Authentication, Viper}.

(** [initConfig]: a configuration that cannot be read is not an error, one that
    cannot be decoded is. *)
Definition initConfig (cfgFile : string) : M AppConfig :=
  let source := if decide (cfgFile ≠ "") then ConfigFile cfgFile
                else ConfigName "/etc/identity-api" "yaml" "identity-api" in
  _ ← attempt (from_outside (λ n, ReadInConfig n source "idapi"));
  or_fatal "unable to decode app config" (from_library Unmarshal).

(** What a command leaves running. *)
Inductive running : Type :=
  | Exited
  | Serving (srv : Server).

Record Command : Type := { Use : string; Short : string; Run : AppConfig → M running }.

Definition serveCmd : Command :=
  {| Use := "serve"; Short := "starts identity-api";
     Run config := srv ← serve config; mret (Serving srv) |}.

Definition migrate : M () := or_fatal "error running migrations: " RunMigrations.
Definition migrateCmd : Command :=
  {| Use := "migrate"; Short := "runs identity-api database migrations";
     Run _ := _ ← migrate; mret Exited |}.

Definition seedDatabaseCmd : Command :=
  {| Use := "seed-database"; Short := "seeds identity-api database with seed data from storage configs";
     Run _ := _ ← seed_command (GetString "data"); mret Exited |}.

Definition rootCmd : list Command := [migrateCmd; seedDatabaseCmd; serveCmd].

(** [Execute], for a command line that names a command and a configuration
    file: cobra initializes the configuration, then runs the command that is
    named; an unknown one is an error, with which the process exits. *)
Definition Execute (name cfgFile : string) : M running :=
  match filter (λ c, Use c = name) rootCmd with
  | cmd :: _ => config ← initConfig cfgFile; Run cmd config
  | [] => fatal "unknown command"
  end.
Definition main (name cfgFile : string) : M running := Execute name cfgFile.
End commands.

(** ** What the flags set *)

(** A flag has an effect when a key that is read is bound to it. *)
Definition effective (r : registration) (flag : string) : bool :=
  bool_decide (Exists (λ kb, kb.2 = flag ∧ kb.1 ∈ config_keys) (bindings r)).

(** Every flag of the audit sets its own key; the path of the audit log that the
    root command offers, and the file of the private key, set nothing. *)
Lemma flags_without_effect :
  Forall (λ f, effective (both root_flags auditx_MustViperFlags) f.1 = true) (flags auditx_MustViperFlags) ∧
  effective (both root_flags auditx_MustViperFlags) "audit-log-path" = false ∧
  effective fositex_MustViperFlags "issuer" = true ∧
  effective fositex_MustViperFlags "private-key" = false.
Proof. split_and!; [|by vm_compute..]. by repeat constructor. Qed.

Section properties.
Context {E : Env} {C : CEL} {H : Hasher} {Ec : Echo} {B : Binding} {J : JWT} {P : Platform}.
Context {F : Fosite} {K : KeyLibrary} {Fc : FositeConfig} {U : URLs} {D : Database}.
Context {Pl : Platforms} {Am : ApiMiddleware} {A : Authentication} {V : Viper}.

(** Of the commands only [serve] serves, and it serves what it has built from
    the configuration that was decoded; [migrate] changes no row. *)
Lemma command_effects name cfgFile w :
  let '(r, w') := main name cfgFile w in
  match r with
  | Ok (Serving srv) => name = "serve" ∧ ∃ config w1, serve config w1 = (Ok srv, w')
  | _ => name = "migrate" → committed w' = committed w
  end.
Proof.
  destruct (main name cfgFile w) as [r w'] eqn:Hmain. unfold main, Execute in Hmain.
  assert (keeps same_committed (initConfig cfgFile)) as Hinit.
  { unfold initConfig. apply keeps_bind; [apply _|apply keeps_attempt|]; [by intros w0|intros _].
    apply keeps_on_error; [apply _|by intros w0|intros; apply keeps_fail, _]. }
  assert (keeps same_committed migrate) as Hmigrate.
  { unfold migrate, RunMigrations. apply keeps_on_error; [apply _| |intros; apply keeps_fail, _].
    by apply keeps_bind; [apply _|intros w0|intros _ w0]. }
  unfold rootCmd in Hmain. rewrite !filter_cons, filter_nil in Hmain. cbn [Use] in Hmain.
  assert (∀ (f : AppConfig → M running) r' w2, (config ← initConfig cfgFile; f config) w = (r', w2) →
    committed w2 = committed w ∧ (∀ a, r' ≠ Ok a) ∨
    ∃ config w1, committed w1 = committed w ∧ f config w1 = (r', w2)) as Hcases.
  { intros f r' w2. pose proof (Hinit w) as [Hc _]. unfold mbind, M_bind.
    destruct (initConfig cfgFile w) as [[config|e|s] w1]; [right; by exists config, w1|left..];
      simplify_eq/=; split; by intros. }
  repeat case_decide; subst; try done; simpl in Hmain; try (injection Hmain as <- <-; by intros);
    apply Hcases in Hmain as [[Hc Hr]|(config & w1 & Hc & Hmain)];
    try (destruct r as [a| |]; [by destruct (Hr a)|by intros..]).
  - pose proof (Hmigrate w1) as [Hc2 _]. unfold mbind, M_bind in Hmain.
    destruct (migrate w1) as [[]]; injection Hmain as <- <-; intros _; simpl in Hc2; congruence.
  - unfold mbind, M_bind in Hmain. destruct (seed_command _ w1) as [[]]; injection Hmain as <- <-; intros [=].
  - unfold mbind, M_bind in Hmain. destruct (serve config w1) as [[srv| |] w2] eqn:Hs;
      injection Hmain as <- <-; [by eauto|intros [=]..].
Qed.
End properties.
